(* ===== verification/_CoqProject ===== *)
-Q . S2P
Prelude.v
PubStats.v
Text.v
Base64.v
Base58.v
DblList.v
HashMap.v
NetBuf.v
NetConnect.v
NetLoop.v
WebSocket.v
Http.v
JsonWtr.v
JTree.v
JsonParse.v
Bincode.v
KeyPair.v
KeyStore.v
Capture.v
Replay.v
Calendar.v
Reconnect.v
TxSvr.v
RpcClient.v
RpcFrame.v
AttrDict.v
AdminTx.v
Publish.v
Schedule.v
Accounts.v
Admin.v
Discovery.v
Subs.v
Dump.v
Csv.v
User.v
UserSpec.v
Manager.v
ManagerSpec.v
