(* ===== verification/Prelude.v ===== *)
(** * pyth-client: a verification library

    pyth-client publishes prices to the Pyth oracle on Solana.  The daemon
    [pythd] keeps a connection to a Solana RPC node, follows the oracle's
    accounts, and serves clients that publish or watch prices over web sockets;
    transactions go out over RPC or through a proxy, [pyth_tx], that sends them
    to the slot leaders.  This library models the C++ code under [src/pc] and
    the proxy under [src/pcapps], and proves what each part promises to the
    next.

    ** The program and this library

    From the bottom up, with the files under [src/] each file models.

    - [Prelude]: machine integers, bytes, C string comparison, generic lemmas.
    - Numbers and encodings.  [Text], [Base64], [Base58] ([pc/misc.cpp]);
      [PubStats] ([pc/pub_stats.cpp]).
    - Containers.  [DblList] ([pc/dbl_list.hpp]) and [HashMap]
      ([pc/hash_map.hpp]) are modelled with their links and indices and shown to
      implement sequences and finite maps; the other files use sequences and
      finite maps in their place.
    - The network layer ([pc/net_socket.cpp]).  [NetBuf]: blocks, their pool and
      the writers made of them, shown to implement byte strings, which the files
      after it use.  [NetLoop]: the sockets' descriptors and the epoll loop, over
      the interface [Kernel].  [NetConnect]: the send queue and the receive loop of
      a connection, over the interface [NetParser] of the parsers.  [WebSocket]
      and [Http]: frames and messages, [ws_parse] an instance of [NetParser] (the
      HTTP parsers are not: they keep the headers of an incomplete text).
      [Reconnect]: the non-blocking connect and the retry machine its three
      owners share, over the interface [Link].
    - JSON.  [JsonWtr] ([json_wtr] of [pc/net_socket.cpp]) and [JTree]
      ([pc/jtree.cpp]); [JsonParse] puts them together: the tree of a written
      text represents the value that was written.
    - Keys and transactions.  [KeyPair] ([pc/key_pair.cpp]), [KeyStore]
      ([pc/key_store.cpp]: the directory of keys, over the interface [FileSystem]),
      [Bincode] ([pc/bincode.hpp] and [upd_price::build_tx] of
      [pc/rpc_client.cpp]).
    - [RpcClient] ([pc/rpc_client.cpp]): requests in a heap, the multimap of
      waiting requests, ids and subscriptions.  [RpcFrame]: what the client's
      functions leave alone, so that its users reason about their own state.
    - The manager and its requests ([pc/manager.cpp], [pc/request.cpp]).
      [AttrDict] ([pc/attr_id.cpp]): product attributes.  [Accounts]: mapping,
      product and price accounts and their handlers; [Discovery]: the invariant
      of the count that ends initialization.  [Publish]: price updates from
      [price::update] to the transactions.  [Schedule]: when price schedules
      fire.  [Manager]: the connection, the slots and the block hash, and the
      users, as the application of the RPC client; [ManagerSpec]: its theorems.
    - Clients of [pythd].  [Subs]: subscriptions to requests; [Dump]: products
      and prices as JSON ([pc/request.cpp]); [User] ([pc/user.cpp]): requests,
      answers and notifications; [UserSpec]: what a request does, on JSON values.
    - [TxSvr] ([pcapps/tx_svr.cpp], [pcapps/tx_rpc_client.cpp]): the proxy.
    - Administration.  [AdminTx] ([pcapps/admin_rpc_client.cpp]): the transactions
      that make and change accounts, and a reader of Solana's wire format that
      says what they are; [Admin] ([pcapps/admin_request.cpp]): the requests that
      send them and wait for their confirmation.
    - Captures.  [Capture] ([pc/capture.cpp]): the buffers that the manager's
      thread fills and a thread of the class writes, as steps over what the two
      share; [Replay] ([pc/replay.cpp]): reading the file back.  [Calendar]
      ([nsecs_to_utc6] of [pc/misc.cpp]) and [Csv] ([pcapps/pyth_csv.cpp]): a
      capture as text.  zlib is the interface [Gz].

    The parts meet as in the code: [User] calls the update and subscription
    operations of [Publish] and [Subs], reads the accounts of [Accounts] and
    activates their price schedules;
    [Publish] builds its transactions with [Bincode] and sends its requests with
    [RpcClient]; [TxSvr] receives in its frames what [Publish] writes, keeps its
    connection with [Reconnect] and its users with [DblList]; [Admin] takes its
    keys from [KeyStore] and its transactions from [AdminTx].

    ** How the code is represented

    An object's members are a record with the members' names, a function a
    Definition or Fixpoint with the function's name, taking the state and giving
    the new one.  Pointers to objects that are shared are keys of a heap.
    [w]-bit integers are [Z] with [wrap] and [swrap] where they can wrap;
    [double] is [SpecFloat]'s binary64.  What the code would read or write
    outside an object, and dereferences of invalid pointers, have the result
    [None]; so do loops without end.  System calls, the clock, [random()],
    OpenSSL, ZSTD and the application's callbacks are parameters or inputs.
    Calls that leave a part (messages, callbacks, datagrams) are recorded in
    their order.  Messages of the log are left out.

    ** The theorems

    - Refinement: [HashMap.find_repr], [add_repr] and [del_repr] (finite maps),
      [DblList.add_dlist] and [del_dlist] (sequences), [NetBuf.add_str_owns] and
      [add_wtr_owns] (byte strings, other writers untouched),
      [TxSvr.transactions_relayed] (the datagrams are the transactions, with
      whatever cuts in the stream), [UserSpec.parse_msg_spec] (a client's message
      does what its JSON value says), [ManagerSpec.reconnect_refines] (the
      manager's reconnection is the machine of [Reconnect]),
      [Admin.request_follows_plan] (an administration request is its plan:
      transactions sent and confirmed in turn).
    - Round trips: [Base64.dec_enc_base64], [Base58.dec_enc_base58],
      [WebSocket.ws_parse_commit], [Http.server_parse_request],
      [Http.client_parse_response], [JsonParse.write_parse],
      [KeyPair.key_file_roundtrip], [KeyStore.created_account_found],
      [AttrDict.account_roundtrip], [Replay.capture_replayed] (what is captured,
      in any interleaving of the threads, is read back), [Calendar.utc6_text] and
      those of [Text].
    - What operations do: [RpcClient.send_message],
      [RpcClient.parse_response_routes], [RpcClient.notification_routed],
      [Bincode.build_transaction], [Publish.update_sends] (on both paths, to the
      last byte), [WebSocket.frames_received] (whatever cuts in the stream),
      [Publish.send_pending_ups_ok], [TxSvr.leaders_addressed],
      [UserSpec.update_applied], [UserSpec.price_notified],
      [Subs.sub_del_ok], [JsonParse.find_member], [JsonWtr.write_text],
      [ManagerSpec.users_turn], [fresh_connection] and [slot_followed],
      [AdminTx.transaction_sent], [Csv.price_line_columns]; errors: [UserSpec.request_answered],
      [Admin.error_stops].
    - Invariants and safety: [RpcClient.send_fresh] (an id has one request, if the
      node responds to waiting ids only),
      [Discovery.pending_count] and [init_complete], [Subs.sub_add_ok] and
      [teardown_ok], [JTree.parse_well_formed], [NetConnect.poll_send_order],
      [Publish.no_retry_in_slot] (while the slot rises), [TxSvr.one_request],
      [User.only_content_files], [ManagerSpec.slots_rise] and
      [silent_when_down], [KeyStore.reads_coherent],
      [Admin.created_account_saved], [Capture.blocks_owned] (accounts that fit a
      block, a file that can be written),
      [NetLoop.loop_coherent] (the flags of sockets and what the kernel watches).
    - Bounds, termination, liveness: [Publish.unacked_bounded],
      [Reconnect.retry_spacing], [JTree.find_val_total],
      [Replay.get_next_total], [Reconnect.tx_never_stuck], [Schedule.round_fires_once],
      [Admin.request_completes], [AdminTx.attributes_fit].

    ** Fuel

    A loop without a structural measure takes fuel.  Where the code bounds the
    loop the definition computes the fuel itself: the characters left for the
    parsers, the nodes of the vector for links between nodes ([JTree],
    [HashMap], [RpcClient], [User]), 20 digits for a 64-bit number
    ([Text.digit_fuel]), the slots to visit in [TxSvr.slot_loop], the entries of
    the vector in [Schedule.fire], the bytes to write in
    [KeyStore.write_key_file], the room of the block in [Replay.get_next] and what
    is left to write in [Capture.run_cost].  The theorems about these state the result,
    not "if there is one": [JTree.find_val_total], [JsonParse.write_parse],
    [Schedule.round_fires_once], [WebSocket.frames_received].  Fuel that is an
    argument is that of a walk over a chain of blocks or nodes ([NetBuf.reset],
    [DblList.walk]); their theorems ask for the length of the chain and give the
    result.

    ** Not modelled

    - Files and the operating system: [mem_map], [log], the arguments and error
      texts of the socket calls.
    - Cryptography and compression: OpenSSL, ZSTD and zlib are parameters.
    - The command line programs [pythd], [pyth_tx], [pyth] and [pyth_admin]:
      options, prompts and output around the library.
    - The on-chain program under [program/] (C and Rust) but for the account
      layouts the client reads.
    - Of [pythd]'s main loop: the sequence of the parts' [poll] functions is that
      of the code, the events between them are inputs. *)

From Stdlib Require Export ZArith Lia Bool.
From stdpp Require Export base numbers option list gmap strings sorting.

Declare Scope pyth_scope.
Delimit Scope pyth_scope with pyth.
#[export] Set Default Goal Selector "!".
#[global] Open Scope Z_scope.

(** ** Machine integers

    A [w]-bit unsigned value is a [Z] in [0, 2^w), a signed one a [Z] in
    [-2^(w-1), 2^(w-1)).  [wrap] and [swrap] are the conversions the C++
    arithmetic performs on every result of that width. *)

Definition wrap (w z : Z) : Z := z mod 2 ^ w.
Definition swrap (w z : Z) : Z := (z + 2 ^ (w - 1)) mod 2 ^ w - 2 ^ (w - 1).

Definition in_u (w z : Z) : Prop := 0 <= z < 2 ^ w.
Definition in_s (w z : Z) : Prop := - 2 ^ (w - 1) <= z < 2 ^ (w - 1).

#[global] Instance in_u_dec w z : Decision (in_u w z).
Proof. unfold in_u; apply _. Defined.
#[global] Instance in_s_dec w z : Decision (in_s w z).
Proof. unfold in_s; apply _. Defined.

Abbreviation u8 := (wrap 8) (only parsing).
Abbreviation u16 := (wrap 16) (only parsing).
Abbreviation u32 := (wrap 32) (only parsing).
Abbreviation u64 := (wrap 64) (only parsing).
Abbreviation i32 := (swrap 32) (only parsing).
Abbreviation i64 := (swrap 64) (only parsing).

Abbreviation UINT64_MAX := (2 ^ 64 - 1) (only parsing).
Abbreviation INT64_MAX := (2 ^ 63 - 1) (only parsing).
Abbreviation INT64_MIN := (- 2 ^ 63) (only parsing).

Lemma pow2_pos w : 0 <= w -> 0 < 2 ^ w.
Proof. intros. apply Z.pow_pos_nonneg; lia. Qed.

Lemma pow2_double w : 0 < w -> 2 ^ w = 2 * 2 ^ (w - 1).
Proof. intros. rewrite <- Z.pow_succ_r by lia. f_equal. lia. Qed.

Lemma wrap_bound w z : 0 <= w -> in_u w (wrap w z).
Proof. intros. apply Z.mod_pos_bound, pow2_pos. lia. Qed.

Lemma wrap_small w z : in_u w z -> wrap w z = z.
Proof. intros. apply Z.mod_small. assumption. Qed.

Lemma wrap_wrap w z : 0 <= w -> wrap w (wrap w z) = wrap w z.
Proof. intros. apply wrap_small, wrap_bound. assumption. Qed.

Lemma swrap_small w z : 0 < w -> in_s w z -> swrap w z = z.
Proof.
  intros Hw [Hl Hu]. unfold swrap. rewrite Z.mod_small; [lia|].
  rewrite (pow2_double w) by lia. lia.
Qed.

Lemma swrap_bound w z : 0 < w -> in_s w (swrap w z).
Proof.
  intros Hw. unfold in_s, swrap.
  pose proof (Z.mod_pos_bound (z + 2 ^ (w - 1)) (2 ^ w) (pow2_pos w ltac:(lia))) as H.
  rewrite (pow2_double w) in H |- * by lia. lia.
Qed.

(** Two's complement: the signed and unsigned readings of one word. *)
Lemma swrap_wrap w z : 0 < w -> swrap w (wrap w z) = swrap w z.
Proof. intros. unfold swrap, wrap. rewrite Zplus_mod_idemp_l. reflexivity. Qed.

Lemma wrap_swrap w z : 0 < w -> wrap w (swrap w z) = wrap w z.
Proof.
  intros. unfold swrap, wrap. rewrite Zminus_mod_idemp_l. f_equal. lia.
Qed.

Create HintDb mach.
Create Rewrite HintDb machrw.
Create Rewrite HintDb len.
#[export] Hint Rewrite wrap_wrap swrap_wrap wrap_swrap using lia : machrw.
#[export] Hint Resolve wrap_bound swrap_bound : mach.

(** Solve a side condition that only needs the bounds unfolded at a
    concrete width. *)
Ltac mach := unfold in_u, in_s in *; simpl Z.pow in *; simpl Z.sub in *; lia.

(** A closed decidable fact, by evaluation. *)
Ltac by_decide := refine (bool_decide_unpack _ _); vm_compute; exact I.

(** Taking the binds of the option monad in [H] apart. *)
Ltac unbind H :=
  repeat match type of H with
  | mbind _ ?m = Some _ =>
      let E := fresh "E" in destruct m eqn:E; cbn [mbind option_bind] in H; [|discriminate H]
  | match ?x with pair _ _ => _ end = Some _ =>
      let E := fresh "E" in destruct x eqn:E; cbn [mbind option_bind] in H
  end.

(** ** Bytes and text

    A byte is a [Z] in [0, 256); text is the list of its bytes. *)

Abbreviation bytes := (list Z).

Definition is_byte (b : Z) : Prop := in_u 8 b.
Definition is_bytes (l : bytes) : Prop := Forall is_byte l.

(** [char] is signed on the targets the client is built for. *)
Definition schar (b : Z) : Z := swrap 8 b.

Definition byte_of_ascii (a : Ascii.ascii) : Z := Z.of_N (Ascii.N_of_ascii a).
Definition bs (s : string) : bytes := byte_of_ascii <$> String.list_ascii_of_string s.
Definition ch (s : string) : Z := default 0 (head (bs s)).

Lemma byte_of_ascii_bound a : is_byte (byte_of_ascii a).
Proof.
  unfold is_byte, in_u, byte_of_ascii.
  pose proof (Ascii.N_ascii_bounded a). simpl. lia.
Qed.

Lemma bs_is_bytes s : is_bytes (bs s).
Proof. apply Forall_fmap, Forall_true. intros. apply byte_of_ascii_bound. Qed.
#[export] Hint Resolve byte_of_ascii_bound bs_is_bytes : mach.

(** [isdigit], [isspace], [isalpha] and [toupper] of the C locale. *)
Definition isdigit (c : Z) : bool := (48 <=? c) && (c <=? 57).
Definition isspace (c : Z) : bool := (c =? 32) || ((9 <=? c) && (c <=? 13)).
Definition isalpha (c : Z) : bool :=
  ((65 <=? c) && (c <=? 90)) || ((97 <=? c) && (c <=? 122)).
Definition toupper (c : Z) : Z := if (97 <=? c) && (c <=? 122) then c - 32 else c.

(** [str::operator==]: equal lengths, and [strncmp] over that length, which
    stops at a NUL byte both sides share. *)
Fixpoint strncmp_eq (a b : bytes) (n : nat) : bool :=
  match n with
  | O => true
  | S n' =>
      match a, b with
      | x :: a', y :: b' =>
          if x =? y then (if x =? 0 then true else strncmp_eq a' b' n') else false
      | _, _ => false
      end
  end.
Definition str_eqb (a b : bytes) : bool :=
  (length a =? length b)%nat && strncmp_eq a b (length a).

Lemma strncmp_eq_refl a n : (n <= length a)%nat -> strncmp_eq a a n = true.
Proof.
  revert n; induction a as [|x a IH]; intros [|n] Hn; simpl in *; try lia; auto.
  rewrite Z.eqb_refl. destruct (x =? 0); [reflexivity|]. apply IH. lia.
Qed.

Lemma str_eqb_refl a : str_eqb a a = true.
Proof. unfold str_eqb. rewrite Nat.eqb_refl. apply strncmp_eq_refl. lia. Qed.

Lemma strncmp_eq_true a b :
  length a = length b -> Forall (fun c => c <> 0) a ->
  strncmp_eq a b (length a) = true -> a = b.
Proof.
  revert b; induction a as [|x a IH]; intros [|y b] Hl Ha H; simpl in *; try lia; auto.
  apply Forall_cons_1 in Ha as [Hx Ha].
  destruct (Z.eqb_spec x y) as [->|]; [|discriminate].
  destruct (Z.eqb_spec y 0); [contradiction|].
  f_equal. apply IH; auto.
Qed.

(** On text without NUL bytes the comparison is equality. *)
Lemma str_eqb_true a b : Forall (fun c => c <> 0) a -> str_eqb a b = true -> a = b.
Proof.
  intros Ha [Hl H]%andb_true_iff. apply Nat.eqb_eq in Hl.
  apply strncmp_eq_true; auto.
Qed.

(** ** Lists and slices of a buffer *)

Lemma snoc_cases {A} (l : list A) : l = [] \/ exists l' x, l = l' ++ [x].
Proof. destruct l using rev_ind; eauto. Qed.

Definition slice {A} (off len : nat) (l : list A) : list A := take len (drop off l).

Lemma slice_app {A} (a b c : list A) :
  slice (length a) (length b) (a ++ b ++ c) = b.
Proof. unfold slice. rewrite drop_app_length, take_app_length. reflexivity. Qed.

Lemma slice_at {A} (a b c : list A) off n :
  off = length a -> n = length b -> slice off n (a ++ b ++ c) = b.
Proof. intros -> ->. apply slice_app. Qed.

Lemma length_slice {A} off len (l : list A) :
  (off + len <= length l)%nat -> length (slice off len l) = len.
Proof. intros. unfold slice. rewrite length_take, length_drop. lia. Qed.

Lemma slice_app_le {A} off n (l k : list A) :
  (off + n <= length l)%nat -> slice off n (l ++ k) = slice off n l.
Proof.
  intros. unfold slice. rewrite drop_app_le by lia. apply take_app_le. rewrite length_drop. lia.
Qed.

Lemma drop_slice {A} n off len (l : list A) :
  drop n (slice off len l) = slice (off + n) (len - n) l.
Proof. unfold slice. rewrite skipn_firstn_comm, drop_drop. reflexivity. Qed.

(** Overwrite [length src] elements of [dst] from position [off]; the caller
    has room for them (the C++ writes through a raw pointer). *)
Definition blit {A} (off : nat) (src dst : list A) : list A :=
  take off dst ++ src ++ drop (off + length src) dst.

Lemma length_blit {A} off (src dst : list A) :
  (off + length src <= length dst)%nat -> length (blit off src dst) = length dst.
Proof.
  intros. unfold blit. rewrite !length_app, length_take, length_drop. lia.
Qed.

Lemma slice_blit {A} off (src dst : list A) :
  (off + length src <= length dst)%nat -> slice off (length src) (blit off src dst) = src.
Proof.
  intros. unfold slice, blit.
  rewrite drop_app_length'; [apply take_app_length|]. rewrite length_take. lia.
Qed.

Lemma blit_app {A} (a g r s : list A) :
  length s = length g -> blit (length a) s (a ++ g ++ r) = a ++ s ++ r.
Proof.
  intros E. unfold blit. rewrite take_app_length, E, <- length_app, (app_assoc a g r), drop_app_length.
  reflexivity.
Qed.

Lemma take_blit {A} n off (src dst : list A) :
  (n <= off)%nat -> (off <= length dst)%nat -> take n (blit off src dst) = take n dst.
Proof.
  intros. unfold blit. rewrite take_app_le by (rewrite length_take; lia).
  rewrite take_take. f_equal. lia.
Qed.

(** ** Little-endian words *)

Fixpoint le_bytes (n : nat) (z : Z) : bytes :=
  match n with
  | O => []
  | S n' => z mod 256 :: le_bytes n' (z / 256)
  end.

Fixpoint of_le (l : bytes) : Z :=
  match l with
  | [] => 0
  | b :: l' => b + 256 * of_le l'
  end.

Lemma length_le_bytes n z : length (le_bytes n z) = n.
Proof. revert z; induction n; intros; simpl; auto. Qed.

Lemma le_bytes_is_bytes n z : is_bytes (le_bytes n z).
Proof.
  revert z; induction n as [|n IH]; intros; simpl; constructor; [|apply IH].
  unfold is_byte, in_u. apply (Z.mod_pos_bound z 256). lia.
Qed.

Lemma of_le_bytes n z : of_le (le_bytes n z) = z mod 256 ^ Z.of_nat n.
Proof.
  revert z; induction n as [|n IH]; intros z; [rewrite Z.mod_1_r; reflexivity|].
  simpl le_bytes. simpl of_le. rewrite IH, Nat2Z.inj_succ, Z.pow_succ_r by lia.
  rewrite Z.rem_mul_r by lia. reflexivity.
Qed.

Lemma of_le_bytes_u n w z :
  8 * Z.of_nat n = w -> in_u w z -> of_le (le_bytes n z) = z.
Proof.
  intros <- Hz. rewrite of_le_bytes. apply Z.mod_small.
  unfold in_u in Hz. rewrite Z.pow_mul_r in Hz by lia. exact Hz.
Qed.

#[export] Hint Rewrite length_le_bytes @length_app @length_fmap @length_take
  @length_drop @length_replicate : len.
