(* ===== verification/PubStats.v ===== *)
(** * Publish statistics ([pc/pub_stats.hpp], [pc/pub_stats.cpp])

    The counters a [price] keeps about its own publishing: prices sent,
    aggregates and own updates observed, dropped notifications, and a
    histogram of publish latencies in slots.  Counters are 64-bit, histogram
    buckets 32-bit, and both wrap.  The two routines that compute in [double]
    use the IEEE 754 operations of [SpecFloat] at binary64. *)

From S2P Require Import Prelude.
From Stdlib Require Import SpecFloat.

Definition num_buckets : Z := 32.

Record pub_stats := mk_pub_stats {
  num_sent_ : Z;
  num_recv_ : Z;
  num_agg_ : Z;
  num_sub_drop_ : Z;
  agg_slot_ : Z;
  pub_slot_ : Z;
  shist_ : list Z
}.

(** The state after [clear_stats]; [pub_stats::pub_stats] calls it. *)
Definition clear_stats : pub_stats :=
  mk_pub_stats 0 0 0 0 0 0 (replicate (Z.to_nat num_buckets) 0).

Definition get_num_agg (s : pub_stats) : Z := num_agg_ s.
Definition get_num_sent (s : pub_stats) : Z := num_sent_ s.
Definition get_num_recv (s : pub_stats) : Z := num_recv_ s.
Definition get_num_sub_drop (s : pub_stats) : Z := num_sub_drop_ s.

Definition inc_sub_drop (s : pub_stats) : pub_stats :=
  mk_pub_stats (num_sent_ s) (num_recv_ s) (num_agg_ s) (u64 (num_sub_drop_ s + 1))
    (agg_slot_ s) (pub_slot_ s) (shist_ s).

Definition inc_sent (s : pub_stats) : pub_stats :=
  mk_pub_stats (u64 (num_sent_ s + 1)) (num_recv_ s) (num_agg_ s) (num_sub_drop_ s)
    (agg_slot_ s) (pub_slot_ s) (shist_ s).

(** The bucket of a publish latency. *)
Definition bucket (curr_slot pub_slot : Z) : Z :=
  let dslot := if pub_slot <? curr_slot then curr_slot - pub_slot else 0 in
  if dslot <? num_buckets then dslot else num_buckets - 1.

Definition bump (i : Z) (h : list Z) : list Z :=
  alter (fun x => u32 (x + 1)) (Z.to_nat i) h.

Definition add_recv (curr_slot agg_slot pub_slot : Z) (s : pub_stats) : pub_stats :=
  if num_sent_ s =? 0 then s
  else
    let h := if pub_slot_ s =? 0 then shist_ s
             else bump (bucket curr_slot pub_slot) (shist_ s) in
    let agg_new := negb (agg_slot =? agg_slot_ s) in
    let pub_new := negb (pub_slot =? pub_slot_ s) in
    mk_pub_stats (num_sent_ s)
      (if pub_new then u64 (num_recv_ s + 1) else num_recv_ s)
      (if agg_new then u64 (num_agg_ s + 1) else num_agg_ s)
      (num_sub_drop_ s)
      (if agg_new then agg_slot else agg_slot_ s)
      (if pub_new then pub_slot else pub_slot_ s)
      h.

(** ** Floating point *)

Definition double_of_uint (z : Z) : spec_float := binary_normalize 53 1024 z 0 false.
Definition dmul : spec_float -> spec_float -> spec_float := SFmul 53 1024.
Definition ddiv : spec_float -> spec_float -> spec_float := SFdiv 53 1024.
Definition dge (x y : spec_float) : bool := SFleb y x.

(** [double pct[] = { 0.25, .50, .75, .99 }], as binary64 values. *)
Definition pct : list spec_float :=
  [S754_finite false 4503599627370496 (-54); S754_finite false 4503599627370496 (-53);
   S754_finite false 6755399441055744 (-53); S754_finite false 8917127262193582 (-53)].

Definition get_hit_rate (s : pub_stats) : spec_float :=
  if num_sent_ s =? 0 then S754_zero false
  else ddiv (dmul (double_of_uint 100) (double_of_uint (num_recv_ s)))
            (double_of_uint (num_sent_ s)).

(** The inner [while]: every pending quartile whose threshold [cum] reaches
    is assigned bucket [i]; the pending thresholds are returned. *)
Fixpoint assign_quartiles (reach : spec_float -> bool) (i : Z) (ps : list spec_float)
  : list Z * list spec_float :=
  match ps with
  | p :: ps' =>
      if reach p then
        let '(q, rest) := assign_quartiles reach i ps' in (i :: q, rest)
      else ([], ps)
  | [] => ([], [])
  end.

Fixpoint quartile_loop (nagg : Z) (i cum : Z) (hist : list Z) (ps : list spec_float)
  : list Z :=
  match ps, hist with
  | [], _ => []
  | _, [] => replicate (length ps) num_buckets
  | _, h :: hist' =>
      let cum := u64 (cum + h) in
      let '(q, rest) :=
        assign_quartiles (fun p => dge (double_of_uint cum) (dmul p (double_of_uint nagg)))
          i ps in
      q ++ quartile_loop nagg (i + 1) cum hist' rest
  end.

Definition get_slot_quartiles (s : pub_stats) : list Z :=
  quartile_loop (num_agg_ s) 0 0 (shist_ s) pct.

(** ** Well-formed statistics *)

Record wf (s : pub_stats) : Prop := {
  wf_hist : length (shist_ s) = Z.to_nat num_buckets;
  wf_bucket : Forall (in_u 32) (shist_ s);
  wf_counts : in_u 64 (num_sent_ s) /\ in_u 64 (num_recv_ s) /\ in_u 64 (num_agg_ s)
              /\ in_u 64 (num_sub_drop_ s)
}.

Lemma bucket_bound c p : 0 <= bucket c p < num_buckets.
Proof.
  unfold bucket, num_buckets.
  destruct (Z.ltb_spec p c); repeat case_match; lia.
Qed.

Lemma length_bump i h : length (bump i h) = length h.
Proof. apply length_alter. Qed.

Lemma bump_bounded i h : Forall (in_u 32) h -> Forall (in_u 32) (bump i h).
Proof. intros. apply Forall_alter; auto with mach lia. Qed.

Lemma clear_stats_wf : wf clear_stats.
Proof.
  split; simpl; [reflexivity| |split_and!; mach].
  repeat constructor; mach.
Qed.

Lemma add_recv_wf c a p s : wf s -> wf (add_recv c a p s).
Proof.
  intros [Hl Hb (Hs & Hr & Ha & Hd)]. unfold add_recv.
  destruct (num_sent_ s =? 0); [split; auto|].
  split; simpl.
  - destruct (pub_slot_ s =? 0); [done|]. rewrite length_bump. done.
  - destruct (pub_slot_ s =? 0); auto using bump_bounded.
  - split_and!; try done; destruct (negb _); auto with mach lia.
Qed.

Lemma inc_sent_wf s : wf s -> wf (inc_sent s).
Proof.
  intros [Hl Hb (Hs & Hr & Ha & Hd)]. split; simpl; auto 6 with mach lia.
Qed.

Lemma inc_sub_drop_wf s : wf s -> wf (inc_sub_drop s).
Proof.
  intros [Hl Hb (Hs & Hr & Ha & Hd)]. split; simpl; auto 6 with mach lia.
Qed.

(** ** The update counters

    [changes x l] counts the positions of [l] that differ from their
    predecessor, [x] standing before the first. *)

Fixpoint changes (x : Z) (l : list Z) : Z :=
  match l with
  | [] => 0
  | y :: l' => (if y =? x then 0 else 1) + changes y l'
  end.

Definition add_recvs (ups : list (Z * Z * Z)) (s : pub_stats) : pub_stats :=
  foldl (fun s '(c, a, p) => add_recv c a p s) s ups.

Lemma add_recvs_sent ups s : num_sent_ (add_recvs ups s) = num_sent_ s.
Proof.
  revert s; induction ups as [|[[c a] p] ups IH]; intros s; simpl; auto.
  rewrite IH. unfold add_recv. destruct (num_sent_ s =? 0); reflexivity.
Qed.

Lemma add_recv_counts c a p s :
  num_sent_ s <> 0 ->
  num_recv_ (add_recv c a p s) =
    (if p =? pub_slot_ s then num_recv_ s else u64 (num_recv_ s + 1))
  /\ num_agg_ (add_recv c a p s) =
    (if a =? agg_slot_ s then num_agg_ s else u64 (num_agg_ s + 1))
  /\ pub_slot_ (add_recv c a p s) = p /\ agg_slot_ (add_recv c a p s) = a
  /\ num_sent_ (add_recv c a p s) = num_sent_ s.
Proof.
  intros Hs. unfold add_recv. destruct (Z.eqb_spec (num_sent_ s) 0); [done|].
  simpl. destruct (Z.eqb_spec p (pub_slot_ s)), (Z.eqb_spec a (agg_slot_ s));
    simpl; subst; auto.
Qed.

Lemma wrap_add_l w x y : wrap w (wrap w x + y) = wrap w (x + y).
Proof. unfold wrap. apply Zplus_mod_idemp_l. Qed.

Lemma counts_step b n m s :
  in_u 64 n -> (m = if b : bool then n else u64 (n + 1)) -> in_u 64 m /\
  u64 (m + s) = u64 (n + ((if b then 0 else 1) + s)).
Proof.
  intros Hn ->. destruct b; [rewrite Z.add_0_l; auto|].
  split; [apply wrap_bound; lia|]. rewrite wrap_add_l. f_equal. lia.
Qed.

(** Once the publisher has sent a price, feeding a sequence of account
    updates to [add_recv] adds to [num_recv_] the number of times the
    publisher's own slot changed along the sequence, and to [num_agg_] the
    number of times the aggregate's slot changed (both modulo 2^64). *)
Theorem add_recvs_counts ups s :
  wf s -> num_sent_ s <> 0 ->
  num_recv_ (add_recvs ups s)
    = u64 (num_recv_ s + changes (pub_slot_ s) (map snd ups))
  /\ num_agg_ (add_recvs ups s)
    = u64 (num_agg_ s + changes (agg_slot_ s) (map (fun u => snd (fst u)) ups)).
Proof.
  revert s; induction ups as [|[[c a] p] ups IH]; intros s Hwf Hs.
  - destruct Hwf as [_ _ (? & ? & ? & ?)]. cbn. rewrite !Z.add_0_r, !wrap_small; auto.
  - cbn [add_recvs foldl]. pose proof (add_recv_counts c a p s Hs) as (Hr & Ha & Hp & Hg & Hn).
    destruct (IH (add_recv c a p s)) as [IHr IHa];
      [auto using add_recv_wf | congruence |].
    fold (add_recvs ups (add_recv c a p s)).
    rewrite IHr, IHa, Hp, Hg. simpl. destruct Hwf as [_ _ (_ & Hr0 & Ha0 & _)].
    split; [eapply counts_step in Hr | eapply counts_step in Ha]; intuition eauto.
Qed.

(** ** Quartiles *)

Lemma assign_quartiles_spec reach i ps q rest :
  assign_quartiles reach i ps = (q, rest) ->
  q = replicate (length q) i /\ (length q + length rest = length ps)%nat.
Proof.
  revert q rest; induction ps as [|p ps IH]; intros q rest H; simpl in H.
  - injection H as <- <-. auto.
  - destruct (reach p); [|injection H as <- <-; auto].
    destruct (assign_quartiles reach i ps) as [q' rest'] eqn:E.
    injection H as <- <-. destruct (IH _ _ eq_refl) as [Hq Hl]. simpl.
    split; [f_equal; assumption | lia].
Qed.

Definition quartiles_from (i : Z) (l : list Z) : Prop :=
  Forall (fun x => i <= x <= num_buckets) l /\ StronglySorted Z.le l.

Lemma quartiles_replicate_app i j n l :
  i <= j -> j <= num_buckets -> quartiles_from j l ->
  quartiles_from i (replicate n j ++ l).
Proof.
  intros Hij Hj [Hb Hs]. induction n as [|n [IHb IHs]]; simpl.
  - split; [|done]. eapply Forall_impl; [exact Hb|]. simpl; lia.
  - split; [constructor; [lia|done]|]. constructor; [done|].
    apply Forall_app; split; [apply Forall_replicate; lia|].
    eapply Forall_impl; [exact Hb|]. simpl; lia.
Qed.

Lemma quartile_loop_spec nagg i cum hist ps :
  0 <= i -> i + Z.of_nat (length hist) = num_buckets ->
  quartiles_from i (quartile_loop nagg i cum hist ps)
  /\ length (quartile_loop nagg i cum hist ps) = length ps.
Proof.
  revert i cum ps; induction hist as [|h hist IH]; intros i cum [|p ps] Hi Hl;
    cbn [quartile_loop]; try (split; [split; constructor | reflexivity]).
  - simpl in Hl. split; [|apply length_replicate].
    rewrite <- (app_nil_r (replicate _ _)).
    apply quartiles_replicate_app; [lia | lia |]. split; constructor.
  - match goal with |- context [assign_quartiles ?r i ?l] =>
      destruct (assign_quartiles r i l) as [q rest] eqn:E end.
    destruct (assign_quartiles_spec _ _ _ _ _ E) as [Hq Hlen].
    cbn [length] in Hl, Hlen.
    destruct (IH (i + 1) (u64 (cum + h)) rest) as [[Hb Hs] Hrl]; [lia|lia|].
    split; [|rewrite length_app, Hrl; exact Hlen].
    rewrite Hq. apply quartiles_replicate_app; [lia|lia|].
    split; [|done]. eapply Forall_impl; [exact Hb|]. simpl; lia.
Qed.

(** [get_slot_quartiles] always fills all four entries, with bucket
    numbers between 0 and [num_buckets], in non-decreasing order. *)
Theorem get_slot_quartiles_sorted s :
  wf s ->
  length (get_slot_quartiles s) = 4%nat /\
  quartiles_from 0 (get_slot_quartiles s).
Proof.
  intros Hwf. unfold get_slot_quartiles.
  destruct (quartile_loop_spec (num_agg_ s) 0 0 (shist_ s) pct) as [Hq Hl];
    [lia | rewrite (wf_hist _ Hwf); reflexivity |].
  split; [exact Hl | exact Hq].
Qed.

(** ** Witnesses *)

Lemma add_recvs_counts_witness :
  num_recv_ (add_recvs [(12, 10, 9); (13, 11, 9); (14, 12, 12)] (inc_sent clear_stats)) = 2
  /\ num_agg_ (add_recvs [(12, 10, 9); (13, 11, 9); (14, 12, 12)] (inc_sent clear_stats)) = 3.
Proof.
  destruct (add_recvs_counts [(12, 10, 9); (13, 11, 9); (14, 12, 12)] (inc_sent clear_stats)
              (inc_sent_wf _ clear_stats_wf)) as [Hr Ha]; [vm_compute; discriminate|].
  split; [etransitivity; [exact Hr|] | etransitivity; [exact Ha|]]; vm_compute; reflexivity.
Defined.

Lemma get_slot_quartiles_sorted_witness :
  get_slot_quartiles clear_stats = [0; 0; 0; 0] /\
  length (get_slot_quartiles clear_stats) = 4%nat.
Proof.
  split; [vm_compute; reflexivity|].
  exact (proj1 (get_slot_quartiles_sorted clear_stats clear_stats_wf)).
Defined.
