(* ===== verification/Text.v ===== *)
(** * Numbers as text ([pc/misc.cpp])

    [uint_to_str]/[str_to_uint] and [int_to_str]/[str_to_int], which the JSON
    and HTTP writers and parsers use, [str_to_dec], which reads a decimal
    number at a given exponent, the fixed-width time fields, and
    [get_host_port].

    The writers fill a buffer backwards from an end pointer; the model returns
    the bytes between the returned pointer and that end.  Signed results wrap
    at 64 bits, which is what the compiled code does where the standard leaves
    overflow undefined. *)

From S2P Require Import Prelude.

Definition PC_NSECS_IN_SEC : Z := 1000000000.
Definition PC_NSECS_IN_MSEC : Z := 1000000.

(** ** Unsigned *)

(** [while( val ) { *--cptr = '0' + (val%10L); val /= 10L; }] *)
Fixpoint put_digits (fuel : nat) (val : Z) (acc : bytes) : bytes :=
  match fuel with
  | O => acc
  | S fuel' =>
      if val =? 0 then acc
      else put_digits fuel' (Z.quot val 10) (u8 (48 + Z.rem val 10) :: acc)
  end.

(** A 64-bit value has at most 20 decimal digits. *)
Definition digit_fuel : nat := 20.

Definition uint_to_str (val : Z) : bytes :=
  if val =? 0 then [48] else put_digits digit_fuel val [].

Fixpoint scan_uint (s : bytes) (res : Z) : Z :=
  match s with
  | [] => res
  | c :: s' => if isdigit c then scan_uint s' (u64 (res * 10 + (c - 48))) else 0
  end.

Definition str_to_uint (val : bytes) : Z := scan_uint val 0.

(** ** Signed *)

Definition int_to_str (val : Z) : bytes :=
  if val =? 0 then [48]
  else
    let is_neg := val <? 0 in
    let val := if is_neg then i64 (- val) else val in
    let digits := put_digits digit_fuel val [] in
    if is_neg then 45 :: digits else digits.

(** The result and the sign flag of [str_to_int]; a character that is neither
    a digit nor ['-'] resets the result and stops. *)
Fixpoint scan_int (s : bytes) (res : Z) (is_neg : bool) : Z * bool :=
  match s with
  | [] => (res, is_neg)
  | c :: s' =>
      if isdigit c then scan_int s' (i64 (res * 10 + (c - 48))) is_neg
      else if c =? 45 then scan_int s' res true
      else (0, is_neg)
  end.

Definition str_to_int (val : bytes) : Z :=
  let '(res, is_neg) := scan_int val 0 false in
  if is_neg then i64 (- res) else res.

(** ** Decimals with an implied exponent *)

(** The first loop: white space, then at most one ['-']. *)
Fixpoint skip_sign (s : bytes) : bytes * bool :=
  match s with
  | [] => ([], false)
  | c :: s' =>
      if isspace c then skip_sign s'
      else if c =? 45 then (s', true) else (s, false)
  end.

(** [for( ;cptr != zend && *zend =='0'; --zend )] with [cptr] on the point:
    the digits after the point without their trailing zeroes. *)
Fixpoint strip_zeros (frac : bytes) : bytes :=
  match frac with
  | [] => []
  | c :: frac' =>
      match strip_zeros frac' with
      | [] => if c =? 48 then [] else [c]
      | r => c :: r
      end
  end.

(** The second loop.  [after] is [None] before the point and otherwise the
    number of characters read since it, which is [-expo] at the end; a second
    point strips and restarts the count, as in the code.  The fuel is the
    number of characters. *)
Fixpoint scan_dec (fuel : nat) (s : bytes) (mant : Z) (after : option Z)
  : option (Z * option Z) :=
  match fuel, s with
  | S fuel', c :: s' =>
      if isdigit c then
        scan_dec fuel' s' (i64 (mant * 10 + (c - 48))) (Z.succ <$> after)
      else if c =? 46 then scan_dec fuel' (strip_zeros s') mant (Some 0)
      else None
  | _, _ => Some (mant, after)
  end.

Fixpoint iter_mul10 (n : nat) (mant : Z) : Z :=
  match n with O => mant | S n' => iter_mul10 n' (i64 (mant * 10)) end.

Fixpoint iter_div10 (n : nat) (mant : Z) : Z :=
  match n with O => mant | S n' => iter_div10 n' (Z.quot mant 10) end.

Definition str_to_dec (val : bytes) (texpo : Z) : Z :=
  match val with
  | [] => 0
  | _ =>
      let '(s, is_neg) := skip_sign val in
      match scan_dec (length s) s 0 None with
      | None => 0
      | Some (mant, after) =>
          let expo := match after with None => 0 | Some k => - k end in
          let mant := iter_mul10 (Z.to_nat (expo - texpo)) mant in
          let mant := iter_div10 (Z.to_nat (texpo - expo)) mant in
          if is_neg then i64 (- mant) else mant
      end
  end.

(** ** Fixed-width fields of a timestamp *)

Fixpoint put_fixed (n : nat) (val : Z) (acc : bytes) : bytes :=
  match n with
  | O => acc
  | S n' => put_fixed n' (Z.quot val 10) (u8 (48 + Z.rem val 10) :: acc)
  end.

Definition uint_to_str6 (val : Z) : bytes := put_fixed 6 val [].
Definition uint_to_str4 (val : Z) : bytes := put_fixed 4 val [].
Definition uint_to_str2 (val : Z) : bytes := put_fixed 2 val [].

(** ** [<host>[:port1[:port2]]] *)

Definition get_rpc_end_point (rhost : bytes) : bytes :=
  if decide (rhost = bs "api.devnet.solana.com") then rhost ++ bs ":80:80"
  else if decide (rhost = bs "api.mainnet-beta.solana.com") then rhost ++ bs ":80:80"
  else if decide (rhost = bs "api.testnet.solana.com") then rhost ++ bs ":80:80"
  else rhost.

(** [std::stoi]: leading white space, an optional sign, digits; [None] where
    it throws (no digit, or a value outside [int]). *)
Fixpoint stoi_digits (s : bytes) (acc : Z) : Z :=
  match s with
  | c :: s' => if isdigit c then stoi_digits s' (acc * 10 + (c - 48)) else acc
  | [] => acc
  end.

Fixpoint drop_space (s : bytes) : bytes :=
  match s with
  | c :: s' => if isspace c then drop_space s' else s
  | [] => []
  end.

Definition stoi (s : bytes) : option Z :=
  let s := drop_space s in
  let '(neg, s) := match s with
                   | 45 :: s' => (true, s')
                   | 43 :: s' => (false, s')
                   | _ => (false, s)
                   end in
  match s with
  | c :: _ =>
      if isdigit c then
        let v := stoi_digits s 0 in
        let v := if neg : bool then - v else v in
        if bool_decide (in_s 32 v) then Some v else None
      else None
  | [] => None
  end.

(** The part before the first [':'], and what follows it if there is one. *)
Fixpoint split_colon (s : bytes) : bytes * option bytes :=
  match s with
  | [] => ([], None)
  | c :: s' =>
      if c =? 58 then ([], Some s')
      else let '(a, b) := split_colon s' in (c :: a, b)
  end.

Definition get_host_port (hosti : bytes) : option (bytes * Z * Z) :=
  let '(res0, rest) := split_colon (get_rpc_end_point hosti) in
  match rest with
  | None => Some (res0, 0, 0)
  | Some rest =>
      let '(res1, rest2) := split_colon rest in
      port1 ← stoi res1;
      match rest2 with
      | None => Some (res0, port1, 0)
      | Some res2 => port2 ← stoi res2; Some (res0, port1, port2)
      end
  end.

(** ** Digit strings *)

Definition is_digits (s : bytes) : Prop := Forall (fun c => isdigit c = true) s.

Definition dec_step (acc c : Z) : Z := acc * 10 + (c - 48).
Definition dec_value (acc : Z) (s : bytes) : Z := foldl dec_step acc s.

Lemma isdigit_spec c : isdigit c = true <-> 48 <= c <= 57.
Proof. unfold isdigit. lia. Qed.

Lemma dec_value_app acc s t : dec_value acc (s ++ t) = dec_value (dec_value acc s) t.
Proof. apply foldl_app. Qed.

Lemma dec_value_lin acc s :
  dec_value acc s = acc * 10 ^ Z.of_nat (length s) + dec_value 0 s.
Proof.
  revert acc; induction s as [|c s IH]; intros acc; simpl; [lia|].
  unfold dec_value in *. simpl. rewrite (IH (dec_step acc c)), (IH (dec_step 0 c)).
  unfold dec_step. rewrite Nat2Z.inj_succ, Z.pow_succ_r by lia. lia.
Qed.

Lemma dec_value_bound s : is_digits s -> 0 <= dec_value 0 s < 10 ^ Z.of_nat (length s).
Proof.
  induction s as [|c s IH]; intros Hs; [simpl; lia|].
  apply Forall_cons_1 in Hs as [Hc%isdigit_spec Hs]. specialize (IH Hs).
  change (c :: s) with ([c] ++ s). rewrite dec_value_app, dec_value_lin, length_app.
  cbn [length Nat.add]. rewrite Nat2Z.inj_succ, Z.pow_succ_r by lia.
  unfold dec_value at 1 3; unfold dec_step; cbn [foldl]. nia.
Qed.

Lemma dec_value_mono acc s : 0 <= acc -> is_digits s -> acc <= dec_value acc s.
Proof.
  intros Ha Hs. rewrite dec_value_lin. pose proof (dec_value_bound s Hs).
  assert (1 <= 10 ^ Z.of_nat (length s)) by (apply (Z.pow_le_mono_r 10 0); lia). nia.
Qed.

(** [put_digits] writes the decimal digits of a value that fits its fuel. *)
Lemma put_digits_spec fuel val acc :
  0 <= val < 10 ^ Z.of_nat fuel ->
  exists ds, put_digits fuel val acc = ds ++ acc /\ is_digits ds
    /\ dec_value 0 ds = val /\ (0 < val -> ds <> []).
Proof.
  revert val acc; induction fuel as [|fuel IH]; intros val acc Hv.
  - exists []. simpl in *. split_and!; [done | constructor | cbn; lia | lia].
  - simpl put_digits. destruct (Z.eqb_spec val 0) as [->|Hnz].
    + exists []. split_and!; [done | constructor | done | lia].
    + rewrite Nat2Z.inj_succ, Z.pow_succ_r in Hv by lia.
      rewrite Z.quot_div_nonneg, Z.rem_mod_nonneg by lia.
      pose proof (Z.mod_pos_bound val 10 ltac:(lia)) as Hm.
      pose proof (Z.div_mod val 10 ltac:(lia)) as Hdm.
      rewrite (wrap_small 8) by mach.
      destruct (IH (val / 10) ((48 + val mod 10) :: acc)) as (ds & E & Hds & Hval & _).
      { split; [apply Z.div_pos; lia | apply Z.div_lt_upper_bound; lia]. }
      exists (ds ++ [48 + val mod 10]). split_and!.
      * rewrite E, <- app_assoc. reflexivity.
      * apply Forall_app; split; [done|]. repeat constructor. apply isdigit_spec. lia.
      * rewrite dec_value_app, Hval. unfold dec_value, dec_step; cbn [foldl]. lia.
      * intros _ H%app_eq_nil. intuition discriminate.
Qed.

Lemma scan_uint_digits s res :
  is_digits s -> 0 <= res -> dec_value res s < 2 ^ 64 -> scan_uint s res = dec_value res s.
Proof.
  revert res; induction s as [|c s IH]; intros res Hs Hr Hb; [reflexivity|].
  apply Forall_cons_1 in Hs as [Hc Hs]. simpl. rewrite Hc. apply isdigit_spec in Hc.
  pose proof (dec_value_mono (dec_step res c) s) as Hm.
  change (dec_value res (c :: s)) with (dec_value (dec_step res c) s) in *.
  unfold dec_step in *. specialize (Hm ltac:(lia) Hs).
  rewrite wrap_small by (unfold in_u; lia). apply IH; [done|lia|lia].
Qed.

Lemma scan_int_digits s res neg :
  is_digits s -> 0 <= res -> dec_value res s < 2 ^ 63 ->
  scan_int s res neg = (dec_value res s, neg).
Proof.
  revert res; induction s as [|c s IH]; intros res Hs Hr Hb; [reflexivity|].
  apply Forall_cons_1 in Hs as [Hc Hs]. simpl. rewrite Hc. apply isdigit_spec in Hc.
  pose proof (dec_value_mono (dec_step res c) s) as Hm.
  change (dec_value res (c :: s)) with (dec_value (dec_step res c) s) in *.
  unfold dec_step in *. specialize (Hm ltac:(lia) Hs).
  rewrite swrap_small by (try lia; unfold in_s; simpl Z.sub; lia). apply IH; [done|lia|lia].
Qed.

Lemma length_put_digits fuel val acc : (length (put_digits fuel val acc) <= fuel + length acc)%nat.
Proof.
  revert val acc; induction fuel as [|fuel IH]; intros val acc; cbn [put_digits]; [done|].
  destruct (val =? 0); [lia|]. etrans; [apply IH|]. cbn. lia.
Qed.

Lemma length_uint_to_str val : (length (uint_to_str val) <= 20)%nat.
Proof.
  unfold uint_to_str. destruct (val =? 0); [cbn; lia|]. etrans; [apply length_put_digits|]. cbn. lia.
Qed.

Lemma uint_to_str_digits val :
  in_u 64 val -> exists ds, uint_to_str val = ds /\ is_digits ds /\ dec_value 0 ds = val
    /\ ds <> [].
Proof.
  intros Hv. unfold uint_to_str. destruct (Z.eqb_spec val 0) as [->|].
  - exists [48]. split_and!; try done. repeat constructor.
  - destruct (put_digits_spec digit_fuel val []) as (ds & E & Hds & Hval & Hne).
    { unfold digit_fuel. mach. }
    exists ds. rewrite E, app_nil_r. unfold in_u in Hv.
    split_and!; auto. apply Hne. lia.
Qed.

Lemma uint_back val : in_u 64 val -> str_to_uint (uint_to_str val) = val.
Proof.
  intros Hv. destruct (uint_to_str_digits val Hv) as (ds & -> & Hds & Hval & _).
  unfold str_to_uint. unfold in_u in Hv. rewrite scan_uint_digits; auto; lia.
Qed.

Lemma int_back val : INT64_MIN < val <= INT64_MAX -> str_to_int (int_to_str val) = val.
Proof.
  intros Hv. unfold int_to_str. destruct (Z.eqb_spec val 0) as [->|]; [reflexivity|].
  destruct (Z.ltb_spec val 0).
  - rewrite swrap_small by mach.
    destruct (put_digits_spec digit_fuel (- val) []) as (ds & -> & Hds & Hval & _);
      [unfold digit_fuel; mach|].
    rewrite app_nil_r. unfold str_to_int. simpl scan_int.
    rewrite scan_int_digits by (auto; lia). rewrite Hval, swrap_small by mach. lia.
  - destruct (put_digits_spec digit_fuel val []) as (ds & -> & Hds & Hval & _);
      [unfold digit_fuel; mach|].
    rewrite app_nil_r. unfold str_to_int. rewrite scan_int_digits by (auto; lia). done.
Qed.

(** Reading back the text of any 64-bit unsigned value gives the value:
    [str_to_uint( uint_to_str( v ) ) == v]. *)
Theorem str_to_uint_to_str val : in_u 64 val -> str_to_uint (uint_to_str val) = val.
Proof. apply uint_back. Qed.

(** Reading back the text of any 64-bit signed value except the smallest
    gives the value; for [INT64_MIN] the negation in [int_to_str] overflows,
    the digits come out of the remainders of a negative number, and what is
    written is not a number ([-8] becomes the character before ['0'] by 8). *)
Theorem str_to_int_to_str val :
  INT64_MIN < val <= INT64_MAX -> str_to_int (int_to_str val) = val.
Proof. apply int_back. Qed.

(** What [INT64_MIN] is written as does not read back. *)
Lemma int_to_str_min :
  int_to_str INT64_MIN = bs "-'..--).0-*(+,))+(0(" /\ str_to_int (int_to_str INT64_MIN) = 0.
Proof. split; vm_compute; reflexivity. Qed.

(** ** Decimals *)

Lemma strip_zeros_spec fp : exists z, fp = strip_zeros fp ++ replicate z 48.
Proof.
  induction fp as [|c fp [z Hz]]; [exists O; reflexivity|]. simpl.
  destruct (strip_zeros fp) as [|d r] eqn:E; simpl in Hz.
  - destruct (Z.eqb_spec c 48) as [->|].
    + exists (S z). simpl. congruence.
    + exists z. simpl. congruence.
  - exists z. simpl. congruence.
Qed.

Lemma is_digits_strip fp : is_digits fp -> is_digits (strip_zeros fp).
Proof.
  intros Hf. destruct (strip_zeros_spec fp) as [z Hz]. rewrite Hz in Hf.
  apply Forall_app in Hf. tauto.
Qed.

Lemma dec_value_zeros acc z : dec_value acc (replicate z 48) = acc * 10 ^ Z.of_nat z.
Proof.
  revert acc; induction z as [|z IH]; intros acc; [simpl; lia|].
  cbn [replicate]. change (dec_value acc (48 :: replicate z 48))
    with (dec_value (dec_step acc 48) (replicate z 48)).
  rewrite IH, Nat2Z.inj_succ, Z.pow_succ_r by lia. unfold dec_step. lia.
Qed.

Lemma scan_dec_digits fuel s rest mant after :
  is_digits s -> (length (s ++ rest) <= fuel)%nat ->
  0 <= mant -> dec_value mant s < 2 ^ 63 ->
  scan_dec fuel (s ++ rest) mant after =
  scan_dec (fuel - length s) rest (dec_value mant s)
    ((fun k => k + Z.of_nat (length s)) <$> after).
Proof.
  revert fuel mant after; induction s as [|c s IH]; intros fuel mant after Hs Hf Hm Hb.
  - simpl. rewrite Nat.sub_0_r. f_equal. destruct after; simpl; [f_equal; lia | done].
  - apply Forall_cons_1 in Hs as [Hc Hs]. destruct fuel as [|fuel]; simpl in Hf; [lia|].
    cbn [app scan_dec]. rewrite Hc. apply isdigit_spec in Hc.
    change (dec_value mant (c :: s)) with (dec_value (dec_step mant c) s) in *.
    pose proof (dec_value_mono (dec_step mant c) s) as Hmono. unfold dec_step in *.
    specialize (Hmono ltac:(lia) Hs).
    rewrite swrap_small by (try lia; unfold in_s; simpl Z.sub; lia).
    rewrite IH by (try done; lia). simpl. f_equal.
    destruct after; simpl; [f_equal; lia | done].
Qed.

Lemma scan_dec_nil fuel mant after : scan_dec fuel [] mant after = Some (mant, after).
Proof. destruct fuel; reflexivity. Qed.

Lemma scan_dec_point ip fp :
  is_digits ip -> is_digits fp -> dec_value 0 (ip ++ strip_zeros fp) < 2 ^ 63 ->
  scan_dec (length (ip ++ 46 :: fp)) (ip ++ 46 :: fp) 0 None =
  Some (dec_value 0 (ip ++ strip_zeros fp), Some (Z.of_nat (length (strip_zeros fp)))).
Proof.
  intros Hi Hf Hb. rewrite dec_value_app in *.
  pose proof (is_digits_strip _ Hf) as Hsf. pose proof (dec_value_mono 0 ip) as H0.
  pose proof (dec_value_mono (dec_value 0 ip) (strip_zeros fp)) as H1.
  specialize (H0 ltac:(lia) Hi). specialize (H1 ltac:(lia) Hsf).
  rewrite scan_dec_digits by (try done; lia).
  rewrite length_app, Nat.add_comm, Nat.add_sub. cbn [length scan_dec isdigit].
  rewrite <- (app_nil_r (strip_zeros fp)) at 1.
  destruct (strip_zeros_spec fp) as [z Hz].
  rewrite scan_dec_digits.
  - rewrite scan_dec_nil. simpl. reflexivity.
  - done.
  - rewrite app_nil_r. rewrite Hz at 2. rewrite length_app. lia.
  - lia.
  - lia.
Qed.

Lemma iter_mul10_spec n m :
  0 <= m -> m * 10 ^ Z.of_nat n < 2 ^ 63 -> iter_mul10 n m = m * 10 ^ Z.of_nat n.
Proof.
  revert m; induction n as [|n IH]; intros m Hm Hb; [simpl; lia|].
  rewrite Nat2Z.inj_succ, Z.pow_succ_r in * by lia.
  assert (1 <= 10 ^ Z.of_nat n) by (apply (Z.pow_le_mono_r 10 0); lia).
  cbn [iter_mul10]. rewrite swrap_small by (try lia; unfold in_s; simpl Z.sub; nia).
  rewrite IH; lia.
Qed.

Lemma iter_div10_spec n m : 0 <= m -> iter_div10 n m = m / 10 ^ Z.of_nat n.
Proof.
  revert m; induction n as [|n IH]; intros m Hm; [rewrite Z.div_1_r; reflexivity|].
  cbn [iter_div10]. rewrite Z.quot_div_nonneg, IH by (try apply Z.div_pos; lia).
  rewrite Z.div_div by lia. f_equal. rewrite Nat2Z.inj_succ, Z.pow_succ_r by lia. done.
Qed.

(** The value [d * 10^(-k)] in units of [10^texpo], truncated. *)
Definition scaled (d k texpo : Z) : Z :=
  if texpo <=? - k then d * 10 ^ (- k - texpo) else d / 10 ^ (texpo + k).

Lemma scaled_shift d k z texpo :
  0 <= z -> scaled (d * 10 ^ z) (k + z) texpo = scaled d k texpo.
Proof.
  intros Hz. unfold scaled.
  destruct (Z.leb_spec texpo (- (k + z))), (Z.leb_spec texpo (- k)); try lia.
  - rewrite <- Z.mul_assoc, <- Z.pow_add_r by lia. do 2 f_equal. lia.
  - replace z with ((texpo + (k + z)) + (- k - texpo)) at 1 by lia.
    rewrite Z.pow_add_r, Z.mul_assoc, (Z.mul_comm d), <- Z.mul_assoc, Z.mul_comm by lia.
    apply Z.div_mul. apply Z.pow_nonzero; lia.
  - replace (texpo + (k + z)) with ((texpo + k) + z) by lia.
    rewrite Z.pow_add_r by lia.
    rewrite Z.div_mul_cancel_r; [done | apply Z.pow_nonzero; lia ..].
Qed.

Lemma scale_steps d k texpo :
  0 <= d -> scaled d k texpo < 2 ^ 63 ->
  iter_div10 (Z.to_nat (texpo - - k)) (iter_mul10 (Z.to_nat (- k - texpo)) d)
  = scaled d k texpo.
Proof.
  intros Hd Hb. unfold scaled in *. destruct (Z.leb_spec texpo (- k)).
  - replace (Z.to_nat (texpo - - k)) with O by lia. cbn [iter_div10].
    rewrite iter_mul10_spec; rewrite ?Z2Nat.id by lia; lia.
  - replace (Z.to_nat (- k - texpo)) with O by lia. cbn [iter_mul10].
    rewrite iter_div10_spec, Z2Nat.id by lia. do 2 f_equal. lia.
Qed.

Lemma skip_sign_digits (neg : bool) s :
  match s with c :: _ => isspace c = false /\ c <> 45 | [] => False end ->
  skip_sign ((if neg then [45] else []) ++ s) = (s, neg).
Proof.
  intros H. destruct neg; [reflexivity|]. destruct s as [|c s]; [done|].
  destruct H as [H1 H2%Z.eqb_neq]. simpl. rewrite H1, H2. done.
Qed.

Lemma digits_head ip fp : is_digits ip ->
  match ip ++ 46 :: fp with c :: _ => isspace c = false /\ c <> 45 | [] => False end.
Proof.
  intros Hi. destruct ip as [|c ip]; [split; [reflexivity|lia]|].
  apply Forall_cons_1 in Hi as [Hc%isdigit_spec _]. simpl. unfold isspace. lia.
Qed.

(** [str_to_dec] reads the decimal number [ip.fp], with or without a
    minus sign, in units of [10^texpo], truncated toward zero; trailing zeroes
    of the fraction make no difference.  The digits and the result must fit
    in 63 bits. *)
Theorem str_to_dec_decimal (neg : bool) ip fp texpo :
  is_digits ip -> is_digits fp ->
  dec_value 0 (ip ++ fp) < 2 ^ 63 ->
  scaled (dec_value 0 (ip ++ fp)) (Z.of_nat (length fp)) texpo < 2 ^ 63 ->
  str_to_dec ((if neg then [45] else []) ++ ip ++ 46 :: fp) texpo =
  (if neg then Z.opp else id)
    (scaled (dec_value 0 (ip ++ fp)) (Z.of_nat (length fp)) texpo).
Proof.
  intros Hi Hf Hd Hs. destruct (strip_zeros_spec fp) as [z Hz].
  pose proof (is_digits_strip _ Hf) as Hsf.
  assert (dec_value 0 (ip ++ fp) = dec_value 0 (ip ++ strip_zeros fp) * 10 ^ Z.of_nat z)
    as Hval by (rewrite Hz at 1; rewrite app_assoc, dec_value_app; apply dec_value_zeros).
  assert (Z.of_nat (length fp) = Z.of_nat (length (strip_zeros fp)) + Z.of_nat z) as Hlen
    by (rewrite Hz at 1; rewrite length_app, length_replicate; lia).
  rewrite Hval in Hd. rewrite Hval, Hlen, scaled_shift in * by lia.
  pose proof (dec_value_bound (ip ++ strip_zeros fp)) as Hbd.
  specialize (Hbd ltac:(apply Forall_app; auto)).
  assert (1 <= 10 ^ Z.of_nat z) by (apply (Z.pow_le_mono_r 10 0); lia).
  unfold str_to_dec.
  destruct ((if neg then [45] else []) ++ ip ++ 46 :: fp) eqn:E;
    [destruct neg, ip; discriminate | rewrite <- E; clear E].
  rewrite skip_sign_digits by (apply digits_head; done).
  rewrite scan_dec_point by (try done; nia). cbv beta iota zeta.
  rewrite scale_steps by (try done; lia). destruct neg; [|reflexivity].
  apply swrap_small; [lia|]. unfold in_s; simpl Z.sub. unfold scaled in *.
  destruct (Z.leb_spec texpo (- Z.of_nat (length (strip_zeros fp)))).
  - nia.
  - pose proof (Z.div_pos (dec_value 0 (ip ++ strip_zeros fp))
       (10 ^ (texpo + Z.of_nat (length (strip_zeros fp)))) ltac:(lia)
       ltac:(apply Z.pow_pos_nonneg; lia)). lia.
Qed.

(** ** Host and ports *)

Lemma split_colon_app host rest :
  58 ∉ host -> split_colon (host ++ 58 :: rest) = (host, Some rest).
Proof.
  induction host as [|c host IH]; intros Hc; simpl; [reflexivity|].
  apply not_elem_of_cons in Hc as [Hc%not_eq_sym%Z.eqb_neq Hh].
  rewrite Hc, (IH Hh). reflexivity.
Qed.

Lemma split_colon_none s : 58 ∉ s -> split_colon s = (s, None).
Proof.
  induction s as [|c s IH]; intros Hc; simpl; [reflexivity|].
  apply not_elem_of_cons in Hc as [Hc%not_eq_sym%Z.eqb_neq Hh].
  rewrite Hc, (IH Hh). reflexivity.
Qed.

Lemma stoi_digits_value s acc : is_digits s -> stoi_digits s acc = dec_value acc s.
Proof.
  revert acc; induction s as [|c s IH]; intros acc Hs; [reflexivity|].
  apply Forall_cons_1 in Hs as [Hc Hs]. simpl. rewrite Hc. apply IH. done.
Qed.

Lemma digits_no_colon s : is_digits s -> 58 ∉ s.
Proof.
  intros Hs Hin. unfold is_digits in Hs. rewrite Forall_forall in Hs.
  apply Hs in Hin. discriminate.
Qed.

Lemma stoi_port p : 0 <= p < 65536 -> stoi (uint_to_str p) = Some p.
Proof.
  intros Hp. destruct (uint_to_str_digits p) as (ds & -> & Hds & Hval & Hne); [mach|].
  destruct ds as [|c ds]; [done|]. pose proof Hds as Hall.
  apply Forall_cons_1 in Hds as [Hc Hds]. unfold stoi. simpl drop_space.
  pose proof Hc as Hc'%isdigit_spec.
  replace (isspace c) with false by (unfold isspace; lia).
  assert (forall A (x y z : A), match c with 45 => x | 43 => y | _ => z end = z) as Hsign.
  { intros. destruct c as [|q|q]; try lia.
    do 6 (destruct q as [q|q|]; try lia; try reflexivity). }
  rewrite Hsign, Hc, stoi_digits_value by done. rewrite Hval.
  rewrite bool_decide_true by mach. reflexivity.
Qed.

(** A host name without [':'] that is not one of the three hard-coded end
    points comes back unchanged from [host:port1:port2], with both ports. *)
Theorem get_host_port_ports host p1 p2 :
  58 ∉ host -> 0 <= p1 < 65536 -> 0 <= p2 < 65536 ->
  get_host_port (host ++ 58 :: uint_to_str p1 ++ 58 :: uint_to_str p2)
  = Some (host, p1, p2).
Proof.
  intros Hh H1 H2.
  assert (forall q, 58 ∉ q -> host ++ 58 :: uint_to_str p1 ++ 58 :: uint_to_str p2 <> q)
    as Hne by (intros q Hq <-; apply Hq; rewrite elem_of_app; right; left).
  unfold get_host_port, get_rpc_end_point.
  rewrite !decide_False by (apply Hne; by_decide).
  rewrite split_colon_app by done.
  destruct (uint_to_str_digits p1) as (d1 & E1 & Hd1 & _); [mach|].
  destruct (uint_to_str_digits p2) as (d2 & E2 & Hd2 & _); [mach|].
  rewrite split_colon_app by (rewrite E1; apply digits_no_colon; done).
  rewrite !stoi_port by done. reflexivity.
Qed.

(** ** Witnesses *)

Lemma str_to_uint_to_str_witness : str_to_uint (uint_to_str UINT64_MAX) = UINT64_MAX.
Proof. apply (str_to_uint_to_str UINT64_MAX). mach. Defined.

Lemma str_to_int_to_str_witness : str_to_int (int_to_str (- 90071)) = - 90071.
Proof. apply (str_to_int_to_str (- 90071)). lia. Defined.

Lemma str_to_dec_decimal_witness : str_to_dec (bs "-12.3400") (-3) = -12340.
Proof.
  refine (str_to_dec_decimal true (bs "12") (bs "3400") (-3) _ _ _ _);
    [repeat constructor | repeat constructor | vm_compute; reflexivity ..].
Defined.

Lemma get_host_port_ports_witness :
  get_host_port (bs "localhost:8899:8900") = Some (bs "localhost", 8899, 8900).
Proof.
  refine (get_host_port_ports (bs "localhost") 8899 8900 _ _ _); [|lia|lia].
  by_decide.
Defined.
