(* ===== verification/Base64.v ===== *)
(** * Base 64 ([pc/misc.cpp])

    [enc_base64] and [dec_base64], used for transactions, account data and
    the websocket handshake.  The group buffers [a3]/[a4] of the C loops are
    lists holding the characters collected so far. *)

From S2P Require Import Prelude.

Definition b64_alphabet : bytes :=
  bs "ABCDEFGHIJKLMNOPQRSTUVWXYZabcdefghijklmnopqrstuvwxyz0123456789+/".

Definition alpha (i : Z) : Z := nth (Z.to_nat i) b64_alphabet 0.

Definition a3_to_a4 (x y z : Z) : bytes :=
  [ Z.shiftr (Z.land x 252) 2;
    u8 (Z.shiftl (Z.land x 3) 4 + Z.shiftr (Z.land y 240) 4);
    u8 (Z.shiftl (Z.land y 15) 2 + Z.shiftr (Z.land z 192) 6);
    Z.land z 63 ].

Definition a4_to_a3 (p q r s : Z) : bytes :=
  [ u8 (Z.shiftl p 2 + Z.shiftr (Z.land q 48) 4);
    u8 (Z.shiftl (Z.land q 15) 4 + Z.shiftr (Z.land r 60) 2);
    u8 (Z.shiftl (Z.land r 3) 6 + s) ].

(** The [char] result converted to [uint8_t]: [-1] is 255. *)
Definition b64_lookup (c : Z) : Z :=
  if (65 <=? c) && (c <=? 90) then c - 65
  else if (97 <=? c) && (c <=? 122) then c - 71
  else if (48 <=? c) && (c <=? 57) then c + 4
  else if c =? 43 then 62
  else if c =? 47 then 63
  else 255.

Definition enc_base64_len (n : Z) : Z := (n + 2 - (n + 2) mod 3) / 3 * 4.

(** The main loop; the result pairs the output with the unfinished group. *)
Fixpoint enc_loop (inp : bytes) (a3 : bytes) (out : bytes) : bytes * bytes :=
  match inp with
  | [] => (out, a3)
  | c :: inp' =>
      match a3 ++ [c] with
      | [x; y; z] => enc_loop inp' [] (out ++ map alpha (a3_to_a4 x y z))
      | a3' => enc_loop inp' a3' out
      end
  end.

Definition enc_base64 (inp : bytes) : bytes :=
  let '(out, a3) := enc_loop inp [] [] in
  match a3 with
  | [] => out
  | _ =>
      let i := length a3 in
      match a3 ++ replicate (3 - i) 0 with
      | [x; y; z] =>
          out ++ map alpha (take (i + 1) (a3_to_a4 x y z)) ++ replicate (3 - i) 61
      | _ => out
      end
  end.

Fixpoint dec_loop (inp : bytes) (a4 : bytes) (out : bytes) : bytes * bytes :=
  match inp with
  | [] => (out, a4)
  | c :: inp' =>
      if c =? 61 then (out, a4)
      else
        match a4 ++ [c] with
        | [p; q; r; s] =>
            dec_loop inp' []
              (out ++ a4_to_a3 (b64_lookup p) (b64_lookup q) (b64_lookup r) (b64_lookup s))
        | a4' => dec_loop inp' a4' out
        end
  end.

Definition dec_base64 (inp : bytes) : bytes :=
  let '(out, a4) := dec_loop inp [] [] in
  match a4 with
  | [] => out
  | _ =>
      let i := length a4 in
      match map b64_lookup (a4 ++ replicate (4 - i) 0) with
      | [p; q; r; s] => out ++ take (i - 1) (a4_to_a3 p q r s)
      | _ => out
      end
  end.

(** ** Groups *)

Lemma alpha_lookup i : 0 <= i < 64 -> b64_lookup (alpha i) = i /\ alpha i <> 61.
Proof.
  intros Hi.
  assert (Forall (fun i => b64_lookup (alpha i) = i /\ alpha i <> 61) (seqZ 0 64)) as H
    by by_decide.
  rewrite Forall_forall in H. apply H, elem_of_seqZ. lia.
Qed.

Lemma land_ones_mod a n m : 0 <= n -> m = Z.ones n -> Z.land a m = a mod 2 ^ n.
Proof. intros Hn ->. apply Z.land_ones. done. Qed.

Ltac bits64 :=
  rewrite ?Z.shiftr_land; simpl (Z.shiftr 252 2); simpl (Z.shiftr 240 4);
  simpl (Z.shiftr 192 6); simpl (Z.shiftr 48 4); simpl (Z.shiftr 60 2);
  rewrite ?(fun a => land_ones_mod a 6 63), ?(fun a => land_ones_mod a 4 15),
    ?(fun a => land_ones_mod a 2 3) by (lia || reflexivity);
  rewrite ?Z.shiftr_div_pow2, ?Z.shiftl_mul_pow2 by lia;
  unfold wrap; simpl (2 ^ 2); simpl (2 ^ 4); simpl (2 ^ 6); simpl (2 ^ 8).

(** The two regroupings as base-4 and base-16 digits. *)
Lemma a3_to_a4_arith x y z :
  is_byte x -> is_byte y -> is_byte z ->
  a3_to_a4 x y z = [x / 4; x mod 4 * 16 + y / 16; y mod 16 * 4 + z / 64; z mod 64].
Proof.
  unfold is_byte, in_u; simpl (2 ^ 8). intros. unfold a3_to_a4. bits64.
  apply (f_equal2 cons); [|apply (f_equal2 cons); [|apply (f_equal2 cons)]]; try reflexivity;
    Z.to_euclidean_division_equations; lia.
Qed.

Lemma a4_to_a3_arith p q r s :
  0 <= p < 64 -> 0 <= q < 64 -> 0 <= r < 64 -> 0 <= s < 64 ->
  a4_to_a3 p q r s = [p * 4 + q / 16; q mod 16 * 16 + r / 4; r mod 4 * 64 + s].
Proof.
  intros. unfold a4_to_a3. bits64.
  apply (f_equal2 cons); [|apply (f_equal2 cons); [|apply (f_equal2 cons)]]; try reflexivity;
    Z.to_euclidean_division_equations; lia.
Qed.

Lemma a3_to_a4_digits x y z :
  is_byte x -> is_byte y -> is_byte z ->
  Forall (fun d => 0 <= d < 64) (a3_to_a4 x y z).
Proof.
  intros Hx Hy Hz. rewrite a3_to_a4_arith by done. unfold is_byte, in_u in *.
  simpl (2 ^ 8) in *. repeat constructor; Z.to_euclidean_division_equations; lia.
Qed.

Lemma a3_a4_inverse x y z :
  is_byte x -> is_byte y -> is_byte z ->
  match a3_to_a4 x y z with
  | [p; q; r; s] => a4_to_a3 p q r s = [x; y; z]
  | _ => False
  end.
Proof.
  intros Hx Hy Hz. pose proof (a3_to_a4_digits x y z Hx Hy Hz) as Hd.
  rewrite a3_to_a4_arith in * by done. decompose_Forall_hyps.
  rewrite a4_to_a3_arith by done. unfold is_byte, in_u in *. simpl (2 ^ 8) in *.
  apply (f_equal2 cons); [|apply (f_equal2 cons); [|apply (f_equal2 cons)]]; try reflexivity;
    Z.to_euclidean_division_equations; lia.
Qed.

(** A list in groups of three. *)
Lemma triples_ind (P : bytes -> Prop) :
  P [] -> (forall x, P [x]) -> (forall x y, P [x; y]) ->
  (forall x y z l, P l -> P (x :: y :: z :: l)) -> forall l, P l.
Proof.
  intros H0 H1 H2 H3 l. induction l as [l IH] using (induction_ltof1 _ (@length Z)).
  unfold ltof in IH. destruct l as [|x [|y [|z l]]]; auto.
  apply H3, IH. simpl. lia.
Qed.

Lemma enc_loop_out inp a3 out :
  enc_loop inp a3 out = let '(o, r) := enc_loop inp a3 [] in (out ++ o, r).
Proof.
  revert a3 out; induction inp as [|c inp IH]; intros a3 out; cbn [enc_loop].
  - rewrite app_nil_r. reflexivity.
  - destruct (a3 ++ [c]) as [|x [|y [|z [|w r]]]]; auto.
    rewrite IH. rewrite (IH [] ([] ++ _)).
    destruct (enc_loop inp [] []). rewrite app_assoc. reflexivity.
Qed.

Lemma dec_loop_out inp a4 out :
  dec_loop inp a4 out = let '(o, r) := dec_loop inp a4 [] in (out ++ o, r).
Proof.
  revert a4 out; induction inp as [|c inp IH]; intros a4 out; cbn [dec_loop].
  - rewrite app_nil_r. reflexivity.
  - destruct (c =? 61); [rewrite app_nil_r; reflexivity|].
    destruct (a4 ++ [c]) as [|p [|q [|r [|s [|w t]]]]]; auto.
    rewrite IH. rewrite (IH [] ([] ++ _)).
    destruct (dec_loop inp [] []). rewrite app_assoc. reflexivity.
Qed.

Lemma enc_base64_cons x y z l :
  enc_base64 (x :: y :: z :: l) = map alpha (a3_to_a4 x y z) ++ enc_base64 l.
Proof.
  unfold enc_base64. cbn [enc_loop app]. rewrite enc_loop_out.
  destruct (enc_loop l [] []) as [o r]. destruct r as [|u r]; [reflexivity|].
  cbv zeta. destruct ((u :: r) ++ _) as [|? [|? [|? [|? ?]]]]; rewrite <- ?app_assoc; reflexivity.
Qed.

Lemma dec_base64_group p q r s l :
  Forall (fun d => 0 <= d < 64) [p; q; r; s] ->
  dec_base64 (map alpha [p; q; r; s] ++ l) = a4_to_a3 p q r s ++ dec_base64 l.
Proof.
  intros H. decompose_Forall_hyps.
  repeat match goal with H : 0 <= ?d < 64 |- _ => apply alpha_lookup in H as [? ?%Z.eqb_neq] end.
  unfold dec_base64. cbn [map app dec_loop].
  repeat match goal with H : (alpha _ =? 61) = false |- _ => rewrite H; clear H end.
  repeat match goal with H : b64_lookup (alpha _) = _ |- _ => rewrite H; clear H end.
  cbn [app]. rewrite dec_loop_out. destruct (dec_loop l [] []) as [o t].
  destruct t as [|u t]; [reflexivity|].
  cbv zeta. destruct (map b64_lookup _) as [|? [|? [|? [|? [|? ?]]]]];
    rewrite <- ?app_assoc; reflexivity.
Qed.

Lemma bytes3 x y z l : is_bytes (x :: y :: z :: l) ->
  (is_byte x /\ is_byte y /\ is_byte z) /\ is_bytes l.
Proof. intros H. unfold is_bytes in *. decompose_Forall_hyps. auto. Qed.

Lemma enc_tail1 x : enc_base64 [x] = map alpha (take 2 (a3_to_a4 x 0 0)) ++ [61; 61].
Proof. reflexivity. Qed.
Lemma enc_tail2 x y : enc_base64 [x; y] = map alpha (take 3 (a3_to_a4 x y 0)) ++ [61].
Proof. reflexivity. Qed.

Lemma byte0 : is_byte 0.
Proof. unfold is_byte. mach. Qed.

(** The last group: the characters past the data do not reach the output. *)
Lemma dec_tail (x y : Z) (n : nat) :
  is_byte x -> is_byte y -> (n = 1%nat /\ y = 0 \/ n = 2%nat) ->
  dec_base64 (map alpha (take (n + 1) (a3_to_a4 x y 0)) ++ replicate (3 - n) 61)
  = take n [x; y].
Proof.
  intros Hx Hy Hn. pose proof (a3_to_a4_digits x y 0 Hx Hy byte0) as Hd.
  pose proof (a3_a4_inverse x y 0 Hx Hy byte0) as Hi.
  unfold a3_to_a4 in *. unfold a4_to_a3 in Hi. injection Hi as H1 H2 H3.
  decompose_Forall_hyps.
  repeat match goal with H : 0 <= ?d < 64 |- _ =>
    apply alpha_lookup in H as [? ?%Z.eqb_neq] end.
  destruct Hn as [[-> ->] | ->]; unfold dec_base64;
    cbn [Nat.add Nat.sub take map app dec_loop replicate];
    repeat match goal with H : (alpha _ =? 61) = false |- _ => rewrite H; clear H end;
    cbn [Z.eqb Pos.eqb app length Nat.sub map replicate];
    repeat match goal with H : b64_lookup (alpha _) = _ |- _ => rewrite H; clear H end;
    cbn [take a4_to_a3].
  - rewrite H1. reflexivity.
  - rewrite H1, H2. reflexivity.
Qed.

Lemma dec_enc l : is_bytes l -> dec_base64 (enc_base64 l) = l.
Proof.
  induction l as [|x|x y|x y z l IH] using triples_ind; intros Hl.
  - reflexivity.
  - rewrite enc_tail1. apply Forall_cons_1 in Hl as [Hx _].
    apply (dec_tail x 0 1); auto using byte0.
  - rewrite enc_tail2. unfold is_bytes in Hl; decompose_Forall_hyps.
    apply (dec_tail x y 2); auto.
  - apply bytes3 in Hl as [(Hx & Hy & Hz) Hl]. rewrite enc_base64_cons.
    pose proof (a3_to_a4_digits x y z Hx Hy Hz) as Hd.
    pose proof (a3_a4_inverse x y z Hx Hy Hz) as Hi.
    destruct (a3_to_a4 x y z) as [|p [|q [|r [|s [|? ?]]]]]; try done.
    rewrite dec_base64_group, Hi, IH by done. reflexivity.
Qed.

(** Decoding what [enc_base64] wrote gives back the bytes. *)
Theorem dec_enc_base64 l : is_bytes l -> dec_base64 (enc_base64 l) = l.
Proof. apply dec_enc. Qed.

(** [enc_base64] writes exactly the [enc_base64_len] characters its
    callers reserve. *)
Theorem length_enc_base64 l :
  Z.of_nat (length (enc_base64 l)) = enc_base64_len (Z.of_nat (length l)).
Proof.
  induction l as [|x|x y|x y z l IH] using triples_ind; [reflexivity..|].
  rewrite enc_base64_cons, length_app, Nat2Z.inj_add, IH. cbn [map a3_to_a4 length].
  unfold enc_base64_len. Z.to_euclidean_division_equations. lia.
Qed.

Lemma dec_enc_base64_witness : dec_base64 (enc_base64 (bs "pyth!")) = bs "pyth!".
Proof. apply (dec_enc_base64 (bs "pyth!")). apply bs_is_bytes. Defined.
