(* ===== verification/Base58.v ===== *)
(** * Base 58 ([pc/misc.cpp])

    [enc_base58] and [dec_base58], the text form of keys, hashes and
    signatures.

    The encoder fills the array [b58] from its end; here the array is read
    from the end, so position [i] of the list is [b58[size-1-i]].  The size of
    the array comes from a multiplication in [double], done with the IEEE 754
    operations of [SpecFloat].  An empty result stands for the [return 0] of
    the encoder. *)

From S2P Require Import Prelude.
From Stdlib Require Import SpecFloat.

Definition ALPHABET : bytes :=
  bs "123456789ABCDEFGHJKLMNPQRSTUVWXYZabcdefghijkmnopqrstuvwxyz".

(** [ALPHABET_MAP], converted to [uint32_t]: [-1] is [2^32 - 1]. *)
Definition ALPHABET_MAP : list Z :=
  let row (l : list Z) := map (wrap 32) l in
  replicate 48 (u32 (-1)) ++
  row [ -1;  0;  1;  2;  3;  4;  5;  6;  7;  8; -1; -1; -1; -1; -1; -1] ++
  row [ -1;  9; 10; 11; 12; 13; 14; 15; 16; -1; 17; 18; 19; 20; 21; -1] ++
  row [ 22; 23; 24; 25; 26; 27; 28; 29; 30; 31; 32; -1; -1; -1; -1; -1] ++
  row [ -1; 33; 34; 35; 36; 37; 38; 39; 40; 41; 42; 43; -1; 44; 45; 46] ++
  row [ 47; 48; 49; 50; 51; 52; 53; 54; 55; 56; 57; -1; -1; -1; -1; -1] ++
  replicate 128 (u32 (-1)).

(** ** Encoder *)

(** [const double iFactor = 1.3656...] as a binary64 value. *)
Definition iFactor : spec_float := S754_finite false 6150377928663688 (-52).

Definition double_of (z : Z) : spec_float := binary_normalize 53 1024 z 0 false.

(** Conversion of a non-negative [double] to [int]. *)
Definition trunc (x : spec_float) : Z :=
  match x with
  | S754_finite false m e => if e <? 0 then Z.pos m / 2 ^ (- e) else Z.pos m * 2 ^ e
  | _ => 0
  end.

Definition b58_size (n : nat) : nat :=
  Z.to_nat (trunc (SFadd 53 1024 (double_of 1)
                     (SFmul 53 1024 iFactor (double_of (Z.of_nat n))))).

(** The inner loop on the array [ds]; [len] is [length - i], the number of
    digits of the array still in use.  Returns the array, the carry left and
    the number of positions visited. *)
Fixpoint enc_carry (carry : Z) (len : nat) (ds : list Z) : list Z * Z * nat :=
  match ds with
  | [] => ([], carry, O)
  | d :: ds' =>
      if (carry =? 0) && (len =? 0)%nat then (ds, carry, O)
      else
        let carry := u32 (carry + 256 * d) in
        let '(r, c, n) := enc_carry (carry / 58) (pred len) ds' in
        (carry mod 58 :: r, c, S n)
  end.

(** The outer loop over the bytes after the leading zeroes; [None] is
    [if (carry) return 0]. *)
Fixpoint enc_bytes (src : bytes) (len : nat) (ds : list Z) : option (list Z * nat) :=
  match src with
  | [] => Some (ds, len)
  | b :: src' =>
      let '(ds, carry, n) := enc_carry b len ds in
      if carry =? 0 then enc_bytes src' n ds else None
  end.

Fixpoint count_head (x : Z) (l : list Z) : nat :=
  match l with
  | y :: l' => if y =? x then S (count_head x l') else O
  | [] => O
  end.

Fixpoint drop_head (x : Z) (l : list Z) : list Z :=
  match l with
  | y :: l' => if y =? x then drop_head x l' else l
  | [] => []
  end.

Definition enc_base58 (source : bytes) (reslen : Z) : bytes :=
  match source with
  | [] => []
  | _ =>
      let zeros := count_head 0 source in
      let rest := drop zeros source in
      let size := b58_size (length rest) in
      match enc_bytes rest O (replicate size 0) with
      | None => []
      | Some (ds, len) =>
          let digits := drop_head 0 (reverse (take len ds)) in
          if Z.of_nat zeros + Z.of_nat (length digits) + 1 >? reslen then []
          else replicate zeros 49 ++ map (fun d => nth (Z.to_nat d) ALPHABET 0) digits
      end
  end.

(** ** Decoder *)

(** [while (carry > 0)]: a 32-bit carry has at most four bytes. *)
Fixpoint push_carry (fuel : nat) (carry : Z) : bytes :=
  match fuel with
  | O => []
  | S fuel' =>
      if 0 <? carry then Z.land carry 255 :: push_carry fuel' (Z.shiftr carry 8) else []
  end.

Fixpoint dec_carry (carry : Z) (result : bytes) : bytes :=
  match result with
  | [] => push_carry 4 carry
  | r :: result' =>
      let carry := u32 (carry + u32 (r * 58)) in
      u8 (Z.land carry 255) :: dec_carry (Z.shiftr carry 8) result'
  end.

Fixpoint dec_chars (s : bytes) (result : bytes) : bytes :=
  match s with
  | [] => result
  | c :: s' =>
      let carry := nth (Z.to_nat c) ALPHABET_MAP 0 in
      if carry =? u32 (-1) then result else dec_chars s' (dec_carry carry result)
  end.

(** The swapping loop at the end, for [i] from [length - 1] down. *)
Definition swap_step (i : nat) (l : bytes) : bytes :=
  let j := (length l - i - 1)%nat in
  match l !! i, l !! j with
  | Some k, Some x => <[j:=k]> (<[i:=x]> l)
  | _, _ => l
  end.

Fixpoint swap_loop (count i : nat) (l : bytes) : bytes :=
  match count with
  | O => l
  | S count' => swap_loop count' (i - 1) (swap_step i l)
  end.

Definition swap_all (l : bytes) : bytes :=
  let n := length l in
  let z := Z.to_nat (Z.shiftr (Z.of_nat n) 1 + Z.land (Z.of_nat n) 1) in
  swap_loop (n - z) (n - 1) l.

Definition dec_base58 (s : bytes) : bytes :=
  let result := dec_chars s [0] in
  swap_all (result ++ replicate (count_head 49 s) 0).

(** ** The final reversal *)

Lemma length_swap_step i l : length (swap_step i l) = length l.
Proof. unfold swap_step. repeat case_match; rewrite ?length_insert; done. Qed.

Lemma lookup_swap_step i j (l : bytes) :
  (length l <= 2 * i + 1)%nat -> (i < length l)%nat ->
  swap_step i l !! j =
    if decide (j = i \/ j = (length l - i - 1)%nat) then l !! (length l - j - 1)%nat else l !! j.
Proof.
  intros Hi Hl. unfold swap_step.
  destruct (lookup_lt_is_Some_2 l i) as [k Hk]; [done|].
  destruct (lookup_lt_is_Some_2 l (length l - i - 1)) as [x Hx]; [lia|].
  rewrite Hk, Hx. case_decide as Hd.
  - destruct (decide (j = (length l - i - 1)%nat)) as [->|Hj].
    + rewrite list_lookup_insert_eq by (rewrite length_insert; lia).
      rewrite <- Hk. f_equal. lia.
    + destruct Hd as [->|]; [|done].
      rewrite list_lookup_insert_ne by done. rewrite list_lookup_insert_eq by done.
      rewrite <- Hx. f_equal.
  - rewrite !list_lookup_insert_ne by lia. done.
Qed.

Lemma lookup_swap_loop count i j (l : bytes) :
  (i < length l)%nat -> (count <= i + 1)%nat -> (length l <= 2 * (i + 1 - count) + 1)%nat ->
  swap_loop count i l !! j =
    if decide (i < j + count /\ j <= i \/ length l - i <= j + 1 /\ j + 1 < length l - i + count)%nat
    then l !! (length l - j - 1)%nat else l !! j.
Proof.
  revert i l; induction count as [|count IH]; intros i l Hi Hc Hl.
  - simpl. rewrite decide_False by lia. done.
  - cbn [swap_loop]. destruct count as [|count].
    + simpl. rewrite lookup_swap_step by lia.
      destruct (decide (_ \/ _)), (decide (_ \/ _)); try done; lia.
    + rewrite IH; rewrite ?length_swap_step; try lia.
      rewrite !lookup_swap_step by lia.
      repeat case_decide; try done; try lia; f_equal; lia.
Qed.

Lemma swap_all_reverse l : swap_all l = reverse l.
Proof.
  unfold swap_all. apply list_eq. intros j.
  assert (Z.shiftr (Z.of_nat (length l)) 1 + Z.land (Z.of_nat (length l)) 1
          = (Z.of_nat (length l) + 1) / 2) as Hz.
  { rewrite Z.shiftr_div_pow2 by lia. change 1 with (Z.ones 1) at 2.
    rewrite Z.land_ones by lia. simpl (2 ^ 1). Z.to_euclidean_division_equations. lia. }
  rewrite Hz. clear Hz. set (z := Z.to_nat _).
  assert (length l <= 2 * z <= length l + 1)%nat as Hz
    by (unfold z; Z.to_euclidean_division_equations; lia).
  destruct (decide (length l = O)) as [He|He].
  { apply length_zero_iff_nil in He as ->. reflexivity. }
  rewrite lookup_swap_loop by lia.
  destruct (decide (j < length l)%nat) as [Hj|Hj].
  - rewrite reverse_lookup by done. case_decide; f_equal; lia.
  - rewrite decide_False by lia. rewrite !lookup_ge_None_2; rewrite ?length_reverse; auto; lia.
Qed.

(** Whatever the text, what is decoded is bytes. *)
Lemma dec_carry_is_bytes result carry : is_bytes (dec_carry carry result).
Proof.
  assert (forall fuel c, is_bytes (push_carry fuel c)) as Hp.
  { intros fuel. induction fuel as [|fuel IH]; intros c; simpl; [constructor|].
    destruct (0 <? c); [|constructor]. constructor; [|apply IH]. change 255 with (Z.ones 8).
    rewrite Z.land_ones by lia. apply (Z.mod_pos_bound c (2 ^ 8)). lia. }
  revert carry. induction result as [|r result IH]; intros carry; cbn [dec_carry]; [apply Hp|].
  constructor; [|apply IH]. apply wrap_bound. lia.
Qed.

Lemma dec_base58_is_bytes s : is_bytes (dec_base58 s).
Proof.
  assert (forall s r, is_bytes r -> is_bytes (dec_chars s r)) as Hd.
  { clear s. intros s. induction s as [|c s IH]; intros r Hr; cbn [dec_chars]; [done|].
    destruct (_ =? _); [done|]. apply IH, dec_carry_is_bytes. }
  unfold dec_base58. rewrite swap_all_reverse. apply Forall_reverse, Forall_app_2.
  - apply Hd. repeat constructor; unfold is_byte, in_u; lia.
  - apply Forall_replicate. unfold is_byte, in_u. lia.
Qed.

(** ** Positional values *)

Fixpoint le58 (ds : list Z) : Z :=
  match ds with
  | [] => 0
  | d :: ds' => d + 58 * le58 ds'
  end.

Definition be_val (base acc : Z) (l : list Z) : Z := foldl (fun a d => a * base + d) acc l.

Definition is_digit58 (d : Z) : Prop := 0 <= d < 58.

Lemma be_val_zeros base k l : be_val base 0 (replicate k 0 ++ l) = be_val base 0 l.
Proof. unfold be_val. induction k as [|k IH]; [done|]. exact IH. Qed.

Lemma be58_reverse ds : be_val 58 0 (reverse ds) = le58 ds.
Proof.
  induction ds as [|d ds IH]; [reflexivity|]. unfold be_val in *.
  rewrite reverse_cons, foldl_app. cbn [foldl]. rewrite IH. simpl. lia.
Qed.

Lemma be256_reverse l : be_val 256 0 (reverse l) = of_le l.
Proof.
  induction l as [|b l IH]; [reflexivity|]. unfold be_val in *.
  rewrite reverse_cons, foldl_app. cbn [foldl]. rewrite IH. simpl. lia.
Qed.

Lemma le58_zeros ds : Forall (fun d => d = 0) ds -> le58 ds = 0.
Proof. induction 1; simpl; lia. Qed.

Lemma le58_take n ds : Forall (fun d => d = 0) (drop n ds) -> le58 (take n ds) = le58 ds.
Proof.
  revert ds; induction n as [|n IH]; intros [|d ds] H; simpl in *; try done.
  - apply Forall_cons_1 in H as [-> H]. rewrite le58_zeros by done. lia.
  - rewrite IH by done. lia.
Qed.

Lemma le58_bound ds : Forall is_digit58 ds -> 0 <= le58 ds < 58 ^ Z.of_nat (length ds).
Proof.
  unfold is_digit58. induction 1 as [|d ds Hd _ IH]; [simpl; lia|].
  cbn [le58 length]. rewrite Nat2Z.inj_succ, Z.pow_succ_r by lia. lia.
Qed.

Lemma be_val_shift base acc l :
  be_val base acc l = acc * base ^ Z.of_nat (length l) + be_val base 0 l.
Proof.
  revert acc; induction l as [|d l IH]; intros acc; [simpl; lia|].
  unfold be_val in *. cbn [foldl length]. rewrite (IH (acc * base + d)), (IH (0 * base + d)).
  rewrite Nat2Z.inj_succ, Z.pow_succ_r by lia. lia.
Qed.

Lemma be256_bound l : is_bytes l -> 0 <= be_val 256 0 l < 256 ^ Z.of_nat (length l).
Proof.
  induction 1 as [|b l Hb _ IH]; [simpl; lia|]. unfold is_byte, in_u in Hb.
  simpl (2 ^ 8) in Hb. change (be_val 256 0 (b :: l)) with (be_val 256 (0 * 256 + b) l).
  rewrite be_val_shift. cbn [length]. rewrite Nat2Z.inj_succ, Z.pow_succ_r by lia. nia.
Qed.

Lemma be256_mono acc l : 0 <= acc -> is_bytes l -> acc <= be_val 256 acc l.
Proof.
  intros Ha Hl. rewrite be_val_shift. pose proof (be256_bound l Hl).
  assert (1 <= 256 ^ Z.of_nat (length l)) by (apply (Z.pow_le_mono_r 256 0); lia). nia.
Qed.

(** ** The encoder computes the base-58 expansion *)

Lemma enc_carry_spec carry len ds r c n :
  enc_carry carry len ds = (r, c, n) -> 0 <= carry < 256 -> Forall is_digit58 ds ->
  Forall (fun d => d = 0) (drop len ds) ->
  length r = length ds /\ Forall is_digit58 r /\ 0 <= c < 256
  /\ le58 r + 58 ^ Z.of_nat (length ds) * c = 256 * le58 ds + carry
  /\ Forall (fun d => d = 0) (drop n r).
Proof.
  revert carry len r c n; induction ds as [|d ds IH]; intros carry len r c n E Hc Hd Hz;
    cbn [enc_carry] in E.
  - injection E as <- <- <-. split_and!; try done; simpl; lia.
  - apply Forall_cons_1 in Hd as [Hd Hds]. unfold is_digit58 in Hd.
    destruct ((carry =? 0) && (len =? 0)%nat) eqn:Ez.
    + apply andb_true_iff in Ez as [->%Z.eqb_eq ->%Nat.eqb_eq]. injection E as <- <- <-.
      change (Forall (fun d => d = 0) (d :: ds)) in Hz. pose proof (le58_zeros _ Hz) as H0.
      split_and!; [done | by constructor | lia | lia | rewrite H0; lia | done].
    + rewrite wrap_small in E by mach.
      destruct (enc_carry _ _ ds) as [[r' c'] n'] eqn:E'. injection E as <- <- <-.
      pose proof (Z.div_mod (carry + 256 * d) 58 ltac:(lia)) as Hdm.
      pose proof (Z.mod_pos_bound (carry + 256 * d) 58 ltac:(lia)) as Hm.
      destruct (IH _ _ _ _ _ E') as (Hl & Hr & Hc' & Hv & Hz').
      * split; [apply Z.div_pos; lia | apply Z.div_lt_upper_bound; lia].
      * done.
      * destruct len; simpl in *; [by apply Forall_cons_1 in Hz as [_ Hz] | done].
      * split_and!; try done; try lia; simpl length; try lia.
        -- constructor; done.
        -- rewrite Nat2Z.inj_succ, Z.pow_succ_r by lia. cbn [le58]. nia.
Qed.

Lemma enc_bytes_spec src len ds :
  is_bytes src -> Forall is_digit58 ds -> Forall (fun d => d = 0) (drop len ds) ->
  be_val 256 (le58 ds) src < 58 ^ Z.of_nat (length ds) ->
  exists ds' len', enc_bytes src len ds = Some (ds', len')
    /\ Forall is_digit58 ds' /\ Forall (fun d => d = 0) (drop len' ds')
    /\ length ds' = length ds /\ le58 ds' = be_val 256 (le58 ds) src.
Proof.
  intros Hs. revert len ds; induction Hs as [|b src Hb Hs IH]; intros len ds Hd Hz Hv.
  - exists ds, len. done.
  - cbn [enc_bytes]. destruct (enc_carry b len ds) as [[r c] n] eqn:E.
    unfold is_byte, in_u in Hb. simpl (2 ^ 8) in Hb.
    destruct (enc_carry_spec _ _ _ _ _ _ E Hb Hd Hz) as (Hl & Hr & Hc & Heq & Hz').
    unfold be_val in Hv |- *. cbn [foldl] in Hv |- *.
    change (foldl (fun a d => a * 256 + d)) with (be_val 256) in *.
    pose proof (le58_bound _ Hd) as Hbd. pose proof (le58_bound _ Hr) as Hbr.
    pose proof (be256_mono (le58 ds * 256 + b) src ltac:(lia) Hs) as Hm.
    assert (c = 0) as -> by nia. rewrite Z.eqb_refl.
    replace (le58 ds * 256 + b) with (le58 r) in * by lia.
    destruct (IH n r Hr Hz') as (ds' & len' & E' & ? & ? & ? & ?); [rewrite Hl; done|].
    exists ds', len'. rewrite Hl in *. done.
Qed.

Lemma count_drop_head x l :
  l = replicate (count_head x l) x ++ drop_head x l
  /\ drop (count_head x l) l = drop_head x l
  /\ head (drop_head x l) <> Some x.
Proof.
  induction l as [|y l (IH & IHd & IHh)]; [done|]. simpl.
  destruct (Z.eqb_spec y x) as [->|Hn]; simpl; [|split_and!; congruence].
  split_and!; [congruence | done | done].
Qed.

(** The array [b58] is large enough for keys, hashes and signatures. *)
Lemma b58_size_enough n : (n <= 64)%nat -> 256 ^ Z.of_nat n <= 58 ^ Z.of_nat (b58_size n).
Proof.
  intros Hn.
  assert (Forall (fun n => 256 ^ Z.of_nat n <= 58 ^ Z.of_nat (b58_size n)) (seq 0 65)) as H
    by by_decide.
  rewrite Forall_forall in H. apply H, elem_of_seq. lia.
Qed.

Lemma b58_size_split n z :
  (n <= 64)%nat -> (z <= n)%nat -> (z + b58_size (n - z) <= S (b58_size n))%nat.
Proof.
  intros Hn Hz.
  assert (Forall (fun n => Forall (fun z => z + b58_size (n - z) <= S (b58_size n))%nat
                             (seq 0 (S n))) (seq 0 65)) as H by by_decide.
  rewrite Forall_forall in H. specialize (H n ltac:(apply elem_of_seq; lia)).
  rewrite Forall_forall in H. apply H, elem_of_seq. lia.
Qed.

Definition alpha58 (d : Z) : Z := nth (Z.to_nat d) ALPHABET 0.

Lemma alpha58_map d : is_digit58 d ->
  nth (Z.to_nat (alpha58 d)) ALPHABET_MAP 0 = d /\ (alpha58 d = 49 <-> d = 0).
Proof.
  intros Hd.
  assert (Forall (fun d => nth (Z.to_nat (alpha58 d)) ALPHABET_MAP 0 = d
     /\ (alpha58 d = 49 <-> d = 0)) (seqZ 0 58)) as H by by_decide.
  rewrite Forall_forall in H. apply H, elem_of_seqZ. exact Hd.
Qed.

(** What the encoder returns: one ['1'] per leading zero byte, then the
    base-58 digits of the rest without leading zeroes. *)
Lemma enc_base58_spec l reslen :
  is_bytes l -> l <> [] -> (length l <= 64)%nat ->
  Z.of_nat (b58_size (length l)) + 2 <= reslen ->
  exists digits, enc_base58 l reslen = replicate (count_head 0 l) 49 ++ map alpha58 digits
    /\ Forall is_digit58 digits /\ head digits <> Some 0
    /\ be_val 58 0 digits = be_val 256 0 (drop_head 0 l).
Proof.
  intros Hl Hne Hlen Hres. pose proof (count_drop_head 0 l) as (Hsplit & Hdrop & _).
  unfold enc_base58. destruct l as [|b0 l0]; [done|]. set (l := b0 :: l0) in *.
  cbv zeta. rewrite Hdrop. set (rest := drop_head 0 l) in *. set (z := count_head 0 l) in *.
  assert (length l = z + length rest)%nat as Hll
    by (rewrite Hsplit, length_app, length_replicate; done).
  assert (is_bytes rest) as Hrest by (rewrite Hsplit in Hl; apply Forall_app in Hl; tauto).
  set (size := b58_size (length rest)).
  destruct (enc_bytes_spec rest O (replicate size 0)) as (ds & len & -> & Hd & Hz & Hlds & Hv).
  - done.
  - apply Forall_replicate. unfold is_digit58. lia.
  - apply Forall_drop, Forall_replicate. done.
  - rewrite length_replicate, (le58_zeros (replicate _ _)) by (apply Forall_replicate; done).
    pose proof (be256_bound rest Hrest). pose proof (b58_size_enough (length rest) ltac:(lia)) as Hbe.
    fold size in Hbe. lia.
  - rewrite (le58_zeros (replicate _ _)) in Hv by (apply Forall_replicate; done).
    pose proof (count_drop_head 0 (reverse (take len ds))) as (Hs2 & _ & Hh).
    set (digits := drop_head 0 (reverse (take len ds))) in *.
    assert (length digits <= size)%nat as Hdl.
    { apply (f_equal length) in Hs2.
      rewrite length_reverse, length_take, length_app, Hlds, !length_replicate in Hs2. lia. }
    pose proof (b58_size_split (length l) z ltac:(lia) ltac:(lia)) as Hsz.
    replace (length l - z)%nat with (length rest) in Hsz by lia. fold size in Hsz.
    destruct (_ >? reslen) eqn:Eg; [apply Z.gtb_lt in Eg; lia|].
    exists digits. split_and!; try done.
    + assert (Forall is_digit58 (reverse (take len ds))) as Hr
        by (apply Forall_reverse, Forall_take, Hd).
      rewrite Hs2 in Hr. apply Forall_app in Hr. tauto.
    + rewrite <- Hv, <- (le58_take len ds Hz), <- be58_reverse, Hs2.
      symmetry. apply be_val_zeros.
Qed.

(** ** The decoder *)

Lemma push_carry_small c : 0 <= c < 256 ->
  push_carry 4 c = if c =? 0 then [] else [c].
Proof.
  intros Hc. cbn [push_carry]. change 255 with (Z.ones 8). rewrite Z.land_ones by lia.
  rewrite Z.shiftr_div_pow2 by lia. simpl (2 ^ 8).
  rewrite Z.mod_small, Z.div_small by lia. simpl.
  destruct (Z.eqb_spec c 0) as [->|]; [reflexivity|].
  replace (0 <? c) with true by lia. reflexivity.
Qed.

(** Little-endian bytes without a zero at the most significant end, except
    for zero itself. *)
Definition minimal (rs : bytes) : Prop := is_bytes rs /\ (rs = [0] \/ exists b, last rs = Some b /\ b <> 0).

Lemma dec_carry_spec carry rs :
  0 <= carry < 58 -> is_bytes rs ->
  is_bytes (dec_carry carry rs) /\ of_le (dec_carry carry rs) = 58 * of_le rs + carry
  /\ (forall b, last rs = Some b -> b <> 0 \/ 0 < carry /\ length rs = 1%nat ->
      exists b', last (dec_carry carry rs) = Some b' /\ b' <> 0).
Proof.
  intros Hc Hrs. revert carry Hc; induction Hrs as [|r rs Hr Hrs IH]; intros carry Hc.
  - cbn [dec_carry]. rewrite push_carry_small by lia.
    destruct (Z.eqb_spec carry 0); (split_and!; [|simpl; lia | done]);
      repeat constructor; unfold is_byte, in_u; simpl; lia.
  - cbn [dec_carry]. unfold is_byte, in_u in Hr. simpl (2 ^ 8) in Hr.
    rewrite (wrap_small 32 (r * 58)), (wrap_small 32) by mach.
    change 255 with (Z.ones 8). rewrite Z.land_ones, Z.shiftr_div_pow2 by lia.
    unfold wrap; change (2 ^ 8) with 256. rewrite Z.mod_mod by lia.
    pose proof (Z.div_mod (carry + r * 58) 256 ltac:(lia)) as Hdm.
    pose proof (Z.mod_pos_bound (carry + r * 58) 256 ltac:(lia)) as Hm.
    destruct (IH ((carry + r * 58) / 256)) as (Hb & Hv & Hl); [lia|].
    split_and!.
    + constructor; [unfold is_byte, in_u; change (2 ^ 8) with 256; lia | done].
    + cbn [of_le]. rewrite Hv. lia.
    + intros b Hlast Hb0. destruct rs as [|r' rs].
      * injection Hlast as ->. cbn [dec_carry] in *. rewrite push_carry_small by lia.
        destruct (Z.eqb_spec ((carry + b * 58) / 256) 0); simpl; eexists; split; try done.
        simpl in Hb0. lia.
      * change (last (r :: r' :: rs)) with (last (r' :: rs)) in Hlast.
        destruct (Hl b Hlast) as (b' & Hb' & Hn); [left; destruct Hb0; [done|simpl in *; lia]|].
        exists b'. split; [|done]. rewrite last_cons, Hb'. done.
Qed.

Lemma dec_carry_minimal carry rs :
  0 <= carry < 58 -> minimal rs -> minimal (dec_carry carry rs).
Proof.
  intros Hc [Hb Hm]. destruct (dec_carry_spec carry rs Hc Hb) as (Hb' & _ & Hl).
  split; [done|]. destruct Hm as [->|(b & Hlast & Hn)].
  - destruct (decide (carry = 0)) as [->|]; [left; reflexivity|].
    right. apply (Hl 0); [done|]. right. simpl. lia.
  - right. apply (Hl b); auto.
Qed.

Lemma dec_chars_spec ds rs :
  Forall is_digit58 ds -> minimal rs ->
  minimal (dec_chars (map alpha58 ds) rs)
  /\ of_le (dec_chars (map alpha58 ds) rs) = be_val 58 (of_le rs) ds.
Proof.
  intros Hd; revert rs; induction Hd as [|d ds Hd _ IH]; intros rs Hm; [done|].
  cbn [map dec_chars]. destruct (alpha58_map d Hd) as [-> _].
  unfold is_digit58 in Hd. destruct (Z.eqb_spec d (u32 (-1))) as [E|_]; [vm_compute in E; lia|].
  destruct (dec_carry_spec d rs Hd (proj1 Hm)) as (_ & Hv & _).
  destruct (IH (dec_carry d rs)) as [Hm' ->]; [by apply dec_carry_minimal|].
  split; [done|]. rewrite Hv. unfold be_val; cbn [foldl]. f_equal. lia.
Qed.

Lemma dec_chars_app s t rs :
  Forall (fun c => nth (Z.to_nat c) ALPHABET_MAP 0 <> u32 (-1)) s ->
  dec_chars (s ++ t) rs = dec_chars t (dec_chars s rs).
Proof.
  revert rs; induction s as [|c s IH]; intros rs Hs; [reflexivity|].
  apply Forall_cons_1 in Hs as [Hc%Z.eqb_neq Hs]. cbn [app dec_chars]. rewrite Hc. auto.
Qed.

Lemma dec_chars_ones n rs : dec_chars (replicate n 49) rs = Nat.iter n (dec_carry 0) rs.
Proof.
  revert rs; induction n as [|n IH]; intros rs; [reflexivity|].
  cbn [replicate dec_chars]. rewrite Nat.iter_succ_r. apply IH.
Qed.

Lemma of_le_inj a b :
  is_bytes a -> is_bytes b -> of_le a = of_le b ->
  (forall x, last a = Some x -> x <> 0) -> (forall x, last b = Some x -> x <> 0) -> a = b.
Proof.
  assert (forall l, is_bytes l -> 0 <= of_le l) as Hpos.
  { induction 1 as [|? ? Hx ? ?]; simpl; [lia|]. unfold is_byte, in_u in Hx. lia. }
  assert (forall l, is_bytes l -> (forall x, last l = Some x -> x <> 0) -> of_le l = 0 -> l = [])
    as Hnil.
  { induction 1 as [|x l Hx Hl IH]; intros Hlast H0; [done|]. unfold is_byte, in_u in Hx.
    pose proof (Hpos l Hl). simpl in H0. destruct l as [|y l].
    - specialize (Hlast x eq_refl). simpl in H0. lia.
    - discriminate IH; [exact Hlast | lia]. }
  intros Ha; revert b; induction Ha as [|x a Hx Ha IH]; intros b Hb E La Lb.
  { symmetry. apply Hnil; auto. }
  destruct Hb as [|y b Hy Hb]; [apply Hnil; auto; constructor; auto|].
  unfold is_byte, in_u in *. simpl (2 ^ 8) in *. simpl in E.
  assert (x = y) as -> by lia. f_equal. apply IH; [done | lia | |].
  - intros z Hz. apply La. destruct a; [done|exact Hz].
  - intros z Hz. apply Lb. destruct b; [done|exact Hz].
Qed.

Lemma count_head_replicate n x l :
  head l <> Some x -> count_head x (replicate n x ++ l) = n.
Proof.
  intros Hl. induction n as [|n IH]; simpl.
  - destruct l as [|y l]; [done|]. simpl. destruct (Z.eqb_spec y x) as [->|]; [by destruct Hl|done].
  - rewrite Z.eqb_refl. congruence.
Qed.

Lemma minimal_zero : minimal [0].
Proof. split; [repeat constructor; unfold is_byte, in_u; simpl; lia | by left]. Qed.

Lemma dec_encoded n digits :
  Forall is_digit58 digits -> head digits <> Some 0 ->
  exists rs, dec_base58 (replicate n 49 ++ map alpha58 digits)
             = replicate n 0 ++ reverse rs
    /\ minimal rs /\ of_le rs = be_val 58 0 digits.
Proof.
  intros Hd Hh.
  assert (count_head 49 (replicate n 49 ++ map alpha58 digits) = n) as Hcount.
  { apply count_head_replicate. destruct Hd as [|d ds Hd _]; [done|]. simpl.
    destruct (alpha58_map d Hd) as [_ Hz]. intros [= E%Hz]. subst. done. }
  assert (forall n, Nat.iter n (dec_carry 0) [0] = [0]) as Hones.
  { clear. induction n as [|n IH]; [done|]. rewrite Nat.iter_succ, IH. reflexivity. }
  unfold dec_base58. rewrite Hcount, swap_all_reverse, reverse_app, reverse_replicate.
  eexists. split; [reflexivity|].
  rewrite dec_chars_app, dec_chars_ones, Hones by (apply Forall_replicate; vm_compute; done).
  apply dec_chars_spec; [done | apply minimal_zero].
Qed.

Lemma drop_head_nonzero l : drop_head 0 l = [] \/ exists x t, drop_head 0 l = x :: t /\ x <> 0.
Proof.
  destruct (drop_head 0 l) as [|x t] eqn:E; [by left|]. right. exists x, t.
  split; [done|]. intros ->. apply (proj2 (proj2 (count_drop_head 0 l))). rewrite E. done.
Qed.

Lemma dec_enc_nonzero l reslen :
  is_bytes l -> (length l <= 64)%nat -> Exists (fun b => b <> 0) l ->
  Z.of_nat (b58_size (length l)) + 2 <= reslen ->
  dec_base58 (enc_base58 l reslen) = l.
Proof.
  intros Hl Hlen Hnz Hres. assert (l <> []) as Hne by (intros ->; inversion Hnz).
  destruct (enc_base58_spec l reslen Hl Hne Hlen Hres) as (ds & -> & Hd & Hh & Hv).
  destruct (dec_encoded (count_head 0 l) ds Hd Hh) as (rs & -> & [Hrb Hmin] & Hval).
  pose proof (count_drop_head 0 l) as (Hsplit & _ & _). rewrite Hsplit at 2. f_equal.
  destruct (drop_head_nonzero l) as [E|(x & t & E & Hx)].
  - rewrite E, app_nil_r in Hsplit. rewrite Hsplit in Hnz.
    apply Exists_exists in Hnz as (y & Hy%elem_of_replicate & Hn). intuition congruence.
  - assert (is_bytes (drop_head 0 l)) as Hdb
      by (rewrite Hsplit in Hl; apply Forall_app in Hl; tauto).
    rewrite <- (reverse_involutive (drop_head 0 l)). f_equal.
    rewrite <- (reverse_involutive (drop_head 0 l)) in Hv. rewrite be256_reverse in Hv.
    apply of_le_inj; [done | by apply Forall_reverse | congruence | |].
    + destruct Hmin as [->|(b & Hlast & Hb)]; [|intros y Hy; congruence].
      exfalso. simpl in Hval. rewrite <- Hval in Hv. rewrite <- be256_reverse, reverse_involutive in Hv.
      rewrite E in Hv, Hdb. apply Forall_cons_1 in Hdb as [Hxb Ht].
      change (be_val 256 0 (x :: t)) with (be_val 256 (0 * 256 + x) t) in Hv.
      unfold is_byte, in_u in Hxb. pose proof (be256_mono (0 * 256 + x) t ltac:(lia) Ht). lia.
    + intros y. rewrite last_reverse, E. intros [= ->]. done.
Qed.

(** Base-58 decoding inverts encoding on every byte string of at most 64
    bytes that has a non-zero byte, given a result buffer of the size its
    callers use. *)
Theorem dec_enc_base58 l reslen :
  is_bytes l -> (length l <= 64)%nat -> Exists (fun b => b <> 0) l ->
  Z.of_nat (b58_size (length l)) + 2 <= reslen ->
  dec_base58 (enc_base58 l reslen) = l.
Proof. apply dec_enc_nonzero. Qed.

Lemma dec_enc_zeros n reslen :
  (0 < n <= 64)%nat -> Z.of_nat (b58_size n) + 2 <= reslen ->
  dec_base58 (enc_base58 (replicate n 0) reslen) = replicate (S n) 0.
Proof.
  intros Hn Hres.
  destruct (enc_base58_spec (replicate n 0) reslen) as (ds & -> & Hd & Hh & Hv);
    rewrite ?length_replicate; try lia; try done.
  { apply Forall_replicate. unfold is_byte. mach. }
  { destruct n; [lia|done]. }
  assert (count_head 0 (replicate n 0) = n) as Hc
    by (rewrite <- (app_nil_r (replicate n 0)); apply count_head_replicate; done).
  destruct (dec_encoded (count_head 0 (replicate n 0)) ds Hd Hh) as (rs & -> & [Hrb Hmin] & Hval).
  rewrite Hc in *.
  assert (drop_head 0 (replicate n 0) = []) as Hdrop.
  { clear. induction n; simpl; done. }
  rewrite Hdrop in Hv. rewrite Hv in Hval. unfold be_val in Hval; cbn [foldl] in Hval.
  destruct Hmin as [->|(b & Hlast & Hb)].
  - replace (S n) with (n + 1)%nat by lia. rewrite replicate_add. reflexivity.
  - assert (rs = []) as -> by
      (apply of_le_inj; [done | constructor | done | congruence | done]).
    discriminate.
Qed.

(** The all-zero byte string does not come back: [n] zero bytes are
    decoded as [n + 1], one more than the buffer of the key they came from. *)
Theorem dec_enc_base58_zeros n reslen :
  (0 < n <= 64)%nat -> Z.of_nat (b58_size n) + 2 <= reslen ->
  dec_base58 (enc_base58 (replicate n 0) reslen) = replicate (S n) 0.
Proof. apply dec_enc_zeros. Qed.

(** ** Witnesses *)

Lemma dec_enc_base58_witness :
  dec_base58 (enc_base58 [6; 167; 213; 23; 24; 199; 116; 201; 40; 86; 99; 152; 105; 29; 94; 182;
     139; 94; 184; 163; 155; 75; 109; 92; 115; 85; 91; 33; 0; 0; 0; 0] 64)
  = [6; 167; 213; 23; 24; 199; 116; 201; 40; 86; 99; 152; 105; 29; 94; 182;
     139; 94; 184; 163; 155; 75; 109; 92; 115; 85; 91; 33; 0; 0; 0; 0].
Proof.
  refine (dec_enc_base58 _ 64 _ _ _ _); [by_decide | simpl; lia | constructor; lia |].
  vm_compute. discriminate.
Defined.

Lemma dec_enc_base58_zeros_witness :
  length (dec_base58 (enc_base58 (replicate 32 0) 64)) = 33%nat.
Proof.
  rewrite (dec_enc_base58_zeros 32 64); [reflexivity | lia | vm_compute; discriminate].
Defined.
