(* ===== verification/DblList.v ===== *)
(** * Intrusive doubly-linked lists ([pc/dbl_list.hpp])

    The lists of users, pending requests and subscriptions.  Links live in
    the nodes, so a list is a pair of end pointers over a shared heap of
    nodes; a null pointer is [None] and dereferencing a pointer that is not
    in the heap has no result.  [dlist] says that an end-pointer pair
    represents a sequence of nodes, and the operations are shown to implement
    those of sequences without touching other nodes. *)

From S2P Require Import Prelude.

(** Identity of a node in the heap. *)
Abbreviation ptr := positive (only parsing).

(** The links a [prev_next<T>] node holds. *)
Record prev_next := mk_node { prev_ : option ptr; next_ : option ptr }.

(** [prev_next<T>::prev_next]. *)
Definition new_prev_next : prev_next := mk_node None None.

Abbreviation heap := (gmap ptr prev_next) (only parsing).

Record dbl_list := mk_dbl_list { hd_ : option ptr; tl_ : option ptr }.

Definition new_dbl_list : dbl_list := mk_dbl_list None None.
Definition clear (_ : dbl_list) : dbl_list := mk_dbl_list None None.
Definition empty (l : dbl_list) : bool := bool_decide (hd_ l = None).
Definition first (l : dbl_list) : option ptr := hd_ l.
Definition last (l : dbl_list) : option ptr := tl_ l.

Definition get_next (h : heap) (n : ptr) : option (option ptr) := next_ <$> h !! n.
Definition get_prev (h : heap) (n : ptr) : option (option ptr) := prev_ <$> h !! n.

Definition set_next (h : heap) (n : ptr) (x : option ptr) : option heap :=
  nd ← h !! n; Some (<[n := mk_node (prev_ nd) x]> h).
Definition set_prev (h : heap) (n : ptr) (x : option ptr) : option heap :=
  nd ← h !! n; Some (<[n := mk_node x (next_ nd)]> h).

Definition add (l : dbl_list) (n : ptr) (h : heap) : option (dbl_list * heap) :=
  h ← set_prev h n (tl_ l);
  h ← set_next h n None;
  match tl_ l with
  | Some t => h ← set_next h t (Some n); Some (mk_dbl_list (hd_ l) (Some n), h)
  | None => Some (mk_dbl_list (Some n) (Some n), h)
  end.

Definition del (l : dbl_list) (t : ptr) (h : heap) : option (dbl_list * heap) :=
  p ← get_prev h t;
  n ← get_next h t;
  '(hd, h) ← match p with
             | Some p => h ← set_next h p n; Some (hd_ l, h)
             | None => Some (n, h)
             end;
  '(tl, h) ← match n with
             | Some n => h ← set_prev h n p; Some (tl_ l, h)
             | None => Some (p, h)
             end;
  Some (mk_dbl_list hd tl, h).

(** The nodes a [for( p = first(); p; p = p->get_next() )] loop visits. *)
Fixpoint walk (fuel : nat) (h : heap) (p : option ptr) : option (list ptr) :=
  match p with
  | None => Some []
  | Some p =>
      match fuel with
      | O => None
      | S fuel' => n ← get_next h p; xs ← walk fuel' h n; Some (p :: xs)
      end
  end.

(** ** Representation *)

Fixpoint seg (h : heap) (p : option ptr) (xs : list ptr) (n : option ptr) : Prop :=
  match xs with
  | [] => True
  | x :: xs' =>
      h !! x = Some (mk_node p (match xs' with [] => n | y :: _ => Some y end))
      /\ seg h (Some x) xs' n
  end.

Definition end_of (p : option ptr) (xs : list ptr) : option ptr :=
  match list.last xs with Some x => Some x | None => p end.

Record dlist (h : heap) (l : dbl_list) (xs : list ptr) : Prop := {
  dlist_hd : hd_ l = head xs;
  dlist_tl : tl_ l = list.last xs;
  dlist_nodup : NoDup xs;
  dlist_seg : seg h None xs None
}.

Lemma seg_frame h p xs n x nd : x ∉ xs -> seg h p xs n -> seg (<[x := nd]> h) p xs n.
Proof.
  revert p; induction xs as [|y xs IH]; intros p Hx; [done|].
  apply not_elem_of_cons in Hx as [Hxy Hx]. intros [Hy Hs].
  split; [rewrite lookup_insert_ne by done; done | auto].
Qed.

Lemma seg_app h p xs ys n :
  seg h p (xs ++ ys) n <->
  seg h p xs (match ys with [] => n | y :: _ => Some y end) /\ seg h (end_of p xs) ys n.
Proof.
  revert p; induction xs as [|x xs IH]; intros p; [unfold end_of; simpl; tauto|].
  cbn [app seg]. rewrite IH. unfold end_of. rewrite last_cons.
  destruct xs as [|x' xs]; [destruct ys; simpl; tauto|].
  cbn [app]. destruct (list.last (x' :: xs)) eqn:E; [tauto|].
  apply last_None in E. done.
Qed.

Lemma seg_in h p xs n x : seg h p xs n -> x ∈ xs -> is_Some (h !! x).
Proof.
  revert p; induction xs as [|y xs IH]; intros p; [intros _ H; inversion H|].
  intros [Hy Hs] [->|Hx]%elem_of_cons; eauto.
Qed.

(** Redirecting the link that leaves a segment. *)
Lemma seg_set_last h p xs x n n' :
  x ∉ xs -> seg h p (xs ++ [x]) n ->
  seg (<[x := mk_node (end_of p xs) n']> h) p (xs ++ [x]) n'.
Proof.
  intros Hx [Hs [Hl _]]%seg_app. apply seg_app. cbn [seg] in *. split_and!.
  - apply seg_frame; done.
  - rewrite lookup_insert_eq. done.
  - done.
Qed.

(** Redirecting the link that enters a segment. *)
Lemma seg_set_first h p p' x xs n :
  x ∉ xs -> seg h p (x :: xs) n ->
  seg (<[x := mk_node p' (match xs with [] => n | y :: _ => Some y end)]> h) p' (x :: xs) n.
Proof.
  intros Hx [Hh Hs]. split; [rewrite lookup_insert_eq; done | apply seg_frame; done].
Qed.

Lemma new_dlist h : dlist h new_dbl_list [].
Proof. split; try done. apply NoDup_nil_2. Qed.

Definition same_outside (xs : list ptr) (h h' : heap) : Prop :=
  forall x, x ∉ xs -> h' !! x = h !! x.

(** Adding a node that is not in the list appends it: the call succeeds,
    the ends and links then represent the sequence with the node at its end,
    and no node outside the list is changed. *)
Theorem add_dlist h l xs n :
  dlist h l xs -> n ∉ xs -> is_Some (h !! n) ->
  exists l' h', add l n h = Some (l', h') /\ dlist h' l' (xs ++ [n])
    /\ same_outside (xs ++ [n]) h h'.
Proof.
  intros [Hhd Htl Hnd Hseg] Hn [nd Hnn].
  assert (NoDup (xs ++ [n])) as Hnd'.
  { apply NoDup_app. split_and!; [done | | apply NoDup_singleton].
    intros x Hx ->%list_elem_of_singleton. done. }
  unfold add, set_prev, set_next. rewrite Hnn. cbn. rewrite lookup_insert_eq. cbn.
  rewrite insert_insert_eq.
  destruct (snoc_cases xs) as [->|(ys & t & ->)].
  - simpl in Hhd, Htl. rewrite Htl. do 2 eexists. split; [reflexivity|]. split; [split; cbn|].
    + done.
    + done.
    + done.
    + rewrite lookup_insert_eq. done.
    + intros x Hx. rewrite lookup_insert_ne; [done|]. set_solver.
  - rewrite last_snoc in Htl. rewrite Htl. apply NoDup_app in Hnd as (_ & Ht & _).
    assert (t ∉ ys) as Hty by (intros H; apply (Ht t H); left).
    assert (t <> n) as Htn by set_solver.
    pose proof Hseg as [_ [Hlt _]]%seg_app. cbn in Hlt.
    rewrite lookup_insert_ne, Hlt by done. cbn. do 2 eexists. split; [reflexivity|].
    split; [split; cbn|].
    + rewrite Hhd. destruct ys; done.
    + rewrite last_snoc. done.
    + done.
    + apply (seg_app _ None (ys ++ [t]) [n]). split.
      * replace (mk_node _ (Some n)) with (mk_node (end_of None ys) (Some n)) by done.
        apply (seg_set_last _ None ys t None (Some n)); [done|].
        apply seg_frame; done.
      * split; [|done]. rewrite lookup_insert_ne by done. rewrite lookup_insert_eq.
        unfold end_of. rewrite last_snoc. done.
    + intros x Hx. rewrite !lookup_insert_ne by set_solver. done.
Qed.

Lemma end_of_snoc p ys x : end_of p (ys ++ [x]) = Some x.
Proof. unfold end_of. rewrite last_snoc. done. Qed.

Lemma seg_set_exit h p ys t nd n' :
  t ∉ ys -> seg h p (ys ++ [t]) nd ->
  exists h', set_next h t n' = Some h' /\ seg h' p (ys ++ [t]) n'
    /\ (forall x, x <> t -> h' !! x = h !! x).
Proof.
  intros Ht Hs. pose proof Hs as [_ [Hl _]]%seg_app. cbn in Hl.
  unfold set_next. rewrite Hl. cbn. eexists. split; [reflexivity|]. split.
  - exact (seg_set_last h p ys t nd n' Ht Hs).
  - intros x Hx. rewrite lookup_insert_ne by done. done.
Qed.

Lemma seg_set_entry h p p' x zs n :
  x ∉ zs -> seg h p (x :: zs) n ->
  exists h', set_prev h x p' = Some h' /\ seg h' p' (x :: zs) n
    /\ (forall y, y <> x -> h' !! y = h !! y).
Proof.
  intros Hx Hs. pose proof Hs as [Hh _]. unfold set_prev. rewrite Hh. cbn.
  eexists. split; [reflexivity|]. split.
  - exact (seg_set_first h p p' x zs n Hx Hs).
  - intros y Hy. rewrite lookup_insert_ne by done. done.
Qed.

Lemma seg_agree h h' p xs n :
  (forall x, x ∈ xs -> h' !! x = h !! x) -> seg h p xs n -> seg h' p xs n.
Proof.
  revert p; induction xs as [|x xs IH]; intros p Ha; [done|]. intros [Hx Hs].
  split; [rewrite Ha by (left); done | apply IH; [|done]].
  intros y Hy. apply Ha. by right.
Qed.

(** Deleting any node of the list, from either end or the middle, leaves
    the ends and links representing the sequence without it; the deleted node
    keeps its links, so a loop that fetched [get_next] first can go on, and
    no other node outside the list is changed. *)
Theorem del_dlist h l xs ys t :
  dlist h l (xs ++ t :: ys) ->
  exists l' h', del l t h = Some (l', h') /\ dlist h' l' (xs ++ ys)
    /\ h' !! t = h !! t /\ same_outside (xs ++ t :: ys) h h'.
Proof.
  intros [Hhd Htl Hnd Hseg].
  apply NoDup_app in Hnd as (Hndx & Hdis & Hndty).
  apply NoDup_cons in Hndty as [Hty Hndy].
  assert (t ∉ xs) as Htx by (intros H; apply (Hdis t H); left).
  assert (forall x, x ∈ xs -> x ∉ ys) as Hxy by (intros x H1 H2; apply (Hdis x H1); by right).
  assert (NoDup (xs ++ ys)) as Hnd' by (apply NoDup_app; auto).
  apply seg_app in Hseg as [Hsx [Ht Hsy]].
  unfold del, get_prev, get_next. rewrite Ht. cbn.
  destruct (snoc_cases xs) as [->|(xs' & p & ->)]; destruct ys as [|n ys']; cbn in *.
  - (* only node *)
    do 2 eexists. split; [reflexivity|]. split; [|done]. split; done.
  - (* first node *)
    rewrite NoDup_cons in Hndy. destruct Hndy as [Hny Hndy].
    destruct (seg_set_entry h (Some t) None n ys' None Hny Hsy) as (h' & -> & Hs' & Ho).
    cbn. do 2 eexists. split; [reflexivity|]. split; [split; cbn|].
    + done.
    + exact Htl.
    + exact Hnd'.
    + exact Hs'.
    + split; [rewrite Ho by set_solver; exact Ht | intros x Hx; apply Ho; set_solver].
  - (* last node *)
    apply NoDup_app in Hndx as (_ & Hd & _).
    assert (p ∉ xs') as Hp by (intros H; apply (Hd p H); left).
    rewrite end_of_snoc in *.
    destruct (seg_set_exit h None xs' p _ None Hp Hsx) as (h' & -> & Hs' & Ho).
    cbn. do 2 eexists. split; [reflexivity|]. rewrite app_nil_r in *.
    split; [split; cbn; try done|].
    + rewrite Hhd. destruct xs'; done.
    + rewrite last_snoc. done.
    + split; [rewrite Ho by set_solver; exact Ht | intros x Hx; apply Ho; set_solver].
  - (* middle node *)
    apply NoDup_app in Hndx as (_ & Hd & _).
    assert (p ∉ xs') as Hp by (intros H; apply (Hd p H); left).
    rewrite NoDup_cons in Hndy. destruct Hndy as [Hny Hndy].
    rewrite end_of_snoc in *.
    destruct (seg_set_exit h None xs' p _ (Some n) Hp Hsx) as (h1 & -> & Hs1 & Ho1).
    cbn.
    assert (seg h1 (Some t) (n :: ys') None) as Hsy1
      by (apply (seg_agree h); [intros x Hx; apply Ho1; set_solver | exact Hsy]).
    destruct (seg_set_entry h1 (Some t) (Some p) n ys' None Hny Hsy1) as (h2 & -> & Hs2 & Ho2).
    cbn. do 2 eexists. split; [reflexivity|]. split; [split; cbn|].
    + rewrite Hhd. destruct xs'; done.
    + rewrite Htl, !last_app, last_cons_cons. destruct (list.last (n :: ys')) eqn:E; [done|].
      apply last_None in E. done.
    + done.
    + apply seg_app. split; [|rewrite end_of_snoc; exact Hs2].
      apply (seg_agree h1); [intros x Hx; apply Ho2; set_solver | exact Hs1].
    + split; [rewrite Ho2, Ho1 by set_solver; exact Ht|].
      intros x Hx. rewrite Ho2, Ho1 by set_solver. done.
Qed.

Lemma walk_seg h p xs fuel :
  seg h p xs None -> (length xs <= fuel)%nat -> walk fuel h (head xs) = Some xs.
Proof.
  revert p fuel; induction xs as [|x xs IH]; intros p fuel Hs Hf; [destruct fuel; done|].
  destruct fuel as [|fuel]; simpl in Hf; [lia|]. destruct Hs as [Hx Hs].
  cbn [head walk]. unfold get_next. rewrite Hx. cbn.
  specialize (IH (Some x) fuel Hs ltac:(lia)).
  destruct xs as [|y xs]; cbn [head] in IH; rewrite IH; done.
Qed.

(** The iteration from [first] along [get_next] ends after one step per
    node and visits exactly the represented sequence, in insertion order. *)
Theorem walk_dlist h l xs fuel :
  dlist h l xs -> (length xs <= fuel)%nat -> walk fuel h (first l) = Some xs.
Proof.
  intros [Hhd _ _ Hs] Hf. unfold first. rewrite Hhd. eapply walk_seg; eauto.
Qed.

(** ** Witnesses *)

Definition sample_heap : gmap ptr prev_next :=
  list_to_map [(1%positive, new_prev_next); (2%positive, new_prev_next);
               (3%positive, new_prev_next)].

(** Three nodes added in the order 1, 2, 3. *)
Definition sample_list : option (dbl_list * gmap ptr prev_next) :=
  '(l, h) ← add new_dbl_list 1%positive sample_heap;
  '(l, h) ← add l 2%positive h;
  add l 3%positive h.

Lemma sample_dlist (l : dbl_list) (h : gmap ptr prev_next) :
  sample_list = Some (l, h) -> dlist h l [1; 2; 3]%positive.
Proof.
  intros E. vm_compute in E. injection E as <- <-.
  split; [done | done | by_decide | vm_compute; auto].
Qed.

Lemma add_dlist_witness :
  exists l' h', add new_dbl_list 2%positive sample_heap = Some (l', h')
    /\ dlist h' l' [2%positive].
Proof.
  destruct (add_dlist sample_heap new_dbl_list [] 2%positive) as (l' & h' & E & H & _).
  - apply new_dlist.
  - apply not_elem_of_nil.
  - vm_compute. eexists. reflexivity.
  - exists l', h'. split; [exact E | exact H].
Defined.

Lemma del_dlist_witness :
  exists l h l' h', sample_list = Some (l, h) /\ del l 2%positive h = Some (l', h')
    /\ dlist h' l' [1; 3]%positive.
Proof.
  destruct sample_list as [[l h]|] eqn:E; [|vm_compute in E; discriminate].
  destruct (del_dlist h l [1%positive] [3%positive] 2%positive) as (l' & h' & Ed & H & _).
  - apply sample_dlist. exact E.
  - exists l, h, l', h'. split; [reflexivity|]. split; [exact Ed | exact H].
Defined.

Lemma walk_dlist_witness :
  exists l h, sample_list = Some (l, h) /\ walk 3 h (first l) = Some [1; 2; 3]%positive.
Proof.
  destruct sample_list as [[l h]|] eqn:E; [|vm_compute in E; discriminate].
  exists l, h. split; [reflexivity|].
  apply (walk_dlist h l [1; 2; 3]%positive 3); [apply sample_dlist; exact E | simpl; lia].
Defined.
