(* ===== verification/HashMap.v ===== *)
(** * Chained hash map ([pc/hash_map.hpp])

    The map of price accounts, RPC account subscriptions, attribute names and
    cluster nodes.  Nodes live in one vector addressed by index, index 0 being
    the null link; every hash slot heads a chain of nodes, and erased nodes
    are kept on a free chain.  An [iter_t] is the address of the link that
    leads to a node.  [repr] relates this layout to a finite map, and the
    operations are shown to be those of the finite map. *)

From S2P Require Import Prelude.

(** [T::idx_t] is a 32-bit index in every instance. *)
Abbreviation idx_t := Z (only parsing).

(** [iter_t]: the address of a hash-table slot or of a node's link. *)
Inductive iter_t := at_tab (i : Z) | at_nxt (j : idx_t).

Section hash_map.
Context {key_t val_t : Type} {Hek : EqDecision key_t} {Hck : Countable key_t}.
Context {Hik : Inhabited key_t} {Hiv : Inhabited val_t}.
(** [T::hsize_] and the hash functor [T::hash_t]. *)
Context (hsize_ : Z) (hfn_ : key_t -> Z).

Record node := mk_node { nxt_ : idx_t; key_ : key_t; val_ : val_t }.
Record hash_map := mk_hash_map {
  nvec_ : list node; htab_ : list idx_t; rhd_ : idx_t; nval_ : Z }.

(** A value-initialised node. *)
Definition empty_node : node := mk_node 0 inhabitant inhabitant.

Definition new_hash_map : hash_map :=
  mk_hash_map [empty_node] (replicate (Z.to_nat hsize_) 0) 0 0.

Definition at_idx {A} (l : list A) (i : Z) : option A := l !! Z.to_nat i.
Definition put_idx {A} (l : list A) (i : Z) (x : A) : option (list A) :=
  if bool_decide (Z.to_nat i < length l)%nat then Some (<[Z.to_nat i := x]> l) else None.

(** [*p] and [*p = x]. *)
Definition deref (m : hash_map) (p : iter_t) : option idx_t :=
  match p with
  | at_tab i => at_idx (htab_ m) i
  | at_nxt j => nxt_ <$> at_idx (nvec_ m) j
  end.
Definition set_nvec (m : hash_map) nv := mk_hash_map nv (htab_ m) (rhd_ m) (nval_ m).
Definition set_nxt (m : hash_map) (j x : idx_t) : option hash_map :=
  nd ← at_idx (nvec_ m) j;
  nv ← put_idx (nvec_ m) j (mk_node x (key_ nd) (val_ nd));
  Some (set_nvec m nv).
Definition assign (m : hash_map) (p : iter_t) (x : idx_t) : option hash_map :=
  match p with
  | at_tab i => ht ← put_idx (htab_ m) i x;
                Some (mk_hash_map (nvec_ m) ht (rhd_ m) (nval_ m))
  | at_nxt j => set_nxt m j x
  end.

Definition slot (k : key_t) : Z := hfn_ k mod hsize_.

(** The loop of [find]; a walk that does not end in [fuel] steps has no
    result. *)
Fixpoint find_from (fuel : nat) (m : hash_map) (k : key_t) (p : iter_t)
  : option (option iter_t) :=
  match fuel with
  | O => None
  | S fuel' =>
      j ← deref m p;
      if decide (j = 0) then Some None else
      nd ← at_idx (nvec_ m) j;
      if decide (k = key_ nd) then Some (Some p) else find_from fuel' m k (at_nxt j)
  end.

Definition find (m : hash_map) (k : key_t) : option (option iter_t) :=
  find_from (S (length (nvec_ m))) m k (at_tab (slot k)).

Definition del (m : hash_map) (i : iter_t) : option hash_map :=
  it ← deref m i;
  nd ← at_idx (nvec_ m) it;
  m ← assign m i (nxt_ nd);
  m ← set_nxt m it (rhd_ m);
  Some (mk_hash_map (nvec_ m) (htab_ m) it (wrap 64 (nval_ m - 1))).

(** The node [add] uses: the head of the free chain, else a new one. *)
Definition take_node (m : hash_map) : option (idx_t * hash_map) :=
  if decide (rhd_ m = 0) then
    let res := wrap 32 (Z.of_nat (length (nvec_ m))) in
    (* resize( 1 + res ) *)
    let n := Z.to_nat (1 + res) in
    Some (res, set_nvec m (take n (nvec_ m) ++
                           replicate (n - length (nvec_ m)) empty_node))
  else
    nd ← at_idx (nvec_ m) (rhd_ m);
    Some (rhd_ m, mk_hash_map (nvec_ m) (htab_ m) (nxt_ nd) (nval_ m)).

Definition add (m : hash_map) (k : key_t) : option (iter_t * hash_map) :=
  '(res, m) ← take_node m;
  n ← at_idx (htab_ m) (slot k);
  ht ← put_idx (htab_ m) (slot k) res;
  nd ← at_idx (nvec_ m) res;
  nv ← put_idx (nvec_ m) res (mk_node n k (val_ nd));
  Some (at_tab (slot k), mk_hash_map nv ht (rhd_ m) (wrap 64 (nval_ m + 1))).

Definition obj (m : hash_map) (i : iter_t) : option val_t :=
  j ← deref m i; val_ <$> at_idx (nvec_ m) j.

(** [ref( i ) = v]. *)
Definition set_ref (m : hash_map) (i : iter_t) (v : val_t) : option hash_map :=
  j ← deref m i;
  nd ← at_idx (nvec_ m) j;
  nv ← put_idx (nvec_ m) j (mk_node (nxt_ nd) (key_ nd) v);
  Some (set_nvec m nv).

Definition size (m : hash_map) : Z := nval_ m.
Definition clear (m : hash_map) : hash_map :=
  mk_hash_map (take 1 (nvec_ m) ++ replicate (1 - length (nvec_ m)) empty_node)
    (replicate (length (htab_ m)) 0) 0 0.

(** ** Representation of a finite map *)

(** Following the links from [p] passes the nodes [l] and arrives at [q]. *)
Fixpoint path (nv : list node) (p : idx_t) (l : list idx_t) (q : idx_t) : Prop :=
  match l with
  | [] => p = q
  | j :: l' => p = j /\ 0 < j /\ exists nd, at_idx nv j = Some nd /\ path nv (nxt_ nd) l' q
  end.

Definition key_at (nv : list node) (j : idx_t) : option key_t := key_ <$> at_idx nv j.
Definition val_at (nv : list node) (j : idx_t) : option val_t := val_ <$> at_idx nv j.

(** Each key is in the chain of its slot, once. *)
Record keyed (nv : list node) (chain : Z -> list idx_t) : Prop := {
  key_nodup i : 0 <= i < hsize_ -> NoDup (key_at nv <$> chain i);
  key_slot i j k : 0 <= i < hsize_ -> j ∈ chain i -> key_at nv j = Some k -> slot k = i }.

(** [chain i] lists the nodes of slot [i], [free] the erased ones. *)
Record layout (m : hash_map) (chain : Z -> list idx_t) (free : list idx_t) : Prop := {
  lay_zero : (1 <= length (nvec_ m))%nat;
  lay_tab i : 0 <= i < hsize_ ->
    exists p, at_idx (htab_ m) i = Some p /\ path (nvec_ m) p (chain i) 0;
  lay_free : path (nvec_ m) (rhd_ m) free 0;
  lay_free_nodup : NoDup free;
  lay_disj i j : 0 <= i < hsize_ -> j ∈ chain i -> j ∉ free;
  lay_keyed : keyed (nvec_ m) chain }.

Lemma keyed_agree nv nv' chain :
  (forall i j, 0 <= i < hsize_ -> j ∈ chain i -> key_at nv' j = key_at nv j) ->
  keyed nv chain -> keyed nv' chain.
Proof.
  intros Ha [Hn Hs]. split.
  - intros i Hi. replace (key_at nv' <$> chain i) with (key_at nv <$> chain i); [auto|].
    apply list_fmap_ext. intros x j Hj%list_elem_of_lookup_2. symmetry. eauto.
  - intros i j k Hi Hj. rewrite (Ha i j Hi Hj). eauto.
Qed.

Lemma at_idx_insert {A} (l : list A) i j x y :
  0 <= i -> 0 <= j -> at_idx l i = Some y ->
  at_idx (<[Z.to_nat i := x]> l) j = if decide (i = j) then Some x else at_idx l j.
Proof.
  intros Hi Hj Hy. unfold at_idx in *. apply lookup_lt_Some in Hy. destruct (decide (i = j)) as [->|].
  - apply list_lookup_insert_eq. done.
  - apply list_lookup_insert_ne. lia.
Qed.

Lemma put_idx_ok {A} (l : list A) i x y :
  at_idx l i = Some y -> put_idx l i x = Some (<[Z.to_nat i := x]> l).
Proof.
  unfold at_idx, put_idx. intros Hy%lookup_lt_Some. rewrite bool_decide_true by done. done.
Qed.

Lemma path_pos nv p l q j : path nv p l q -> j ∈ l -> 0 < j.
Proof.
  revert p; induction l as [|x l IH]; intros p; [intros _ H2; inversion H2|].
  intros (-> & Hx & nd & _ & Hp) [->|Hj]%elem_of_cons; eauto.
Qed.

Lemma path_at nv p l q j : path nv p l q -> j ∈ l -> is_Some (at_idx nv j).
Proof.
  revert p; induction l as [|x l IH]; intros p; [intros _ H2; inversion H2|].
  intros (-> & Hx & nd & Hn & Hp) [->|Hj]%elem_of_cons; eauto.
Qed.

Lemma path_app nv p l1 l2 q :
  path nv p (l1 ++ l2) q <-> exists r, path nv p l1 r /\ path nv r l2 q.
Proof.
  revert p; induction l1 as [|x l1 IH]; intros p; simpl.
  - split; [intros; exists p; done | intros (r & -> & ?); done].
  - split.
    + intros (-> & Hx & nd & Hn & (r & H1 & H2)%IH).
      exists r. split; [|done]. split_and!; [done|done|]. exists nd. done.
    + intros (r & (-> & Hx & nd & Hn & H1) & H2). split_and!; [done|done|].
      exists nd. split; [done|]. apply IH. exists r. done.
Qed.

Lemma path_agree nv nv' p l q :
  (forall j, j ∈ l -> 0 < j -> nxt_ <$> at_idx nv' j = nxt_ <$> at_idx nv j) ->
  path nv p l q -> path nv' p l q.
Proof.
  revert p; induction l as [|x l IH]; intros p Ha; [done|].
  intros (-> & Hx & nd & Hn & Hp). split_and!; [done|done|].
  pose proof (Ha x ltac:(left) Hx) as Hax. rewrite Hn in Hax. simpl in Hax.
  destruct (at_idx nv' x) as [nd'|] eqn:E; [|discriminate]. injection Hax as Hax.
  exists nd'. split; [done|]. rewrite Hax. apply IH; [|done].
  intros j Hj. apply Ha. by right.
Qed.

(** [path]s over a vector in which a node off the path was replaced. *)
Lemma path_insert nv p l q j nd nd' :
  0 <= j -> at_idx nv j = Some nd' -> j ∉ l ->
  path nv p l q -> path (<[Z.to_nat j := nd]> nv) p l q.
Proof.
  intros Hj Hn Hl. apply path_agree. intros x Hx Hx0.
  rewrite (at_idx_insert _ _ _ _ nd' Hj) by (lia || done). rewrite decide_False; [done|].
  intros ->. done.
Qed.

(** Redirecting the link that leaves a path. *)
Lemma path_relink nv p l x q nd q' :
  x ∉ l -> path nv p (l ++ [x]) q -> at_idx nv x = Some nd ->
  path (<[Z.to_nat x := mk_node q' (key_ nd) (val_ nd)]> nv) p (l ++ [x]) q'.
Proof.
  intros Hx (r & Hp & -> & Hr & nd' & Hn & Hq)%path_app Hnd. apply path_app.
  exists x. split; [eapply path_insert; eauto; lia|]. split; [done|]. split; [done|].
  exists (mk_node q' (key_ nd) (val_ nd)). split; [|done].
  rewrite (at_idx_insert _ _ _ _ nd) by (lia || done). rewrite decide_True by done. done.
Qed.

(** A path has fewer nodes than the vector: the walk terminates. *)
Lemma path_length nv p l q : path nv p l q -> NoDup l -> (length l <= length nv)%nat.
Proof.
  intros Hp Hnd. rewrite <- (length_fmap Z.to_nat l), <- (length_seq (length nv) 0).
  apply submseteq_length, NoDup_submseteq.
  - apply NoDup_fmap_2_strong; [|done].
    intros x y Hx Hy. pose proof (path_pos _ _ _ _ _ Hp Hx).
    pose proof (path_pos _ _ _ _ _ Hp Hy). lia.
  - intros i (x & -> & Hx)%list_elem_of_fmap.
    destruct (path_at _ _ _ _ _ Hp Hx) as [nd Hn]. apply lookup_lt_Some in Hn.
    apply elem_of_seq. lia.
Qed.

(** The link that leads to the node after [l] on a chain entered at [p]. *)
Definition link_of (p : iter_t) (l : list idx_t) : iter_t :=
  match list.last l with Some x => at_nxt x | None => p end.

Lemma link_of_cons p j l : link_of p (j :: l) = link_of (at_nxt j) l.
Proof. unfold link_of. rewrite last_cons. destruct (list.last l); done. Qed.

Lemma find_from_spec fuel m k p start l :
  deref m p = Some start -> path (nvec_ m) start l 0 -> (length l < fuel)%nat ->
  (find_from fuel m k p = Some None /\ forall j, j ∈ l -> key_at (nvec_ m) j <> Some k)
  \/ exists l1 j l2, l = l1 ++ j :: l2 /\ key_at (nvec_ m) j = Some k
       /\ find_from fuel m k p = Some (Some (link_of p l1)).
Proof.
  revert fuel p start; induction l as [|j l IH]; intros fuel p start Hd Hp Hf;
    (destruct fuel as [|fuel]; [simpl in Hf; lia|]); simpl find_from; rewrite Hd; simpl.
  - left. simpl in Hp. subst start. rewrite decide_True by done. split; [done|].
    intros j Hj. inversion Hj.
  - destruct Hp as (-> & Hj & nd & Hn & Hp). rewrite decide_False by lia. rewrite Hn. simpl.
    assert (key_at (nvec_ m) j = Some (key_ nd)) as Hk by (unfold key_at; rewrite Hn; done).
    destruct (decide (k = key_ nd)) as [->|Hne].
    + right. exists [], j, l. done.
    + assert (deref m (at_nxt j) = Some (nxt_ nd)) as Hd' by (simpl; rewrite Hn; done).
      simpl in Hf.
      destruct (IH fuel (at_nxt j) _ Hd' Hp ltac:(lia)) as [[E Ha]|(l1 & x & l2 & -> & Hx & E)].
      * left. split; [exact E|]. intros x [->|Hx]%elem_of_cons; [congruence | auto].
      * right. exists (j :: l1), x, l2. rewrite link_of_cons. done.
Qed.
Definition holds (nv : list node) (chain : Z -> list idx_t) (s : gmap key_t val_t) : Prop :=
  forall k v, s !! k = Some v <->
    exists j, j ∈ chain (slot k) /\ key_at nv j = Some k /\ val_at nv j = Some v.

(** [repr m s]: the map [m] holds the bindings of the finite map [s]. *)
Definition repr (m : hash_map) (s : gmap key_t val_t) : Prop :=
  exists chain free, layout m chain free /\ holds (nvec_ m) chain s
    /\ nval_ m = wrap 64 (Z.of_nat (base.size s)).

Context (Hhsize : 0 < hsize_).

Lemma slot_range k : 0 <= slot k < hsize_.
Proof. apply Z.mod_pos_bound. done. Qed.

Lemma link_of_deref m p start l1 j l2 q :
  deref m p = Some start -> path (nvec_ m) start (l1 ++ j :: l2) q ->
  deref m (link_of p l1) = Some j.
Proof.
  revert p start; induction l1 as [|x l1 IH]; intros p start Hd.
  - intros (-> & _). exact Hd.
  - intros (-> & Hx & nd & Hn & Hp). rewrite link_of_cons.
    apply (IH _ (nxt_ nd)); [simpl; rewrite Hn; done | done].
Qed.

Lemma find_layout m chain free k :
  layout m chain free ->
  (find m k = Some None /\ forall j, j ∈ chain (slot k) -> key_at (nvec_ m) j <> Some k)
  \/ exists l1 j l2, chain (slot k) = l1 ++ j :: l2 /\ key_at (nvec_ m) j = Some k
       /\ find m k = Some (Some (link_of (at_tab (slot k)) l1)).
Proof.
  intros L. destruct (lay_tab _ _ _ L (slot k) (slot_range k)) as (p & Hp & Hpath).
  apply (find_from_spec _ m k (at_tab (slot k)) p _ Hp Hpath).
  pose proof (path_length _ _ _ _ Hpath
                (NoDup_fmap_1 _ _ (key_nodup _ _ (lay_keyed _ _ _ L) _ (slot_range k)))). lia.
Qed.

Lemma NoDup_fmap_inj {A B} (f : A -> B) l x y :
  NoDup (f <$> l) -> x ∈ l -> y ∈ l -> f x = f y -> x = y.
Proof.
  intros Hnd (i & Hi)%list_elem_of_lookup (i' & Hi')%list_elem_of_lookup E.
  assert (i = i') as ->.
  { apply (NoDup_lookup _ _ _ (f x) Hnd); rewrite list_lookup_fmap;
      [rewrite Hi; done | rewrite Hi', E; done]. }
  congruence.
Qed.

Lemma find_ok m s k :
  repr m s ->
  (find m k = Some None /\ s !! k = None)
  \/ exists it v, find m k = Some (Some it) /\ obj m it = Some v /\ s !! k = Some v.
Proof.
  intros (chain & free & L & Hs & _).
  destruct (find_layout m chain free k L) as [[E Ha]|(l1 & j & l2 & E & Hk & Ef)].
  - left. split; [done|]. destruct (s !! k) as [v|] eqn:Ek; [|done].
    apply Hs in Ek as (j & Hj & Hkj & _). exfalso. eapply Ha; eauto.
  - right. destruct (lay_tab _ _ _ L (slot k) (slot_range k)) as (p & Hp & Hpath).
    rewrite E in Hpath.
    pose proof (link_of_deref m (at_tab (slot k)) p l1 j l2 0 Hp Hpath) as Hd.
    unfold key_at in Hk. destruct (at_idx (nvec_ m) j) as [nd|] eqn:Ej; [|done].
    exists (link_of (at_tab (slot k)) l1), (val_ nd). split; [done|]. split.
    + unfold obj. rewrite Hd. simpl. rewrite Ej. done.
    + apply Hs. exists j. rewrite E. split_and!; [apply elem_of_app; right; left| |].
      * unfold key_at. rewrite Ej. done.
      * unfold val_at. rewrite Ej. done.
Qed.

(** [find] always ends, and finds exactly the keys of the map: the
    iterator it returns reads the value bound to the key, and it returns
    null when there is none. *)
Theorem find_repr m s k :
  repr m s ->
  (find m k = Some None /\ s !! k = None)
  \/ exists it v, find m k = Some (Some it) /\ obj m it = Some v /\ s !! k = Some v.
Proof. apply find_ok. Qed.

Lemma at_idx_app {A} (l r : list A) j :
  is_Some (at_idx l j) -> at_idx (l ++ r) j = at_idx l j.
Proof. unfold at_idx. intros [x Hx%lookup_lt_Some]. apply lookup_app_l. done. Qed.

Lemma path_extend nv r p l q : path nv p l q -> path (nv ++ r) p l q.
Proof.
  intros Hp. apply (path_agree nv); [|done]. intros j Hj _.
  rewrite at_idx_app by (eapply path_at; eauto). done.
Qed.

Lemma path_fresh nv p l q : path nv p l q -> Z.of_nat (length nv) ∉ l.
Proof. intros Hp Hj. destruct (path_at _ _ _ _ _ Hp Hj) as [nd Hn%lookup_lt_Some]. lia. Qed.

(** What [take_node] hands out: a node on no chain, with the map unchanged. *)
Record taken (m m1 : hash_map) (chain : Z -> list idx_t) (free1 : list idx_t)
  (res : idx_t) : Prop := {
  tk_layout : layout m1 chain free1;
  tk_htab : htab_ m1 = htab_ m;
  tk_nval : nval_ m1 = nval_ m;
  tk_pos : 0 < res;
  tk_node : is_Some (at_idx (nvec_ m1) res);
  tk_free : res ∉ free1;
  tk_chain i : 0 <= i < hsize_ -> res ∉ chain i;
  tk_same i j : 0 <= i < hsize_ -> j ∈ chain i -> at_idx (nvec_ m1) j = at_idx (nvec_ m) j }.

Lemma chain_at m chain free i j :
  layout m chain free -> 0 <= i < hsize_ -> j ∈ chain i ->
  0 < j /\ is_Some (at_idx (nvec_ m) j).
Proof.
  intros L Hi Hj. destruct (lay_tab _ _ _ L i Hi) as (p & _ & Hp).
  split; [eapply path_pos; eauto | eapply path_at; eauto].
Qed.

Lemma take_new_node m chain free :
  layout m chain free -> rhd_ m = 0 -> Z.of_nat (length (nvec_ m)) < 2 ^ 32 - 1 ->
  exists m1, take_node m = Some (Z.of_nat (length (nvec_ m)), m1)
    /\ taken m m1 chain free (Z.of_nat (length (nvec_ m))).
Proof.
  intros L E Hlen. unfold take_node. rewrite decide_True by done.
  rewrite wrap_small by mach.
  replace (take _ _ ++ _) with (nvec_ m ++ [empty_node]).
  2: { replace (Z.to_nat _) with (S (length (nvec_ m))) by lia.
       rewrite take_ge by lia. replace (S _ - _)%nat with 1%nat by lia. done. }
  pose proof (fun i j Hi Hj => at_idx_app _ [empty_node] _
                (proj2 (chain_at m chain free i j L Hi Hj))) as Hsame.
  destruct L as [Lz Lt Lf Lfn Ld Lk].
  eexists. split; [reflexivity|]. split; simpl; try done.
  - split; simpl.
    + rewrite length_app. lia.
    + intros i Hi. destruct (Lt i Hi) as (p & Hp & Hpath). eauto using path_extend.
    + eauto using path_extend.
    + done.
    + done.
    + revert Lk. apply keyed_agree. intros i j Hi Hj. unfold key_at.
      rewrite (Hsame i j Hi Hj). done.
  - lia.
  - unfold at_idx. rewrite Nat2Z.id, lookup_app_r, Nat.sub_diag by lia. eauto.
  - eapply path_fresh; eauto.
  - intros i Hi. destruct (Lt i Hi) as (p & _ & Hp). eapply path_fresh; eauto.
Qed.

Lemma take_free_node m chain free :
  layout m chain free -> rhd_ m <> 0 ->
  exists m1 free1, take_node m = Some (rhd_ m, m1) /\ taken m m1 chain free1 (rhd_ m).
Proof.
  intros [Lz Lt Lf Lfn Ld Lk] E. unfold take_node. rewrite decide_False by done.
  destruct free as [|r free1]; [done|]. destruct Lf as (-> & Hr & nd & Hn & Hp).
  rewrite Hn. simpl. eexists _, free1. split; [reflexivity|].
  apply NoDup_cons in Lfn as [Hrf Lfn].
  split; simpl; eauto.
  - split; simpl; eauto. intros i j Hi Hj Hf. apply (Ld i j Hi Hj). by right.
  - intros i Hi Hj. apply (Ld i r Hi Hj). left.
Qed.

Lemma take_node_layout m chain free :
  layout m chain free -> Z.of_nat (length (nvec_ m)) < 2 ^ 32 - 1 ->
  exists res m1 free1, take_node m = Some (res, m1) /\ taken m m1 chain free1 res.
Proof.
  intros L Hlen. destruct (decide (rhd_ m = 0)) as [E|E].
  - destruct (take_new_node m chain free L E Hlen) as (m1 & ? & ?). eauto.
  - destruct (take_free_node m chain free L E) as (m1 & f1 & ? & ?). eauto.
Qed.

(** Linking a spare node at the head of its key's chain. *)
Lemma link_layout m chain free res k v p nd :
  layout m chain free -> 0 < res -> at_idx (nvec_ m) res = Some nd -> res ∉ free ->
  (forall i, 0 <= i < hsize_ -> res ∉ chain i) ->
  at_idx (htab_ m) (slot k) = Some p ->
  (forall j, j ∈ chain (slot k) -> key_at (nvec_ m) j <> Some k) ->
  forall n,
  layout (mk_hash_map (<[Z.to_nat res := mk_node p k v]> (nvec_ m))
            (<[Z.to_nat (slot k) := res]> (htab_ m)) (rhd_ m) n)
    (fun i => if decide (i = slot k) then res :: chain i else chain i) free.
Proof.
  intros [Lz Lt Lf Lfn Ld Lk] Hr Hn Hrf Hrc Hp Hk n.
  pose proof (slot_range k) as Hsk.
  assert (forall j, 0 <= j -> at_idx (<[Z.to_nat res := mk_node p k v]> (nvec_ m)) j
            = if decide (res = j) then Some (mk_node p k v) else at_idx (nvec_ m) j) as Hat
    by (intros j Hj; apply (at_idx_insert _ _ _ _ nd); [lia | done | done]).
  assert (keyed (<[Z.to_nat res := mk_node p k v]> (nvec_ m)) chain) as [Kn Ks].
  { revert Lk. apply keyed_agree. intros i j Hi Hj. unfold key_at. rewrite Hat.
    - rewrite decide_False; [done|]. intros ->. eapply Hrc; eauto.
    - destruct (Lt i Hi) as (q & _ & Hq). pose proof (path_pos _ _ _ _ _ Hq Hj). lia. }
  assert (forall i, 0 <= i < hsize_ -> exists q, at_idx (htab_ m) i = Some q
            /\ path (<[Z.to_nat res := mk_node p k v]> (nvec_ m)) q (chain i) 0) as Lt'.
  { intros i Hi. destruct (Lt i Hi) as (q & Hq & Hpath). exists q. split; [done|].
    eapply path_insert; eauto; lia. }
  split; simpl.
  - rewrite length_insert. done.
  - intros i Hi. rewrite (at_idx_insert _ _ _ _ p) by (done || lia).
    destruct (Lt' i Hi) as (q & Hq & Hpath).
    destruct (decide (slot k = i)) as [<-|Hne].
    + rewrite decide_True by done. exists res. split; [done|]. split; [done|]. split; [lia|].
      eexists. rewrite Hat by lia. rewrite decide_True by done. split; [done|]. simpl. congruence.
    + rewrite decide_False by congruence. eauto.
  - eapply path_insert; eauto; lia.
  - done.
  - intros i j Hi Hj. destruct (decide (i = slot k)); [|eauto].
    apply elem_of_cons in Hj as [->|Hj]; eauto.
  - split.
    + intros i Hi. destruct (decide (i = slot k)) as [->|]; [|auto]. simpl. apply NoDup_cons.
      split; [|auto]. unfold key_at at 1. rewrite Hat by lia. rewrite decide_True by done.
      intros (j & Ej & Hj)%list_elem_of_fmap. apply (Hk j Hj). unfold key_at in *.
      rewrite Hat in Ej.
      * rewrite decide_False in Ej; [done|]. intros ->. eapply Hrc; eauto.
      * destruct (Lt _ Hsk) as (q & _ & Hq). pose proof (path_pos _ _ _ _ _ Hq Hj). lia.
    + intros i j k' Hi Hj. destruct (decide (i = slot k)) as [->|]; [|eauto].
      apply elem_of_cons in Hj as [->|Hj]; [|eauto]. unfold key_at. rewrite Hat by lia.
      rewrite decide_True by done. intros [= <-]. done.
Qed.

Lemma holds_agree nv nv' chain s :
  (forall i j, 0 <= i < hsize_ -> j ∈ chain i ->
     key_at nv' j = key_at nv j /\ val_at nv' j = val_at nv j) ->
  holds nv chain s -> holds nv' chain s.
Proof.
  intros Ha H k v. rewrite (H k v). split; intros (j & Hj & Ek & Ev);
    destruct (Ha _ j (slot_range k) Hj) as [E1 E2]; exists j; split; auto; split; congruence.
Qed.

(** The bindings after a node for a new key is put on its chain. *)
Lemma holds_insert nv nv1 chain s k v p nd res :
  holds nv chain s -> s !! k = None -> 0 < res -> at_idx nv1 res = Some nd ->
  (forall i, 0 <= i < hsize_ -> res ∉ chain i) ->
  (forall j, j ∈ chain (slot k) -> key_at nv1 j <> Some k) ->
  (forall i j, 0 <= i < hsize_ -> j ∈ chain i -> 0 < j /\ at_idx nv1 j = at_idx nv j) ->
  holds (<[Z.to_nat res := mk_node p k v]> nv1)
    (fun i => if decide (i = slot k) then res :: chain i else chain i) (<[k := v]> s).
Proof.
  intros Hs Hk Hr Hnd Hrc Hnk Hsame.
  assert (forall j, 0 <= j -> at_idx (<[Z.to_nat res := mk_node p k v]> nv1) j
            = if decide (res = j) then Some (mk_node p k v) else at_idx nv1 j) as Hat
    by (intros j Hj; apply (at_idx_insert _ _ _ _ nd); [lia | done | done]).
  assert (forall i j, 0 <= i < hsize_ -> j ∈ chain i ->
            at_idx (<[Z.to_nat res := mk_node p k v]> nv1) j = at_idx nv j) as Hold.
  { intros i j Hi Hj. destruct (Hsame i j Hi Hj) as [Hpos E].
    rewrite Hat, decide_False by (lia || (intros ->; eapply Hrc; eauto)). done. }
  intros k' v'. unfold key_at, val_at. destruct (decide (k' = k)) as [->|Hne].
  - rewrite lookup_insert_eq, decide_True by done. split.
    + intros [= <-]. exists res. rewrite Hat, decide_True by (lia || done).
      split_and!; [left | done | done].
    + intros (j & Hj & Ek & Ev). destruct (decide (res = j)) as [<-|Hj'].
      * rewrite Hat, decide_True in Ev by (lia || done). simpl in Ev. congruence.
      * apply elem_of_cons in Hj as [->|Hj]; [done|]. exfalso. apply (Hnk j Hj).
        unfold key_at. rewrite (Hold _ _ (slot_range k) Hj) in Ek.
        rewrite (proj2 (Hsame _ _ (slot_range k) Hj)). done.
  - rewrite lookup_insert_ne, (Hs k' v') by done. split.
    + intros (j & Hj & Ek & Ev). exists j. rewrite (Hold _ _ (slot_range k') Hj).
      split_and!; [destruct (decide (slot k' = slot k)); [by right | done] | done | done].
    + intros (j & Hj & Ek & Ev). destruct (decide (res = j)) as [<-|Hj'].
      * rewrite Hat, decide_True in Ek by (lia || done). simpl in Ek. congruence.
      * assert (j ∈ chain (slot k')) as Hj2.
        { destruct (decide (slot k' = slot k)); [|done].
          apply elem_of_cons in Hj as [->|Hj]; done. }
        rewrite (Hold _ _ (slot_range k') Hj2) in Ek, Ev. exists j. auto.
Qed.

Lemma add_ok m s k v :
  repr m s -> s !! k = None -> Z.of_nat (length (nvec_ m)) < 2 ^ 32 - 1 ->
  exists it m1 m2, add m k = Some (it, m1) /\ set_ref m1 it v = Some m2
    /\ repr m2 (<[k := v]> s).
Proof.
  intros (chain & free & L & Hs & Hn) Hk Hlen.
  destruct (take_node_layout m chain free L Hlen) as (res & m1 & free1 & Et & T).
  destruct T as [L1 Eh En Hr (nd & Hnd) Hrf Hrc Hsame].
  destruct (lay_tab _ _ _ L1 _ (slot_range k)) as (p & Hp & _).
  unfold add. rewrite Et. simpl. rewrite Hp. simpl.
  rewrite (put_idx_ok _ _ _ _ Hp), Hnd. simpl. rewrite (put_idx_ok _ _ _ _ Hnd).
  simpl. do 3 eexists. split; [reflexivity|].
  unfold set_ref, deref, htab_. rewrite (at_idx_insert _ _ _ _ p) by
    (done || pose proof (slot_range k); lia). rewrite decide_True by done. simpl.
  pose proof (fun nd' => at_idx_insert (nvec_ m1) res res nd' nd ltac:(lia) ltac:(lia) Hnd)
    as Hget. rewrite Hget, decide_True by done. simpl.
  rewrite (put_idx_ok _ _ _ (mk_node p k (val_ nd)))
    by (rewrite Hget, decide_True by done; done). simpl. split; [reflexivity|].
  unfold set_nvec. simpl. rewrite list_insert_insert_eq.
  assert (forall j, j ∈ chain (slot k) -> key_at (nvec_ m1) j <> Some k) as Hnk.
  { intros j Hj Ek. unfold key_at in Ek. rewrite (Hsame _ _ (slot_range k) Hj) in Ek.
    destruct (at_idx (nvec_ m) j) as [nj|] eqn:Ej; [|done].
    assert (s !! k = Some (val_ nj)); [|congruence].
    apply Hs. exists j. unfold key_at, val_at. rewrite Ej. done. }
  eexists _, _. split; [eapply (link_layout m1); eauto|]. simpl. split.
  2: { rewrite En, Hn, map_size_insert_None, Nat2Z.inj_succ by done. unfold wrap.
       rewrite Zplus_mod_idemp_l. done. }
  eapply holds_insert; eauto. intros i j Hi Hj. rewrite (Hsame i j Hi Hj).
  destruct (chain_at _ _ _ _ _ L Hi Hj). split; [lia | done].
Qed.

(** [add] of a new key followed by the assignment to its [ref] binds it:
    the calls succeed, whether a node is taken from the free chain or from
    the end of the vector, and the map then holds the old bindings and the
    new one. *)
Theorem add_repr m s k v :
  repr m s -> s !! k = None -> Z.of_nat (length (nvec_ m)) < 2 ^ 32 - 1 ->
  exists it m1 m2, add m k = Some (it, m1) /\ set_ref m1 it v = Some m2
    /\ repr m2 (<[k := v]> s).
Proof. apply add_ok. Qed.

Definition same_data (nv nv' : list node) : Prop :=
  forall j, 0 <= j -> key_at nv' j = key_at nv j /\ val_at nv' j = val_at nv j.

Lemma set_nxt_ok m j x nd :
  0 <= j -> at_idx (nvec_ m) j = Some nd ->
  set_nxt m j x
    = Some (set_nvec m (<[Z.to_nat j := mk_node x (key_ nd) (val_ nd)]> (nvec_ m)))
  /\ same_data (nvec_ m) (<[Z.to_nat j := mk_node x (key_ nd) (val_ nd)]> (nvec_ m)).
Proof.
  intros Hj Hn. unfold set_nxt. rewrite Hn. simpl. rewrite (put_idx_ok _ _ _ _ Hn).
  split; [done|]. intros j' Hj'. unfold key_at, val_at.
  rewrite (at_idx_insert _ _ _ _ nd) by done.
  destruct (decide (j = j')) as [<-|]; [rewrite Hn; done | done].
Qed.

Lemma same_data_keyed m chain free nv' :
  layout m chain free -> same_data (nvec_ m) nv' -> keyed nv' chain.
Proof.
  intros L Hd. eapply keyed_agree; [|apply (lay_keyed _ _ _ L)].
  intros i j Hi Hj. apply Hd. destruct (chain_at _ _ _ _ _ L Hi Hj). lia.
Qed.

Lemma chain_nodup m chain free i : layout m chain free -> 0 <= i < hsize_ -> NoDup (chain i).
Proof.
  intros L Hi. eapply NoDup_fmap_1, (key_nodup _ _ (lay_keyed _ _ _ L) _ Hi).
Qed.

(** A node is on the chain of one slot only. *)
Lemma chain_unique m chain free i i' j :
  layout m chain free -> 0 <= i < hsize_ -> 0 <= i' < hsize_ ->
  j ∈ chain i -> j ∈ chain i' -> i = i'.
Proof.
  intros L Hi Hi' Hj Hj'. destruct (chain_at _ _ _ _ _ L Hi Hj) as [_ [nd Hn]].
  assert (key_at (nvec_ m) j = Some (key_ nd)) as Hk by (unfold key_at; rewrite Hn; done).
  pose proof (key_slot _ _ (lay_keyed _ _ _ L)) as Hks.
  rewrite <- (Hks i j _ Hi Hj Hk). eauto.
Qed.

Definition cut (chain : Z -> list idx_t) (i : Z) (l : list idx_t) : Z -> list idx_t :=
  fun i' => if decide (i' = i) then l else chain i'.

Lemma cut_keyed nv chain i l1 j l2 :
  0 <= i < hsize_ -> keyed nv chain -> chain i = l1 ++ j :: l2 ->
  keyed nv (cut chain i (l1 ++ l2)).
Proof.
  intros Hi [Kn Ks] E. unfold cut. split.
  - intros i' Hi'. destruct (decide (i' = i)) as [->|]; [|auto].
    specialize (Kn i Hi). rewrite E in Kn. rewrite fmap_app in *. simpl in Kn.
    apply NoDup_app in Kn as (H1 & H2 & H3). apply NoDup_cons in H3 as [_ H3].
    apply NoDup_app. split_and!; [done | | done]. intros x Hx Hx'. apply (H2 x Hx). by right.
  - intros i' x k' Hi' Hx. destruct (decide (i' = i)) as [->|]; [|eauto].
    apply Ks; [done|]. rewrite E. set_solver.
Qed.

(** The bindings after the node of a key is taken out of its chain. *)
Lemma cut_holds nv chain s k l1 j l2 :
  keyed nv chain -> holds nv chain s -> chain (slot k) = l1 ++ j :: l2 ->
  key_at nv j = Some k -> holds nv (cut chain (slot k) (l1 ++ l2)) (delete k s).
Proof.
  intros [Kn _] Hs E Hk k' v'. unfold cut. pose proof (Kn _ (slot_range k)) as Hdup.
  assert (j ∉ l1 ++ l2) as Hjl.
  { apply NoDup_fmap_1 in Hdup. rewrite E in Hdup.
    apply NoDup_app in Hdup as (_ & H1 & [H2 _]%NoDup_cons).
    intros [Hx|Hx]%elem_of_app; [apply (H1 j Hx); left | done]. }
  destruct (decide (k' = k)) as [->|Hne].
  - rewrite lookup_delete_eq, decide_True by done. split; [done|].
    intros (x & Hx & Ek & _). exfalso. assert (x = j) as ->; [|done].
    apply (NoDup_fmap_inj (key_at nv) (chain (slot k))); rewrite ?E; try done;
      [rewrite <- E; done | set_solver | set_solver | congruence].
  - rewrite lookup_delete_ne, (Hs k' v') by done.
    split; intros (x & Hx & Ek & Ev); exists x; split; try done;
      destruct (decide (slot k' = slot k)) as [Eq|]; try done; rewrite Eq, E in *.
    + apply elem_of_app in Hx as [Hx|[->|Hx]%elem_of_cons];
        [set_solver | congruence | set_solver].
    + set_solver.
Qed.

(** [*i = nd.nxt_] takes the node out of its chain. *)
Lemma unlink_layout m chain free i l1 j l2 nd :
  layout m chain free -> 0 <= i < hsize_ -> chain i = l1 ++ j :: l2 ->
  at_idx (nvec_ m) j = Some nd ->
  exists m1, assign m (link_of (at_tab i) l1) (nxt_ nd) = Some m1
    /\ layout m1 (cut chain i (l1 ++ l2)) free /\ rhd_ m1 = rhd_ m /\ nval_ m1 = nval_ m
    /\ at_idx (nvec_ m1) j = Some nd /\ same_data (nvec_ m) (nvec_ m1).
Proof.
  intros L Hi E Hnd. destruct (lay_tab _ _ _ L i Hi) as (p & Hp & Hpath).
  pose proof (chain_nodup _ _ _ _ L Hi) as Hndup.
  rewrite E in Hpath, Hndup. apply path_app in Hpath as (q & H1 & (-> & Hj & nd' & Hnd' & H2)).
  assert (nd' = nd) as -> by congruence.
  apply NoDup_app in Hndup as (Hnd1 & Hdis & [Hjl2 Hnd2]%NoDup_cons).
  assert (forall x, x ∈ l1 -> x <> j) as Hxj by (intros x Hx ->; apply (Hdis j Hx); left).
  assert (forall x, x ∈ l1 -> x ∉ l2) as Hx2 by (intros x Hx ?; apply (Hdis x Hx); by right).
  unfold link_of. destruct l1 as [|x l1 _] using rev_ind.
  - simpl in *. subst p. rewrite (put_idx_ok _ _ _ _ Hp). simpl. eexists.
    split; [reflexivity|]. split_and!; try done. destruct L as [Lz Lt Lf Lfn Ld Lk].
    split; simpl; try done.
    + intros i' Hi'. rewrite (at_idx_insert _ _ _ _ j) by (done || lia). unfold cut.
      destruct (decide (i = i')) as [<-|].
      * rewrite decide_True by done. eauto.
      * rewrite decide_False by congruence. auto.
    + intros i' x Hi' Hx. unfold cut in Hx. destruct (decide (i' = i)) as [->|]; [|eauto].
      apply (Ld i); [done|]. rewrite E. by right.
    + apply (cut_keyed _ _ _ [] j l2); done.
  - rewrite last_snoc. simpl.
    assert (x ∈ l1 ++ [x]) as Hxin by (apply elem_of_app; right; left).
    assert (x ∈ chain i) as Hxc by (rewrite E; apply elem_of_app; by left).
    destruct (chain_at _ _ _ _ _ L Hi Hxc) as [Hx0 [nx Hnx]].
    destruct (set_nxt_ok m x (nxt_ nd) nx ltac:(lia) Hnx) as [-> Hdata].
    eexists. split; [reflexivity|]. split; [|split_and!; try done].
    2: { simpl. rewrite (at_idx_insert _ _ _ _ nx), decide_False by (done || lia || auto). done. }
    pose proof (same_data_keyed _ _ _ _ L Hdata) as Hk.
    pose proof (fun i' Hi' => chain_unique _ _ _ i i' x L Hi Hi' Hxc) as Huniq.
    destruct L as [Lz Lt Lf Lfn Ld Lk]. split; simpl; try done.
    + rewrite length_insert. done.
    + intros i' Hi'. unfold cut. destruct (decide (i' = i)) as [->|Hne].
      * exists p. split; [done|]. apply path_app. exists (nxt_ nd). split.
        -- eapply path_relink; eauto. apply NoDup_app in Hnd1 as (_ & Hd & _).
           intros Hx. apply (Hd x Hx). left.
        -- eapply path_insert; eauto; lia.
      * destruct (Lt i' Hi') as (p' & Hp' & Hpath'). exists p'. split; [done|].
        eapply path_insert; eauto; [lia|]. intros Hx. apply Hne. symmetry. auto.
    + eapply path_insert; eauto; lia.
    + intros i' y Hi' Hy. unfold cut in Hy. destruct (decide (i' = i)) as [->|]; [|eauto].
      apply (Ld i); [done|]. rewrite E. apply elem_of_app in Hy as [Hy|Hy];
        apply elem_of_app; [by left | right; by right].
    + eapply cut_keyed; eauto.
Qed.

(** Pushing an unlinked node on the free chain. *)
Lemma free_layout m chain free j nd n :
  layout m chain free -> 0 < j -> at_idx (nvec_ m) j = Some nd -> j ∉ free ->
  (forall i, 0 <= i < hsize_ -> j ∉ chain i) ->
  exists nv, set_nxt m j (rhd_ m) = Some (set_nvec m nv) /\ same_data (nvec_ m) nv
    /\ layout (mk_hash_map nv (htab_ m) j n) chain (j :: free).
Proof.
  intros L Hj Hn Hf Hc.
  destruct (set_nxt_ok m j (rhd_ m) nd ltac:(lia) Hn) as [-> Hd].
  eexists. split; [reflexivity|]. split; [done|].
  pose proof (same_data_keyed _ _ _ _ L Hd) as Hk. destruct L as [Lz Lt Lf Lfn Ld Lk].
  split; simpl; try done.
  - rewrite length_insert. done.
  - intros i Hi. destruct (Lt i Hi) as (p & Hp & Hpath). exists p. split; [done|].
    eapply path_insert; eauto; lia.
  - split; [done|]. split; [done|]. eexists.
    rewrite (at_idx_insert _ _ _ _ nd), decide_True by (done || lia). split; [done|].
    simpl. eapply path_insert; eauto; lia.
  - apply NoDup_cons. done.
  - intros i x Hi Hx [->|Hx']%elem_of_cons; [eapply Hc; eauto | eapply Ld; eauto].
Qed.

Lemma wrap_pred w n : wrap w (wrap w (Z.of_nat (S n)) - 1) = wrap w (Z.of_nat n).
Proof. unfold wrap. rewrite Zminus_mod_idemp_l. f_equal. lia. Qed.

Lemma del_ok m s k it :
  repr m s -> find m k = Some (Some it) ->
  exists m', del m it = Some m' /\ repr m' (delete k s).
Proof.
  intros (chain & free & L & Hs & Hn) Hf. pose proof (slot_range k) as Hsk.
  destruct (find_layout m chain free k L) as [[E _]|(l1 & j & l2 & E & Hk & Ef)]; [congruence|].
  rewrite Ef in Hf. injection Hf as <-.
  destruct (lay_tab _ _ _ L _ Hsk) as (p & Hp & Hpath). rewrite E in Hpath.
  pose proof (link_of_deref m (at_tab (slot k)) p l1 j l2 0 Hp Hpath) as Hd.
  assert (j ∈ chain (slot k)) as Hjc by (rewrite E; apply elem_of_app; right; left).
  destruct (chain_at _ _ _ _ _ L Hsk Hjc) as [Hj0 [nd Hnd]].
  unfold del. rewrite Hd. simpl. rewrite Hnd. simpl.
  destruct (unlink_layout m chain free (slot k) l1 j l2 nd L Hsk E Hnd)
    as (m1 & -> & L1 & Hr & Hnv & Hnd1 & Hd1). simpl.
  pose proof (chain_nodup _ _ _ _ L Hsk) as Hdup. rewrite E in Hdup.
  assert (j ∉ l1 ++ l2) as Hjl.
  { apply NoDup_app in Hdup as (_ & H1 & [H2 _]%NoDup_cons).
    intros [Hx|Hx]%elem_of_app; [apply (H1 j Hx); left | done]. }
  destruct (free_layout m1 _ free j nd (wrap 64 (nval_ m1 - 1)) L1 Hj0 Hnd1)
    as (nv & -> & Hd2 & L2).
  { eapply (lay_disj _ _ _ L); eauto. }
  { intros i Hi Hx. unfold cut in Hx. destruct (decide (i = slot k)) as [->|Hne]; [done|].
    apply Hne. eapply (chain_unique _ _ _ i (slot k) j L); eauto. }
  simpl. eexists. split; [reflexivity|]. eexists _, _. split; [exact L2|]. simpl.
  assert (forall x, 0 <= x -> key_at nv x = key_at (nvec_ m) x
                              /\ val_at nv x = val_at (nvec_ m) x) as Hsame.
  { intros x Hx. destruct (Hd1 x Hx) as [<- <-]. auto. }
  assert (s !! k = Some (val_ nd)) as Hsk'.
  { apply Hs. exists j. unfold val_at. rewrite Hnd. done. }
  split.
  2: { rewrite Hnv, Hn. rewrite <- (insert_delete_id s k (val_ nd)) at 1 by done.
       rewrite map_size_insert_None by apply lookup_delete_eq. apply wrap_pred. }
  eapply holds_agree; [|eapply cut_holds; eauto; apply (lay_keyed _ _ _ L)].
  intros i x Hi Hx. apply Hsame. unfold cut in Hx.
  destruct (chain_at _ _ _ i x L Hi); [|lia]. destruct (decide (i = slot k)) as [->|]; [|done].
  rewrite E. set_solver.
Qed.

(** [del] through the iterator [find] returned removes exactly that key,
    and keeps the node for reuse. *)
Theorem del_repr m s k it :
  repr m s -> find m k = Some (Some it) ->
  exists m', del m it = Some m' /\ repr m' (delete k s).
Proof. apply del_ok. Qed.

Lemma at_idx_replicate n i : 0 <= i -> (Z.to_nat i < n)%nat -> at_idx (replicate n 0) i = Some 0.
Proof. intros Hi Hn. apply lookup_replicate. done. Qed.

Lemma repr_empty m :
  (1 <= length (nvec_ m))%nat -> (Z.to_nat hsize_ <= length (htab_ m))%nat ->
  htab_ m = replicate (length (htab_ m)) 0 -> rhd_ m = 0 -> nval_ m = 0 -> repr m ∅.
Proof.
  intros Hl Hh Ht Hr Hn. exists (fun _ => []), []. split; [split|split]; try done.
  - intros i Hi. exists 0. split; [|done]. rewrite Ht. apply at_idx_replicate; lia.
  - apply NoDup_nil_2.
  - intros i j _ Hj. inversion Hj.
  - split; [intros; apply NoDup_nil_2 | intros i j k _ Hj; inversion Hj].
  - intros k v. rewrite lookup_empty. split; [done|]. intros (j & Hj & _). inversion Hj.
Qed.

Lemma new_repr : repr new_hash_map ∅.
Proof. apply repr_empty; simpl; try rewrite length_replicate; done || lia. Qed.

Lemma clear_ok m s :
  repr m s ->
  repr (clear m) ∅ /\ (Z.of_nat (base.size s) < 2 ^ 64 -> size m = Z.of_nat (base.size s)).
Proof.
  intros (chain & free & L & _ & Hn). split.
  - apply repr_empty; simpl; try done.
    + rewrite length_app, length_take, length_replicate. pose proof (lay_zero _ _ _ L). lia.
    + rewrite length_replicate.
      destruct (lay_tab _ _ _ L (hsize_ - 1) ltac:(lia)) as (p & Hp%lookup_lt_Some & _). lia.
    + rewrite length_replicate. done.
  - intros Hs. unfold size. rewrite Hn. apply wrap_small. unfold in_u. lia.
Qed.

(** [clear] empties the map whatever it held, and [size] is the number
    of bindings of the map represented (at most [SIZE_MAX]). *)
Theorem clear_repr m s :
  repr m s ->
  repr (clear m) ∅ /\ (Z.of_nat (base.size s) < 2 ^ 64 -> size m = Z.of_nat (base.size s)).
Proof. apply clear_ok. Qed.
End hash_map.

Arguments node : clear implicits.
Arguments hash_map : clear implicits.

(** ** Witnesses: integer keys, three slots, identity hash *)

Definition one_key : hash_map Z Z :=
  mk_hash_map [mk_node 0 0 0; mk_node 0 4 40] [0; 1; 0] 0 1.

Lemma one_key_repr : repr 3 (fun k => k) one_key {[4 := 40]}.
Proof.
  exists (fun i => if decide (i = 1) then [1] else []), [].
  assert (forall i, i <> 1 -> (if decide (i = 1) then [1] else []) = []) as Hne
    by (intros i Hi; apply decide_False; done).
  split; [split|split]; try done.
  - simpl. lia.
  - intros i Hi. destruct (decide (i = 1)) as [->|Hi1].
    + exists 1. split; [done|]. split; [done|]. split; [done|]. eexists. split; done.
    + exists 0. split; [|done]. unfold at_idx.
      assert (i = 0 \/ i = 2) as [->| ->] by lia; done.
  - apply NoDup_nil_2.
  - intros i j Hi _ Hf. inversion Hf.
  - split.
    + intros i Hi. destruct (decide (i = 1)); [apply NoDup_singleton | apply NoDup_nil_2].
    + intros i j k Hi Hj. destruct (decide (i = 1)) as [->|]; [|inversion Hj].
      apply list_elem_of_singleton in Hj as ->. intros [= <-]. done.
  - intros k v. split.
    + intros [<- <-]%lookup_singleton_Some. exists 1. split; [left | done].
    + intros (j & Hj & Ek & Ev). destruct (decide (slot 3 _ k = 1)); [|inversion Hj].
      apply list_elem_of_singleton in Hj as ->. injection Ek as <-. injection Ev as <-. done.
Qed.

Lemma find_repr_witness : exists it v, find 3 (fun k => k) one_key 4 = Some (Some it)
  /\ obj one_key it = Some v /\ ({[4 := 40]} : gmap Z Z) !! 4 = Some v.
Proof.
  destruct (find_repr 3 (fun k : Z => k) ltac:(lia) one_key {[4 := 40]} 4 one_key_repr)
    as [[E _]|H]; [vm_compute in E; discriminate | exact H].
Defined.

Lemma add_repr_witness : exists it m1 m2, add 3 (fun k => k) one_key 7 = Some (it, m1)
  /\ set_ref m1 it 70 = Some m2 /\ repr 3 (fun k => k) m2 (<[7 := 70]> {[4 := 40]}).
Proof.
  apply (add_repr 3 (fun k : Z => k) ltac:(lia) one_key {[4 := 40]} 7 70 one_key_repr).
  - vm_compute. reflexivity.
  - vm_compute. reflexivity.
Defined.

Lemma del_repr_witness : exists m', del one_key (at_tab 1) = Some m'
  /\ repr 3 (fun k => k) m' (delete 4 {[4 := 40]}).
Proof.
  apply (del_repr 3 (fun k : Z => k) ltac:(lia) one_key {[4 := 40]} 4 (at_tab 1) one_key_repr).
  vm_compute. reflexivity.
Defined.

Lemma clear_repr_witness : repr 3 (fun k => k) (clear one_key) ∅ /\ size one_key = 1.
Proof.
  destruct (clear_repr 3 (fun k : Z => k) ltac:(lia) one_key {[4 := 40]} one_key_repr) as [H1 H2].
  split; [exact H1 | apply H2; vm_compute; reflexivity].
Defined.
