(* ===== verification/NetBuf.v ===== *)
(** * Message buffers and writers ([net_buf_alloc], [net_wtr] of [pc/net_socket.cpp])

    Outbound messages are chains of fixed-size blocks taken from a pool that
    recycles released blocks.  The pool, the blocks and the links between them
    are explicit here, so that recycling and the hand-over of a chain from one
    writer to another are visible; a null or dangling block has no result.
    [wtr_repr] says that a writer holds a byte string, and the operations are
    shown to append to it without touching blocks of other writers. *)

From S2P Require Import Prelude.

Abbreviation ptr := positive (only parsing).

(** [net_buf::len]. *)
Definition buf_max : Z := 1270.

Record net_buf := mk_net_buf { next_ : option ptr; size_ : Z; buf_ : bytes }.

(** The memory of blocks and the allocator [mem_]: the head [ptr_] of its
    chain of released blocks.  [fresh] is the address [new net_buf] returns next;
    the bytes of a new block are indeterminate and never read: zeros stand
    for them. *)
Record pool := mk_pool { blk : gmap ptr net_buf; ptr_ : option ptr; fresh : ptr }.

Definition new_pool : pool := mk_pool ∅ None 1.
Definition put (m : pool) (p : ptr) (b : net_buf) : pool :=
  mk_pool (<[p := b]> (blk m)) (ptr_ m) (fresh m).

(** [net_buf_alloc::alloc]. *)
Definition alloc_buf (m : pool) : option (ptr * pool) :=
  '(res, b, m) ←
    match ptr_ m with
    | Some p => b ← blk m !! p; Some (p, b, mk_pool (blk m) (next_ b) (fresh m))
    | None =>
        Some (fresh m, mk_net_buf None 0 (replicate (Z.to_nat buf_max) 0),
              mk_pool (blk m) (ptr_ m) (Pos.succ (fresh m)))
    end;
  Some (res, put m res (mk_net_buf None 0 (buf_ b))).

(** [net_buf_alloc::dealloc]. *)
Definition dealloc_buf (m : pool) (p : ptr) : option pool :=
  b ← blk m !! p;
  let m := put m p (mk_net_buf (ptr_ m) (size_ b) (buf_ b)) in
  Some (mk_pool (blk m) (Some p) (fresh m)).

Record net_wtr := mk_net_wtr { hd_ : option ptr; tl_ : option ptr; sz_ : Z }.

Definition new_wtr (m : pool) : option (net_wtr * pool) :=
  '(p, m) ← alloc_buf m; Some (mk_net_wtr (Some p) (Some p) 0, m).

(** [net_wtr::dealloc]: the loop over the chain. *)
Fixpoint dealloc_from (fuel : nat) (m : pool) (p : option ptr) : option pool :=
  match p with
  | None => Some m
  | Some p =>
      match fuel with
      | O => None
      | S fuel' =>
          b ← blk m !! p;
          m ← dealloc_buf m p;
          dealloc_from fuel' m (next_ b)
      end
  end.
Definition dealloc (fuel : nat) (w : net_wtr) (m : pool) : option pool :=
  dealloc_from fuel m (hd_ w).
Definition reset (fuel : nat) (w : net_wtr) (m : pool) : option (net_wtr * pool) :=
  m ← dealloc fuel w m;
  '(p, m) ← alloc_buf m;
  Some (mk_net_wtr (Some p) (Some p) 0, m).

Definition detach (w : net_wtr) : option ptr * option ptr * net_wtr :=
  (hd_ w, tl_ w, mk_net_wtr None None 0).

Definition tail (w : net_wtr) (m : pool) : option (ptr * net_buf) :=
  t ← tl_ w; b ← blk m !! t; Some (t, b).

(** [net_wtr::alloc]. *)
Definition alloc (w : net_wtr) (m : pool) : option (net_wtr * pool) :=
  '(p, m) ← alloc_buf m;
  '(t, b) ← tail w m;
  Some (mk_net_wtr (hd_ w) (Some p) (wrap 64 (sz_ w + size_ b)),
        put m t (mk_net_buf (Some p) (size_ b) (buf_ b))).

(** [memcpy] to the write position of block [t], [size_] then being [n]. *)
Definition copy_to (m : pool) (t : ptr) (b : net_buf) (s : bytes) (n : Z) : pool :=
  put m t (mk_net_buf (next_ b) (wrap 16 n) (blit (Z.to_nat (size_ b)) s (buf_ b))).

(** [net_wtr::add_alloc]; every turn of its loop copies at least one byte. *)
Fixpoint add_alloc (fuel : nat) (w : net_wtr) (s : bytes) (m : pool)
  : option (net_wtr * pool) :=
  match s with
  | [] => Some (w, m)
  | _ =>
      match fuel with
      | O => None
      | S fuel' =>
          '(_, b) ← tail w m;
          '(w, m) ← (if size_ b =? buf_max then alloc w m else Some (w, m));
          '(t, b) ← tail w m;
          let mlen := Z.min (buf_max - size_ b) (Z.of_nat (length s)) in
          let m := copy_to m t b (take (Z.to_nat mlen) s) (size_ b + mlen) in
          add_alloc fuel' w (drop (Z.to_nat mlen) s) m
      end
  end.

(** [net_wtr::add( str )]. *)
Definition add_str (w : net_wtr) (s : bytes) (m : pool) : option (net_wtr * pool) :=
  '(t, b) ← tail w m;
  let nlen := size_ b + Z.of_nat (length s) in
  if nlen <=? buf_max then Some (w, copy_to m t b s nlen)
  else add_alloc (length s) w s m.

(** [net_wtr::add( char )]. *)
Definition add_char (w : net_wtr) (val : Z) (m : pool) : option (net_wtr * pool) :=
  '(_, b) ← tail w m;
  '(w, m) ← (if size_ b =? buf_max then alloc w m else Some (w, m));
  '(t, b) ← tail w m;
  Some (w, copy_to m t b [val] (size_ b + 1)).

Definition size (w : net_wtr) (m : pool) : option Z :=
  '(_, b) ← tail w m; Some (wrap 64 (sz_ w + size_ b)).

(** [net_wtr::add( net_wtr& )]; the second writer is left detached.  The block
    merged into the tail is released before its size is read again, which the
    pool keeps. *)
Definition add_wtr (w b : net_wtr) (m : pool) : option (net_wtr * net_wtr * pool) :=
  '(t, tb) ← tail w m;
  bsz ← size b m;
  let sz := wrap 64 (sz_ w + size_ tb + bsz) in
  let '(hd, tl, b) := detach b in
  hd ← hd; hb ← blk m !! hd; tl ← tl;
  '(w, m) ←
    (if size_ tb + size_ hb <=? buf_max then
       let m := put m t (mk_net_buf (next_ hb) (wrap 16 (size_ tb + size_ hb))
                  (blit (Z.to_nat (size_ tb)) (take (Z.to_nat (size_ hb)) (buf_ hb))
                     (buf_ tb))) in
       let w := if decide (hd = tl) then w else mk_net_wtr (hd_ w) (Some tl) (sz_ w) in
       m ← dealloc_buf m hd;
       Some (w, m)
     else
       Some (mk_net_wtr (hd_ w) (Some tl) (sz_ w),
             put m t (mk_net_buf (Some hd) (size_ tb) (buf_ tb))));
  tlb ← blk m !! tl;
  Some (mk_net_wtr (hd_ w) (tl_ w) (wrap 64 (sz - size_ tlb)), b, m).

(** [net_wtr::reserve]: the write position of a block with room for [len]
    bytes, or null; note that the block is changed only when the current one
    is too full. *)
Definition reserve (w : net_wtr) (len : Z) (m : pool)
  : option (option (ptr * Z) * net_wtr * pool) :=
  if buf_max <? len then Some (None, w, m) else
  '(_, b) ← tail w m;
  '(w, m) ← (if buf_max <? size_ b + len then alloc w m else Some (w, m));
  '(t, b) ← tail w m;
  Some (Some (t, size_ b), w, m).

(** [net_wtr::advance]. *)
Definition advance (w : net_wtr) (len : Z) (m : pool) : option pool :=
  '(t, b) ← tail w m;
  Some (put m t (mk_net_buf (next_ b) (wrap 16 (size_ b + len)) (buf_ b))).

(** The bytes [print] writes, and [poll_send] sends: the used part of each
    block of the chain. *)
Fixpoint contents (fuel : nat) (m : pool) (p : option ptr) : option bytes :=
  match p with
  | None => Some []
  | Some p =>
      match fuel with
      | O => None
      | S fuel' =>
          b ← blk m !! p;
          rest ← contents fuel' m (next_ b);
          Some (take (Z.to_nat (size_ b)) (buf_ b) ++ rest)
      end
  end.

(** ** Ownership of blocks *)

Fixpoint path (m : pool) (p : option ptr) (l : list ptr) (q : option ptr) : Prop :=
  match l with
  | [] => p = q
  | x :: l' => p = Some x /\ exists b, blk m !! x = Some b /\ path m (next_ b) l' q
  end.

(** The bytes in the blocks of a chain. *)
Definition used (b : net_buf) : bytes := take (Z.to_nat (size_ b)) (buf_ b).
Definition data_at (m : pool) (x : ptr) : bytes :=
  match blk m !! x with Some b => used b | None => [] end.
Definition data (m : pool) (l : list ptr) : bytes := l ≫= data_at m.

Definition block_ok (b : net_buf) : Prop :=
  0 <= size_ b <= buf_max /\ Z.of_nat (length (buf_ b)) = buf_max.

(** [U] are the blocks in use: well formed, and none on the released chain. *)
Record pool_ok (m : pool) (free : list ptr) (U : gset ptr) : Prop := {
  ok_path : path m (ptr_ m) free None;
  ok_nodup : NoDup free;
  ok_disj x : x ∈ U -> x ∉ free;
  ok_free x : x ∈ free -> (x < fresh m)%positive /\ exists b, blk m !! x = Some b /\ block_ok b;
  ok_used x : x ∈ U -> (x < fresh m)%positive /\ exists b, blk m !! x = Some b /\ block_ok b }.
Definition inv (m : pool) (U : gset ptr) : Prop := exists free, pool_ok m free U.

(** A writer whose chain is the blocks [l] and the tail [t], holding the bytes
    [c]; [e] is how much [size] exceeds their number. *)
Record chain_repr (m : pool) (w : net_wtr) (l : list ptr) (t : ptr) (c : bytes) (e : Z)
  : Prop := {
  ch_path : path m (hd_ w) (l ++ [t]) None;
  ch_tl : tl_ w = Some t;
  ch_nodup : NoDup (l ++ [t]);
  ch_data : data m (l ++ [t]) = c;
  ch_size : sz_ w = wrap 64 (Z.of_nat (length (data m l)) + e) }.
Definition wtr_repr (m : pool) (w : net_wtr) (S : gset ptr) (c : bytes) (e : Z) : Prop :=
  exists l t, chain_repr m w l t c e /\ S = list_to_set (l ++ [t]).

Definition same_on (F : gset ptr) (m m' : pool) : Prop :=
  forall x, x ∈ F -> blk m' !! x = blk m !! x.

Lemma same_on_trans F m1 m2 m3 : same_on F m1 m2 -> same_on F m2 m3 -> same_on F m1 m3.
Proof. intros H1 H2 x Hx. rewrite H2, H1; done. Qed.

Lemma bpath_agree m m' p l q :
  (forall x, x ∈ l -> blk m' !! x = blk m !! x) -> path m p l q -> path m' p l q.
Proof.
  revert p; induction l as [|x l IH]; intros p Ha; [done|].
  intros (-> & b & Hb & Hp). split; [done|]. exists b.
  rewrite Ha by left. split; [done|]. apply IH; [|done]. intros y Hy. apply Ha. by right.
Qed.

Lemma bpath_app m p l1 l2 q :
  path m p (l1 ++ l2) q <-> exists r, path m p l1 r /\ path m r l2 q.
Proof.
  revert p; induction l1 as [|x l1 IH]; intros p; simpl.
  - split; [intros; exists p; done | intros (r & -> & ?); done].
  - split.
    + intros (-> & b & Hb & (r & H1 & H2)%IH). exists r. split; [|done]. split; [done|]. eauto.
    + intros (r & (-> & b & Hb & H1) & H2). split; [done|]. exists b. split; [done|].
      apply IH. eauto.
Qed.

Lemma bpath_at m p l q x : path m p l q -> x ∈ l -> exists b, blk m !! x = Some b.
Proof.
  revert p; induction l as [|y l IH]; intros p; [intros _ H; inversion H|].
  intros (-> & b & Hb & Hp) [->|Hx]%elem_of_cons; eauto.
Qed.

Lemma data_cons m x l : data m (x :: l) = data_at m x ++ data m l.
Proof. done. Qed.
Lemma data_app m l1 l2 : data m (l1 ++ l2) = data m l1 ++ data m l2.
Proof. apply bind_app. Qed.

Lemma data_one m x : data m [x] = data_at m x.
Proof. apply app_nil_r. Qed.

Lemma data_agree m m' l :
  (forall x, x ∈ l -> used <$> blk m' !! x = used <$> blk m !! x) -> data m' l = data m l.
Proof.
  induction l as [|x l IH]; intros Ha; [done|]. rewrite !data_cons, IH by set_solver. f_equal.
  pose proof (Ha x ltac:(left)) as E. unfold data_at.
  destruct (blk m' !! x), (blk m !! x); simpl in E; congruence.
Qed.

Lemma length_used b : block_ok b -> Z.of_nat (length (used b)) = size_ b.
Proof. intros [H1 H2]. unfold used. rewrite length_take. lia. Qed.

Lemma put_lookup m p b x : blk (put m p b) !! x = if decide (p = x) then Some b else blk m !! x.
Proof.
  simpl. destruct (decide (p = x)) as [->|]; [apply lookup_insert_eq | apply lookup_insert_ne; done].
Qed.

Lemma put_same_on F m p b : p ∉ F -> same_on F m (put m p b).
Proof. intros Hp x Hx. rewrite put_lookup, decide_False; [done|]. intros ->. done. Qed.

(** Rewriting a block in use. *)
Lemma put_inv m U p b : inv m U -> p ∈ U -> block_ok b -> inv (put m p b) U.
Proof.
  intros [free [Hp Hn Hd Hf Hu]] Hin Hb. exists free. split; auto.
  - revert Hp. apply bpath_agree. intros x Hx. rewrite put_lookup, decide_False; [done|].
    intros ->. eapply Hd; eauto.
  - intros x Hx. destruct (Hf x Hx) as [Hlt (b' & Hb' & Hok)]. split; [done|].
    exists b'. rewrite put_lookup, decide_False; [done|]. intros ->. eapply Hd; eauto.
  - intros x Hx. destruct (Hu x Hx) as [Hlt (b' & Hb' & Hok)]. split; [done|].
    rewrite put_lookup. destruct (decide (p = x)); eauto.
Qed.

Lemma inv_weaken m U V : V ⊆ U -> inv m U -> inv m V.
Proof. intros Hs [free [Hp Hn Hd Hf Hu]]. exists free. split; auto. Qed.

Lemma inv_at m U x :
  inv m U -> x ∈ U -> exists b, blk m !! x = Some b /\ block_ok b.
Proof. intros [free Ho] Hx. apply (ok_used _ _ _ Ho x Hx). Qed.

(** The allocator never hands out a block in use. *)
Lemma alloc_buf_spec m U :
  inv m U -> exists p m' b, alloc_buf m = Some (p, m') /\ p ∉ U /\ inv m' ({[p]} ∪ U)
    /\ blk m' !! p = Some b /\ block_ok b /\ size_ b = 0 /\ next_ b = None
    /\ (forall x, x <> p -> blk m' !! x = blk m !! x).
Proof.
  intros [free [Hp Hn Hd Hf Hu]]. unfold alloc_buf.
  destruct free as [|x free].
  - simpl in Hp. rewrite Hp. cbn -[replicate buf_max].
    eexists _, _, (mk_net_buf None 0 _). split; [reflexivity|].
    assert (fresh m ∉ U) as Hnew by (intros Hx; destruct (Hu _ Hx); lia).
    assert (block_ok (mk_net_buf None 0 (replicate (Z.to_nat buf_max) 0))) as Hok.
    { split; cbn [size_ buf_]; [unfold buf_max; lia|].
      rewrite length_replicate. unfold buf_max. lia. }
    split_and!; [done| | | | done | done |].
    + exists []. split; cbn -[replicate buf_max]; [done | apply NoDup_nil_2 | | |].
      * intros x _ H. inversion H.
      * intros x H. inversion H.
      * intros x [->%elem_of_singleton|Hx]%elem_of_union.
        -- split; [lia|]. rewrite lookup_insert_eq. eauto.
        -- destruct (Hu x Hx) as [Hlt Hb]. split; [lia|].
           rewrite lookup_insert_ne by (intros <-; done). done.
    + cbn -[replicate buf_max]. rewrite lookup_insert_eq. reflexivity.
    + exact Hok.
    + intros x Hx. apply lookup_insert_ne. congruence.
  - destruct Hp as (Ep & b & Hb & Hp). rewrite Ep. simpl. rewrite Hb. simpl.
    apply NoDup_cons in Hn as [Hxf Hn].
    assert (block_ok (mk_net_buf None 0 (buf_ b))) as Hok.
    { destruct (Hf x ltac:(left)) as [_ (b' & Hb' & Hlb)]. assert (b' = b) as -> by congruence.
      split; simpl; [unfold buf_max; lia | apply Hlb]. }
    eexists _, _, (mk_net_buf None 0 _). split; [reflexivity|]. split_and!; [| | | | done | done |].
    + intros Hx. apply (Hd x Hx). left.
    + exists free. split; simpl; [ | done | | |].
      * revert Hp. apply bpath_agree. intros y Hy. apply lookup_insert_ne. intros ->. done.
      * intros y [->%elem_of_singleton|Hy]%elem_of_union; [done|].
        intros Hyf. apply (Hd y Hy). by right.
      * intros y Hy. rewrite lookup_insert_ne by (intros ->; done). apply Hf. by right.
      * intros y [->%elem_of_singleton|Hy]%elem_of_union.
        -- rewrite lookup_insert_eq. split; [apply Hf; left | eauto].
        -- rewrite lookup_insert_ne; [auto|]. intros ->. apply (Hd y Hy). left.
    + cbn -[replicate buf_max]. rewrite lookup_insert_eq. reflexivity.
    + exact Hok.
    + intros y Hy. apply lookup_insert_ne. congruence.
Qed.

Lemma alloc_dealloc_buf m U p b :
  inv m ({[p]} ∪ U) -> p ∉ U -> blk m !! p = Some b ->
  exists m', dealloc_buf m p = Some m' /\ inv m' U
    /\ blk m' !! p = Some (mk_net_buf (ptr_ m) (size_ b) (buf_ b))
    /\ (forall x, x <> p -> blk m' !! x = blk m !! x).
Proof.
  intros [free [Hp Hn Hd Hf Hu]] HpU Hb. unfold dealloc_buf. rewrite Hb. simpl.
  eexists. split; [reflexivity|]. simpl. rewrite lookup_insert_eq.
  assert (p ∉ free) as Hpf by (apply Hd; set_solver).
  destruct (Hu p ltac:(set_solver)) as [Hlt (b' & Hb' & Hok)].
  assert (b' = b) as -> by congruence.
  split_and!; [|done|intros x Hx; apply lookup_insert_ne; congruence].
  exists (p :: free). split; simpl.
  - split; [done|]. rewrite lookup_insert_eq. eexists. split; [reflexivity|]. simpl.
    revert Hp. apply bpath_agree. intros x Hx. simpl. apply lookup_insert_ne. intros ->. done.
  - apply NoDup_cons. done.
  - intros x Hx [->|Hxf]%elem_of_cons; [done|]. apply (Hd x); [set_solver | done].
  - intros x [->|Hx]%elem_of_cons.
    + rewrite lookup_insert_eq. split; [done|]. eexists. split; [reflexivity|]. done.
    + rewrite lookup_insert_ne by (intros ->; done). auto.
  - intros x Hx. rewrite lookup_insert_ne by (intros ->; done). apply Hu. set_solver.
Qed.

(** The block after [memcpy] and the new size. *)
Lemma copy_block b s :
  block_ok b -> size_ b + Z.of_nat (length s) <= buf_max ->
  let b' := mk_net_buf (next_ b) (wrap 16 (size_ b + Z.of_nat (length s)))
              (blit (Z.to_nat (size_ b)) s (buf_ b)) in
  block_ok b' /\ used b' = used b ++ s.
Proof.
  intros [H1 H2] Hs. cbn zeta. unfold buf_max in *. unfold block_ok, used. cbn [size_ buf_].
  rewrite wrap_small by mach. split.
  - rewrite length_blit by lia. unfold buf_max. lia.
  - unfold blit.
    replace (Z.to_nat (size_ b + Z.of_nat (length s))) with (Z.to_nat (size_ b) + length s)%nat by lia.
    rewrite app_assoc, take_app_le by (rewrite length_app, length_take; lia).
    apply take_ge. rewrite length_app, length_take. lia.
Qed.

Section writer.
Context (F : gset ptr).

(** A writer owning its blocks, apart from the blocks [F] of all the others. *)
Definition owns (m : pool) (w : net_wtr) (l : list ptr) (t : ptr) (c : bytes) (e : Z) : Prop :=
  chain_repr m w l t c e /\ inv m (list_to_set (l ++ [t]) ∪ F)
  /\ (list_to_set (l ++ [t]) : gset ptr) ## F.

Lemma owns_tail m w l t c e :
  owns m w l t c e ->
  exists b, blk m !! t = Some b /\ tail w m = Some (t, b) /\ block_ok b /\ next_ b = None.
Proof.
  intros ([Hp Ht Hnd Hc Hs] & Hi & Hd).
  destruct (inv_at _ _ t Hi) as (b & Hb & Hok); [rewrite list_to_set_app; set_solver|].
  exists b. unfold tail. rewrite Ht. simpl. rewrite Hb. split_and!; try done.
  apply bpath_app in Hp as (r & _ & (-> & b' & Hb' & Hn)). simpl in Hn. congruence.
Qed.

Lemma owns_size m w l t c e :
  owns m w l t c e -> size w m = Some (wrap 64 (Z.of_nat (length c) + e)).
Proof.
  intros H. destruct (owns_tail _ _ _ _ _ _ H) as (b & Hb & Ht & Hok & _).
  destruct H as ([Hp _ Hnd Hc Hs] & _). unfold size. rewrite Ht. simpl. f_equal.
  rewrite Hs, <- Hc, data_app, length_app. unfold data at 3. simpl. unfold data_at.
  rewrite Hb, app_nil_r, Nat2Z.inj_add, length_used by done.
  unfold wrap. rewrite Zplus_mod_idemp_l. f_equal. lia.
Qed.

Lemma owns_copy m w l t c e b s :
  owns m w l t c e -> blk m !! t = Some b ->
  size_ b + Z.of_nat (length s) <= buf_max ->
  let m' := copy_to m t b s (size_ b + Z.of_nat (length s)) in
  owns m' w l t (c ++ s) e /\ same_on F m m'
  /\ exists b', blk m' !! t = Some b' /\ size_ b' = size_ b + Z.of_nat (length s).
Proof.
  intros H Hb Hs. cbn zeta.
  destruct (owns_tail _ _ _ _ _ _ H) as (b' & Hb' & _ & Hok & Hn).
  assert (b' = b) as -> by congruence.
  destruct (copy_block b s Hok Hs) as [Hok' Hus]. cbn zeta in *.
  destruct H as ([Hp Ht Hnd Hc Hsz] & Hi & Hd). unfold copy_to.
  set (b1 := mk_net_buf _ _ _) in *.
  assert (t ∉ l) as Htl by (apply NoDup_app in Hnd as (_ & H1 & _); intros Hx; eapply H1; [done|left]).
  assert (forall x, x ∈ l -> blk (put m t b1) !! x = blk m !! x) as Hl
    by (intros x Hx; rewrite put_lookup, decide_False; [done | intros ->; done]).
  assert (data (put m t b1) l = data m l) as Hdl
    by (apply data_agree; intros x Hx; rewrite (Hl x Hx); done).
  split; [split; [split|split]|split].
  - apply bpath_app in Hp as (r & H1 & (-> & b2 & H2 & H3)). apply bpath_app. exists (Some t).
    split; [revert H1; apply bpath_agree; done|]. split; [done|]. exists b1.
    rewrite put_lookup, decide_True by done. split; [done|].
    assert (b2 = b) as -> by congruence. done.
  - done.
  - done.
  - rewrite data_app, Hdl, <- Hc, data_app, <- app_assoc. f_equal.
    rewrite !data_one. unfold data_at. rewrite put_lookup, decide_True, Hb; done.
  - rewrite Hdl. done.
  - apply put_inv; [done | rewrite list_to_set_app; set_solver | done].
  - done.
  - apply put_same_on. intros HtF. apply (Hd t); [rewrite list_to_set_app; set_solver | done].
  - exists b1. rewrite put_lookup, decide_True by done. split; [done|]. subst b1.
    cbn [size_]. apply wrap_small. destruct Hok. unfold buf_max in *. mach.
Qed.

Lemma owns_alloc m w l t c e :
  owns m w l t c e ->
  exists w' m' t', alloc w m = Some (w', m') /\ owns m' w' (l ++ [t]) t' c e
    /\ same_on F m m' /\ exists b, blk m' !! t' = Some b /\ size_ b = 0.
Proof.
  intros H. destruct (owns_tail _ _ _ _ _ _ H) as (b & Hb & _ & Hok & Hn).
  destruct H as ([Hp Ht Hnd Hc Hsz] & Hi & Hd).
  destruct (alloc_buf_spec _ _ Hi) as (t' & m1 & nb & Ea & Hnew & Hi1 & Hnb & Hokn & Hsn & Hnn & Hsame).
  assert (t' ∉ l ++ [t]) as Ht'l by set_solver.
  assert (t' <> t) as Htt by set_solver.
  assert (t' ∉ F) as Ht'F by set_solver.
  assert (blk m1 !! t = Some b) as Hb1 by (rewrite Hsame; done).
  unfold alloc. rewrite Ea. simpl. unfold tail. rewrite Ht. simpl. rewrite Hb1. simpl.
  set (b1 := mk_net_buf (Some t') _ _). do 3 eexists. split; [reflexivity|].
  assert (t ∉ l) as Htl by (apply NoDup_app in Hnd as (_ & H1 & _); intros Hx; eapply H1; [done|left]).
  assert (forall x, x ∈ l -> blk (put m1 t b1) !! x = blk m !! x) as Hl.
  { intros x Hx. rewrite put_lookup, decide_False by (intros ->; done). apply Hsame. set_solver. }
  assert (block_ok b1 /\ used b1 = used b) as [Hok1 Hu1] by (split; done).
  assert (data (put m1 t b1) (l ++ [t]) = data m (l ++ [t])) as Hdl.
  { apply data_agree. intros x [Hx|Hx]%elem_of_app; [rewrite Hl; done|].
    apply list_elem_of_singleton in Hx as ->. rewrite put_lookup, decide_True, Hb; simpl; congruence. }
  assert (blk (put m1 t b1) !! t' = Some nb) as Hnb'
    by (rewrite put_lookup, decide_False by congruence; done).
  split; [split; [split|split]|split].
  - apply bpath_app in Hp as (r & H1 & (-> & b2 & H2 & H3)). apply bpath_app. exists (Some t').
    split; [|split; [done|]; exists nb; rewrite Hnn; done].
    apply bpath_app. exists (Some t). split; [revert H1; apply bpath_agree; done|].
    split; [done|]. exists b1. rewrite put_lookup, decide_True by done. done.
  - done.
  - apply NoDup_app. split_and!; [done | set_solver | apply NoDup_singleton].
  - rewrite data_app, Hdl, Hc, data_one. unfold data_at. rewrite Hnb'. unfold used.
    rewrite Hsn. apply app_nil_r.
  - simpl. rewrite Hsz, Hdl, data_app, data_one, length_app. unfold data_at. rewrite Hb.
    rewrite Nat2Z.inj_add, (length_used b) by done. unfold wrap. rewrite Zplus_mod_idemp_l.
    f_equal. lia.
  - apply put_inv; [|set_solver|done].
    eapply inv_weaken; [|exact Hi1]. set_solver.
  - set_solver.
  - intros x Hx. rewrite put_lookup, decide_False; [apply Hsame; set_solver|].
    intros ->. apply (Hd x); [set_solver | done].
  - eauto.
Qed.

(** The test for a full block that precedes every write. *)
Lemma owns_room m w l t c e (full : Z -> bool) :
  owns m w l t c e ->
  exists w' m' l' t' b, ('(_, b) ← tail w m;
      (if full (size_ b) then alloc w m else Some (w, m))) = Some (w', m')
    /\ owns m' w' l' t' c e /\ same_on F m m'
    /\ blk m' !! t' = Some b /\ (full (size_ b) = false \/ size_ b = 0) /\ 0 <= size_ b <= buf_max.
Proof.
  intros H. destruct (owns_tail _ _ _ _ _ _ H) as (b & Hb & -> & Hok & _). simpl.
  destruct (full (size_ b)) eqn:E.
  - destruct (owns_alloc _ _ _ _ _ _ H) as (w' & m' & t' & -> & H' & Hs & b' & Hb' & Hz).
    exists w', m', (l ++ [t]), t', b'. rewrite Hz. unfold buf_max. split_and!; auto; lia.
  - exists w, m, l, t, b. destruct Hok. split_and!; auto; try lia. done.
Qed.

Lemma add_alloc_spec fuel m w l t c e s :
  owns m w l t c e -> (length s <= fuel)%nat ->
  exists w' m' l' t', add_alloc fuel w s m = Some (w', m')
    /\ owns m' w' l' t' (c ++ s) e /\ same_on F m m'.
Proof.
  revert m w l t c s; induction fuel as [|fuel IH]; intros m w l t c s H Hf.
  { destruct s; [|simpl in Hf; lia]. rewrite app_nil_r. simpl. exists w, m, l, t. done. }
  destruct s as [|z s']; [rewrite app_nil_r; exists w, m, l, t; done|].
  set (s := z :: s') in *. unfold add_alloc; fold add_alloc. unfold s at 1.
  destruct (owns_room _ _ _ _ _ _ (fun n => n =? buf_max) H)
    as (w1 & m1 & l1 & t1 & b & E & H1 & Hs1 & Hb & Hroom & Hbd).
  destruct (tail w m) as [[t0 b0]|]; [|done]. simpl in E |- *. rewrite E. simpl.
  destruct (owns_tail _ _ _ _ _ _ H1) as (b' & Hb' & -> & Hok & _). simpl.
  assert (b' = b) as -> by congruence. fold s. change (S (length s')) with (length s).
  set (mlen := Z.min (buf_max - size_ b) (Z.of_nat (length s))).
  assert (0 < Z.of_nat (length s)) as Hlen by (subst s; simpl; lia).
  assert (size_ b < buf_max) as Hlt.
  { destruct Hroom as [Hne%Z.eqb_neq|Hz]; [lia|]. rewrite Hz. done. }
  assert (Z.of_nat (length (take (Z.to_nat mlen) s)) = mlen) as Htk
    by (rewrite length_take; lia).
  destruct (owns_copy _ _ _ _ _ _ b (take (Z.to_nat mlen) s) H1 Hb ltac:(lia))
    as (H2 & Hs2 & _). rewrite Htk in H2, Hs2.
  destruct (IH _ _ _ _ _ (drop (Z.to_nat mlen) s) H2) as (w3 & m3 & l3 & t3 & -> & H3 & Hs3).
  { rewrite length_drop. lia. }
  exists w3, m3, l3, t3. split; [done|]. rewrite <- app_assoc, take_drop in H3.
  split; [done|]. eauto using same_on_trans.
Qed.

(** Adding a string appends exactly its bytes to the message, filling the
    blocks and taking new ones as needed: the call succeeds (its loop ends),
    the size grows by the string's length, and no block of another writer is
    changed. *)
Theorem add_str_owns m w l t c e s :
  owns m w l t c e ->
  exists w' m' l' t', add_str w s m = Some (w', m') /\ owns m' w' l' t' (c ++ s) e
    /\ same_on F m m'
    /\ size w' m' = Some (wrap 64 (Z.of_nat (length c) + Z.of_nat (length s) + e)).
Proof.
  intros H. destruct (owns_tail _ _ _ _ _ _ H) as (b & Hb & Ht & Hok & _).
  assert (forall w' m' l' t', owns m' w' l' t' (c ++ s) e ->
    size w' m' = Some (wrap 64 (Z.of_nat (length c) + Z.of_nat (length s) + e))) as Hsz.
  { intros w' m' l' t' H'. rewrite (owns_size _ _ _ _ _ _ H'), length_app. do 2 f_equal. lia. }
  unfold add_str. rewrite Ht. simpl. destruct (Z.leb_spec (size_ b + Z.of_nat (length s)) buf_max).
  - destruct (owns_copy _ _ _ _ _ _ b s H Hb) as (H1 & Hs & _); [done|].
    exists w, (copy_to m t b s (size_ b + Z.of_nat (length s))), l, t. split_and!; eauto.
  - destruct (add_alloc_spec (length s) m w l t c e s H) as (w' & m' & l' & t' & E & H1 & Hs); [lia|].
    exists w', m', l', t'. eauto.
Qed.

Lemma add_char_owns m w l t c e z :
  owns m w l t c e ->
  exists w' m' l' t', add_char w z m = Some (w', m') /\ owns m' w' l' t' (c ++ [z]) e
    /\ same_on F m m'.
Proof.
  intros H. destruct (owns_room _ _ _ _ _ _ (fun n => n =? buf_max) H)
    as (w1 & m1 & l1 & t1 & b & E & H1 & Hs1 & Hb & Hroom & Hbd).
  unfold add_char. destruct (tail w m) as [[t0 b0]|]; [|done]. simpl in E |- *. rewrite E. simpl.
  destruct (owns_tail _ _ _ _ _ _ H1) as (b' & Hb' & -> & Hok & _). simpl.
  assert (b' = b) as -> by congruence.
  assert (size_ b + Z.of_nat (length [z]) <= buf_max) as Hfit.
  { simpl. destruct Hroom as [Hne%Z.eqb_neq|Hz]; [lia|]. rewrite Hz. done. }
  destruct (owns_copy _ _ _ _ _ _ b [z] H1 Hb Hfit) as (H2 & Hs2 & _).
  do 4 eexists. split; [reflexivity|]. eauto using same_on_trans.
Qed.

(** [reserve] returns null for more than a block, and otherwise a position
    with that much room in the tail block, the bytes written so far unchanged. *)
Theorem reserve_owns m w l t c e len :
  owns m w l t c e -> 0 <= len ->
  exists r w' m' l' t', reserve w len m = Some (r, w', m') /\ owns m' w' l' t' c e
    /\ same_on F m m'
    /\ match r with
       | None => buf_max < len
       | Some (p, off) => p = t' /\ 0 <= off /\ off + len <= buf_max
                          /\ size_ <$> blk m' !! t' = Some off
       end.
Proof.
  intros H Hlen. unfold reserve. destruct (Z.ltb_spec buf_max len) as [Hgt|Hle].
  { exists None, w, m, l, t. done. }
  destruct (owns_room _ _ _ _ _ _ (fun n => buf_max <? n + len) H)
    as (w1 & m1 & l1 & t1 & b & E & H1 & Hs1 & Hb & Hroom & Hbd).
  destruct (tail w m) as [[t0 b0]|]; [|done]. simpl in E |- *. rewrite E. simpl.
  destruct (owns_tail _ _ _ _ _ _ H1) as (b' & Hb' & -> & Hok & _). simpl.
  assert (b' = b) as -> by congruence.
  exists (Some (t1, size_ b)), w1, m1, l1, t1. split_and!; try done; [lia | | rewrite Hb; done].
  destruct Hroom as [Hne%Z.ltb_ge|Hz]; lia.
Qed.
End writer.

(** ** Joining two messages *)

(** Linking the rest [r] of another chain behind the tail [t]. *)
Lemma splice m hd l t r q b :
  path m hd (l ++ [t]) None -> NoDup (l ++ [t]) -> path m q r None -> t ∉ r ->
  next_ b = q ->
  path (put m t b) hd (l ++ [t] ++ r) None
  /\ data (put m t b) (l ++ [t]) = data m l ++ used b
  /\ data (put m t b) r = data m r /\ data (put m t b) l = data m l.
Proof.
  intros Hp Hnd Hq Htr Hb. apply NoDup_app in Hnd as (_ & H1 & _).
  assert (t ∉ l) as Htl by (intros Hx; eapply H1; [done|left]).
  assert (forall x, x <> t -> blk (put m t b) !! x = blk m !! x) as Hs
    by (intros x Hx; rewrite put_lookup, decide_False; done).
  assert (data (put m t b) l = data m l) as Hdl
    by (apply data_agree; intros x Hx; rewrite Hs; [done | intros ->; done]).
  split_and!; [| |apply data_agree; intros x Hx; rewrite Hs; [done | intros ->; done]|done].
  - apply bpath_app in Hp as (p & Hl & (-> & _)). apply bpath_app. exists (Some t). split.
    + revert Hl. apply bpath_agree. intros x Hx. apply Hs. intros ->. done.
    + split; [done|]. exists b. rewrite put_lookup, decide_True by done. split; [done|].
      rewrite Hb. revert Hq. apply bpath_agree. intros x Hx. apply Hs. intros ->. done.
  - rewrite data_app, Hdl, data_one. f_equal. unfold data_at.
    rewrite put_lookup, decide_True by done. done.
Qed.

Lemma wrap_sum w a b c d :
  wrap w (wrap w (wrap w a + b + wrap w c) - d) = wrap w (a + b + c - d).
Proof.
  unfold wrap. rewrite Zminus_mod_idemp_l.
  replace (a mod 2 ^ w + b + c mod 2 ^ w - d) with (a mod 2 ^ w + (c mod 2 ^ w + (b - d))) by lia.
  rewrite Zplus_mod_idemp_l, Z.add_comm, <- Z.add_assoc, Zplus_mod_idemp_l. f_equal. lia.
Qed.

Abbreviation set_of l := (list_to_set l : gset ptr) (only parsing).

(** The block [merge_fit] says the first block of the other message is copied
    into the tail, else it is linked behind it. *)
Definition merge_excess (tb : net_buf) (l2 : list ptr) (c2 : bytes) : Z :=
  if decide (l2 = [] /\ size_ tb + Z.of_nat (length c2) <= buf_max) then size_ tb else 0.

Lemma owns_mono F G m w l t c e :
  owns G m w l t c e -> F ⊆ G -> owns F m w l t c e.
Proof.
  intros (H & Hi & Hd) Hs. split; [done|]. split; [|set_solver].
  eapply inv_weaken; [|exact Hi]. set_solver.
Qed.

(** Two messages in one pool. *)
Record two_wtrs (F : gset ptr) (m : pool) (w1 w2 : net_wtr) l1 t1 c1 e1 l2 t2 c2 e2 : Prop := {
  two_1 : chain_repr m w1 l1 t1 c1 e1;
  two_2 : chain_repr m w2 l2 t2 c2 e2;
  two_inv : inv m (set_of (l1 ++ [t1]) ∪ set_of (l2 ++ [t2]) ∪ F);
  two_disj : set_of (l1 ++ [t1]) ## set_of (l2 ++ [t2]);
  two_F : set_of (l1 ++ [t1]) ∪ set_of (l2 ++ [t2]) ## F }.

Lemma two_owns F m w1 w2 l1 t1 c1 e1 l2 t2 c2 e2 :
  two_wtrs F m w1 w2 l1 t1 c1 e1 l2 t2 c2 e2 ->
  owns (set_of (l2 ++ [t2]) ∪ F) m w1 l1 t1 c1 e1
  /\ owns (set_of (l1 ++ [t1]) ∪ F) m w2 l2 t2 c2 e2.
Proof.
  intros [H1 H2 Hi Hd HF]. split; (split; [done|split; [eapply inv_weaken; [|exact Hi]|]]); set_solver.
Qed.

(** The second message linked behind the first. *)
Lemma join_link F m w1 w2 l1 t1 c1 e1 l2 t2 c2 e2 tb hd :
  two_wtrs F m w1 w2 l1 t1 c1 e1 l2 t2 c2 e2 ->
  blk m !! t1 = Some tb -> hd_ w2 = Some hd ->
  forall sz,
  sz = wrap 64 (Z.of_nat (length (data m (l1 ++ [t1]))) + Z.of_nat (length (data m l2)) + e1 + e2) ->
  let m' := put m t1 (mk_net_buf (Some hd) (size_ tb) (buf_ tb)) in
  owns F m' (mk_net_wtr (hd_ w1) (Some t2) sz) (l1 ++ [t1] ++ l2) t2 (c1 ++ c2) (e1 + e2).
Proof.
  intros [[Hp1 Ht1 Hn1 Hc1 Hs1] [Hp2 Ht2 Hn2 Hc2 Hs2] Hi Hd HF] Htb Hhd sz Hsz m'.
  assert (t1 ∉ l2 ++ [t2]) as Ht12 by (intros Hx; apply (Hd t1); set_solver).
  destruct (splice m (hd_ w1) l1 t1 (l2 ++ [t2]) (hd_ w2) (mk_net_buf (Some hd) (size_ tb) (buf_ tb))
              Hp1 Hn1 Hp2 Ht12 (eq_sym Hhd)) as (Hp & Hd1 & Hd2 & _). fold m' in Hp, Hd1, Hd2.
  assert (data m' (l1 ++ [t1]) = data m (l1 ++ [t1])) as Hd1'.
  { rewrite Hd1, data_app, data_one. unfold data_at. rewrite Htb. done. }
  assert (data m' l2 = data m l2) as Hd2'.
  { apply data_agree. intros x Hx. subst m'. rewrite put_lookup, decide_False; [done|].
    intros ->. apply Ht12. set_solver. }
  destruct (inv_at _ _ t1 Hi ltac:(set_solver)) as (tb' & Htb' & Hok).
  assert (tb' = tb) as -> by congruence.
  assert ((l1 ++ [t1] ++ l2) ++ [t2] = (l1 ++ [t1]) ++ (l2 ++ [t2])) as Eq
    by (rewrite <- !app_assoc; done).
  unfold owns. rewrite Eq. split; [split|split].
  - rewrite Eq, <- app_assoc. exact Hp.
  - done.
  - rewrite Eq. apply NoDup_app. split_and!; [done | | done].
    intros x Hx Hx'. apply (Hd x); set_solver.
  - rewrite Eq, data_app, Hd1', Hd2, Hc1, Hc2. done.
  - simpl sz_. rewrite Hsz, (app_assoc l1 [t1] l2), (data_app _ (l1 ++ [t1])), Hd1', Hd2',
      length_app, Nat2Z.inj_add. f_equal. lia.
  - apply put_inv; [|set_solver|done]. eapply inv_weaken; [|exact Hi]. set_solver.
  - set_solver.
Qed.

(** The first block of the second message copied into the tail and released. *)
Lemma join_copy F m w1 w2 l1 t1 c1 e1 l2 t2 c2 e2 tb hd hb r :
  two_wtrs F m w1 w2 l1 t1 c1 e1 l2 t2 c2 e2 ->
  blk m !! t1 = Some tb -> l2 ++ [t2] = hd :: r -> blk m !! hd = Some hb ->
  size_ tb + size_ hb <= buf_max ->
  exists m', dealloc_buf (put m t1 (mk_net_buf (next_ hb) (wrap 16 (size_ tb + size_ hb))
               (blit (Z.to_nat (size_ tb)) (take (Z.to_nat (size_ hb)) (buf_ hb)) (buf_ tb)))) hd
             = Some m'
    /\ path m' (hd_ w1) (l1 ++ [t1] ++ r) None
    /\ data m' (l1 ++ [t1] ++ r) = c1 ++ c2 /\ data m' l1 = data m l1
    /\ (forall x, x ∈ r -> blk m' !! x = blk m !! x)
    /\ size_ <$> blk m' !! hd = Some (size_ hb)
    /\ size_ <$> blk m' !! t1 = Some (size_ tb + size_ hb)
    /\ inv m' (set_of (l1 ++ [t1] ++ r) ∪ F) /\ same_on F m m'.
Proof.
  intros [[Hp1 Ht1 Hn1 Hc1 Hs1] [Hp2 Ht2 Hn2 Hc2 Hs2] Hi Hd HF] Htb Er Hhb Hfit.
  rewrite Er in *. destruct Hp2 as (Eh & hb' & Hhb' & Hr). assert (hb' = hb) as -> by congruence.
  apply NoDup_cons in Hn2 as [Hhr Hnr].
  destruct (inv_at _ _ t1 Hi ltac:(set_solver)) as (tb' & Htb' & Hok).
  assert (tb' = tb) as -> by congruence.
  destruct (inv_at _ _ hd Hi ltac:(set_solver)) as (hb' & Hhb2 & Hokh).
  assert (hb' = hb) as -> by congruence.
  destruct (copy_block tb (used hb) Hok) as [Hokb Hub]; [rewrite length_used by done; lia|].
  rewrite length_used in Hokb, Hub by done. fold (used hb).
  set (b := mk_net_buf (next_ hb) (wrap 16 (size_ tb + size_ hb))
              (blit (Z.to_nat (size_ tb)) (used hb) (buf_ tb))).
  assert (block_ok b) as Hokb' by exact Hokb.
  assert (used b = used tb ++ used hb) as Hub' by exact Hub.
  assert (t1 ∉ hd :: r) as Ht1r by (intros Hx; apply (Hd t1); set_solver).
  apply not_elem_of_cons in Ht1r as [Ht1h Ht1r].
  destruct (splice m (hd_ w1) l1 t1 r (next_ hb) b Hp1 Hn1 Hr Ht1r eq_refl)
    as (Hp & Hd1 & Hdr & Hdl).
  assert (inv (put m t1 b) ({[hd]} ∪ (set_of (l1 ++ [t1] ++ r) ∪ F))) as Hi1.
  { apply put_inv; [|set_solver|done]. eapply inv_weaken; [|exact Hi]. set_solver. }
  assert (hd ∉ l1 ++ [t1] ++ r) as Hhd by (intros Hx; set_solver).
  assert (blk (put m t1 b) !! hd = Some hb) as Hhb1 by (rewrite put_lookup, decide_False; done).
  destruct (alloc_dealloc_buf (put m t1 b) (set_of (l1 ++ [t1] ++ r) ∪ F) hd hb Hi1
              ltac:(set_solver) Hhb1)
    as (m' & Ed & Hi' & Hbh & Hsame).
  exists m'. split; [exact Ed|].
  assert (forall x, x ∈ l1 ++ [t1] ++ r -> blk m' !! x = blk (put m t1 b) !! x) as Hag
    by (intros x Hx; apply Hsame; intros ->; done).
  split; [revert Hp; apply bpath_agree; done|].
  assert (data m (hd :: r) = used hb ++ data m r) as Hd2
    by (rewrite data_cons; unfold data_at; rewrite Hhb; done).
  rewrite (data_agree (put m t1 b) m') by (intros x Hx; rewrite Hag; done).
  rewrite (data_agree (put m t1 b) m' l1) by (intros x Hx; rewrite Hag; [done | set_solver]).
  assert (data m (l1 ++ [t1]) = data m l1 ++ used tb) as Hd1t
    by (rewrite data_app, data_one; unfold data_at; rewrite Htb; done).
  split_and!; [| done | | | | done |].
  - rewrite app_assoc, data_app, Hd1, Hdr, Hub', <- Hc1, <- Hc2, Hd1t, Hd2, <- !app_assoc. done.
  - intros x Hx. rewrite Hag by set_solver. rewrite put_lookup, decide_False; [done|].
    intros ->. done.
  - rewrite Hbh. done.
  - rewrite Hag by set_solver. rewrite put_lookup, decide_True by done. simpl. f_equal.
    apply wrap_small. destruct Hok, Hokh. unfold buf_max in *. mach.
  - intros x Hx. rewrite Hsame by set_solver. rewrite put_lookup, decide_False; [done|].
    intros ->. set_solver.
Qed.

Lemma data_snoc_len m l t b :
  blk m !! t = Some b -> block_ok b ->
  Z.of_nat (length (data m (l ++ [t]))) = Z.of_nat (length (data m l)) + size_ b.
Proof.
  intros Hb Hok. rewrite data_app, data_one, length_app. unfold data_at. rewrite Hb.
  rewrite Nat2Z.inj_add, length_used; done.
Qed.

(** Adding another message appends its bytes and leaves it without blocks,
    whether its first block is merged into the tail or linked behind it, and
    touches no third message.  The size reported afterwards is right except in
    one case: when the other message is a single block that is merged, the
    bytes already in the tail are counted twice. *)
Theorem add_wtr_owns F m w1 w2 l1 t1 c1 e1 l2 t2 c2 e2 tb :
  two_wtrs F m w1 w2 l1 t1 c1 e1 l2 t2 c2 e2 -> blk m !! t1 = Some tb ->
  let e := e1 + e2 + merge_excess tb l2 c2 in
  exists w' m' l' t', add_wtr w1 w2 m = Some (w', mk_net_wtr None None 0, m')
    /\ owns F m' w' l' t' (c1 ++ c2) e
    /\ same_on F m m'
    /\ size w' m' = Some (wrap 64 (Z.of_nat (length (c1 ++ c2)) + e)).
Proof.
  intros H Htb e.
  enough (exists w' m' l' t', add_wtr w1 w2 m = Some (w', mk_net_wtr None None 0, m')
    /\ owns F m' w' l' t' (c1 ++ c2) e /\ same_on F m m') as (w' & m' & l' & t' & E & Ho & Hs).
  { exists w', m', l', t'. split_and!; auto. eapply owns_size; eauto. }
  destruct (two_owns _ _ _ _ _ _ _ _ _ _ _ _ H) as [H1 H2].
  destruct (owns_tail _ _ _ _ _ _ _ H1) as (tb' & Htb' & Ht1 & Hok1 & _).
  assert (tb' = tb) as -> by congruence.
  destruct (owns_tail _ _ _ _ _ _ _ H2) as (tlb & Htlb & Ht2 & Hok2 & _).
  pose proof H as [[Hp1 Ht1' Hn1 Hc1 Hs1] [Hp2 Ht2' Hn2 Hc2 Hs2] Hi Hd HF].
  destruct (l2 ++ [t2]) as [|hd r] eqn:Er; [destruct l2; done|].
  pose proof Hp2 as (Eh & hb & Hhb & Hr).
  destruct (inv_at _ _ hd Hi ltac:(set_solver)) as (hb' & Hhb2 & Hokh).
  assert (hb' = hb) as -> by congruence.
  unfold add_wtr. rewrite Ht1. simpl. rewrite (owns_size _ _ _ _ _ _ _ H2). simpl.
  rewrite Eh, Ht2'. simpl. rewrite Hhb. simpl. rewrite Hs1.
  pose proof (data_snoc_len m l1 t1 tb Htb Hok1) as Hlen1.
  pose proof (data_snoc_len m l2 t2 tlb Htlb Hok2) as Hlen2. rewrite Er, Hc2 in Hlen2.
  destruct (Z.leb_spec (size_ tb + size_ hb) buf_max) as [Hfit|Hbig].
  - destruct (join_copy _ _ _ _ _ _ _ _ _ _ _ _ tb hd hb r H Htb Er Hhb Hfit)
      as (m' & -> & Hp & Hdat & Hdl & Hr' & Hszh & Hszt & Hinv & Hsame). simpl.
    destruct l2 as [|hd' r'].
    + injection Er as -> <-. rewrite decide_True by done.
      destruct (blk m' !! hd) as [hb'|] eqn:Eb; [|done]. simpl in Hszh |- *.
      injection Hszh as ->. assert (hb = tlb) as -> by congruence.
      do 4 eexists. split; [reflexivity|]. split; [|done]. split; [|split; [exact Hinv|set_solver]].
      split; try done. simpl. rewrite wrap_sum, Hdl. subst e. unfold merge_excess.
      simpl in Hlen2. rewrite decide_True by (split; [done | lia]). f_equal. lia.
    + injection Er as <- <-. rewrite decide_False by (intros <-; apply NoDup_cons in Hn2; set_solver).
      rewrite Hr', Htlb by set_solver. simpl.
      do 4 eexists. split; [reflexivity|]. split; [|done].
      assert ((l1 ++ [t1] ++ r') ++ [t2] = l1 ++ [t1] ++ r' ++ [t2]) as Eq
        by (rewrite <- !app_assoc; done).
      split; [|rewrite Eq; split; [exact Hinv | set_solver]].
      split; rewrite ?Eq; try done.
      * rewrite app_assoc. apply NoDup_app. apply NoDup_cons in Hn2 as [Hn2' Hn2].
        split_and!; [done | | done]. intros x Hx Hx'. apply (Hd x); set_solver.
      * simpl sz_. rewrite wrap_sum. unfold e, merge_excess. rewrite decide_False by (intros [? _]; done).
        pose proof (data_snoc_len m' (l1 ++ [t1] ++ r') t2 tlb) as Hlen.
        rewrite Hr', Eq, Hdat, length_app in Hlen by set_solver.
        specialize (Hlen Htlb Hok2). rewrite <- Hc1 in Hlen. f_equal. lia.
  - pose proof (join_link F m w1 w2 l1 t1 c1 e1 l2 t2 c2 e2 tb hd H Htb Eh _ eq_refl) as Ho.
    cbn zeta in Ho. simpl. assert (t1 <> t2) as Ht12.
    { intros ->. apply (Hd t2); [set_solver|]. rewrite <- Er. set_solver. }
    rewrite lookup_insert_ne, Htlb by done. simpl.
    assert (e = e1 + e2) as ->.
    { unfold e, merge_excess. rewrite decide_False; [lia|]. intros [-> Hfit].
      injection Er as <- <-. simpl in Hlen2. assert (hb = tlb) as -> by congruence. lia. }
    do 4 eexists. split; [reflexivity|]. split.
    + rewrite wrap_sum. simpl.
      replace (Z.of_nat (length (data m l1)) + e1 + size_ tb + (Z.of_nat (length c2) + e2)
               - size_ tlb)
        with (Z.of_nat (length (data m (l1 ++ [t1]))) + Z.of_nat (length (data m l2)) + e1 + e2)
        by lia. exact Ho.
    + apply put_same_on. set_solver.
Qed.

(** ** Construction, release and reading *)

Lemma new_pool_inv : inv new_pool ∅.
Proof.
  exists []. split; simpl; [done | apply NoDup_nil_2 | set_solver | | set_solver].
  intros x Hx. inversion Hx.
Qed.

Lemma new_wtr_owns m F :
  inv m F -> exists w m' t, new_wtr m = Some (w, m') /\ owns F m' w [] t [] 0 /\ same_on F m m'.
Proof.
  intros Hi. destruct (alloc_buf_spec m F Hi)
    as (t & m' & b & E & Hnew & Hi' & Hb & Hok & Hs & Hn & Hsame).
  unfold new_wtr. rewrite E. simpl. do 3 eexists. split; [reflexivity|].
  split; [split; [split|split]|]; simpl; try done.
  - split; [done|]. exists b. done.
  - apply NoDup_singleton.
  - unfold data, data_at. simpl. rewrite Hb. unfold used. rewrite Hs. done.
  - eapply inv_weaken; [|exact Hi']. set_solver.
  - set_solver.
  - intros x Hx. apply Hsame. intros ->. done.
Qed.

Lemma dealloc_from_inv F fuel m p l :
  path m p l None -> NoDup l -> inv m (set_of l ∪ F) -> set_of l ## F ->
  (length l <= fuel)%nat ->
  exists m', dealloc_from fuel m p = Some m' /\ inv m' F /\ same_on F m m'.
Proof.
  revert fuel m p; induction l as [|x l IH]; intros fuel m p Hp Hnd Hi Hd Hf.
  - simpl in Hp. subst p. exists m. split; [destruct fuel; done|]. split; [|done].
    eapply inv_weaken; [|exact Hi]. set_solver.
  - destruct Hp as (-> & b & Hb & Hp). apply NoDup_cons in Hnd as [Hxl Hnd].
    destruct fuel as [|fuel]; simpl in Hf; [lia|]. simpl dealloc_from. rewrite Hb. simpl.
    destruct (alloc_dealloc_buf m (set_of l ∪ F) x b) as (m1 & -> & Hi1 & _ & Hs1).
    { eapply inv_weaken; [|exact Hi]. set_solver. }
    { set_solver. }
    { done. }
    simpl. destruct (IH fuel m1 (next_ b)) as (m' & -> & Hi' & Hs'); [|done|done| |lia|].
    + revert Hp. apply bpath_agree. intros y Hy. apply Hs1. intros ->. done.
    + set_solver.
    + exists m'. split; [done|]. split; [done|]. intros y Hy. rewrite Hs' by done.
      apply Hs1. set_solver.
Qed.

Lemma contents_path fuel m p l :
  path m p l None -> (length l <= fuel)%nat -> contents fuel m p = Some (data m l).
Proof.
  revert fuel p; induction l as [|x l IH]; intros fuel p Hp Hf.
  - simpl in Hp. subst p. destruct fuel; done.
  - destruct Hp as (-> & b & Hb & Hp). destruct fuel as [|fuel]; simpl in Hf; [lia|].
    rewrite data_cons. unfold data_at. cbn [contents]. rewrite Hb. cbn.
    rewrite (IH fuel _ Hp) by lia. done.
Qed.

(** Walking a writer's chain reads the bytes added to it, and ends. *)
Lemma contents_owns F m w l t c e fuel :
  owns F m w l t c e -> (S (length l) <= fuel)%nat -> contents fuel m (hd_ w) = Some c.
Proof.
  intros ([Hp _ _ Hc _] & _) Hf. rewrite <- Hc. apply contents_path; [done|].
  rewrite length_app. simpl. lia.
Qed.

(** [reset] gives every block back to the pool and leaves an empty message
    of size 0; no other message is touched. *)
Theorem reset_owns F m w l t c e fuel :
  owns F m w l t c e -> (S (length l) <= fuel)%nat ->
  exists w' m' t', reset fuel w m = Some (w', m') /\ owns F m' w' [] t' [] 0
    /\ same_on F m m' /\ size w' m' = Some 0.
Proof.
  intros ([Hp Ht Hn Hc Hs] & Hi & Hd) Hf.
  destruct (dealloc_from_inv F fuel m (hd_ w) (l ++ [t]) Hp Hn Hi Hd) as (m1 & E & Hi1 & Hs1).
  { rewrite length_app. simpl. lia. }
  unfold reset, dealloc. rewrite E. simpl.
  destruct (new_wtr_owns m1 F Hi1) as (w' & m' & t' & En & Ho & Hs2).
  exists w', m', t'. split; [exact En|]. split; [exact Ho|]. split; [eauto using same_on_trans|].
  rewrite (owns_size _ _ _ _ _ _ _ Ho). done.
Qed.

(** ** Witnesses *)

Definition block_of (s : bytes) : net_buf :=
  mk_net_buf None (Z.of_nat (length s)) (s ++ replicate (Z.to_nat buf_max - length s) 0).

(** Two one-block messages in one pool. *)
Definition two_pool : pool :=
  mk_pool (<[1%positive := block_of (bs "ab")]> (<[2%positive := block_of (bs "cde")]> ∅)) None 3.
Definition one_block (p : ptr) : net_wtr := mk_net_wtr (Some p) (Some p) 0.

Lemma block_of_ok s : (length s <= Z.to_nat buf_max)%nat -> block_ok (block_of s).
Proof.
  intros Hs. unfold block_ok, block_of. cbn [size_ buf_]. rewrite length_app, length_replicate.
  unfold buf_max in *. lia.
Qed.

Lemma two_pool_two :
  two_wtrs ∅ two_pool (one_block 1) (one_block 2) [] 1 (bs "ab") 0 [] 2 (bs "cde") 0.
Proof.
  split; [split|split| |set_solver|set_solver]; try done; try apply NoDup_singleton.
  - split; [done|]. eexists. split; done.
  - split; [done|]. eexists. split; done.
  - exists []. split; [done | apply NoDup_nil_2 | intros x _ H; inversion H
      | intros x H; inversion H|].
    intros x Hx. assert (x = 1%positive \/ x = 2%positive) as [-> | ->] by set_solver.
    + split; [done|]. exists (block_of (bs "ab")). split; [done|]. apply block_of_ok. vm_compute. lia.
    + split; [done|]. exists (block_of (bs "cde")). split; [done|]. apply block_of_ok. vm_compute. lia.
Qed.

Lemma add_str_owns_witness :
  exists w' m' l' t', add_str (one_block 1) (bs "xyz") two_pool = Some (w', m')
    /\ owns {[2%positive]} m' w' l' t' (bs "abxyz") 0 /\ size w' m' = Some 5.
Proof.
  destruct (two_owns _ _ _ _ _ _ _ _ _ _ _ _ two_pool_two) as [H _].
  destruct (add_str_owns {[2%positive]} two_pool (one_block 1) [] 1 (bs "ab") 0 (bs "xyz"))
    as (w' & m' & l' & t' & E & Ho & _ & Hs).
  - eapply owns_mono; [exact H | set_solver].
  - exists w', m', l', t'. split; [exact E|]. split; [exact Ho | exact Hs].
Defined.

Lemma reserve_owns_witness :
  exists r w' m', reserve (one_block 1) 64 two_pool = Some (r, w', m') /\ r = Some (1%positive, 2).
Proof.
  destruct (two_owns _ _ _ _ _ _ _ _ _ _ _ _ two_pool_two) as [H _].
  destruct (reserve_owns {[2%positive]} two_pool (one_block 1) [] 1 (bs "ab") 0 64)
    as (r & w' & m' & l' & t' & E & _).
  - eapply owns_mono; [exact H | set_solver].
  - lia.
  - exists r, w', m'. split; [exact E|]. vm_compute in E. injection E as <- _ _. reflexivity.
Defined.

(** The sum of the two sizes is 5, the size reported 7. *)
Lemma add_wtr_owns_witness :
  exists w' m' l' t', add_wtr (one_block 1) (one_block 2) two_pool
                      = Some (w', mk_net_wtr None None 0, m')
    /\ owns ∅ m' w' l' t' (bs "abcde") 2 /\ size w' m' = Some 7.
Proof.
  destruct (add_wtr_owns ∅ two_pool _ _ _ _ _ _ _ _ _ _ (block_of (bs "ab")) two_pool_two eq_refl)
    as (w' & m' & l' & t' & E & Ho & _ & Hs).
  exists w', m', l', t'. split; [exact E|]. split; [exact Ho | exact Hs].
Defined.

Lemma reset_owns_witness :
  exists w' m' t', reset 1 (one_block 1) two_pool = Some (w', m')
    /\ owns {[2%positive]} m' w' [] t' [] 0 /\ size w' m' = Some 0.
Proof.
  destruct (two_owns _ _ _ _ _ _ _ _ _ _ _ _ two_pool_two) as [H _].
  destruct (reset_owns {[2%positive]} two_pool (one_block 1) [] 1 (bs "ab") 0 1)
    as (w' & m' & t' & E & Ho & _ & Hs).
  - eapply owns_mono; [exact H | set_solver].
  - simpl. lia.
  - exists w', m', t'. split; [exact E|]. split; [exact Ho | exact Hs].
Defined.
