(* ===== verification/NetConnect.v ===== *)
(** * Stream connections ([net_connect] of [pc/net_socket.cpp])

    The send queue is a chain of blocks of the pool; [poll_send] hands bytes to
    the kernel and releases blocks.  [poll_recv] collects inbound bytes and runs
    the connection's parser over them.  What the kernel's [send] and [recv]
    return is an input, one value for each call.  Parsers are an interface,
    [NetParser]: its laws are what a parser must keep for the cuts of the stream
    into reads not to show.  The parser of web sockets ([WebSocket]) and that of
    the proxy's clients ([TxSvr]) keep them; the HTTP parsers do not, since they
    keep the headers of an incomplete text ([Http]). *)

From S2P Require Import Prelude NetBuf.

(** ** Sending *)

(** The result of [send]: a byte count, [EAGAIN], or 0 or another error. *)
Inductive send_rc := sent (n : Z) | send_again | send_fail.

Record send_queue := mk_send_queue {
  whd_ : option ptr; wtl_ : option ptr; wsz_ : Z;
  lp_ : bool;      (* is there a net_loop *)
  ev_out : bool;   (* is the socket registered for EPOLLOUT *)
  serr : bool }.

Definition new_send_queue (lp : bool) : send_queue := mk_send_queue None None 0 lp false false.

Definition get_is_send (q : send_queue) : bool := bool_decide (whd_ q <> None).

Definition add_send (q : send_queue) (msg : net_wtr) (m : pool)
  : option (send_queue * net_wtr * pool) :=
  let '(hd, tl, msg) := detach msg in
  match wtl_ q with
  | Some t =>
      b ← blk m !! t;
      Some (mk_send_queue (whd_ q) tl (wsz_ q) (lp_ q) (ev_out q) (serr q), msg,
            put m t (mk_net_buf hd (size_ b) (buf_ b)))
  | None =>
      Some (mk_send_queue hd tl (wsz_ q) (lp_ q) (if lp_ q then true else ev_out q) (serr q),
            msg, m)
  end.

(** One turn of the loop of [poll_send]; the bytes given to the kernel are
    [slice]d out of the block.  The flag says whether the loop goes on. *)
Definition send_step (q : send_queue) (rc : send_rc) (m : pool)
  : option (send_queue * pool * bytes * bool) :=
  p ← whd_ q;
  b ← blk m !! p;
  match rc with
  | sent n =>
      let wire := slice (Z.to_nat (wsz_ q)) (Z.to_nat n) (buf_ b) in
      let wsz := wrap 16 (wsz_ q + n) in
      if wsz =? size_ b then
        m ← dealloc_buf m p;
        match next_ b with
        | None =>
            Some (mk_send_queue None None 0 (lp_ q) (if lp_ q then false else ev_out q) (serr q),
                  m, wire, false)
        | Some nxt =>
            Some (mk_send_queue (Some nxt) (wtl_ q) 0 (lp_ q) (ev_out q) (serr q), m, wire, true)
        end
      else Some (mk_send_queue (whd_ q) (wtl_ q) wsz (lp_ q) (ev_out q) (serr q), m, wire, true)
  | send_again => Some (q, m, [], false)
  | send_fail =>
      Some (mk_send_queue (whd_ q) (wtl_ q) (wsz_ q) (lp_ q) (ev_out q) true, m, [], false)
  end.

Fixpoint send_loop (q : send_queue) (rcs : list send_rc) (m : pool)
  : option (send_queue * pool * bytes) :=
  match rcs with
  | [] => Some (q, m, [])
  | rc :: rcs' =>
      '(q, m, wire, more) ← send_step q rc m;
      if (more : bool) then
        '(q, m, wire') ← send_loop q rcs' m; Some (q, m, wire ++ wire')
      else Some (q, m, wire)
  end.

Definition poll_send (q : send_queue) (rcs : list send_rc) (m : pool)
  : option (send_queue * pool * bytes) :=
  if negb (get_is_send q) || serr q then Some (q, m, []) else send_loop q rcs m.

(** [net_connect::teardown]: the write side. *)
Definition teardown_send (fuel : nat) (q : send_queue) (m : pool) : option (send_queue * pool) :=
  m ← dealloc_from fuel m (whd_ q);
  Some (mk_send_queue None None 0 (lp_ q) (ev_out q) (serr q), m).

(** ** Receiving *)

(** What a call of [parse] does: it asks for more bytes, or it took some. *)
Inductive parse_res (S : Type) := need (s : S) | took (s : S) (n : nat).
Arguments need {S} _.
Arguments took {S} _ _.

(** A parser over states [S]; a call that would leave the buffer has no
    result.  [perr] tells when the parser has put the connection in error.  The laws: a call
    that takes bytes takes at least one and no more than there are, and would
    do the same with more bytes behind them; a call that asks for more changes
    nothing. *)
Class NetParser (S : Type) := {
  parse : S -> bytes -> option (parse_res S);
  perr : S -> bool;
  parse_took s b s' n : parse s b = Some (took s' n) ->
    (0 < n <= length b)%nat /\ forall c, parse s (b ++ c) = Some (took s' n);
  parse_need s b s' : parse s b = Some (need s') -> s' = s;
  parse_undef s b : parse s b = None -> forall c, parse s (b ++ c) = None
}.

(** The result of [recv]. *)
Inductive recv_rc := recvd (d : bytes) | recv_again | recv_fail.

Definition buf_len : nat := 2048.

Section receive.
Context {S : Type} `{NetParser S}.

Record reader := mk_reader { rdr_ : bytes; rsz_ : nat; rerr : bool; pst : S }.

Definition get_is_err (r : reader) : bool := rerr r || perr (pst r).

(** The bytes received and not parsed. *)
Definition pending (r : reader) : bytes := take (rsz_ r) (rdr_ r).

(** The parse loop; [idx] is the read position. *)
Fixpoint parse_loop (fuel : nat) (r : reader) (idx : nat) : option reader :=
  if get_is_err r || (rsz_ r =? 0)%nat then Some r else
  match fuel with
  | O => None
  | Datatypes.S fuel' =>
      res ← parse (pst r) (slice idx (rsz_ r) (rdr_ r));
      match res with
      | took s n =>
          parse_loop fuel' (mk_reader (rdr_ r) (rsz_ r - n) (rerr r) s) (idx + n)
      | need s =>
          let d := if (idx =? 0)%nat then rdr_ r
                   else blit 0 (slice idx (rsz_ r) (rdr_ r)) (rdr_ r) in
          Some (mk_reader d (rsz_ r) (rerr r) s)
      end
  end.

(** One turn of the loop of [poll_recv]: make room, read, parse. *)
Definition extend (r : reader) : reader :=
  if (length (rdr_ r) - rsz_ r <? buf_len)%nat
  then mk_reader (rdr_ r ++ replicate buf_len 0) (rsz_ r) (rerr r) (pst r)
  else r.
Definition receive (r : reader) (d : bytes) : reader :=
  mk_reader (blit (rsz_ r) d (rdr_ r)) (rsz_ r + length d) (rerr r) (pst r).

Fixpoint poll_recv (r : reader) (rcs : list recv_rc) : option reader :=
  if get_is_err r then Some r else
  match rcs with
  | [] => Some r
  | rc :: rcs' =>
      let r := extend r in
      match rc with
      | recvd d =>
          let r := receive r d in
          r ← parse_loop (Datatypes.S (rsz_ r)) r 0;
          poll_recv r rcs'
      | recv_again => Some r
      | recv_fail => Some (mk_reader (rdr_ r) (rsz_ r) true (pst r))
      end
  end.

(** [net_connect::teardown]: the read side. *)
Definition teardown_recv (r : reader) : reader := mk_reader [] 0 (rerr r) (pst r).

(** ** What receiving amounts to

    [drain s b] applies the parser to a byte string until it asks for more. *)
Fixpoint drain (fuel : nat) (s : S) (b : bytes) : option (S * bytes) :=
  if perr s || (length b =? 0)%nat then Some (s, b) else
  match fuel with
  | O => None
  | Datatypes.S fuel' =>
      res ← parse s b;
      match res with
      | took s' n => drain fuel' s' (drop n b)
      | need s' => Some (s', b)
      end
  end.
Definition drained (s : S) (b : bytes) : option (S * bytes) := drain (Datatypes.S (length b)) s b.

Lemma drain_fuel fuel fuel' s b :
  (length b < fuel)%nat -> (length b < fuel')%nat -> drain fuel s b = drain fuel' s b.
Proof.
  revert fuel' s b; induction fuel as [|fuel IH]; intros [|fuel'] s b Hf Hf'; try lia.
  simpl. destruct (perr s || _); [done|]. destruct (parse s b) as [[s'|s' n]|] eqn:E; simpl; try done.
  apply parse_took in E as [Hn _]. apply IH; rewrite length_drop; lia.
Qed.

(** Parsing what is left of a first part with a second part behind it is
    parsing the whole. *)
Lemma drained_app s a b s1 r1 :
  drained s a = Some (s1, r1) -> drained s (a ++ b) = drained s1 (r1 ++ b).
Proof.
  unfold drained. remember (Datatypes.S (length a)) as fuel eqn:Ef.
  assert (length a < fuel)%nat as Hf by lia. clear Ef.
  revert s a Hf; induction fuel as [|fuel IH]; intros s a Hf; [lia|]. simpl drain at 1.
  destruct (perr s) eqn:Ep; simpl.
  { intros [= <- <-]. rewrite Ep. done. }
  destruct (Nat.eqb_spec (length a) 0) as [Ha|Ha].
  { intros [= <- <-]. done. }
  destruct (parse s a) as [[s'|s' n]|] eqn:E; simpl; try done.
  - apply parse_need in E as ->. intros [= <- <-]. rewrite Ep. done.
  - pose proof (parse_took _ _ _ _ E) as [Hn Hmore]. intros Hd.
    rewrite Ep. rewrite length_app. destruct (Nat.eqb_spec (length a + length b) 0); [lia|].
    simpl. rewrite Hmore. simpl. rewrite drop_app_le by lia.
    rewrite (drain_fuel _ (Datatypes.S (length (drop n a ++ b))));
      [|rewrite length_app, length_drop; lia | lia].
    apply (IH s' (drop n a)); [rewrite length_drop; lia | done].
Qed.

Lemma parse_loop_drain fuel r idx s' rest :
  rerr r = false -> (idx + rsz_ r <= length (rdr_ r))%nat ->
  drain fuel (pst r) (slice idx (rsz_ r) (rdr_ r)) = Some (s', rest) ->
  exists r', parse_loop fuel r idx = Some r' /\ pst r' = s'
    /\ (perr s' = false -> rerr r' = false /\ pending r' = rest
                           /\ (rsz_ r' <= length (rdr_ r'))%nat).
Proof.
  revert r idx; induction fuel as [|fuel IH]; intros r idx Hr Hl; simpl; unfold get_is_err;
    rewrite Hr, length_slice by done; simpl; destruct (perr (pst r)) eqn:Ep; simpl;
    try (intros [= <- <-]; eexists; split; [reflexivity|]; split; [done|]; congruence);
    destruct (Nat.eqb_spec (rsz_ r) 0) as [Hz|Hz]; try done.
  - intros [= <- <-]. exists r. split_and!; try done. intros _. unfold pending, slice.
    rewrite Hz. split_and!; done || lia.
  - intros [= <- <-]. exists r. split_and!; try done. intros _. unfold pending, slice.
    rewrite Hz. split_and!; done || lia.
  - destruct (parse (pst r) _) as [[s1|s1 n]|] eqn:E; simpl; try done.
    + apply parse_need in E as ->. intros [= <- <-]. eexists. split; [reflexivity|].
      split; [done|]. intros _. simpl. unfold pending. simpl.
      destruct (Nat.eqb_spec idx 0) as [->|Hi]; [split_and!; done || lia|].
      unfold blit. simpl. rewrite length_slice by done.
      rewrite take_app_le by (rewrite length_slice; lia).
      rewrite take_ge by (rewrite length_slice; lia). split_and!; [done | done |].
      rewrite length_app, length_slice, length_drop by lia. lia.
    + pose proof (parse_took _ _ _ _ E) as [Hn _]. rewrite length_slice in Hn by done.
      intros Hd. apply (IH (mk_reader (rdr_ r) (rsz_ r - n) false s1)); simpl; [done|lia|].
      rewrite <- drop_slice. done.
Qed.

(** The reader between two reads: no error, and the parser has asked for more
    than the bytes it holds. *)
Record settled (r : reader) : Prop := {
  set_err : rerr r = false;
  set_room : (rsz_ r <= length (rdr_ r))%nat;
  set_drained : drained (pst r) (pending r) = Some (pst r, pending r) }.

Lemma pending_receive r d :
  (rsz_ r <= length (rdr_ r))%nat -> (length d <= buf_len)%nat ->
  let r' := receive (extend r) d in
  (rsz_ r' <= length (rdr_ r'))%nat /\ pending r' = pending r ++ d.
Proof.
  intros Hl Hd. cbn zeta. unfold receive.
  assert (rsz_ (extend r) = rsz_ r) as -> by (unfold extend; destruct (_ <? _)%nat; done).
  assert (rsz_ r + length d <= length (rdr_ (extend r)))%nat as Hroom.
  { unfold extend. destruct (Nat.ltb_spec (length (rdr_ r) - rsz_ r) buf_len); cbn [rdr_]; [|lia].
    rewrite length_app, length_replicate. lia. }
  assert (take (rsz_ r) (rdr_ (extend r)) = take (rsz_ r) (rdr_ r)) as Htk.
  { unfold extend. destruct (_ <? _)%nat; [|done]. cbn [rdr_]. apply take_app_le. done. }
  unfold pending. cbn [rdr_ rsz_]. rewrite length_blit by lia. split; [done|].
  unfold blit. rewrite Htk, app_assoc, take_app_le by (rewrite length_app, length_take; lia).
  apply take_ge. rewrite length_app, length_take. lia.
Qed.

Lemma drained_perr s b : perr s = true -> drained s b = Some (s, b).
Proof. intros E. unfold drained. simpl. rewrite E. done. Qed.

Lemma drained_idem s b s' rest :
  drained s b = Some (s', rest) -> drained s' rest = Some (s', rest).
Proof.
  intros E. pose proof (drained_app s b [] s' rest E) as H1. rewrite !app_nil_r in H1. congruence.
Qed.

(** A call that takes bytes is the first step. *)
Lemma drained_took s b s' n :
  perr s = false -> parse s b = Some (took s' n) -> drained s b = drained s' (drop n b).
Proof.
  intros Hp E. pose proof (parse_took _ _ _ _ E) as [Hn _]. unfold drained at 1. cbn [drain].
  rewrite Hp. destruct (Nat.eqb_spec (length b) 0); [lia|]. rewrite E. cbn [orb mbind option_bind].
  apply drain_fuel; rewrite length_drop; lia.
Qed.

Lemma drained_undef s a b : drained s a = None -> drained s (a ++ b) = None.
Proof.
  unfold drained. remember (Datatypes.S (length a)) as fuel eqn:Ef.
  assert (length a < fuel)%nat as Hf by lia. clear Ef.
  revert s a Hf; induction fuel as [|fuel IH]; intros s a Hf; [lia|]. simpl drain.
  destruct (perr s) eqn:Ep; simpl; [done|].
  destruct (Nat.eqb_spec (length a) 0) as [Ha|Ha]; [done|].
  rewrite length_app. destruct (Nat.eqb_spec (length a + length b) 0); [lia|].
  destruct (parse s a) as [[s'|s' k]|] eqn:E; simpl; try done.
  - pose proof (parse_took _ _ _ _ E) as [Hn Hmore]. intros Hd. rewrite Hmore. simpl.
    rewrite drop_app_le by lia.
    rewrite (drain_fuel _ (Datatypes.S (length (drop k a ++ b))));
      [|rewrite length_app, length_drop; lia | lia].
    apply (IH s' (drop k a)); [rewrite length_drop; lia | done].
  - intros _. rewrite (parse_undef _ _ E). done.
Qed.

Lemma poll_recv_err r rcs : get_is_err r = true -> poll_recv r rcs = Some r.
Proof. intros E. destruct rcs; simpl; rewrite E; done. Qed.

Lemma poll_recv_data r d rcs :
  get_is_err r = false ->
  poll_recv r (recvd d :: rcs)
  = (let r1 := receive (extend r) d in
     r2 ← parse_loop (Datatypes.S (rsz_ r1)) r1 0; poll_recv r2 rcs).
Proof. intros E. simpl. rewrite E. done. Qed.

Lemma poll_recv_again r :
  settled r -> exists r', poll_recv r [recv_again] = Some r' /\ pst r' = pst r
    /\ (perr (pst r) = false -> settled r' /\ pending r' = pending r).
Proof.
  intros [He Hr Hd]. destruct (perr (pst r)) eqn:Ep.
  { rewrite poll_recv_err by (unfold get_is_err; rewrite Ep; apply orb_true_r).
    exists r. split_and!; done. }
  simpl. unfold get_is_err. rewrite He, Ep. simpl. exists (extend r).
  assert (pst (extend r) = pst r /\ rerr (extend r) = rerr r /\ pending (extend r) = pending r
          /\ (rsz_ (extend r) <= length (rdr_ (extend r)))%nat) as (E1 & E2 & E3 & E4).
  { unfold extend. destruct (_ <? _)%nat; [|done]. cbn [pst rerr rsz_ rdr_]. unfold pending.
    cbn [rdr_ rsz_]. rewrite take_app_le, length_app by done. split_and!; done || lia. }
  split; [done|]. split; [done|]. intros _. split; [|done]. split; rewrite ?E1, ?E2, ?E3; done.
Qed.

(** However the kernel cuts the inbound stream into reads, a parser that keeps
    the laws of [NetParser] ends in the state it reaches on the whole stream at
    once, and the connection keeps exactly the bytes that parser asked more of. *)
Lemma poll_recv_stream (r : reader) (ds : list bytes) s' rest :
  settled r -> Forall (fun d => (length d <= buf_len)%nat) ds ->
  drained (pst r) (pending r ++ concat ds) = Some (s', rest) ->
  exists r', poll_recv r ((recvd <$> ds) ++ [recv_again]) = Some r' /\ pst r' = s'
    /\ (perr s' = false -> settled r' /\ pending r' = rest).
Proof.
  intros Hset Hds. revert r Hset. induction Hds as [|d ds Hlen Hds IH]; intros r Hset.
  { simpl. rewrite app_nil_r, (set_drained r Hset). intros [= <- <-].
    apply poll_recv_again. done. }
  destruct Hset as [He Hr Hd]. destruct (perr (pst r)) eqn:Ep.
  { rewrite drained_perr by done. intros [= <- <-]. exists r.
    rewrite poll_recv_err by (unfold get_is_err; rewrite Ep; apply orb_true_r).
    split_and!; [done | done | congruence]. }
  rewrite fmap_cons, <- app_comm_cons, poll_recv_data by (unfold get_is_err; rewrite He, Ep; done).
  destruct (pending_receive r d Hr Hlen) as [Hr1 Hp1]. cbn zeta in *.
  assert (pst (receive (extend r) d) = pst r /\ rerr (receive (extend r) d) = false) as [E1 E2]
    by (unfold receive, extend; destruct (_ <? _)%nat; done).
  remember (receive (extend r) d) as r1 eqn:Er1. cbn [concat]. rewrite app_assoc, <- Hp1, <- E1.
  destruct (drained (pst r1) (pending r1)) as [[s1 b1]|] eqn:Ed;
    [|intros E; rewrite (drained_undef _ _ _ Ed) in E; done].
  rewrite (drained_app _ _ _ _ _ Ed). intros Hfin. pose proof (drained_idem _ _ _ _ Ed) as Hidem.
  assert (length (pending r1) = rsz_ r1) as Hlp by (unfold pending; rewrite length_take; lia).
  unfold drained in Ed. rewrite Hlp in Ed.
  destruct (parse_loop_drain _ r1 0 s1 b1 E2 Hr1 Ed) as (r2 & -> & <- & Hgood). cbn [mbind option_bind].
  destruct (perr (pst r2)) eqn:Ep2.
  - rewrite drained_perr in Hfin by done. injection Hfin as <- <-. exists r2.
    rewrite poll_recv_err by (unfold get_is_err; rewrite Ep2; apply orb_true_r).
    split_and!; [done | done | congruence].
  - destruct (Hgood eq_refl) as (E3 & <- & E4). apply IH; [split|]; done.
Qed.

End receive.

(** ** The send queue as a byte stream *)

(** The queue holds the blocks [l], of which [pend] is still to be sent. *)
Record queue_repr (F : gset ptr) (m : pool) (q : send_queue) (l : list ptr) (pend : bytes)
  : Prop := {
  qr_path : path m (whd_ q) l None;
  qr_tl : wtl_ q = list.last l;
  qr_nodup : NoDup l;
  qr_pos : match l with
           | [] => wsz_ q = 0
           | x :: _ => exists b, blk m !! x = Some b /\ 0 <= wsz_ q <= size_ b
           end;
  qr_pend : drop (Z.to_nat (wsz_ q)) (data m l) = pend;
  qr_inv : inv m (set_of l ∪ F);
  qr_disj : set_of l ## F;
  qr_out : lp_ q = true -> ev_out q = get_is_send q }.

(** [send] accepts at most the [len] bytes it is given. *)
Definition rc_ok (q : send_queue) (rc : send_rc) (m : pool) : Prop :=
  match rc with
  | sent n => exists p b, whd_ q = Some p /\ blk m !! p = Some b
                          /\ 0 < n <= wrap 16 (size_ b - wsz_ q)
  | _ => True
  end.
Fixpoint rcs_ok (q : send_queue) (rcs : list send_rc) (m : pool) : Prop :=
  match rcs with
  | [] => True
  | rc :: rcs' =>
      rc_ok q rc m /\
      forall q' m' wire, send_step q rc m = Some (q', m', wire, true) -> rcs_ok q' rcs' m'
  end.

Lemma get_is_send_some q p : whd_ q = Some p -> get_is_send q = true.
Proof. intros E. apply bool_decide_true. rewrite E. done. Qed.

Lemma new_queue_repr F m lp : inv m F -> queue_repr F m (new_send_queue lp) [] [].
Proof.
  intros Hi. split; simpl; try done; [apply NoDup_nil_2 |].
  eapply inv_weaken; [|exact Hi]. set_solver.
Qed.

(** One [send] of [n] bytes puts the next [n] bytes on the wire. *)
Lemma send_step_sent F m q l pend n :
  queue_repr F m q l pend -> rc_ok q (sent n) m ->
  exists q' m' wire more l' pend', send_step q (sent n) m = Some (q', m', wire, more)
    /\ queue_repr F m' q' l' pend' /\ pend = wire ++ pend' /\ same_on F m m'
    /\ (more = true -> whd_ q' <> None).
Proof.
  intros [Hp Ht Hn Hpos Hpend Hi Hd Ho] (p & b & Hw & Hb & Hrc).
  destruct l as [|x l]; [simpl in Hp; congruence|].
  destruct Hp as (Ew & b' & Hb' & Hp). assert (x = p) as -> by congruence.
  assert (b' = b) as -> by congruence. destruct Hpos as (b' & Hb2 & Hpos).
  assert (b' = b) as -> by congruence.
  destruct (inv_at _ _ p Hi ltac:(set_solver)) as (b' & Hb3 & Hok).
  assert (b' = b) as -> by congruence. pose proof Hok as [Hsz Hbl].
  rewrite wrap_small in Hrc by (unfold buf_max in *; mach).
  unfold send_step. rewrite Hw. simpl. rewrite Hb. simpl.
  rewrite wrap_small by (unfold buf_max in *; mach).
  pose proof (data_cons m p l) as Edat. unfold data_at in Edat. rewrite Hb in Edat.
  assert (slice (Z.to_nat (wsz_ q)) (Z.to_nat n) (buf_ b)
          = take (Z.to_nat n) (drop (Z.to_nat (wsz_ q)) (used b))) as Ewire.
  { unfold slice, used. rewrite skipn_firstn_comm, take_take. f_equal. lia. }
  rewrite Ewire, <- Hpend, Edat. pose proof (length_used b Hok) as Hlu.
  rewrite drop_app_le by lia. apply NoDup_cons in Hn as [Hpl Hn].
  destruct (Z.eqb_spec (wsz_ q + n) (size_ b)) as [Eq|Ne].
  - rewrite take_ge by (rewrite length_drop; lia).
    destruct (alloc_dealloc_buf m (set_of l ∪ F) p b) as (m' & -> & Hi' & _ & Hs).
    { eapply inv_weaken; [|exact Hi]. set_solver. }
    { set_solver. }
    { done. }
    assert (data m' l = data m l) as Edl
      by (apply data_agree; intros y Hy; rewrite Hs; [done | intros ->; done]).
    assert (path m' (next_ b) l None) as Hp'
      by (revert Hp; apply bpath_agree; intros y Hy; apply Hs; intros ->; done).
    assert (same_on F m m') as HsF by (intros y Hy; apply Hs; set_solver).
    simpl. destruct (next_ b) as [nx|] eqn:En.
    + destruct l as [|y l]; [simpl in Hp; congruence|].
      destruct Hp' as (Enx & by' & Hby & Hp'). injection Enx as <-.
      destruct (inv_at _ _ nx Hi' ltac:(set_solver)) as (by2 & Hby2 & [Hby3 _]).
      assert (by2 = by') as -> by congruence.
      do 4 eexists. exists (nx :: l), (data m (nx :: l)). split; [reflexivity|].
      split; [split; cbn -[data]|].
      * split; [done|]. eauto.
      * exact Ht.
      * exact Hn.
      * exists by'. split; [done|]. lia.
      * rewrite Edl. done.
      * done.
      * set_solver.
      * rewrite (get_is_send_some q p) in Ho by done. exact Ho.
      * split_and!; done.
    + destruct l as [|y l]; [|simpl in Hp; destruct Hp; congruence].
      do 4 eexists. exists [], []. split; [reflexivity|].
      split; [split; simpl|].
      * done.
      * done.
      * apply NoDup_nil_2.
      * done.
      * done.
      * done.
      * set_solver.
      * destruct (lp_ q); done.
      * simpl. split_and!; done.
  - do 4 eexists. exists (p :: l), (drop (Z.to_nat n) (drop (Z.to_nat (wsz_ q)) (used b)) ++ data m l).
    split; [reflexivity|]. split; [split; cbn -[data]|].
    + split; [done|]. eauto.
    + done.
    + apply NoDup_cons. done.
    + exists b. split; [done|]. lia.
    + rewrite Edat, drop_app_le by lia. rewrite drop_drop. do 2 f_equal. lia.
    + done.
    + done.
    + rewrite (get_is_send_some q p) in Ho by done. exact Ho.
    + split; [rewrite app_assoc, take_drop; done|]. split; [done|]. simpl. congruence.
Qed.

Lemma send_loop_order F rcs m q l pend :
  queue_repr F m q l pend -> rcs_ok q rcs m -> whd_ q <> None ->
  exists q' m' wire l' pend', send_loop q rcs m = Some (q', m', wire)
    /\ queue_repr F m' q' l' pend' /\ pend = wire ++ pend' /\ same_on F m m'.
Proof.
  revert m q l pend; induction rcs as [|rc rcs IH]; intros m q l pend H Hrc Hw.
  { exists q, m, [], l, pend. done. }
  destruct Hrc as [Hrc Hrcs]. destruct l as [|x l].
  { destruct H as [Hp _ _ _ _ _ _ _]. simpl in Hp. congruence. }
  destruct rc as [n| |].
  - destruct (send_step_sent F m q _ pend n H Hrc)
      as (q1 & m1 & wire & more & l1 & pend1 & E & H1 & -> & Hs & Hm).
    cbn [send_loop]. rewrite E. cbn. destruct more.
    + destruct (IH m1 q1 l1 pend1 H1 (Hrcs _ _ _ E) (Hm eq_refl))
        as (q2 & m2 & wire2 & l2 & pend2 & -> & H2 & -> & Hs2). cbn.
      exists q2, m2, (wire ++ wire2), l2, pend2. rewrite app_assoc. eauto using same_on_trans.
    + exists q1, m1, wire, l1, pend1. done.
  - pose proof H as [(Ew & b & Hb & _) _ _ _ _ _ _ _]. cbn [send_loop]. unfold send_step.
    rewrite Ew. cbn. rewrite Hb. cbn. exists q, m, [], (x :: l), pend. done.
  - pose proof H as [(Ew & b & Hb & Hp) Ht Hn Hpos Hpend Hi Hd Ho]. cbn [send_loop].
    unfold send_step. rewrite Ew. cbn. rewrite Hb. cbn. do 3 eexists. exists (x :: l), pend.
    split; [reflexivity|]. split; [split; cbn -[data]; try done|done].
    + split; [done|]. eauto.
    + rewrite (get_is_send_some q x) in Ho by done. exact Ho.
Qed.

(** (C33) Whatever parts of its blocks the kernel accepts, over any number of
    calls, [poll_send] puts the queued bytes on the wire in order, keeps the
    rest queued, hands fully sent blocks back, touches no other message, and
    keeps the socket registered for writing exactly while it has bytes queued. *)
Theorem poll_send_order F rcs m q l pend :
  queue_repr F m q l pend -> rcs_ok q rcs m ->
  exists q' m' wire l' pend', poll_send q rcs m = Some (q', m', wire)
    /\ queue_repr F m' q' l' pend' /\ pend = wire ++ pend' /\ same_on F m m'.
Proof.
  intros H Hrc. unfold poll_send. destruct (negb (get_is_send q) || serr q) eqn:E.
  - exists q, m, [], l, pend. done.
  - apply orb_false_iff in E as [E _]. apply negb_false_iff in E.
    apply bool_decide_eq_true in E. apply (send_loop_order F rcs m q l pend); done.
Qed.

(** [add_send] queues exactly the bytes of the message behind those already
    queued and leaves the message without blocks. *)
Theorem add_send_queue F m q l pend w lw t c e :
  queue_repr (set_of (lw ++ [t]) ∪ F) m q l pend -> owns (set_of l ∪ F) m w lw t c e ->
  exists q' m', add_send q w m = Some (q', mk_net_wtr None None 0, m')
    /\ queue_repr F m' q' (l ++ lw ++ [t]) (pend ++ c) /\ same_on F m m'.
Proof.
  intros [Hp Ht Hn Hpos Hpend Hi Hd Ho] ([Hpw Htw Hnw Hcw _] & _ & Hdw).
  unfold add_send. simpl. rewrite Ht, Htw. destruct (snoc_cases l) as [->|(l1 & x & ->)].
  - simpl in *. do 2 eexists. split; [reflexivity|]. split; [split; cbn -[data]|done].
    + done.
    + rewrite last_snoc. done.
    + done.
    + destruct (lw ++ [t]) as [|y r] eqn:Er; [done|]. destruct Hpw as (Ey & b & Hb & _).
      destruct (inv_at _ _ y Hi ltac:(set_solver)) as (b' & Hb' & [Hs _]).
      assert (b' = b) as -> by congruence. exists b. split; [done|]. rewrite Hpos. lia.
    + rewrite Hpos in *. simpl in *. rewrite <- Hpend. done.
    + eapply inv_weaken; [|exact Hi]. set_solver.
    + set_solver.
    + intros El. rewrite El. unfold get_is_send. simpl. symmetry. apply bool_decide_true.
      destruct lw; simpl in Hpw; destruct Hpw as [E _]; rewrite E; done.
  - rewrite last_snoc. destruct (inv_at _ _ x Hi ltac:(set_solver)) as (b & Hb & Hok).
    rewrite Hb. simpl. do 2 eexists. split; [reflexivity|].
    set (b1 := mk_net_buf (hd_ w) (size_ b) (buf_ b)).
    assert (x ∉ lw ++ [t]) as Hxw by (intros Hx; apply (Hd x); set_solver).
    destruct (splice m (whd_ q) l1 x (lw ++ [t]) (hd_ w) b1 Hp Hn Hpw Hxw eq_refl)
      as (Hp' & Hd1 & Hd2 & _). fold b1.
    assert (data (put m x b1) (l1 ++ [x]) = data m (l1 ++ [x])) as Hd1'.
    { rewrite Hd1, data_app, data_one. unfold data_at. rewrite Hb. done. }
    assert (exists y r, l1 ++ [x] = y :: r) as (y & r & Ey) by (destruct l1; simpl; eauto).
    assert (forall z, z ∈ (l1 ++ [x]) ++ lw ++ [t] ->
              size_ <$> blk (put m x b1) !! z = size_ <$> blk m !! z) as Hsz.
    { intros z _. rewrite put_lookup. destruct (decide (x = z)) as [<-|]; [rewrite Hb|]; done. }
    assert (last ((l1 ++ [x]) ++ lw ++ [t]) = Some t) as Hlast by (rewrite app_assoc; apply last_snoc).
    split; [split; cbn [whd_ wtl_ wsz_ lp_ ev_out]|].
    + rewrite app_assoc in Hp'. exact Hp'.
    + done.
    + apply NoDup_app. split_and!; [done | | done]. intros z Hz Hz'. apply (Hd z); set_solver.
    + rewrite Ey in Hpos |- *. destruct Hpos as (by' & Hby & Hpos).
      pose proof (Hsz y ltac:(rewrite Ey; left)) as Esz. rewrite Hby in Esz.
      destruct (blk (put m x b1) !! y) as [b2|] eqn:E2; [|done]. injection Esz as Esz.
      exists b2. split; [done|]. lia.
    + rewrite data_app, Hd1', Hd2, Hcw, <- Hpend, drop_app_le; [done|].
      rewrite Ey in Hpos |- *. destruct Hpos as (by' & Hby & Hpos).
      rewrite data_cons, length_app. unfold data_at. rewrite Hby.
      destruct (inv_at _ _ y Hi) as (b2 & Hb2 & Hok2); [rewrite Ey; set_solver|].
      assert (b2 = by') as -> by congruence. pose proof (length_used by' Hok2). lia.
    + apply put_inv; [|set_solver|done]. eapply inv_weaken; [|exact Hi]. set_solver.
    + set_solver.
    + intros El. rewrite (Ho El). unfold get_is_send. done.
    + apply put_same_on. set_solver.
Qed.

(** ** Witnesses *)

Definition one_queue : send_queue := mk_send_queue (Some 1%positive) (Some 1%positive) 0 true true false.

Lemma one_queue_repr :
  queue_repr {[2%positive]} two_pool one_queue [1%positive] (bs "ab").
Proof.
  destruct (two_owns _ _ _ _ _ _ _ _ _ _ _ _ two_pool_two) as [([Hp Ht Hn Hc _] & Hi & Hd) _].
  split; try done.
  - exists (block_of (bs "ab")). split; [done|]. vm_compute. split; discriminate.
Qed.

Lemma poll_send_order_witness :
  exists q' m' wire l' pend', poll_send one_queue [sent 1; send_again] two_pool
                              = Some (q', m', wire)
    /\ queue_repr {[2%positive]} m' q' l' pend' /\ bs "ab" = wire ++ pend' /\ wire = bs "a".
Proof.
  destruct (poll_send_order {[2%positive]} [sent 1; send_again] two_pool one_queue [1%positive]
              (bs "ab") one_queue_repr) as (q' & m' & wire & l' & pend' & E & H & Hw & _).
  - split.
    + exists 1%positive, (block_of (bs "ab")). split; [done|]. split; [done|]. vm_compute.
      split; [reflexivity | discriminate].
    + intros q1 m1 w1 _. split; [exact I | intros; exact I].
  - exists q', m', wire, l', pend'. split; [exact E|]. split; [exact H|]. split; [exact Hw|].
    vm_compute in E. injection E as _ _ <-. reflexivity.
Defined.

Lemma add_send_queue_witness :
  exists q' m', add_send one_queue (one_block 2) two_pool = Some (q', mk_net_wtr None None 0, m')
    /\ queue_repr ∅ m' q' [1; 2]%positive (bs "abcde").
Proof.
  destruct (two_owns _ _ _ _ _ _ _ _ _ _ _ _ two_pool_two) as [_ H2].
  destruct (add_send_queue ∅ two_pool one_queue [1%positive] (bs "ab") (one_block 2) [] 2
              (bs "cde") 0) as (q' & m' & E & H & _).
  - replace (set_of ([] ++ [2%positive]) ∪ ∅) with ({[2%positive]} : gset positive) by set_solver.
    apply one_queue_repr.
  - eapply owns_mono; [exact H2 | set_solver].
  - exists q', m'. split; [exact E | exact H].
Defined.
