(* ===== verification/NetLoop.v ===== *)
(** * Sockets and the epoll loop ([net_loop], [net_socket], [net_listen] and
    [tcp_connect] of [pc/net_socket.cpp])

    A socket has a descriptor and a flag that says it is in the loop; the kernel
    has its own list of the descriptors it watches, with the socket of each.  The
    theorems say when the two agree.  The kernel is an interface, [Kernel]; what
    sockets send and receive is [NetConnect]'s, the time-outs of a connection
    [Reconnect]'s. *)

From S2P Require Import Prelude.

(** ** The kernel *)

Inductive epoll_op := EPOLL_CTL_ADD | EPOLL_CTL_MOD | EPOLL_CTL_DEL.

(** The addresses of sockets. *)
Abbreviation ptr := positive (only parsing).

(** [watched k fd]: the pointer given with [fd] when it was added, and the events
    asked for. *)
Class Kernel (kernel : Type) := {
  sys_socket : kernel -> option Z * kernel;
  sys_accept : kernel -> option Z * kernel;
  sys_close : Z -> kernel -> kernel;
  epoll_ctl : epoll_op -> Z -> ptr -> Z -> kernel -> kernel;
  opened : kernel -> Z -> bool;
  watched : kernel -> Z -> option (ptr * Z);
  (** A new descriptor is not in use; the standard ones are. *)
  socket_new : forall k fd k', sys_socket k = (Some fd, k') \/ sys_accept k = (Some fd, k') ->
    0 < fd /\ opened k fd = false /\ opened k' fd = true
    /\ (forall d, d <> fd -> opened k' d = opened k d) /\ forall d, watched k' d = watched k d;
  socket_none : forall k k', sys_socket k = (None, k') \/ sys_accept k = (None, k') ->
    (forall d, opened k' d = opened k d) /\ forall d, watched k' d = watched k d;
  close_ok : forall fd k, opened (sys_close fd k) fd = false /\ watched (sys_close fd k) fd = None
    /\ (forall d, d <> fd -> opened (sys_close fd k) d = opened k d)
    /\ forall d, d <> fd -> watched (sys_close fd k) d = watched k d;
  negative : forall k fd, fd < 0 -> opened k fd = false;
  (** A descriptor that is not open is not watched. *)
  watched_open : forall k fd, opened k fd = false -> watched k fd = None;
  ctl_ok : forall op fd p ev k, (forall d, opened (epoll_ctl op fd p ev k) d = opened k d)
    /\ (forall d, d <> fd -> watched (epoll_ctl op fd p ev k) d = watched k d)
    /\ watched (epoll_ctl op fd p ev k) fd =
       match op, watched k fd with
       | EPOLL_CTL_ADD, None => if opened k fd then Some (p, ev) else None
       | EPOLL_CTL_ADD, Some x => Some x
       | EPOLL_CTL_MOD, None => None
       | EPOLL_CTL_MOD, Some _ => Some (p, ev)
       | EPOLL_CTL_DEL, _ => None
       end }.

(** [epoll.h]: the flags of [PC_EPOLL_FLAGS], and [EPOLLOUT]. *)
Definition PC_EPOLL_FLAGS : Z := foldr Z.lor 0 [1; Z.shiftl 1 31; 8192; 16; 8].
Definition EPOLLOUT : Z := 4.
Definition EINPROGRESS : Z := 115.

(** ** Sockets *)

(** [lp_]: it has a loop.  [queued_]: [whd_] is not null.  [wait_] is that of
    [tcp_connect]. *)
Record net_socket := mk_net_socket {
  fd_ : Z; inl_ : bool; lp_ : bool; err_ : bool; queued_ : bool; wait_ : bool }.

Definition new_net_socket (lp : bool) : net_socket := mk_net_socket (-1) false lp false false false.

Definition set_fd (fd : Z) (s : net_socket) : net_socket := mk_net_socket fd (inl_ s) (lp_ s) (err_ s) (queued_ s) (wait_ s).
Definition set_in_loop (b : bool) (s : net_socket) : net_socket := mk_net_socket (fd_ s) b (lp_ s) (err_ s) (queued_ s) (wait_ s).
Definition set_err (b : bool) (s : net_socket) : net_socket := mk_net_socket (fd_ s) (inl_ s) (lp_ s) b (queued_ s) (wait_ s).
Definition set_queued (b : bool) (s : net_socket) : net_socket := mk_net_socket (fd_ s) (inl_ s) (lp_ s) (err_ s) b (wait_ s).
Definition set_wait (b : bool) (s : net_socket) : net_socket := mk_net_socket (fd_ s) (inl_ s) (lp_ s) (err_ s) (queued_ s) b.

Section net_loop.
Context {kernel : Type} `{Kernel kernel}.

(** The functions of the socket at [p], on the socket and the kernel. *)
Abbreviation sk := (net_socket * kernel)%type (only parsing).

(** [net_loop::add] and [del]; the results of [epoll_ctl] are not used. *)
Definition loop_add (p : ptr) (events : Z) '((s, k) : sk) : sk :=
  if inl_ s then (s, epoll_ctl EPOLL_CTL_MOD (fd_ s) p events k)
  else (set_in_loop true s, epoll_ctl EPOLL_CTL_ADD (fd_ s) p events k).
Definition loop_del (p : ptr) '((s, k) : sk) : sk :=
  if inl_ s then (set_in_loop false s, epoll_ctl EPOLL_CTL_DEL (fd_ s) p 0 k) else (s, k).

Definition close (p : ptr) '((s, k) : sk) : sk :=
  if 0 <? fd_ s then
    let '(s, k) := if lp_ s then loop_del p (s, k) else (s, k) in
    (set_fd (-1) s, sys_close (fd_ s) k)
  else (s, k).

(** [net_socket::init]. *)
Definition socket_init (p : ptr) '((s, k) : sk) : sk := if lp_ s then loop_add p PC_EPOLL_FLAGS (s, k) else (s, k).

(** *** Connections *)

(** [add_send]: what it does to the loop. *)
Definition add_send (p : ptr) '((s, k) : sk) : sk :=
  if queued_ s then (s, k)
  else
    let s := set_queued true s in
    if lp_ s then loop_add p (Z.lor PC_EPOLL_FLAGS EPOLLOUT) (s, k) else (s, k).
(** [poll_send] when the queue is empty. *)
Definition send_done (p : ptr) '((s, k) : sk) : sk := socket_init p (set_queued false s, k).
(** [net_connect::teardown]. *)
Definition teardown (p : ptr) (x : sk) : sk := let '(s, k) := close p x in (set_queued false s, k).

Definition tcp_teardown (p : ptr) (x : sk) : sk := let '(s, k) := teardown p x in (set_wait false s, k).

(** [tcp_connect::init]: whether the host is resolved, and the error of [connect]
    if there is one. *)
Definition tcp_init (p : ptr) (resolved : bool) (conn_err : option Z) '((s, k) : sk) : bool * sk :=
  let s := set_wait false s in
  let '(s, k) := tcp_teardown p (s, k) in
  let s := set_err false s in
  let '(fd, k) := sys_socket k in
  match fd with
  | None => (false, (set_err true s, k))
  | Some fd =>
      if negb resolved then (false, (set_err true s, k)) else
      let s := set_fd fd s in
      match conn_err with
      | Some errno =>
          if errno =? EINPROGRESS then (true, (set_wait true s, k)) else (false, (set_err true s, k))
      | None => (true, (s, k))
      end
  end.

(** What [tcp_connect::check] finds: the connection made or failed, [select]
    failing, or nothing yet, and then whether it is too late. *)
Inductive check_result := chk_connected | chk_failed | chk_select_failed | chk_nothing (late : bool).

Definition tcp_check (p : ptr) (r : check_result) '((s, k) : sk) : sk :=
  if negb (wait_ s) then (s, k) else
  match r with
  | chk_connected => socket_init p (set_wait false s, k)
  | chk_failed | chk_select_failed | chk_nothing true => (set_err true (set_wait false s), k)
  | chk_nothing false => (s, k)
  end.

(** *** Servers *)

(** [tcp_listen::init] with [net_listen::init]: the results of [setsockopt],
    [bind] and [listen]. *)
Definition listen_init (p : ptr) (reuse_ok bind_ok listen_ok : bool) '((s, k) : sk) : bool * sk :=
  let '(s, k) := close p (s, k) in
  let s := set_err false s in
  let '(fd, k) := sys_socket k in
  match fd with
  | None => (false, (set_err true s, k))
  | Some fd =>
      if negb reuse_ok then (false, (set_err true s, sys_close fd k)) else
      if negb bind_ok then (false, (set_err true s, sys_close fd k)) else
      let s := set_fd fd s in
      if negb listen_ok then (false, (set_err true s, k)) else (true, socket_init p (s, k))
  end.

(** ** The loop *)

Record world := mk_world { socks : gmap ptr net_socket; kern : kernel }.

Definition on (p : ptr) (f : sk -> sk) (w : world) : world :=
  match socks w !! p with
  | Some s => let '(s, k) := f (s, kern w) in mk_world (<[p := s]> (socks w)) k
  | None => w
  end.

(** [net_listen::poll] for one client, which gets a socket of its own, at [p]. *)
Definition accept (p : ptr) (w : world) : world :=
  let '(fd, k) := sys_accept (kern w) in
  match fd with
  | None => mk_world (socks w) k
  | Some fd =>
      let '(s, k) := socket_init p (set_fd fd (new_net_socket true), k) in
      mk_world (<[p := s]> (socks w)) k
  end.

(** [net_loop::poll] on the events it is given, with the sockets' own [poll]. *)
Fixpoint loop_poll (poll : ptr -> world -> world) (evarr : list ptr) (w : world) : world :=
  match evarr with
  | [] => w
  | p :: evarr' =>
      let w := poll p w in
      let w := if default false (err_ <$> socks w !! p)
               then on p (fun x => tcp_teardown p (loop_del p x)) w else w in
      loop_poll poll evarr' w
  end.

(** ** What the loop and the kernel agree on *)

(** A socket with a descriptor is watched exactly when its flag is set; one
    without has the flag clear.  [fine]: only a socket with a loop is in it, only
    one with a descriptor waits for its connection. *)
Definition sock_ok (p : ptr) (s : net_socket) (k : kernel) : Prop :=
  if 0 <? fd_ s then
    opened k (fd_ s) = true
    /\ if inl_ s then exists ev, watched k (fd_ s) = Some (p, ev) else watched k (fd_ s) = None
  else fd_ s = -1 /\ inl_ s = false.

Definition fine (s : net_socket) : Prop := (lp_ s = false -> inl_ s = false) /\ (wait_ s = true -> 0 < fd_ s).

Record coherent (w : world) : Prop := mk_coherent {
  coh_socks : forall p s, socks w !! p = Some s -> sock_ok p s (kern w);
  coh_fine : forall p s, socks w !! p = Some s -> fine s;
  coh_distinct : forall p q s t, socks w !! p = Some s -> socks w !! q = Some t -> 0 < fd_ s -> fd_ s = fd_ t -> p = q;
  coh_watched : forall fd p ev, watched (kern w) fd = Some (p, ev) -> exists s, socks w !! p = Some s /\ fd_ s = fd }.

(** The same for one socket, with the others' descriptors [O] left as they are. *)
Record own (p : ptr) (O : Z -> Prop) (W : Z -> option (ptr * Z)) (x : sk) : Prop := mk_own {
  own_ok : sock_ok p x.1 x.2;
  own_other : 0 < fd_ x.1 -> ~ O (fd_ x.1);
  own_same : forall d, O d -> opened x.2 d = true /\ watched x.2 d = W d;
  own_watched : forall d y, watched x.2 d = Some y -> O d \/ (d = fd_ x.1) }.

Lemma own_ext p O W s s' k : fd_ s' = fd_ s -> inl_ s' = inl_ s -> own p O W (s, k) -> own p O W (s', k).
Proof. intros Ef Ei [H1 H2 H3 H4]. unfold sock_ok in *. split; unfold sock_ok; simpl in *; by rewrite ?Ef, ?Ei. Qed.

Lemma own_add p O W ev s k : own p O W (s, k) -> 0 < fd_ s -> own p O W (loop_add p ev (s, k)).
Proof.
  intros [Hok Ho Hs Hw] Hf. unfold sock_ok in Hok. simpl in *. destruct (Z.ltb_spec 0 (fd_ s)) as [_|]; [|lia].
  destruct Hok as [Hop Hwd].
  assert (forall op, let k' := epoll_ctl op (fd_ s) p ev k in
    (forall d, O d -> opened k' d = true /\ watched k' d = W d)
    /\ forall d y, watched k' d = Some y -> O d \/ d = fd_ s) as Hfr.
  { intros op. destruct (ctl_ok op (fd_ s) p ev k) as (E1 & E2 & _). split.
    - intros d Hd. rewrite E1, E2; [by apply Hs|]. intros ->. by apply Ho.
    - intros d y Hy. destruct (decide (d = fd_ s)); [by right|]. rewrite E2 in Hy by done. by eapply Hw. }
  unfold loop_add. destruct (inl_ s) eqn:Ei.
  - destruct (Hfr EPOLL_CTL_MOD) as [H1 H2]. destruct (ctl_ok EPOLL_CTL_MOD (fd_ s) p ev k) as (E1 & _ & E3).
    destruct Hwd as [ev' Hwd]. rewrite Hwd in E3. split; unfold sock_ok; simpl; try done.
    destruct (Z.ltb_spec 0 (fd_ s)); [|lia]. rewrite E1, Ei. split; [done | by eexists].
  - destruct (Hfr EPOLL_CTL_ADD) as [H1 H2]. destruct (ctl_ok EPOLL_CTL_ADD (fd_ s) p ev k) as (E1 & _ & E3).
    rewrite Hwd, Hop in E3. split; unfold sock_ok; simpl; try done.
    destruct (Z.ltb_spec 0 (fd_ s)); [|lia]. rewrite E1. split; [done | by eexists].
Qed.

(** It is watched after that. *)
Lemma add_watched p O W ev s k :
  own p O W (s, k) -> 0 < fd_ s ->
  let x := loop_add p ev (s, k) in inl_ x.1 = true /\ fd_ x.1 = fd_ s /\ watched x.2 (fd_ s) = Some (p, ev).
Proof.
  intros [Hok _ _ _] Hf. unfold sock_ok in Hok. simpl in *. destruct (Z.ltb_spec 0 (fd_ s)) as [_|]; [|lia].
  destruct Hok as [Hop Hwd]. unfold loop_add. destruct (inl_ s) eqn:Ei; simpl.
  - destruct (ctl_ok EPOLL_CTL_MOD (fd_ s) p ev k) as (_ & _ & ->). by destruct Hwd as [ev' ->].
  - destruct (ctl_ok EPOLL_CTL_ADD (fd_ s) p ev k) as (_ & _ & ->). by rewrite Hwd, Hop.
Qed.

Lemma own_del p O W s k : own p O W (s, k) -> own p O W (loop_del p (s, k)).
Proof.
  intros [Hok Ho Hs Hw]. unfold loop_del. destruct (inl_ s) eqn:Ei; [|by split]. unfold sock_ok in Hok. simpl in *.
  destruct (Z.ltb_spec 0 (fd_ s)) as [Hf|]; [|by destruct Hok as (_ & ?); congruence].
  destruct (ctl_ok EPOLL_CTL_DEL (fd_ s) p 0 k) as (E1 & E2 & E3). split; simpl; try done.
  - unfold sock_ok. simpl. destruct (Z.ltb_spec 0 (fd_ s)); [|lia]. rewrite E1. by destruct Hok.
  - intros d Hd. rewrite E1, E2; [by apply Hs|]. intros ->. by apply Ho.
  - intros d y Hy. destruct (decide (d = fd_ s)); [by right|]. rewrite E2 in Hy by done. by eapply Hw.
Qed.

Lemma fd_del p s k : fd_ (loop_del p (s, k)).1 = fd_ s /\ wait_ (loop_del p (s, k)).1 = wait_ s.
Proof. unfold loop_del. by destruct (inl_ s). Qed.

(** Without a descriptor. *)
Definition closed (x : net_socket * kernel) : Prop := fd_ x.1 = -1 /\ inl_ x.1 = false.

(** A socket is closed after [close] if its loop knows of it: a socket without a
    loop is in none. *)
Lemma own_close p O W s k :
  own p O W (s, k) -> (lp_ s = false -> inl_ s = false) -> own p O W (close p (s, k)) /\ closed (close p (s, k)).
Proof.
  intros Hown Hlp. unfold close. destruct (Z.ltb_spec 0 (fd_ s)) as [Hf|Hf].
  - assert (exists s' k', (if lp_ s then loop_del p (s, k) else (s, k)) = (s', k') /\ own p O W (s', k') /\ fd_ s' = fd_ s
      /\ inl_ s' = false) as (s' & k' & -> & Hown' & Ef & Ei).
    { destruct (lp_ s); [|by exists s, k; auto]. pose proof (own_del p O W s k Hown) as Hd. pose proof (fd_del p s k) as [Hfd _].
      destruct (loop_del p (s, k)) as [s' k'] eqn:E. exists s', k'. split_and!; try done.
      unfold loop_del in E. destruct (inl_ s) eqn:Ei; simplify_eq; done. }
    destruct (close_ok (fd_ s') k') as (E1 & E2 & E3 & E4). destruct Hown' as [Hok Ho Hs Hw]. simpl in *.
    split; [split; simpl|by split].
    + unfold sock_ok. by simpl.
    + lia.
    + intros d Hd. rewrite E3, E4; [by apply Hs|..]; intros ->; apply Ho in Hd; lia || done.
    + intros d y Hy. destruct (decide (d = fd_ s')) as [->|Hne]; [congruence|]. rewrite E4 in Hy by done.
      destruct (Hw d y Hy); [by left | done].
  - split; [done|]. destruct Hown as [Hok _ _ _]. unfold sock_ok in Hok. simpl in Hok.
    by destruct (Z.ltb_spec 0 (fd_ s)); [lia|].
Qed.
(** *** The functions of a socket keep it so *)

Definition good (p : ptr) (O : Z -> Prop) (W : Z -> option (ptr * Z)) (x : net_socket * kernel) : Prop :=
  own p O W x /\ fine x.1.

Lemma good_init p O W s k : good p O W (s, k) -> 0 < fd_ s -> good p O W (socket_init p (s, k)).
Proof.
  intros [Ho [Hl Hw]] Hf. unfold socket_init. destruct (lp_ s) eqn:El; [|by split].
  split; [by apply own_add|]. unfold loop_add. destruct (inl_ s) eqn:Ei; split; simpl; congruence || done.
Qed.

Lemma good_send p O W s k : good p O W (s, k) -> 0 < fd_ s -> good p O W (add_send p (s, k)).
Proof.
  intros [Ho [Hl Hw]] Hf. unfold add_send. destruct (queued_ s); [by split|].
  assert (good p O W (set_queued true s, k)) as Hg by (split; [by apply (own_ext _ _ _ s) | done]).
  simpl. destruct (lp_ s) eqn:El; [|done]. destruct Hg as [Hg _].
  split; [by apply (own_add p O W _ (set_queued true s) k)|]. unfold loop_add. simpl. destruct (inl_ s); split; simpl; congruence || done.
Qed.

Lemma good_done p O W s k : good p O W (s, k) -> 0 < fd_ s -> good p O W (send_done p (s, k)).
Proof. intros [Ho Hfi] Hf. apply good_init; [|done]. split; [by apply (own_ext _ _ _ s) | done]. Qed.

Lemma good_down p O W s k :
  good p O W (s, k) -> good p O W (tcp_teardown p (s, k)) /\ closed (tcp_teardown p (s, k)).
Proof.
  intros [Ho [Hl Hw]]. destruct (own_close p O W s k Ho Hl) as [Hc Hcl]. unfold tcp_teardown, teardown.
  destruct (close p (s, k)) as [s' k']. destruct Hcl as [Ef Ei]. simpl in *.
  split; [|done]. split; [by apply (own_ext _ _ _ s') | by split].
Qed.

(** A new descriptor. *)
Lemma own_new_fd p O W s k fd k' :
  own p O W (s, k) -> closed (s, k) -> sys_socket k = (Some fd, k') \/ sys_accept k = (Some fd, k') ->
  own p O W (set_fd fd s, k') /\ own p O W (s, sys_close fd k') /\ own p O W (s, k') /\ 0 < fd.
Proof.
  intros [Hok Ho Hs Hw] [Ef Ei] E. simpl in *. destruct (socket_new _ _ _ E) as (Hf & Hn & Hn' & E1 & E2).
  assert (forall d, O d -> d <> fd) as Hne by (intros d Hd ->; destruct (Hs _ Hd); congruence).
  assert (watched k fd = None) as Hwn by (by apply watched_open).
  destruct (close_ok fd k') as (C1 & C2 & C3 & C4). split_and!; [..|done].
  - split; simpl.
    + unfold sock_ok. simpl. destruct (Z.ltb_spec 0 fd); [|lia]. by rewrite Hn', Ei, E2.
    + intros _ HO. by apply (Hne _ HO).
    + intros d Hd. rewrite E1, E2 by (by apply Hne). by apply Hs.
    + intros d y Hy. rewrite E2 in Hy. destruct (Hw d y Hy) as [| ->]; [by left|]. rewrite Ef in Hy.
      exfalso. assert (opened k (-1) = false) as Hm by (by apply negative). apply watched_open in Hm. congruence.
  - split; simpl; [by unfold sock_ok in *; rewrite Ef in * | lia | |].
    + intros d Hd. rewrite C3, C4, E1, E2 by (by apply Hne). by apply Hs.
    + intros d y Hy. destruct (decide (d = fd)) as [->|Hd]; [congruence|]. rewrite C4, E2 in Hy by done. by eapply Hw.
  - split; simpl; [by unfold sock_ok in *; rewrite Ef in * | lia | |].
    + intros d Hd. rewrite E1, E2 by (by apply Hne). by apply Hs.
    + intros d y Hy. rewrite E2 in Hy. by eapply Hw.
Qed.

Lemma own_no_fd p O W s k k' :
  own p O W (s, k) -> closed (s, k) -> sys_socket k = (None, k') \/ sys_accept k = (None, k') -> own p O W (s, k').
Proof.
  intros [Hok Ho Hs Hw] [Ef Ei] E. simpl in *. destruct (socket_none _ _ E) as (E1 & E2).
  split; simpl; [by unfold sock_ok in *; rewrite Ef in * | lia | |].
  - intros d Hd. rewrite E1, E2. by apply Hs.
  - intros d y Hy. rewrite E2 in Hy. by eapply Hw.
Qed.
Lemma good_tcp_init p O W res ce s k :
  good p O W (s, k) -> good p O W (tcp_init p res ce (s, k)).2.
Proof.
  intros [Ho [Hl Hw]]. unfold tcp_init.
  assert (good p O W (set_wait false s, k)) as Hg by (split; [by apply (own_ext _ _ _ s) | by split]).
  destruct (good_down p O W _ k Hg) as [[Hd [Hdl Hdw]] Hc]. destruct (tcp_teardown p (set_wait false s, k)) as [s1 k1].
  assert (forall e, own p O W (set_err e s1, k1)) as Hd' by (intros e; by apply (own_ext _ _ _ s1)).
  assert (forall e, closed (set_err e s1, k1)) as Hc' by done. destruct Hc as [Ef Ei]. simpl in *.
  destruct (sys_socket k1) as [[fd|] k2] eqn:E.
  - destruct (own_new_fd p O W _ k1 fd k2 (Hd' false) (Hc' false) (or_introl E)) as (H1 & _ & H3 & Hpos).
    destruct res; simpl; [|split; [by apply (own_ext _ _ _ (set_err false s1)) | done]].
    1: destruct ce as [errno|]; [destruct (errno =? EINPROGRESS)|]; simpl;
      (split; [by apply (own_ext _ _ _ (set_fd fd (set_err false s1))) | by split; simpl]).
  - split; [|by split; simpl].
    apply (own_ext _ _ _ (set_err false s1)); [done..|]. by apply (own_no_fd _ _ _ _ k1 _ (Hd' false) (Hc' false)); left.
Qed.
Lemma good_check p O W r s k : good p O W (s, k) -> good p O W (tcp_check p r (s, k)).
Proof.
  intros [Ho [Hl Hw]]. unfold tcp_check. destruct (wait_ s) eqn:Ew; simpl; [|by split].
  assert (good p O W (set_err true (set_wait false s), k)) as Hf.
  { split; [by apply (own_ext _ _ _ s) | by split]. }
  destruct r as [| | |[]]; try done.
  apply (good_init p O W (set_wait false s) k); [|by apply Hw]. split; [by apply (own_ext _ _ _ s) | by split].
Qed.

Lemma good_listen p O W b1 b2 b3 s k :
  good p O W (s, k) -> wait_ s = false -> good p O W (listen_init p b1 b2 b3 (s, k)).2.
Proof.
  intros [Ho [Hl Hw]] Ewt. unfold listen_init. destruct (own_close p O W s k Ho Hl) as [Hc Hcl].
  assert (wait_ (close p (s, k)).1 = false) as Ewc.
  { unfold close. destruct (0 <? fd_ s); [|done]. pose proof (fd_del p s k) as [_ Ed].
    destruct (lp_ s); [|done]. destruct (loop_del p (s, k)). simpl in *. congruence. }
  destruct (close p (s, k)) as [s1 k1]. simpl in Ewc.
  assert (forall e, own p O W (set_err e s1, k1)) as Hd' by (intros e; by apply (own_ext _ _ _ s1)).
  assert (forall e, closed (set_err e s1, k1)) as Hc' by done. destruct Hcl as [Ef Ei]. simpl in *.
  assert (fine (set_err true s1)) as Hfi by (split; simpl; congruence).
  destruct (sys_socket k1) as [[fd|] k2] eqn:E.
  - destruct (own_new_fd p O W _ k1 fd k2 (Hd' true) (Hc' true) (or_introl E)) as (H1 & H2 & _ & Hpos).
    destruct b1, b2; simpl; try by split.
    assert (fine (set_fd fd (set_err b3 s1))) as Hfi' by (split; simpl; congruence).
    destruct b3; simpl; [|by split]. apply (good_init p O W (set_fd fd (set_err false s1)) k2); [|done].
    split; [by apply (own_ext _ _ _ (set_fd fd (set_err true s1))) | by split; simpl; congruence].
  - split; [by apply (own_no_fd _ _ _ _ k1 _ (Hd' true) (Hc' true)); left | done].
Qed.

(** *** All the sockets *)

(** The descriptors of the others. *)
Definition others (p : ptr) (w : world) (d : Z) : Prop :=
  0 < d /\ exists q t, q <> p /\ socks w !! q = Some t /\ fd_ t = d.

Lemma coherent_own w p s : coherent w -> socks w !! p = Some s -> good p (others p w) (watched (kern w)) (s, kern w).
Proof.
  intros [Hs Hf Hd Hw] Ep. split; [|by eapply Hf]. split; simpl.
  - by apply Hs.
  - intros Hpos (_ & q & t & Hne & Eq & Et). apply Hne. symmetry. by eapply (Hd p q s t).
  - intros d (Hpos & q & t & _ & Eq & <-). split; [|done]. pose proof (Hs q t Eq) as Hok. unfold sock_ok in Hok.
    destruct (Z.ltb_spec 0 (fd_ t)); [by destruct Hok | lia].
  - intros d [q ev] Hy. destruct (Hw d q ev Hy) as (t & Eq & Et). destruct (decide (q = p)) as [->|Hne].
    + right. congruence.
    + left. split; [|by exists q, t]. pose proof (Hs q t Eq) as Hok. unfold sock_ok in Hok.
      destruct (Z.ltb_spec 0 (fd_ t)) as [|]; [lia|]. destruct Hok as [Hm _]. replace d with (-1) in Hy by congruence.
      rewrite (watched_open _ (-1)) in Hy by (by apply negative). done.
Qed.

(** A function that keeps one socket so keeps all. *)
Lemma own_coherent w p s' k' :
  coherent w -> good p (others p w) (watched (kern w)) (s', k') -> coherent (mk_world (<[p := s']> (socks w)) k').
Proof.
  intros [Hs Hf Hd Hw] [[Hok Ho Hsm Hwt] Hfi]. simpl in *.
  assert (forall q t, q <> p -> socks w !! q = Some t -> 0 < fd_ t -> others p w (fd_ t)) as Hoth.
  { intros q t Hne Eq Hpos. split; [done|]. by exists q, t. }
  split; simpl.
  - intros q t Eq. destruct (decide (q = p)) as [->|Hne]; [by rewrite lookup_insert_eq in Eq; simplify_eq|].
    rewrite lookup_insert_ne in Eq by done. pose proof (Hs q t Eq) as Hq. unfold sock_ok in *.
    destruct (Z.ltb_spec 0 (fd_ t)) as [Hpos|]; [|done]. destruct (Hsm _ (Hoth q t Hne Eq Hpos)) as [-> ->]. by destruct Hq.
  - intros q t Eq. destruct (decide (q = p)) as [->|Hne]; [by rewrite lookup_insert_eq in Eq; simplify_eq|].
    rewrite lookup_insert_ne in Eq by done. by eapply Hf.
  - intros q r t u Eq Er Hpos Efd.
    destruct (decide (q = p)) as [->|Hq]; [rewrite lookup_insert_eq in Eq | rewrite lookup_insert_ne in Eq by done];
      (destruct (decide (r = p)) as [->|Hr]; [rewrite lookup_insert_eq in Er | rewrite lookup_insert_ne in Er by done]); simplify_eq; try done.
    + exfalso. apply Ho; [done|]. rewrite Efd in *. by eapply Hoth.
    + exfalso. apply Ho; [lia|]. rewrite <- Efd. by eapply Hoth.
    + by eapply Hd.
  - intros fd q ev Hy. destruct (Hwt fd _ Hy) as [HO | ->].
    + destruct (Hsm fd HO) as [_ E]. rewrite E in Hy. destruct (Hw fd q ev Hy) as (t & Eq & Et).
      destruct HO as (Hpos & r & u & Hne & Er & Eu). exists t. rewrite lookup_insert_ne; [done|].
      intros <-. apply Hne. eapply (Hd r p u t); [done..|lia|congruence].
    + exists s'. unfold sock_ok in Hok. destruct (Z.ltb_spec 0 (fd_ s')) as [Hpos|].
      * destruct Hok as [_ Hin]. destruct (inl_ s'); [|congruence]. destruct Hin as [ev' Hin]. simplify_eq.
        by rewrite lookup_insert_eq.
      * destruct Hok as [Hm _]. rewrite Hm, (watched_open _ (-1)) in Hy by (by apply negative). done.
Qed.

Lemma on_coherent p f w :
  coherent w ->
  (forall s O W, socks w !! p = Some s -> good p O W (s, kern w) -> good p O W (f (s, kern w))) ->
  coherent (on p f w).
Proof.
  intros Hc Hf. unfold on. destruct (socks w !! p) as [s|] eqn:Ep; [|done].
  pose proof (Hf s _ _ eq_refl (coherent_own w p s Hc Ep)) as Hg.
  destruct (f (s, kern w)) as [s' k']. by apply own_coherent.
Qed.
Lemma accept_coherent p w : coherent w -> socks w !! p = None -> coherent (accept p w).
Proof.
  intros Hc Ep. unfold accept. set (s0 := new_net_socket true).
  assert (good p (others p w) (watched (kern w)) (s0, kern w)) as [Hg _].
  { split; [|by split]. destruct Hc as [Hs _ _ Hw]. split; simpl; [by split | lia | |].
    - intros d (Hpos & q & t & _ & Eq & <-). split; [|done]. pose proof (Hs q t Eq) as Hok. unfold sock_ok in Hok.
      destruct (Z.ltb_spec 0 (fd_ t)); [by destruct Hok | lia].
    - intros d [q ev] Hy. left. destruct (Hw d q ev Hy) as (t & Eq & <-). pose proof (Hs q t Eq) as Hok. unfold sock_ok in Hok.
      destruct (Z.ltb_spec 0 (fd_ t)) as [Hpos|].
      + split; [done|]. exists q, t. split; [congruence | done].
      + destruct Hok as [Hm _]. rewrite Hm, (watched_open _ (-1)) in Hy by (by apply negative). done. }
  destruct (sys_accept (kern w)) as [[fd|] k'] eqn:E.
  - destruct (own_new_fd _ _ _ s0 _ fd k' Hg ltac:(done) (or_intror E)) as (H1 & _ & _ & Hpos).
    assert (good p (others p w) (watched (kern w)) (set_fd fd s0, k')) as Hg' by (split; [done | by split]).
    pose proof (good_init _ _ _ _ _ Hg' Hpos) as Hg2. destruct (socket_init p (set_fd fd s0, k')) as [s' k2].
    by apply own_coherent.
  - destruct (socket_none (kern w) k' (or_intror E)) as [E1 E2]. destruct Hc as [Hs Hf Hd Hw]. split; simpl; try done.
    + intros q t Eq. specialize (Hs q t Eq). unfold sock_ok in *. by rewrite E1, E2.
    + intros d q ev. rewrite E2. apply Hw.
Qed.

(** The loop keeps it so if the sockets' own functions do. *)
Lemma loop_poll_coherent poll evarr w :
  (forall p w, coherent w -> coherent (poll p w)) -> coherent w -> coherent (loop_poll poll evarr w).
Proof.
  intros Hp. revert w. induction evarr as [|p evarr IH]; intros w Hc; [done|]. simpl. apply IH.
  apply (Hp p) in Hc. destruct (default false (err_ <$> socks (poll p w) !! p)); [|done].
  apply on_coherent; [done|]. intros s O W _ [Ho [Hl Hw]]. pose proof (own_del _ _ _ _ _ Ho) as Hd.
  assert (fine (loop_del p (s, kern (poll p w))).1) as Hfi.
  { unfold loop_del. destruct (inl_ s) eqn:Ei; split; simpl; congruence || done. }
  destruct (loop_del p (s, kern (poll p w))) as [s' k']. by apply good_down.
Qed.

(** ** What happens to sockets *)

Definition has_fd (p : ptr) (w : world) : Prop := forall s, socks w !! p = Some s -> 0 < fd_ s.

(** Messages are queued, and a queue runs empty, on sockets that have a
    descriptor; the rest at any time. *)
Inductive step (w : world) : world -> Prop :=
  | step_send p : has_fd p w -> step w (on p (add_send p) w)
  | step_done p : has_fd p w -> step w (on p (send_done p) w)
  | step_connect p res ce : step w (on p (fun x => (tcp_init p res ce x).2) w)
  | step_check p r : step w (on p (tcp_check p r) w)
  | step_down p : step w (on p (tcp_teardown p) w)
  | step_listen p b1 b2 b3 : (forall s, socks w !! p = Some s -> wait_ s = false) ->
      step w (on p (fun x => (listen_init p b1 b2 b3 x).2) w)
  | step_accept p : socks w !! p = None -> step w (accept p w)
  | step_error p : step w (on p (fun x => (set_err true x.1, x.2)) w).

(** The sockets are made, and none is open. *)
Definition start (w : world) : Prop :=
  (forall p s, socks w !! p = Some s -> s = new_net_socket (lp_ s)) /\ forall d, watched (kern w) d = None.

Lemma start_coherent w : start w -> coherent w.
Proof.
  intros [Hn Hw]. split.
  - intros p s Ep. by rewrite (Hn p s Ep).
  - intros p s Ep. by rewrite (Hn p s Ep).
  - intros p q s t Ep Eq. rewrite (Hn p s Ep). simpl. lia.
  - intros d q ev. by rewrite Hw.
Qed.

Lemma step_coherent w w' : coherent w -> step w w' -> coherent w'.
Proof.
  intros Hc Hs. destruct Hs as [p Hf|p Hf|p res ce|p r|p|p b1 b2 b3 Hw|p Hp|p]; try apply on_coherent; try done.
  - intros s O W Ep Hg. apply good_send; [done | by apply Hf].
  - intros s O W Ep Hg. apply good_done; [done | by apply Hf].
  - intros s O W Ep. apply good_tcp_init.
  - intros s O W Ep. apply good_check.
  - intros s O W Ep Hg. by apply good_down.
  - intros s O W Ep Hg. apply good_listen; [done | by apply Hw].
  - by apply accept_coherent.
  - intros s O W Ep [Ho Hfi]. split; [by apply (own_ext _ _ _ s) | done].
Qed.

Lemma reachable_coherent w0 w : start w0 -> rtc step w0 w -> coherent w.
Proof. intros H0 Hr. apply start_coherent in H0. induction Hr; eauto using step_coherent. Qed.

(** (C31) As long as messages are queued on open sockets only: a socket is in the loop
    exactly when the kernel watches its descriptor for it, an event of the kernel
    is that of a socket which is there and has that descriptor, and a connection
    that is made is watched. *)
Theorem loop_coherent w0 w :
  start w0 -> rtc step w0 w ->
  (forall p s, socks w !! p = Some s -> 0 < fd_ s ->
     (inl_ s = true <-> exists ev, watched (kern w) (fd_ s) = Some (p, ev)))
  /\ (forall d p ev, watched (kern w) d = Some (p, ev) -> exists s, socks w !! p = Some s /\ fd_ s = d)
  /\ (forall p s, socks w !! p = Some s -> wait_ s = true -> lp_ s = true ->
       let w' := on p (tcp_check p chk_connected) w in
       exists s', socks w' !! p = Some s' /\ fd_ s' = fd_ s /\ inl_ s' = true
       /\ watched (kern w') (fd_ s') = Some (p, PC_EPOLL_FLAGS)).
Proof.
  intros H0 Hr. pose proof (reachable_coherent w0 w H0 Hr) as Hc. split_and!.
  - intros p s Ep Hpos. pose proof (coh_socks w Hc p s Ep) as Hok. unfold sock_ok in Hok.
    destruct (Z.ltb_spec 0 (fd_ s)); [|lia]. destruct Hok as [_ Hok].
    destruct (inl_ s); [done|]. split; [done|]. intros [ev E]. congruence.
  - apply (coh_watched w Hc).
  - intros p s Ep Hwt Hlp w'. destruct (coherent_own w p s Hc Ep) as [Ho [_ Hpos]]. specialize (Hpos Hwt). simpl in Hpos.
    assert (own p (others p w) (watched (kern w)) (set_wait false s, kern w)) as Ho' by (by apply (own_ext _ _ _ s)).
    destruct (add_watched _ _ _ PC_EPOLL_FLAGS _ _ Ho' Hpos) as (H1 & H2 & H3).
    assert (tcp_check p chk_connected (s, kern w) = loop_add p PC_EPOLL_FLAGS (set_wait false s, kern w)) as Ek.
    { unfold tcp_check, socket_init. rewrite Hwt. cbn [negb lp_ set_wait]. by rewrite Hlp. }
    unfold w', on. rewrite Ep, Ek.
    destruct (loop_add p PC_EPOLL_FLAGS (set_wait false s, kern w)) as [s' k']. simpl in *.
    exists s'. simpl. rewrite lookup_insert_eq. split_and!; try done. by rewrite H2.
Qed.
End net_loop.

(** ** A kernel to run it on *)

(** The descriptors that are open, and what each is watched with. *)
Abbreviation table := (gmap positive (option (positive * Z))) (only parsing).
Definition table_new (k : table) : option Z * table :=
  let f := fresh (dom k) in (Some (Zpos f), <[f := None]> k).
Definition table_opened (k : table) (fd : Z) : bool := match fd with Zpos f => bool_decide (is_Some (k !! f)) | _ => false end.
Definition table_watched (k : table) (fd : Z) : option (positive * Z) := match fd with Zpos f => default None (k !! f) | _ => None end.
Definition table_close (fd : Z) (k : table) : table := match fd with Zpos f => delete f k | _ => k end.
Definition table_ctl (op : epoll_op) (fd : Z) (p : positive) (ev : Z) (k : table) : table :=
  match fd with
  | Zpos f =>
      match op, k !! f with
      | EPOLL_CTL_ADD, Some None => <[f := Some (p, ev)]> k
      | EPOLL_CTL_MOD, Some (Some _) => <[f := Some (p, ev)]> k
      | EPOLL_CTL_DEL, Some _ => <[f := None]> k
      | _, _ => k
      end
  | _ => k
  end.

Lemma table_new_ok k fd k' : table_new k = (Some fd, k') ->
  0 < fd /\ table_opened k fd = false /\ table_opened k' fd = true
  /\ (forall d, d <> fd -> table_opened k' d = table_opened k d) /\ forall d, table_watched k' d = table_watched k d.
Proof.
  intros [= <- <-]. set (f := fresh (dom k)).
  assert (k !! f = None) as Hf by (apply not_elem_of_dom; apply is_fresh).
  clearbody f. split_and!.
  - done.
  - unfold table_opened. by rewrite Hf.
  - unfold table_opened. by rewrite lookup_insert_eq.
  - intros [|d|d] Hd; try done. unfold table_opened. by rewrite lookup_insert_ne by congruence.
  - intros [|d|d]; try done. unfold table_watched. destruct (decide (f = d)) as [<-|Hne]; [by rewrite lookup_insert_eq, Hf|].
    by rewrite lookup_insert_ne.
Qed.

Lemma table_close_ok fd k :
  table_opened (table_close fd k) fd = false /\ table_watched (table_close fd k) fd = None
  /\ (forall d, d <> fd -> table_opened (table_close fd k) d = table_opened k d)
  /\ forall d, d <> fd -> table_watched (table_close fd k) d = table_watched k d.
Proof.
  destruct fd as [|f|f]; [done| |done]. unfold table_opened, table_watched, table_close.
  rewrite lookup_delete_eq. split_and!; try done.
  all: intros [|d|d] Hd; try done; by rewrite lookup_delete_ne by congruence.
Qed.

Lemma table_ctl_ok op fd p ev k :
  (forall d, table_opened (table_ctl op fd p ev k) d = table_opened k d)
  /\ (forall d, d <> fd -> table_watched (table_ctl op fd p ev k) d = table_watched k d)
  /\ table_watched (table_ctl op fd p ev k) fd =
     match op, table_watched k fd with
     | EPOLL_CTL_ADD, None => if table_opened k fd then Some (p, ev) else None
     | EPOLL_CTL_ADD, Some x => Some x
     | EPOLL_CTL_MOD, None => None
     | EPOLL_CTL_MOD, Some _ => Some (p, ev)
     | EPOLL_CTL_DEL, _ => None
     end.
Proof.
  assert (forall f x y, k !! f = Some x ->
    (forall d, table_opened (<[f := y]> k) d = table_opened k d)
    /\ (forall d, d <> Zpos f -> table_watched (<[f := y]> k) d = table_watched k d)
    /\ table_watched (<[f := y]> k) (Zpos f) = y) as Hi.
  { intros f x y Ef. unfold table_opened, table_watched. split_and!; [| |by rewrite lookup_insert_eq].
    - intros [|d|d]; try done. destruct (decide (f = d)) as [<-|Hne]; [by rewrite lookup_insert_eq, Ef|].
      by rewrite lookup_insert_ne.
    - intros [|d|d] Hd; try done. by rewrite lookup_insert_ne by congruence. }
  destruct fd as [|f|f]; [by destruct op| |by destruct op].
  unfold table_ctl. assert (table_watched k (Zpos f) = default None (k !! f)) as -> by done.
  assert (table_opened k (Zpos f) = bool_decide (is_Some (k !! f))) as -> by done.
  destruct op; destruct (k !! f) as [[x|]|] eqn:Ef; cbn [default from_option id];
    first [exact (Hi f _ _ Ef) | split_and!; try done; unfold table_watched; by rewrite Ef].
Qed.

#[refine] Definition linux : Kernel table := {|
  sys_socket := table_new; sys_accept := table_new; sys_close := table_close; epoll_ctl := table_ctl;
  opened := table_opened; watched := table_watched |}.
Proof.
  - intros k fd k' [E | E]; by apply table_new_ok.
  - intros k k' [E | E]; discriminate E.
  - apply table_close_ok.
  - intros k [|f|f] Hf; done || lia.
  - intros k [|f|f]; simpl; try done. by destruct (k !! f).
  - apply table_ctl_ok.
Defined.
#[local] Existing Instance linux.

Definition test_start : world := mk_world {[ 1%positive := new_net_socket true ]} (∅ : table).
(** The connection is being made. *)
Definition test_waiting : world := on 1%positive (fun x => (tcp_init 1%positive true (Some EINPROGRESS) x).2) test_start.

Lemma test_start_ok : start test_start.
Proof.
  split.
  - intros p s E. change (({[1%positive := new_net_socket true]} : gmap positive net_socket) !! p = Some s) in E.
    apply lookup_singleton_Some in E as [_ <-]. done.
  - by intros [|d|d].
Qed.
Lemma test_waiting_reach : rtc step test_start test_waiting.
Proof. apply rtc_once. apply step_connect. Qed.

Lemma loop_coherent_witness :
  exists s, socks test_waiting !! 1%positive = Some s /\ wait_ s = true /\
  exists s', socks (on 1%positive (tcp_check 1%positive chk_connected) test_waiting) !! 1%positive = Some s'
    /\ fd_ s' = fd_ s /\ inl_ s' = true
    /\ watched (kern (on 1%positive (tcp_check 1%positive chk_connected) test_waiting)) (fd_ s')
       = Some (1%positive, PC_EPOLL_FLAGS).
Proof.
  eexists. split; [vm_compute; reflexivity|]. split; [reflexivity|].
  apply (proj2 (proj2 (loop_coherent test_start test_waiting test_start_ok test_waiting_reach)));
    [vm_compute; reflexivity | reflexivity | reflexivity].
Defined.

(** A message queued after the connection has been torn down sets the flag of a
    socket without a descriptor: the next connection is then changed in the loop
    rather than added to it, which fails, and no event of it is ever seen. *)
Definition sent_when_closed : world :=
  on 1%positive (tcp_check 1%positive chk_connected)
    (on 1%positive (fun x => (tcp_init 1%positive true (Some EINPROGRESS) x).2)
       (on 1%positive (add_send 1%positive)
          (on 1%positive (tcp_teardown 1%positive)
             (on 1%positive (tcp_check 1%positive chk_connected) test_waiting)))).

Example reconnected_unwatched :
  socks sent_when_closed !! 1%positive = Some (mk_net_socket 1 true true false false false)
  /\ opened (kern sent_when_closed) 1 = true /\ watched (kern sent_when_closed) 1 = None.
Proof. vm_compute. by split_and!. Qed.
