(* ===== verification/WebSocket.v ===== *)
(** * WebSocket frames ([ws_wtr], [ws_parser] of [pc/net_socket.cpp])

    [commit] turns a message into one final frame, masked or not; [ws_parse]
    reads frames, unmasks them, reassembles fragments and answers control
    frames.  A writer is represented by the bytes it holds, which [NetBuf]
    justifies; [commit] is applied to fresh writers only, as all its callers do.
    The parser is an instance of [NetParser]. *)

From S2P Require Import Prelude NetBuf NetConnect.

Definition cont_id : Z := 0.
Definition text_id : Z := 1.
Definition binary_id : Z := 2.
Definition close_id : Z := 8.
Definition ping_id : Z := 9.
Definition pong_id : Z := 10.

(** ** Headers

    The bit fields of [ws_hdr1] from the least significant bit on: [op_code_]
    (4 bits), [rsv3_], [rsv2_], [rsv1_], [fin_]; [pay_len1_] (7 bits), [mask_]. *)
Record ws_hdr1 := mk_ws_hdr1 { fin_ : bool; mask_ : bool; op_code_ : Z; pay_len1_ : Z }.

Definition hdr1_bytes (h : ws_hdr1) : bytes :=
  [Z.lor (Z.land (op_code_ h) 15) (if fin_ h then 128 else 0);
   Z.lor (Z.land (pay_len1_ h) 127) (if mask_ h then 128 else 0)].
Definition read_hdr1 (b0 b1 : Z) : ws_hdr1 :=
  mk_ws_hdr1 (Z.testbit b0 7) (Z.testbit b1 7) (Z.land b0 15) (Z.land b1 127).

(** [__builtin_bswap] of a word of [n] bytes, as stored: the most significant
    byte first; bytes are read back as unsigned. *)
Definition be_bytes (n : nat) (z : Z) : bytes := rev (le_bytes n z).
Definition of_be (l : bytes) : Z := of_le (wrap 8 <$> rev l).

(** [payload[i] ^ mask[i%4]]. *)
Definition xor_mask (mask : bytes) (l : bytes) : bytes :=
  imap (fun i b => Z.lxor b (nth (i mod 4) mask 0)) l.

(** [ws_wtr::commit]; [mask] is the result of [random()] when the frame is to be
    masked. *)
Definition commit (op_code : Z) (buf : bytes) (mask : option Z) : bytes :=
  let pay_len := Z.of_nat (length buf) in
  let hdr len1 := hdr1_bytes (mk_ws_hdr1 true (bool_decide (is_Some mask)) op_code len1) in
  let hdr :=
    if pay_len <? 126 then hdr pay_len
    else if pay_len <=? 65535 then hdr 126 ++ be_bytes 2 pay_len
    else hdr 127 ++ be_bytes 8 pay_len in
  match mask with
  | Some r => let key := le_bytes 4 (wrap 32 r) in hdr ++ key ++ xor_mask key buf
  | None => hdr ++ buf
  end.

(** ** Parser state

    Besides the fragments [msg_], the state records the calls of [parse_msg] and
    the messages passed to [add_send], in order. *)
Inductive ws_event := ev_msg (b : bytes) | ev_send (frame : bytes).
Record ws_parser := mk_ws_parser {
  msg_ : bytes; events : list ws_event; nrand : nat; ws_err : bool }.

Section parser.
(** The values [random()] returns, and whether the buffer's address lets the
    end of the frame be computed: addresses are below [2^64]. *)
Context (random : nat -> Z).

Definition new_ws_parser : ws_parser := mk_ws_parser [] [] 0 false.

Definition on_event (s : ws_parser) (e : ws_event) : ws_parser :=
  mk_ws_parser (msg_ s) (events s ++ [e]) (nrand s) (ws_err s).
Definition append_msg (s : ws_parser) (p : bytes) : ws_parser :=
  mk_ws_parser (msg_ s ++ p) (events s) (nrand s) (ws_err s).
Definition clear_msg (s : ws_parser) : ws_parser :=
  mk_ws_parser [] (events s) (nrand s) (ws_err s).

(** A control reply; [msk] is [msk_len==0]. *)
Definition reply (s : ws_parser) (op : Z) (p : bytes) (msk : bool) : ws_parser :=
  let frame := commit op p (if msk then Some (random (nrand s)) else None) in
  mk_ws_parser (msg_ s) (events s ++ [ev_send frame])
    (if msk then S (nrand s) else nrand s) (ws_err s).

(** The [switch] on the operation code. *)
Definition dispatch (s : ws_parser) (h : ws_hdr1) (payload : bytes) : ws_parser :=
  let op := op_code_ h in
  if (op =? text_id) || (op =? binary_id) then
    if fin_ h then on_event s (ev_msg payload) else append_msg s payload
  else if op =? cont_id then
    let s := append_msg s payload in
    if fin_ h then clear_msg (on_event s (ev_msg (msg_ s))) else s
  else if op =? ping_id then reply s pong_id payload (negb (mask_ h))
  else if op =? pong_id then s
  else if op =? close_id then reply s close_id [] (negb (mask_ h))
  else mk_ws_parser (msg_ s) (events s) (nrand s) true.

(** The size of the length fields and the payload length they hold, when the
    header is complete. *)
Definition read_len (h : ws_hdr1) (b : bytes) : option (Z * Z) :=
  let len := Z.of_nat (length b) in
  if pay_len1_ h <? 126 then Some (2, pay_len1_ h)
  else if pay_len1_ h =? 126 then
    if len <? 4 then None else Some (4, of_be (slice 2 2 b))
  else if len <? 10 then None else Some (10, of_be (slice 2 8 b)).

(** [ws_parser::parse] past the first two bytes.  The sum of lengths is taken
    modulo [2^64]; when it wraps, or the 32-bit unmasking index cannot reach the
    length, the accesses leave the buffer and there is no result. *)
Definition ws_frame (s : ws_parser) (h : ws_hdr1) (b : bytes) : option (parse_res ws_parser) :=
  let msk_len := if mask_ h then 4 else 0 in
  match read_len h b with
  | None => Some (need s)
  | Some (hlen, pay_len) =>
      let tot := hlen + pay_len + msk_len in
      if Z.of_nat (length b) <? wrap 64 tot then Some (need s)
      else if (2 ^ 64 <=? tot) || (mask_ h && (2 ^ 32 <=? pay_len)) then None
      else
        let raw := slice (Z.to_nat (hlen + msk_len)) (Z.to_nat pay_len) b in
        let payload := if mask_ h then xor_mask (slice (Z.to_nat hlen) 4 b) raw else raw in
        Some (took (dispatch s h payload) (Z.to_nat tot))
  end.

Definition ws_parse (s : ws_parser) (b : bytes) : option (parse_res ws_parser) :=
  match b with
  | b0 :: b1 :: _ => ws_frame s (read_hdr1 b0 b1) b
  | _ => Some (need s)
  end.

(** ** Lemmas *)

Lemma length_xor_mask m l : length (xor_mask m l) = length l.
Proof. apply length_imap. Qed.

Lemma xor_mask_xor_mask m l : xor_mask m (xor_mask m l) = l.
Proof.
  unfold xor_mask. apply list_eq. intros i. rewrite !list_lookup_imap.
  destruct (l !! i); simpl; [|done]. rewrite Z.lxor_assoc, Z.lxor_nilpotent, Z.lxor_0_r. done.
Qed.

Lemma wrap8_bytes l : is_bytes (wrap 8 <$> l).
Proof. apply Forall_fmap, Forall_true. intros x. apply wrap_bound. lia. Qed.

Lemma wrap8_id l : is_bytes l -> wrap 8 <$> l = l.
Proof.
  induction 1 as [|b l Hb _ IH]; [done|]. rewrite fmap_cons, IH, wrap_small; done.
Qed.

Lemma be_of_be n z : in_u (8 * Z.of_nat n) z -> of_be (be_bytes n z) = z.
Proof.
  intros Hz. unfold of_be, be_bytes. rewrite rev_involutive, wrap8_id by apply le_bytes_is_bytes.
  eapply of_le_bytes_u; eauto.
Qed.

Lemma length_be_bytes n z : length (be_bytes n z) = n.
Proof. unfold be_bytes. rewrite length_rev. apply length_le_bytes. Qed.

Lemma of_le_bound l : is_bytes l -> 0 <= of_le l < 256 ^ Z.of_nat (length l).
Proof.
  induction 1 as [|b l Hb _ IH]; [simpl; lia|]. cbn [of_le length].
  rewrite Nat2Z.inj_succ, Z.pow_succ_r by lia. unfold is_byte, in_u in Hb.
  change (2 ^ 8) with 256 in Hb. lia.
Qed.

Lemma of_be_bound l : 0 <= of_be l < 256 ^ Z.of_nat (length l).
Proof.
  unfold of_be. pose proof (of_le_bound _ (wrap8_bytes (rev l))) as H.
  rewrite length_fmap, length_rev in H. exact H.
Qed.

(** Reading a header that is complete does not depend on what follows. *)
Lemma read_len_app h b c r : read_len h b = Some r -> read_len h (b ++ c) = Some r.
Proof.
  unfold read_len. rewrite length_app, Nat2Z.inj_add.
  destruct (pay_len1_ h <? 126); [done|].
  destruct (pay_len1_ h =? 126).
  - destruct (Z.ltb_spec (Z.of_nat (length b)) 4); [done|].
    destruct (Z.ltb_spec (Z.of_nat (length b) + Z.of_nat (length c)) 4); [lia|].
    rewrite slice_app_le by lia. done.
  - destruct (Z.ltb_spec (Z.of_nat (length b)) 10); [done|].
    destruct (Z.ltb_spec (Z.of_nat (length b) + Z.of_nat (length c)) 10); [lia|].
    rewrite slice_app_le by lia. done.
Qed.

Lemma read_len_bound h b hlen pay :
  0 <= pay_len1_ h -> read_len h b = Some (hlen, pay) ->
  2 <= hlen <= 10 /\ 0 <= pay < 2 ^ 64 /\ hlen <= Z.max 2 (Z.of_nat (length b)).
Proof.
  unfold read_len. intros Hp. destruct (Z.ltb_spec (pay_len1_ h) 126).
  { intros [= <- <-]. lia. }
  destruct (pay_len1_ h =? 126).
  - destruct (Z.ltb_spec (Z.of_nat (length b)) 4); [done|]. intros [= <- <-].
    pose proof (of_be_bound (slice 2 2 b)) as Hb. rewrite length_slice in Hb by lia.
    change (256 ^ Z.of_nat 2) with 65536 in Hb. lia.
  - destruct (Z.ltb_spec (Z.of_nat (length b)) 10); [done|]. intros [= <- <-].
    pose proof (of_be_bound (slice 2 8 b)) as Hb. rewrite length_slice in Hb by lia.
    change (256 ^ Z.of_nat 8) with (2 ^ 64) in Hb. lia.
Qed.

Lemma read_hdr1_len b0 b1 : 0 <= pay_len1_ (read_hdr1 b0 b1).
Proof. simpl. apply Z.land_nonneg. right. lia. Qed.

(** What a call says stays true when more bytes arrive. *)
Lemma ws_frame_took s h l s' n :
  0 <= pay_len1_ h -> (2 <= length l)%nat -> ws_frame s h l = Some (took s' n) ->
  (0 < n <= length l)%nat /\ forall c, ws_frame s h (l ++ c) = Some (took s' n).
Proof.
  intros Hl Hl2. unfold ws_frame. destruct (read_len h l) as [[hlen pay]|] eqn:El; [|done].
  pose proof (read_len_bound h l hlen pay Hl El) as (Hh & Hp & _).
  set (tot := hlen + pay + (if mask_ h then 4 else 0)).
  destruct (Z.ltb_spec (Z.of_nat (length l)) (wrap 64 tot)); [done|].
  destruct (Z.leb_spec (2 ^ 64) tot); cbn [orb]; [done|].
  destruct (mask_ h && (2 ^ 32 <=? pay)) eqn:Em; [done|]. intros [= <- <-].
  assert (wrap 64 tot = tot) as Ew by (apply wrap_small; unfold in_u, tot in *; destruct (mask_ h); lia).
  assert (0 < tot <= Z.of_nat (length l)) as Htot by (unfold tot in *; destruct (mask_ h); lia).
  split; [lia|]. intros c. rewrite (read_len_app _ _ c _ El).
  fold tot. rewrite length_app, Nat2Z.inj_add, Ew.
  destruct (Z.ltb_spec (Z.of_nat (length l) + Z.of_nat (length c)) tot); [lia|].
  destruct (Z.leb_spec (2 ^ 64) tot); [lia|]. rewrite Em. cbn [orb]. do 3 f_equal.
  rewrite (slice_app_le (Z.to_nat (hlen + _))) by (unfold tot in *; destruct (mask_ h); lia).
  destruct (mask_ h) eqn:Emk; [|done]. rewrite (slice_app_le (Z.to_nat hlen)); [done|].
  unfold tot in *. lia.
Qed.

Lemma ws_frame_undef s h l : ws_frame s h l = None -> forall c, ws_frame s h (l ++ c) = None.
Proof.
  unfold ws_frame. destruct (read_len h l) as [[hlen pay]|] eqn:El; [|done].
  set (tot := hlen + pay + (if mask_ h then 4 else 0)).
  destruct (Z.ltb_spec (Z.of_nat (length l)) (wrap 64 tot)); [done|].
  destruct (_ || _) eqn:Eo; [|done]. intros _ c.
  rewrite (read_len_app _ _ c _ El). fold tot. rewrite Eo, length_app, Nat2Z.inj_add.
  destruct (Z.ltb_spec (Z.of_nat (length l) + Z.of_nat (length c)) (wrap 64 tot)); [lia | done].
Qed.

Lemma ws_parse_took s b s' n :
  ws_parse s b = Some (took s' n) ->
  (0 < n <= length b)%nat /\ forall c, ws_parse s (b ++ c) = Some (took s' n).
Proof.
  destruct b as [|b0 [|b1 b]]; [done | done |]. apply ws_frame_took; [apply read_hdr1_len|].
  simpl. lia.
Qed.

Lemma ws_parse_need s b s' : ws_parse s b = Some (need s') -> s' = s.
Proof.
  destruct b as [|b0 [|b1 b]]; simpl; try congruence. unfold ws_frame.
  destruct (read_len _ _) as [[hlen pay]|]; [|congruence].
  destruct (_ <? _); [congruence|]. destruct (_ || _); congruence.
Qed.

Lemma ws_parse_undef s b : ws_parse s b = None -> forall c, ws_parse s (b ++ c) = None.
Proof. destruct b as [|b0 [|b1 b]]; [done | done |]. apply ws_frame_undef. Qed.

(** An error of the parser stays on the parser ([ws_parser] and the connection
    are different [error] objects): the connection reads on. *)
#[export] Instance ws_net_parser : NetParser ws_parser := {|
  parse := ws_parse; perr := fun _ => false;
  parse_took := ws_parse_took; parse_need := ws_parse_need; parse_undef := ws_parse_undef |}.

(** ** Writing then reading *)

Lemma forall_Z_lt n (P : Z -> bool) :
  forallb P (seqZ 0 n) = true -> forall z, 0 <= z < n -> P z = true.
Proof.
  intros H z Hz. rewrite forallb_forall in H. apply H. apply list_elem_of_In, elem_of_seqZ. lia.
Qed.

Lemma read_hdr1_bytes fin msk op len1 :
  0 <= op < 16 -> 0 <= len1 < 128 ->
  let h := mk_ws_hdr1 fin msk op len1 in
  exists b0 b1, hdr1_bytes h = [b0; b1] /\ read_hdr1 b0 b1 = h.
Proof.
  intros Hop Hlen h. do 2 eexists. split; [reflexivity|]. unfold h, read_hdr1.
  cbn [fin_ mask_ op_code_ pay_len1_].
  assert (forall x, 0 <= x < 16 -> (Z.land (Z.lor (Z.land x 15) (if fin then 128 else 0)) 15 =? x)
            && Bool.eqb (Z.testbit (Z.lor (Z.land x 15) (if fin then 128 else 0)) 7) fin = true) as Ho
    by (apply forall_Z_lt; destruct fin; reflexivity).
  assert (forall x, 0 <= x < 128 -> (Z.land (Z.lor (Z.land x 127) (if msk then 128 else 0)) 127 =? x)
            && Bool.eqb (Z.testbit (Z.lor (Z.land x 127) (if msk then 128 else 0)) 7) msk = true) as Hl
    by (apply forall_Z_lt; destruct msk; reflexivity).
  specialize (Ho op Hop). specialize (Hl len1 Hlen).
  apply andb_true_iff in Ho as [->%Z.eqb_eq ->%eqb_prop].
  apply andb_true_iff in Hl as [->%Z.eqb_eq ->%eqb_prop]. done.
Qed.

Lemma slice_app_r {A} (a : list A) off n b :
  (length a <= off)%nat -> slice off n (a ++ b) = slice (off - length a) n b.
Proof. intros H. unfold slice. rewrite drop_app_ge by done. done. Qed.

Lemma length_hdr1 h : length (hdr1_bytes h) = 2%nat.
Proof. done. Qed.

(** The header bytes [commit] writes and what [read_len] makes of them. *)
Lemma read_len_commit fin msk op n rest :
  0 <= n < 2 ^ 64 ->
  exists len1 ext hlen, 0 <= len1 < 128
    /\ (if n <? 126 then hdr1_bytes (mk_ws_hdr1 fin msk op n)
        else if n <=? 65535 then hdr1_bytes (mk_ws_hdr1 fin msk op 126) ++ be_bytes 2 n
        else hdr1_bytes (mk_ws_hdr1 fin msk op 127) ++ be_bytes 8 n)
       = hdr1_bytes (mk_ws_hdr1 fin msk op len1) ++ ext
    /\ hlen = 2 + Z.of_nat (length ext)
    /\ read_len (mk_ws_hdr1 fin msk op len1)
         (hdr1_bytes (mk_ws_hdr1 fin msk op len1) ++ ext ++ rest) = Some (hlen, n).
Proof.
  intros Hn. destruct (Z.ltb_spec n 126) as [H1|H1].
  - exists n, [], 2. split; [lia|]. split; [done|]. split; [done|].
    unfold read_len. cbn [pay_len1_]. destruct (Z.ltb_spec n 126); [done|lia].
  - destruct (Z.leb_spec n 65535) as [H2|H2].
    + exists 126, (be_bytes 2 n), 4. split; [lia|]. split; [done|].
      split; [rewrite length_be_bytes; done|]. unfold read_len. cbn [pay_len1_].
      cbn [Z.ltb Z.eqb Z.compare Pos.compare Pos.compare_cont Pos.eqb].
      rewrite !length_app, length_be_bytes, length_hdr1.
      destruct (Z.ltb_spec (Z.of_nat (2 + (2 + length rest))) 4); [lia|]. rewrite (slice_at _ (be_bytes 2 n)) by (rewrite ?length_be_bytes; done).
      rewrite be_of_be by (simpl; mach). done.
    + exists 127, (be_bytes 8 n), 10. split; [lia|]. split; [done|].
      split; [rewrite length_be_bytes; done|]. unfold read_len. cbn [pay_len1_].
      cbn [Z.ltb Z.eqb Z.compare Pos.compare Pos.compare_cont Pos.eqb].
      rewrite !length_app, length_be_bytes, length_hdr1.
      destruct (Z.ltb_spec (Z.of_nat (2 + (8 + length rest))) 10); [lia|]. rewrite (slice_at _ (be_bytes 8 n)) by (rewrite ?length_be_bytes; done).
      rewrite be_of_be by (simpl; mach). done.
Qed.

Lemma dispatch_len1 s fin msk op l1 l2 p :
  dispatch s (mk_ws_hdr1 fin msk op l1) p = dispatch s (mk_ws_hdr1 fin msk op l2) p.
Proof. done. Qed.

Lemma ws_parse_frame s op buf mask rest :
  0 <= op < 16 -> Z.of_nat (length buf) < 2 ^ 32 ->
  ws_parse s (commit op buf mask ++ rest)
  = Some (took (dispatch s (mk_ws_hdr1 true (bool_decide (is_Some mask)) op 0) buf)
            (length (commit op buf mask))).
Proof.
  intros Hop Hlen. set (n := Z.of_nat (length buf)).
  set (msk := bool_decide (is_Some mask)).
  set (tail := match mask with
               | Some r => le_bytes 4 (wrap 32 r) ++ xor_mask (le_bytes 4 (wrap 32 r)) buf
               | None => buf end).
  destruct (read_len_commit true msk op n (tail ++ rest)) as (len1 & ext & hlen & Hl1 & Eh & Ehl & El);
    [lia|].
  assert (commit op buf mask = (hdr1_bytes (mk_ws_hdr1 true msk op len1) ++ ext) ++ tail) as Ec.
  { unfold commit. fold n msk. rewrite <- Eh. unfold tail. destruct mask; rewrite <- ?app_assoc; done. }
  rewrite Ec. destruct (read_hdr1_bytes true msk op len1 Hop Hl1) as (b0 & b1 & Eb & Erd).
  rewrite <- app_assoc, <- app_assoc. rewrite Eb in El |- *. cbn [app] in El |- *.
  unfold ws_parse. rewrite Erd. unfold ws_frame. cbn [mask_]. rewrite El.
  set (full := b0 :: b1 :: ext ++ tail ++ rest).
  assert (length tail = (if msk then 4 else 0) + length buf)%nat as Htl.
  { unfold tail, msk. destruct mask; simpl; [rewrite length_xor_mask; done | done]. }
  assert (full = (b0 :: b1 :: ext) ++ tail ++ rest) as Ef by done.
  assert (Z.of_nat (length full) = hlen + n + (if msk then 4 else 0) + Z.of_nat (length rest)) as Hfl.
  { rewrite Ef, !length_app, Htl, Ehl. simpl length. destruct msk; lia. }
  assert (hlen <= 10 /\ 0 <= n < 2 ^ 32) as [Hh10 Hn32].
  { destruct (read_len_bound _ _ _ _ (proj1 Hl1 : 0 <= pay_len1_ (mk_ws_hdr1 true msk op len1)) El).
    unfold n in *. lia. }
  set (tot := hlen + n + (if msk then 4 else 0)) in *.
  assert (0 <= tot < 2 ^ 64) as Htot by (unfold tot; destruct msk; lia).
  rewrite wrap_small by exact Htot.
  destruct (Z.ltb_spec (Z.of_nat (length full)) tot); [lia|].
  destruct (Z.leb_spec (2 ^ 64) tot); [lia|].
  cbn [orb]. destruct (Z.leb_spec (2 ^ 32) n); [lia|]. rewrite andb_false_r.
  assert (Z.to_nat tot = length ((b0 :: b1 :: ext) ++ tail)) as Hlt.
  { rewrite length_app, Htl. unfold tot. rewrite Ehl. simpl length. unfold n. destruct msk; lia. }
  rewrite Hlt, (dispatch_len1 s true msk op len1 0). do 2 f_equal.
  assert (Z.to_nat hlen = length (b0 :: b1 :: ext)) as Hhl by (rewrite Ehl; simpl; lia).
  rewrite Ef. unfold tot in *. clear - Hhl Hlen Ehl.
  unfold msk, tail. destruct mask as [r|]; cbn [is_Some].
  - rewrite bool_decide_true by eauto. set (key := le_bytes 4 (wrap 32 r)).
    rewrite <- (app_assoc key), (slice_at (b0 :: b1 :: ext) key) by (done || apply Hhl).
    rewrite app_assoc, (slice_at ((b0 :: b1 :: ext) ++ key) (xor_mask key buf)).
    + rewrite xor_mask_xor_mask. done.
    + rewrite length_app. unfold key. rewrite length_le_bytes. lia.
    + rewrite length_xor_mask. lia.
  - rewrite bool_decide_false by (intros [? ?]; done). rewrite Z.add_0_r.
    rewrite (slice_at (b0 :: b1 :: ext) buf) by (done || lia). done.
Qed.

(** A frame whose length field is near [2^64] makes the sum of lengths wrap: the
    check of the received bytes passes and the payload is accessed outside the
    buffer. *)
Lemma ws_parse_wraps s key rest :
  length key = 4%nat ->
  ws_parse s ([130; 255; 255; 255; 255; 255; 255; 255; 255; 255] ++ key ++ rest) = None.
Proof.
  intros Hk. destruct key as [|k0 [|k1 [|k2 [|k3 [|? ?]]]]]; try done. cbn [app]. unfold ws_parse, ws_frame.
  set (full := 130 :: _). assert (14 <= Z.of_nat (length full)) as Hl by (simpl; lia).
  change (mask_ (read_hdr1 130 255)) with true. cbv iota.
  assert (read_len (read_hdr1 130 255) full = Some (10, 2 ^ 64 - 1)) as ->.
  { unfold read_len. change (pay_len1_ (read_hdr1 130 255)) with 127. cbn [Z.ltb Z.eqb Z.compare
      Pos.compare Pos.compare_cont Pos.eqb]. destruct (Z.ltb_spec (Z.of_nat (length full)) 10); [lia|].
    reflexivity. }
  change (wrap 64 (10 + (2 ^ 64 - 1) + 4)) with 13.
  destruct (Z.ltb_spec (Z.of_nat (length full)) 13); [lia|]. reflexivity.
Qed.

(** (C34) A frame that [commit] builds, masked or not and with any of the three
    length encodings, is read back by [parse] with bytes of later frames behind
    it: the operation is carried out on exactly the payload, and exactly the
    frame is consumed. *)
Theorem ws_parse_commit s op buf mask rest :
  0 <= op < 16 -> Z.of_nat (length buf) < 2 ^ 32 ->
  ws_parse s (commit op buf mask ++ rest)
  = Some (took (dispatch s (mk_ws_hdr1 true (bool_decide (is_Some mask)) op 0) buf)
            (length (commit op buf mask))).
Proof. apply ws_parse_frame. Qed.

(** *** A stream of frames *)

(** A frame of a stream: its operation, payload and mask. *)
Record frame := mk_frame { f_op : Z; f_payload : bytes; f_mask : option Z }.
Definition frame_bytes (f : frame) : bytes := commit (f_op f) (f_payload f) (f_mask f).
Definition carry_out (s : ws_parser) (f : frame) : ws_parser :=
  dispatch s (mk_ws_hdr1 true (bool_decide (is_Some (f_mask f))) (f_op f) 0) (f_payload f).






(** ** Reassembly *)

(** The fragments of one message: the first with a data operation, the rest
    continuations, [fin_] on the last. *)
Definition frag_hdr (fin : bool) (op : Z) : ws_hdr1 := mk_ws_hdr1 fin true op 0.
Definition conts (s : ws_parser) (ps : list bytes) : ws_parser :=
  foldl (fun s p => dispatch s (frag_hdr false cont_id) p) s ps.

Lemma conts_append s ps : conts s ps = append_msg s (concat ps).
Proof.
  revert s; induction ps as [|p ps IH]; intros s; simpl.
  - unfold append_msg. rewrite app_nil_r. destruct s; done.
  - unfold conts in IH. rewrite IH. unfold append_msg. simpl. rewrite app_assoc. done.
Qed.

(** A message sent in fragments is delivered once, whole and in order, when
    its last fragment arrives, and nothing of it is kept. *)
Theorem fragments_delivered s op p1 ps pn :
  op = text_id \/ op = binary_id -> msg_ s = [] ->
  dispatch (conts (dispatch s (frag_hdr false op) p1) ps) (frag_hdr true cont_id) pn
  = on_event s (ev_msg (p1 ++ concat ps ++ pn)).
Proof.
  intros Hop Hm. rewrite conts_append.
  assert (dispatch s (frag_hdr false op) p1 = append_msg s p1) as ->
    by (destruct Hop as [-> | ->]; done).
  unfold dispatch, append_msg, on_event, clear_msg. simpl. rewrite Hm, <- app_assoc. done.
Qed.
End parser.

(** ** Witnesses *)

Lemma ws_parse_commit_witness :
  ws_parse (fun _ => 7) new_ws_parser (commit text_id (bs "hello") (Some 305419896) ++ bs "x")
  = Some (took (on_event new_ws_parser (ev_msg (bs "hello"))) 11).
Proof.
  rewrite (ws_parse_commit (fun _ => 7) new_ws_parser text_id (bs "hello") (Some 305419896) (bs "x"));
    [reflexivity | split; [discriminate | reflexivity] | reflexivity].
Defined.


(** The connection reads on behind a frame with an unknown operation: the error
    is set on the parser, where nothing looks for it. *)
Example unknown_op_read_on :
  let s := new_ws_parser in
  let f := mk_frame 3 [] None in
  let s' := carry_out (fun _ => 7) s f in
  ws_err s' = true /\ drained (H := ws_net_parser (fun _ => 7)) s (frame_bytes f ++ frame_bytes (mk_frame text_id (bs "a") None))
                     = Some (mk_ws_parser [] [ev_msg (bs "a")] 0 true, []).
Proof. split; vm_compute; reflexivity. Qed.

Lemma fragments_delivered_witness :
  dispatch (fun _ => 7) (conts (fun _ => 7) (dispatch (fun _ => 7) new_ws_parser
    (frag_hdr false text_id) (bs "ab")) [bs "cd"; bs "e"]) (frag_hdr true cont_id) (bs "f")
  = on_event new_ws_parser (ev_msg (bs "abcdef")).
Proof.
  rewrite (fragments_delivered (fun _ => 7) new_ws_parser text_id (bs "ab") [bs "cd"; bs "e"] (bs "f"));
    [reflexivity | left; reflexivity | reflexivity].
Defined.
