(* ===== verification/Http.v ===== *)
(** * HTTP messages ([http_request], [http_response], [http_client],
    [http_server], [ws_connect] of [pc/net_socket.cpp])

    Requests and responses are built as bytes.  The two parsers share the shape
    of their header loop, [hdr_loop], and differ in what they do with a header;
    the virtual functions they call are recorded as events.  A parser position
    is the bytes from there on.  Lengths announced by the peer are added to
    addresses as the code does, modulo [2^64], so the buffer's address [base] is
    a parameter. *)

From S2P Require Import Prelude Text Base64 NetConnect WebSocket.

Definition CR : Z := 13.
Definition LF : Z := 10.
Definition crlf : bytes := [CR; LF].

(** ** Building *)

(** [http_request::init]. *)
Definition request_init (method endpoint : bytes) : bytes :=
  method ++ bs " " ++ endpoint ++ bs " HTTP/1.1" ++ crlf.
(** [http_response::init]. *)
Definition response_init (code msg : bytes) : bytes :=
  bs "HTTP/1.1 " ++ code ++ bs " " ++ msg ++ crlf.
Definition add_hdr (hdr val : bytes) : bytes := hdr ++ bs ": " ++ val ++ crlf.
Definition add_hdr_uint (hdr : bytes) (ival : Z) : bytes :=
  hdr ++ bs ": " ++ uint_to_str ival ++ crlf.
(** [http_request::commit( net_wtr& )] and [commit()]. *)
Definition commit_body (msg : bytes) (buf : bytes) : bytes :=
  msg ++ add_hdr_uint (bs "Content-Length") (Z.of_nat (length buf)) ++ crlf ++ buf.
Definition commit_empty (msg : bytes) : bytes :=
  msg ++ add_hdr (bs "Content-Length") (bs "0") ++ crlf.

(** ** Scanning *)

(** [find]: the bytes before the first [c], and those from it on. *)
Fixpoint find (c : Z) (l : bytes) : option (bytes * bytes) :=
  match l with
  | [] => None
  | x :: l' => if x =? c then Some ([], l)
               else match find c l' with Some (p, s) => Some (x :: p, s) | None => None end
  end.

(** [next]. *)
Definition next (c : Z) (l : bytes) : bool :=
  match l with x :: _ => x =? c | [] => false end.

(** One turn of the header loop: the name and value, the position after the
    line's CR; the flag tells whether the line's LF is there. *)
Definition hdr_line (l : bytes) : option (bytes * bytes * bytes) :=
  '(hdr, l) ← find 58 l;
  let l := drop_space (tail l) in
  '(val, l) ← find CR l;
  Some (hdr, val, tail l).

Inductive hdr_res (St : Type) :=
  | hdr_need (s : St)            (* the lines end early *)
  | hdr_done (s : St) (l : bytes). (* the position of the body *)
Arguments hdr_need {St} _.
Arguments hdr_done {St} _ _.

(** [ptr <= &end[-2] && ptr[0] == CR && ptr[1] == LF]: the empty line. *)
Definition at_crlf (l : bytes) : option bytes :=
  match l with
  | x :: y :: body => if (x =? CR) && (y =? LF) then Some body else None
  | _ => None
  end.

Fixpoint hdr_loop {St} (on_hdr : St -> bytes -> bytes -> St) (fuel : nat) (s : St) (l : bytes)
  : option (hdr_res St) :=
  match at_crlf l with
  | Some body => Some (hdr_done s body)
  | None =>
      match fuel with
      | O => None
      | S fuel' =>
          match hdr_line l with
          | None => Some (hdr_need s)
          | Some (hdr, val, l) =>
              let s := on_hdr s hdr val in
              if next LF l then hdr_loop on_hdr fuel' s (tail l) else Some (hdr_need s)
          end
      end
  end.

(** [strtol( s, ., 10 )] cut to [int]. *)
Definition strtol_int (s : bytes) : Z :=
  let s := drop_space s in
  let '(neg, s) := match s with
                   | 45 :: s' => (true, s')
                   | 43 :: s' => (false, s')
                   | _ => (false, s)
                   end in
  let v := stoi_digits s 0 in
  let v := if neg : bool then - v else v in
  i32 (Z.max INT64_MIN (Z.min INT64_MAX v)).

Section http.
Context (base : Z).   (* the address of the first byte parsed *)

(** [cnt = &ptr[clen]] and its comparison with [end]: [None] when the check
    passes although the content is not all in the buffer. *)
Inductive body_res := body_need | body_at (content : bytes) (n : nat).
Definition read_body (total : bytes) (l : bytes) (clen : Z) : option body_res :=
  let addr_end := base + Z.of_nat (length total) in
  let cnt := wrap 64 (addr_end - Z.of_nat (length l) + clen) in
  if addr_end <? cnt then Some body_need
  else if clen <=? Z.of_nat (length l)
       then Some (body_at (take (Z.to_nat clen) l)
                    (length total - length l + Z.to_nat clen))
       else None.

(** ** [http_client::parse] *)

Inductive http_event :=
  | ev_status (status : Z) (txt : bytes)
  | ev_header (hdr val : bytes)
  | ev_content (content : bytes).

(** [0 == strncmp( "Content-Length", hdr, hdr_len )] or the lower-case name;
    the literals end with NUL. *)
Definition is_len_hdr (hdr : bytes) : bool :=
  strncmp_eq (bs "Content-Length" ++ [0]) hdr (length hdr)
  || strncmp_eq (bs "content-length" ++ [0]) hdr (length hdr).

Record client_hdrs := mk_client_hdrs { c_has_len : bool; c_clen : Z; c_events : list http_event }.

Definition client_on_hdr (s : client_hdrs) (hdr val : bytes) : client_hdrs :=
  if c_has_len s || negb (is_len_hdr hdr)
  then mk_client_hdrs (c_has_len s) (c_clen s) (c_events s ++ [ev_header hdr val])
  else mk_client_hdrs true (str_to_uint val) (c_events s).

(** The calls made, and the length consumed when the message is complete. *)
Definition client_parse (b : bytes) : option (list http_event * option nat) :=
  match find 32 b with
  | None => Some ([], None)
  | Some (_, l) =>
      let stp := tail l in
      match find 32 stp with
      | None => Some ([], None)
      | Some (_, l) =>
          let status := strtol_int stp in
          match find CR (tail l) with
          | None => Some ([], None)
          | Some (txt, l) =>
              let evs := [ev_status status txt] in
              let l := tail l in
              if negb (next LF l) then Some (evs, None) else
              r ← hdr_loop client_on_hdr (length b) (mk_client_hdrs false 0 evs) (tail l);
              match r with
              | hdr_need s => Some (c_events s, None)
              | hdr_done s body =>
                  br ← read_body b body (c_clen s);
                  match br with
                  | body_need => Some (c_events s, None)
                  | body_at c n => Some (c_events s ++ [ev_content c], Some n)
                  end
              end
          end
      end
  end.

(** ** [http_server::parse] *)

Record http_server := mk_http_server {
  path_ : bytes;
  hdrs_ : list (bytes * bytes);   (* hnms_ and hval_ *)
  wp_ : bool;                     (* a websocket parser is set *)
  sent_ : list bytes;             (* messages passed to add_send *)
  contents_ : list bytes;         (* calls of parse_content *)
  upgraded_ : bool                (* set_net_parser( wp_ ) *) }.

Definition new_http_server (wp : bool) : http_server := mk_http_server [] [] wp [] [] false.

Fixpoint get_header_val (key : bytes) (l : list (bytes * bytes)) : option bytes :=
  match l with
  | [] => None
  | (k, v) :: l' => if decide (key = k) then Some v else get_header_val key l'
  end.

Definition CONTENT_LENGTH : bytes := bs "CONTENT-LENGTH".

(** The name of a header as [hdr_str] holds it. *)
Definition upper (hdr : bytes) : bytes := toupper <$> hdr.

Record server_hdrs := mk_server_hdrs {
  s_has_len : bool; s_has_upgrade : bool; s_clen : Z; s_hdrs : list (bytes * bytes) }.

(** [0 == strncmp( "websocket", val, vlen )]. *)
Definition is_websocket (val : bytes) : bool :=
  strncmp_eq (bs "websocket" ++ [0]) val (length val).

Definition server_on_hdr (wp : bool) (s : server_hdrs) (hdr val : bytes) : server_hdrs :=
  let hdr := upper hdr in
  if s_has_len s || bool_decide (hdr <> CONTENT_LENGTH) then
    mk_server_hdrs (s_has_len s)
      (if wp && negb (s_has_upgrade s)
       then bool_decide (hdr = bs "UPGRADE") && is_websocket val
       else s_has_upgrade s)
      (s_clen s) (s_hdrs s ++ [(hdr, val)])
  else mk_server_hdrs true (s_has_upgrade s) (str_to_uint val) (s_hdrs s).

(** [SHA1_*] of OpenSSL. *)
Context (sha1 : bytes -> bytes).

Definition magic_id : bytes := bs "258EAFA5-E914-47DA-95CA-C5AB0DC85B11".

Definition upgrade_ws (s : http_server) : http_server :=
  match get_header_val (bs "SEC-WEBSOCKET-KEY") (hdrs_ s) with
  | None => s
  | Some key =>
      let bkey := enc_base64 (sha1 (key ++ magic_id)) in
      let msg := commit_empty (response_init (bs "101") (bs "Switching Protocols")
                               ++ add_hdr (bs "Connection") (bs "Upgrade")
                               ++ add_hdr (bs "Upgrade") (bs "websocket")
                               ++ add_hdr (bs "Sec-WebSocket-Accept") bkey) in
      mk_http_server (path_ s) (hdrs_ s) (wp_ s) (sent_ s ++ [msg]) (contents_ s) true
  end.

Definition set_path (s : http_server) (p : bytes) : http_server :=
  mk_http_server p (hdrs_ s) (wp_ s) (sent_ s) (contents_ s) (upgraded_ s).
Definition set_hdrs (s : http_server) (h : list (bytes * bytes)) : http_server :=
  mk_http_server (path_ s) h (wp_ s) (sent_ s) (contents_ s) (upgraded_ s).
Definition parse_content (s : http_server) (c : bytes) : http_server :=
  mk_http_server (path_ s) (hdrs_ s) (wp_ s) (sent_ s) (contents_ s ++ [c]) (upgraded_ s).

Definition server_parse (s : http_server) (b : bytes) : option (parse_res http_server) :=
  match find 32 b with
  | None => Some (need s)
  | Some (_, l) =>
      match find 32 (tail l) with
      | None => Some (need s)
      | Some (path, l) =>
          match find CR l with
          | None => Some (need s)
          | Some (_, l) =>
              let s := set_path s path in
              let l := tail l in
              if negb (next LF l) then Some (need s) else
              r ← hdr_loop (server_on_hdr (wp_ s)) (length b)
                    (mk_server_hdrs false false 0 (hdrs_ s)) (tail l);
              match r with
              | hdr_need h => Some (need (set_hdrs s (s_hdrs h)))
              | hdr_done h body =>
                  let s := set_hdrs s (s_hdrs h) in
                  br ← read_body b body (s_clen h);
                  match br with
                  | body_need => Some (need s)
                  | body_at c n =>
                      Some (took (if s_has_upgrade h then upgrade_ws s else parse_content s c) n)
                  end
              end
          end
      end
  end.
End http.

(** ** Reading what was built *)

Lemma find_app c a l : c ∉ a -> find c (a ++ c :: l) = Some (a, c :: l).
Proof.
  induction a as [|x a IH]; simpl; intros H; [rewrite Z.eqb_refl; done|].
  apply not_elem_of_cons in H as [Hx H]. destruct (Z.eqb_spec x c); [congruence|].
  rewrite IH; done.
Qed.

(** A header the parsers can read: the name has no colon, the value is not empty
    and does not start with white space, and neither has a CR. *)
Definition hdr_ok (h : bytes * bytes) : Prop :=
  58 ∉ h.1 /\ CR ∉ h.1 /\ CR ∉ h.2 /\ exists c v, h.2 = c :: v /\ isspace c = false.

Lemma hdr_line_add_hdr name val l :
  hdr_ok (name, val) -> hdr_line (add_hdr name val ++ l) = Some (name, val, LF :: l).
Proof.
  intros (H1 & H2 & H3 & c & v & E & Hc). simpl in *. unfold hdr_line, add_hdr.
  rewrite <- !app_assoc. change (bs ": ") with [58; 32]. cbn [app].
  rewrite find_app by done. cbn [mbind option_bind tail drop_space].
  change (isspace 32) with true. cbv iota. rewrite E at 1. cbn [app drop_space]. rewrite Hc.
  change (c :: v ++ crlf ++ l) with ((c :: v) ++ CR :: LF :: l). rewrite <- E, find_app by done. done.
Qed.

Lemma at_crlf_name name val l : CR ∉ name -> at_crlf (add_hdr name val ++ l) = None.
Proof.
  intros H. unfold at_crlf, add_hdr. destruct name as [|x name]; [done|].
  apply not_elem_of_cons in H as [H _]. cbn [app]. destruct ((name ++ _) ++ l) eqn:E; [done|].
  destruct (Z.eqb_spec x CR); [congruence | done].
Qed.

Definition hdr_text (hs : list (bytes * bytes)) : bytes := hs ≫= fun h => add_hdr h.1 h.2.

(** The header loop visits every line in order and stops at the body. *)
Lemma hdr_loop_lines {St} (on_hdr : St -> bytes -> bytes -> St) fuel s hs body :
  Forall hdr_ok hs -> (length hs <= fuel)%nat ->
  hdr_loop on_hdr fuel s (hdr_text hs ++ crlf ++ body)
  = Some (hdr_done (foldl (fun s h => on_hdr s h.1 h.2) s hs) body).
Proof.
  intros Hhs. revert fuel s; induction Hhs as [|[n v] hs Hh Hhs IH]; intros fuel s Hf.
  - destruct fuel; done.
  - destruct fuel as [|fuel]; simpl in Hf; [lia|]. unfold hdr_text. cbn [mbind list_bind].
    rewrite <- app_assoc. cbn [hdr_loop fst snd]. pose proof Hh as (_ & Hcr & _).
    rewrite at_crlf_name by done. rewrite hdr_line_add_hdr by done. cbn [next tail].
    rewrite Z.eqb_refl. apply IH. lia.
Qed.

Lemma length_add_hdr n v : (5 <= length (add_hdr n v) + 1)%nat.
Proof. unfold add_hdr. rewrite !length_app. simpl. lia. Qed.

Lemma length_hdr_text hs : (length hs <= length (hdr_text hs))%nat.
Proof.
  induction hs as [|h hs IH]; [done|]. unfold hdr_text in *. cbn [mbind list_bind].
  rewrite length_app. pose proof (length_add_hdr h.1 h.2). cbn [length]. lia.
Qed.

Lemma read_body_here base pre body rest :
  0 <= base -> base + Z.of_nat (length (pre ++ body ++ rest)) < 2 ^ 64 ->
  read_body base (pre ++ body ++ rest) (body ++ rest) (Z.of_nat (length body))
  = Some (body_at body (length (pre ++ body))).
Proof.
  intros Hb Hlt. unfold read_body. rewrite !length_app, !Nat2Z.inj_add in *.
  rewrite wrap_small by (unfold in_u; lia).
  destruct (Z.ltb_spec (base + (Z.of_nat (length pre) + (Z.of_nat (length body) + Z.of_nat (length rest))))
    (base + (Z.of_nat (length pre) + (Z.of_nat (length body) + Z.of_nat (length rest)))
     - (Z.of_nat (length body) + Z.of_nat (length rest)) + Z.of_nat (length body))); [lia|].
  destruct (Z.leb_spec (Z.of_nat (length body)) (Z.of_nat (length body) + Z.of_nat (length rest))); [|lia].
  rewrite Nat2Z.id, take_app_length. do 2 f_equal. lia.
Qed.

Lemma digits_no c ds : is_digits ds -> isdigit c = false -> c ∉ ds.
Proof. intros Hd Hc Hin. eapply Forall_forall in Hd; [|exact Hin]. simpl in Hd. congruence. Qed.

(** The text of a number is a header value, and reads back as the number. *)
Lemma uint_text_hdr name n :
  58 ∉ name -> CR ∉ name -> in_u 64 n ->
  hdr_ok (name, uint_to_str n) /\ str_to_uint (uint_to_str n) = n.
Proof.
  intros H1 H2 Hn. destruct (uint_to_str_digits n Hn) as (ds & -> & Hds & Hval & Hne). split.
  - split; [done|]. split; [done|]. split; [apply digits_no; done|]. simpl.
    destruct ds as [|c ds]; [done|]. exists c, ds. split; [done|].
    apply Forall_cons_1 in Hds as [Hc _]. apply isdigit_spec in Hc. unfold isspace. lia.
  - unfold str_to_uint. unfold in_u in Hn. rewrite scan_uint_digits; done || lia.
Qed.

Definition upper_hdr (h : bytes * bytes) : bytes * bytes := (upper h.1, h.2).

(** The headers [server_parse] keeps: all but the length. *)
Lemma server_hdrs_fold wp hs (s : server_hdrs) :
  s_has_len s = false -> s_has_upgrade s = false ->
  Forall (fun h => upper h.1 <> CONTENT_LENGTH
                   /\ (wp = true -> upper h.1 <> bs "UPGRADE")) hs ->
  foldl (fun s h => server_on_hdr wp s h.1 h.2) s hs
  = mk_server_hdrs false false (s_clen s) (s_hdrs s ++ (upper_hdr <$> hs)).
Proof.
  intros Hl Hu Hhs. revert s Hl Hu; induction Hhs as [|[n v] hs [Hn Hw] Hhs IH]; intros s Hl Hu.
  - cbn. rewrite app_nil_r. destruct s; simpl in *; congruence.
  - cbn [foldl fst snd] in *. rewrite IH.
    + unfold server_on_hdr at 1 2. rewrite Hl, bool_decide_true by done. cbn.
      f_equal. rewrite <- app_assoc. done.
    + unfold server_on_hdr. rewrite Hl, bool_decide_true by done. done.
    + unfold server_on_hdr. rewrite Hl, Hu, bool_decide_true by done. cbn.
      destruct wp; [|done]. cbn. rewrite bool_decide_false; [done | auto].
Qed.

(** A request with the given lines and body. *)
Definition request (method endpoint : bytes) (hs : list (bytes * bytes)) (body : bytes) : bytes :=
  commit_body (request_init method endpoint ++ hdr_text hs) body.

Lemma request_lines method endpoint hs body :
  request method endpoint hs body
  = method ++ 32 :: endpoint ++ 32 :: bs "HTTP/1.1" ++ CR :: LF ::
    hdr_text (hs ++ [(bs "Content-Length", uint_to_str (Z.of_nat (length body)))])
    ++ crlf ++ body.
Proof.
  unfold request, commit_body, request_init, hdr_text. rewrite bind_app, <- !app_assoc. simpl.
  rewrite app_nil_r. unfold add_hdr_uint, add_hdr. rewrite <- !app_assoc. done.
Qed.

(** (C35) A request built by [http_request] — any method, path, headers and body —
    is parsed by [http_server] to exactly that path, those headers with their
    names in upper case, and that body, the bytes of a following request left
    alone; given header values that are not empty and no upgrade. *)
Theorem server_parse_request base sha1 s method endpoint hs body rest :
  32 ∉ method -> 32 ∉ endpoint -> Forall hdr_ok hs ->
  Forall (fun h => upper h.1 <> CONTENT_LENGTH
                   /\ (wp_ s = true -> upper h.1 <> bs "UPGRADE")) hs ->
  0 <= base -> base + Z.of_nat (length (request method endpoint hs body ++ rest)) < 2 ^ 64 ->
  server_parse base sha1 s (request method endpoint hs body ++ rest)
  = Some (took (parse_content (set_hdrs (set_path s endpoint)
                                 (hdrs_ s ++ (upper_hdr <$> hs))) body)
            (length (request method endpoint hs body))).
Proof.
  intros Hm He Hhs Hnames Hb Hlt.
  assert (in_u 64 (Z.of_nat (length body))) as Hn.
  { unfold in_u. rewrite request_lines in Hlt. rewrite !length_app in Hlt. cbn [length] in Hlt.
    rewrite !length_app in Hlt. cbn [length] in Hlt. rewrite !length_app in Hlt. cbn [length] in Hlt.
    rewrite !length_app in Hlt. lia. }
  set (n := Z.of_nat (length body)) in *.
  destruct (uint_text_hdr (bs "Content-Length") n ltac:(set_solver) ltac:(set_solver) Hn) as [Hok Hval].
  set (lines := hs ++ [(bs "Content-Length", uint_to_str n)]).
  assert (Forall hdr_ok lines) as Hlines by (apply Forall_app; split; [done | apply Forall_singleton; done]).
  set (req := request method endpoint hs body) in *.
  set (tail3 := LF :: hdr_text lines ++ crlf ++ body ++ rest).
  assert (req ++ rest = method ++ 32 :: endpoint ++ 32 :: bs "HTTP/1.1" ++ CR :: tail3) as Er.
  { unfold req, tail3. rewrite request_lines. rewrite <- !app_assoc. cbn [app]. rewrite <- !app_assoc.
    cbn [app]. rewrite <- !app_assoc. cbn [app]. rewrite <- !app_assoc. done. }
  assert (exists pre, req = pre ++ body /\ req ++ rest = pre ++ body ++ rest) as (pre & Epre & Epre').
  { exists (request_init method endpoint ++ hdr_text hs ++
            add_hdr_uint (bs "Content-Length") n ++ crlf).
    unfold req, request, commit_body. fold n. rewrite <- !app_assoc. done. }
  unfold server_parse. rewrite Er at 1. rewrite (find_app 32 method) by done. cbn [tail].
  rewrite (find_app 32 endpoint) by done.
  change (32 :: bs "HTTP/1.1" ++ CR :: tail3) with ((32 :: bs "HTTP/1.1") ++ CR :: tail3).
  rewrite (find_app CR (32 :: bs "HTTP/1.1")) by (intros H; repeat (apply elem_of_cons in H as [H|H];
    [discriminate|]); inversion H).
  cbn [tail]. unfold tail3 at 1. cbn [next]. rewrite Z.eqb_refl. cbn [negb]. unfold tail3. cbn [tail].
  rewrite hdr_loop_lines; [|done|].
  2: { rewrite Er. unfold tail3. pose proof (length_hdr_text lines).
       rewrite !length_app. cbn [length]. rewrite !length_app. cbn [length]. rewrite !length_app.
       cbn [length]. rewrite !length_app. lia. }
  cbn [mbind option_bind]. unfold lines. rewrite foldl_app, (server_hdrs_fold _ hs) by (reflexivity || exact Hnames).
  cbn [foldl fst snd]. unfold server_on_hdr. cbn [s_has_len].
  rewrite bool_decide_false by (intros H; apply H; reflexivity).
  cbn [orb s_clen s_hdrs s_has_upgrade]. rewrite Hval, Epre'.
  rewrite read_body_here by (done || (rewrite <- Epre'; done)). cbn [mbind option_bind].
  rewrite Epre. done.
Qed.

(** ** Reading a response *)

Lemma stoi_digits_app ds c l acc :
  is_digits ds -> isdigit c = false -> stoi_digits (ds ++ c :: l) acc = dec_value acc ds.
Proof.
  revert acc; induction ds as [|d ds IH]; intros acc Hd Hc; cbn [app stoi_digits].
  - rewrite Hc. done.
  - apply Forall_cons_1 in Hd as [E Hd]. rewrite E. apply IH; done.
Qed.

Lemma strtol_digits ds l :
  is_digits ds -> ds <> [] -> dec_value 0 ds < 2 ^ 31 -> strtol_int (ds ++ 32 :: l) = dec_value 0 ds.
Proof.
  intros Hd Hne Hlt. destruct ds as [|c ds]; [done|]. pose proof Hd as Hd'.
  apply Forall_cons_1 in Hd' as [Hc%isdigit_spec _].
  pose proof (dec_value_bound _ Hd) as Hb. pose proof (stoi_digits_app (c :: ds) 32 l 0 Hd eq_refl) as Es.
  unfold strtol_int. cbn [app drop_space] in *.
  assert (isspace c = false) as -> by (unfold isspace; lia).
  assert (c = 48 \/ c = 49 \/ c = 50 \/ c = 51 \/ c = 52 \/ c = 53 \/ c = 54 \/ c = 55 \/ c = 56 \/ c = 57)
    as Hcs by lia.
  assert (forall v, v = dec_value 0 (c :: ds) -> i32 (Z.max INT64_MIN (Z.min INT64_MAX v)) = v) as Hi.
  { intros v ->. rewrite Z.min_r, Z.max_r by lia. apply swrap_small; [lia|]. unfold in_s. simpl Z.sub. lia. }
  repeat destruct Hcs as [->|Hcs]; try subst c; rewrite Es; apply Hi; done.
Qed.

Lemma client_hdrs_fold hs (s : client_hdrs) :
  c_has_len s = false -> Forall (fun h => is_len_hdr h.1 = false) hs ->
  foldl (fun s h => client_on_hdr s h.1 h.2) s hs
  = mk_client_hdrs false (c_clen s) (c_events s ++ ((fun h => ev_header h.1 h.2) <$> hs)).
Proof.
  intros Hl Hhs. revert s Hl; induction Hhs as [|[n v] hs Hn Hhs IH]; intros s Hl.
  - cbn. rewrite app_nil_r. destruct s; simpl in *; congruence.
  - cbn [foldl fst snd] in *. unfold client_on_hdr at 2. rewrite Hl, Hn. cbn [orb negb].
    rewrite IH by done. cbn [c_clen c_events]. f_equal. rewrite <- app_assoc. done.
Qed.

Definition response (code msg : bytes) (hs : list (bytes * bytes)) (body : bytes) : bytes :=
  commit_body (response_init code msg ++ hdr_text hs) body.

(** A response built by [http_response] is parsed by [http_client] to its
    status, text, headers and body, in that order, given headers whose names
    are not taken for the length. *)
Theorem client_parse_response base code msg hs body rest :
  is_digits code -> code <> [] -> dec_value 0 code < 2 ^ 31 -> CR ∉ msg -> Forall hdr_ok hs ->
  Forall (fun h => is_len_hdr h.1 = false) hs ->
  0 <= base -> base + Z.of_nat (length (response code msg hs body ++ rest)) < 2 ^ 64 ->
  client_parse base (response code msg hs body ++ rest)
  = Some (ev_status (dec_value 0 code) msg :: ((fun h => ev_header h.1 h.2) <$> hs)
            ++ [ev_content body], Some (length (response code msg hs body))).
Proof.
  intros Hcd Hcn Hcv Hm Hhs Hnames Hb Hlt.
  set (req := response code msg hs body) in *.
  set (n := Z.of_nat (length body)).
  assert (exists pre, req = pre ++ body /\ req ++ rest = pre ++ body ++ rest) as (pre & Epre & Epre').
  { exists (response_init code msg ++ hdr_text hs ++ add_hdr_uint (bs "Content-Length") n ++ crlf).
    unfold req, response, commit_body. fold n. rewrite <- !app_assoc. done. }
  assert (in_u 64 n) as Hn.
  { unfold in_u, n. rewrite Epre', !length_app in Hlt. lia. }
  destruct (uint_text_hdr (bs "Content-Length") n ltac:(set_solver) ltac:(set_solver) Hn) as [Hok Hval].
  set (lines := hs ++ [(bs "Content-Length", uint_to_str n)]).
  assert (Forall hdr_ok lines) as Hlines by (apply Forall_app; split; [done | apply Forall_singleton; done]).
  set (tail3 := LF :: hdr_text lines ++ crlf ++ body ++ rest).
  assert (req ++ rest = bs "HTTP/1.1" ++ 32 :: code ++ 32 :: msg ++ CR :: tail3) as Er.
  { unfold req, tail3, response, commit_body, response_init, lines, hdr_text. fold n.
    rewrite bind_app. cbn [mbind list_bind fst snd]. rewrite app_nil_r. unfold add_hdr_uint, add_hdr.
    rewrite <- ?app_assoc. reflexivity. }
  unfold client_parse. rewrite Er at 1.
  rewrite (find_app 32 (bs "HTTP/1.1")) by (intros H; repeat (apply elem_of_cons in H as [H|H];
    [discriminate|]); inversion H). cbn [tail].
  rewrite (find_app 32 code) by (apply digits_no; done). cbn [tail].
  rewrite strtol_digits by done.
  rewrite (find_app CR msg) by done. cbn [tail]. unfold tail3 at 1. cbn [next].
  rewrite Z.eqb_refl. cbn [negb]. unfold tail3. cbn [tail]. rewrite hdr_loop_lines; [|done|].
  2: { rewrite Er. unfold tail3. pose proof (length_hdr_text lines).
       rewrite !length_app. cbn [length]. rewrite !length_app. cbn [length]. rewrite !length_app.
       cbn [length]. rewrite !length_app. lia. }
  cbn [mbind option_bind]. unfold lines. rewrite foldl_app, (client_hdrs_fold hs) by done.
  cbn [foldl fst snd]. unfold client_on_hdr. cbn [c_has_len].
  change (is_len_hdr (bs "Content-Length")) with true. cbn [orb negb c_clen c_events].
  rewrite Hval, Epre', read_body_here by (done || (rewrite <- Epre'; done)).
  cbn [mbind option_bind]. rewrite Epre. done.
Qed.

(** ** Three inputs that are not read as HTTP says *)

(** An empty header value takes the next line as its value: here the length, so
    that the body is left in the stream as if it were the next message. *)
Example empty_value_swallows_line :
  let req := bs "GET / HTTP/1.1" ++ crlf ++ bs "Host:" ++ crlf
             ++ bs "Content-Length: 2" ++ crlf ++ crlf ++ bs "hi" in
  exists s', server_parse 4096 (fun x => x) (new_http_server false) req
             = Some (took s' (length req - 2))
    /\ hdrs_ s' = [(bs "HOST", bs "Content-Length: 2")] /\ contents_ s' = [[]].
Proof. eexists. split; [vm_compute; reflexivity | split; reflexivity]. Qed.

(** Any prefix of the length header's name is taken for it by the client. *)
Lemma is_len_hdr_prefix hdr rest : bs "Content-Length" = hdr ++ rest -> is_len_hdr hdr = true.
Proof.
  intros E. unfold is_len_hdr. rewrite E. apply orb_true_iff. left.
  assert (Forall (fun c => c <> 0) hdr) as Hz.
  { assert (Forall (fun c => c <> 0) (bs "Content-Length")) as H by by_decide.
    rewrite E in H. apply Forall_app in H as [H _]. exact H. }
  clear E. induction Hz as [|c hdr Hc Hz IH]; [destruct rest; reflexivity|]. simpl in *. rewrite Z.eqb_refl.
  destruct (Z.eqb_spec c 0); [done | exact IH].
Qed.

(** A length close to [2^64] passes the check and the content handed on lies
    outside the buffer. *)
Example content_length_wraps :
  server_parse 4096 (fun x => x) (new_http_server false)
    (bs "GET / HTTP/1.1" ++ crlf ++ bs "Content-Length: 18446744073709551615" ++ crlf ++ crlf) = None.
Proof. vm_compute. reflexivity. Qed.

(** ** The websocket handshake of [ws_connect] *)

(** [hs_] of [ws_connect_init], whether [np_] is still that parser, and the
    error flag. *)
Record ws_connect := mk_ws_connect { hs_ : bool; np_init : bool; cerr : bool }.

(** The request [ws_connect::init] queues, and the state it leaves. *)
Definition ws_connect_msg (host : bytes) : bytes :=
  commit_empty (request_init (bs "GET") (bs "/")
                ++ add_hdr (bs "Connection") (bs "Upgrade")
                ++ add_hdr (bs "Upgrade") (bs "websocket")
                ++ add_hdr (bs "Sec-WebSocket-Key") (bs "dGhlIHNhbXBsZSBub25jZQ==")
                ++ add_hdr (bs "Sec-WebSocket-Version") (bs "13")
                ++ add_hdr (bs "Host") host).
Definition ws_connect_init : ws_connect := mk_ws_connect false true false.

(** [ws_connect_init::parse_status]. *)
Definition on_status (c : ws_connect) (status : Z) : ws_connect :=
  mk_ws_connect true false (if status =? 101 then cerr c else true).

Definition on_http_event (c : ws_connect) (e : http_event) : ws_connect :=
  match e with ev_status st _ => on_status c st | _ => c end.

(** The inherited [http_client::parse] on the handshake's response. *)
Definition ws_init_parse (base : Z) (c : ws_connect) (b : bytes)
  : option (ws_connect * option nat) :=
  '(evs, res) ← client_parse base b;
  Some (foldl on_http_event c evs, res).

Definition handshake_text : bytes :=
  response (bs "101") (bs "Switching Protocols")
    [(bs "Connection", bs "Upgrade"); (bs "Upgrade", bs "websocket");
     (bs "Sec-WebSocket-Accept", bs "s3pPLMBiTxaQ9kYGzzhZRbK+xOo=")] [].

(** The parser is switched as soon as the status line is there: a response that
    arrives in two parts is then read as a frame — here a close request, which
    is answered — although the same bytes in one part are a good handshake. *)
Example handshake_split :
  let line := bs "HTTP/1.1 101 Switching Protocols" ++ crlf in
  ws_init_parse 4096 ws_connect_init handshake_text
    = Some (mk_ws_connect true false false, Some (length handshake_text))
  /\ ws_init_parse 4096 ws_connect_init line = Some (mk_ws_connect true false false, None)
  /\ exists frame n, ws_parse (fun _ => 0) new_ws_parser handshake_text
       = Some (took (mk_ws_parser [] [ev_send frame] 1 false) n).
Proof.
  split; [vm_compute; reflexivity|]. split; [vm_compute; reflexivity|].
  do 2 eexists. vm_compute. reflexivity.
Qed.

(** ** Witnesses *)

Lemma server_parse_request_witness :
  server_parse 4096 (fun x => x) (new_http_server true)
    (request (bs "GET") (bs "/feed") [(bs "Host", bs "localhost:8910")] (bs "{}") ++ bs "POST")
  = Some (took (mk_http_server (bs "/feed") [(bs "HOST", bs "localhost:8910")] true [] [bs "{}"] false)
            65).
Proof.
  rewrite (server_parse_request 4096 (fun x => x) (new_http_server true) (bs "GET") (bs "/feed")
             [(bs "Host", bs "localhost:8910")] (bs "{}") (bs "POST")).
  - vm_compute. reflexivity.
  - by_decide.
  - by_decide.
  - constructor; [|constructor]. split; [by_decide|]. split; [by_decide|]. split; [by_decide|].
    do 2 eexists. split; reflexivity.
  - constructor; [|constructor]. split; [by_decide|]. intros _. by_decide.
  - discriminate.
  - vm_compute. reflexivity.
Defined.

Lemma client_parse_response_witness :
  client_parse 4096 (response (bs "200") (bs "OK") [(bs "Server", bs "pyth")] (bs "[1]") ++ bs "x")
  = Some ([ev_status 200 (bs "OK"); ev_header (bs "Server") (bs "pyth"); ev_content (bs "[1]")],
          Some 55%nat).
Proof.
  rewrite (client_parse_response 4096 (bs "200") (bs "OK") [(bs "Server", bs "pyth")] (bs "[1]") (bs "x")).
  - vm_compute. reflexivity.
  - by_decide.
  - discriminate.
  - vm_compute. reflexivity.
  - by_decide.
  - constructor; [|constructor]. split; [by_decide|]. split; [by_decide|]. split; [by_decide|].
    do 2 eexists. split; reflexivity.
  - constructor; [reflexivity | constructor].
  - discriminate.
  - vm_compute. reflexivity.
Defined.
