(* ===== verification/JsonWtr.v ===== *)
(** * JSON writer ([json_wtr] of [pc/net_socket.cpp])

    The writer keeps the open objects and arrays and whether a comma is due.
    The message is represented by its bytes, which [NetBuf] justifies.  Numbers
    and encoded keys are formatted in space obtained from [reserve], which is
    null for more than one block: such a call has no result. *)

From S2P Require Import Prelude Text Base64 Base58 NetBuf.

Inductive type_t := e_obj | e_arr.
#[export] Instance type_t_eq_dec : EqDecision type_t.
Proof. solve_decision. Defined.

Record json_wtr := mk_json_wtr { out : bytes; first_ : bool; st_ : list type_t }.

Definition new_json_wtr : json_wtr := mk_json_wtr [] true [].
Definition reset (_ : json_wtr) : json_wtr := mk_json_wtr [] true [].

Definition add (s : bytes) (w : json_wtr) : json_wtr := mk_json_wtr (out w ++ s) (first_ w) (st_ w).

Definition add_obj (w : json_wtr) : json_wtr := mk_json_wtr (out w ++ bs "{") true (e_obj :: st_ w).
Definition add_arr (w : json_wtr) : json_wtr := mk_json_wtr (out w ++ bs "[") true (e_arr :: st_ w).

(** [pop]; [st_.back()] of an empty vector has no result. *)
Definition pop (w : json_wtr) : option json_wtr :=
  match st_ w with
  | [] => None
  | t :: st =>
      Some (mk_json_wtr (out w ++ (if decide (t = e_obj) then bs "}" else bs "]")) false st)
  end.

Definition add_first (w : json_wtr) : json_wtr :=
  mk_json_wtr (out w ++ (if first_ w then [] else bs ",")) false (st_ w).

(** The text is not escaped. *)
Definition quote : bytes := [34].
Definition add_text (val : bytes) (w : json_wtr) : json_wtr := add (quote ++ val ++ quote) w.

Definition add_uint (ival : Z) (w : json_wtr) : json_wtr := add (uint_to_str ival) w.
Definition add_int (ival : Z) (w : json_wtr) : json_wtr := add (int_to_str ival) w.

Definition add_enc_base58 (val : bytes) (w : json_wtr) : option json_wtr :=
  let rsv_len := 2 * Z.of_nat (length val) in
  if buf_max <? rsv_len then None
  else Some (add (quote ++ enc_base58 val rsv_len ++ quote) w).
Definition add_enc_base64 (val : bytes) (w : json_wtr) : option json_wtr :=
  if buf_max <? enc_base64_len (Z.of_nat (length val)) then None
  else Some (add (quote ++ enc_base64 val ++ quote) w).

Definition add_key_only (key : bytes) (w : json_wtr) : json_wtr :=
  add (bs ":") (add_text key (add_first w)).

Definition add_key_str (key val : bytes) (w : json_wtr) := add_text val (add_key_only key w).
Definition add_key_int (key : bytes) (v : Z) (w : json_wtr) := add_int v (add_key_only key w).
Definition add_key_uint (key : bytes) (v : Z) (w : json_wtr) := add_uint v (add_key_only key w).
Definition add_key_null (key : bytes) (w : json_wtr) := add (bs "null") (add_key_only key w).
Definition add_key_true (key : bytes) (w : json_wtr) := add (bs "true") (add_key_only key w).
Definition add_key_false (key : bytes) (w : json_wtr) := add (bs "false") (add_key_only key w).
Definition add_key_verbatim (key val : bytes) (w : json_wtr) := add val (add_key_only key w).
Definition add_key_enc_base58 (key val : bytes) (w : json_wtr) :=
  add_enc_base58 val (add_key_only key w).
Definition add_type (t : type_t) (w : json_wtr) : json_wtr :=
  match t with e_obj => add_obj w | e_arr => add_arr w end.
Definition add_key_type (key : bytes) (t : type_t) (w : json_wtr) := add_type t (add_key_only key w).
Definition add_key_hash (key : bytes) (pk : bytes) (w : json_wtr) :=
  add_enc_base58 pk (add_key_only key w).

Definition add_val_str (val : bytes) (w : json_wtr) := add_text val (add_first w).
Definition add_val_uint (v : Z) (w : json_wtr) := add_uint v (add_first w).
Definition add_val_int (v : Z) (w : json_wtr) := add_int v (add_first w).
Definition add_val_type (t : type_t) (w : json_wtr) := add_type t (add_first w).
Definition add_val_enc_base58 (val : bytes) (w : json_wtr) := add_enc_base58 val (add_first w).
Definition add_val_enc_base64 (val : bytes) (w : json_wtr) := add_enc_base64 val (add_first w).

(** [add_val( const key_pair& )]: the bytes as an array of numbers. *)
Definition add_val_key_pair (kp : bytes) (w : json_wtr) : option json_wtr :=
  pop (foldl (fun w b => add_val_uint b w) (add_val_type e_arr w) kp).

(** ** Values

    What a caller writes with one of these calls, and the bytes it stands for. *)
Inductive json :=
  | j_str (s : bytes) | j_uint (n : Z) | j_int (n : Z) | j_null | j_true | j_false
  | j_arr (vs : list json) | j_obj (kvs : list (bytes * json)).

Definition comma (l : list bytes) : bytes :=
  match l with [] => [] | x :: l' => x ++ (l' ≫= fun y => bs "," ++ y) end.

Fixpoint text (v : json) : bytes :=
  match v with
  | j_str s => quote ++ s ++ quote
  | j_uint n => uint_to_str n
  | j_int n => int_to_str n
  | j_null => bs "null"
  | j_true => bs "true"
  | j_false => bs "false"
  | j_arr vs => bs "[" ++ comma (text <$> vs) ++ bs "]"
  | j_obj kvs => bs "{" ++ comma ((fun kv => quote ++ kv.1 ++ quote ++ bs ":" ++ text kv.2) <$> kvs)
                 ++ bs "}"
  end.

(** Writing a value with the calls of the class, after the comma or key. *)
Fixpoint write (v : json) (w : json_wtr) : option json_wtr :=
  match v with
  | j_str s => Some (add_text s w)
  | j_uint n => Some (add_uint n w)
  | j_int n => Some (add_int n w)
  | j_null => Some (add (bs "null") w)
  | j_true => Some (add (bs "true") w)
  | j_false => Some (add (bs "false") w)
  | j_arr vs =>
      w ← foldl (fun w v => w ← w; write v (add_first w)) (Some (add_arr w)) vs;
      pop w
  | j_obj kvs =>
      w ← foldl (fun w kv => w ← w; write kv.2 (add_key_only kv.1 w)) (Some (add_obj w)) kvs;
      pop w
  end.

(** Induction over values and their parts. *)
Section json_ind.
Context (P : json -> Prop).
Context (Hstr : forall s, P (j_str s)) (Huint : forall n, P (j_uint n)) (Hint : forall n, P (j_int n)).
Context (Hnull : P j_null) (Htrue : P j_true) (Hfalse : P j_false).
Context (Harr : forall vs, Forall P vs -> P (j_arr vs)).
Context (Hobj : forall kvs, Forall (fun kv => P kv.2) kvs -> P (j_obj kvs)).

Fixpoint json_ind' (v : json) : P v :=
  match v with
  | j_str s => Hstr s
  | j_uint n => Huint n
  | j_int n => Hint n
  | j_null => Hnull
  | j_true => Htrue
  | j_false => Hfalse
  | j_arr vs =>
      Harr vs ((fix go l : Forall P l :=
                  match l with [] => Forall_nil_2 P | x :: l' => Forall_cons_2 P x l' (json_ind' x) (go l') end) vs)
  | j_obj kvs =>
      Hobj kvs ((fix go l : Forall (fun kv => P kv.2) l :=
                   match l with
                   | [] => Forall_nil_2 _
                   | x :: l' => Forall_cons_2 _ x l' (json_ind' x.2) (go l')
                   end) kvs)
  end.
End json_ind.

Lemma add_out s w : add s w = mk_json_wtr (out w ++ s) (first_ w) (st_ w).
Proof. done. Qed.

Lemma comma_cons x l : comma (x :: l) = x ++ (l ≫= fun y => bs "," ++ y).
Proof. done. Qed.

Lemma write_elems {A} (f : A -> json_wtr -> option json_wtr) (g : A -> bytes) st (l : list A) :
  Forall (fun x => forall o fi, f x (mk_json_wtr o fi st)
            = Some (mk_json_wtr (o ++ (if fi then [] else bs ",") ++ g x) false st)) l ->
  forall o fi, foldl (fun w x => w ← w; f x w) (Some (mk_json_wtr o fi st)) l
  = Some (mk_json_wtr (o ++ (if fi then comma (g <$> l) else (g <$> l) ≫= fun y => bs "," ++ y))
            (match l with [] => fi | _ => false end) st).
Proof.
  induction 1 as [|x l Hx Hl IH]; intros o fi; [destruct fi; cbn; rewrite app_nil_r; done|].
  cbn [foldl mbind option_bind]. rewrite Hx, IH. f_equal. rewrite fmap_cons, comma_cons, bind_cons.
  f_equal; [|destruct l; done]. destruct fi; rewrite <- !app_assoc; done.
Qed.

Lemma write_out v w :
  exists fi, write v w = Some (mk_json_wtr (out w ++ text v) fi (st_ w))
    /\ (fi = first_ w \/ fi = false).
Proof.
  revert w; induction v as [| | | | | |vs IH|kvs IH] using json_ind'; intros w;
    try (eexists; split; [reflexivity | left; reflexivity]).
  - exists false. split; [|by right]. cbn [write]. unfold add_arr.
    rewrite (write_elems (fun v w => write v (add_first w)) text).
    + cbn [mbind option_bind]. unfold pop. cbn [st_ out]. rewrite decide_False by done.
      cbn [text]. rewrite <- !app_assoc. done.
    + eapply Forall_impl; [exact IH|]. cbn beta. intros v Hv o fi. unfold add_first. cbn [out first_ st_].
      destruct (Hv (mk_json_wtr (o ++ (if fi then [] else bs ",")) false (e_arr :: st_ w)))
        as (fi' & -> & Hfi). cbn [out first_ st_] in *. rewrite <- app_assoc. do 2 f_equal. tauto.
  - exists false. split; [|by right]. cbn [write]. unfold add_obj.
    rewrite (write_elems (fun kv w => write kv.2 (add_key_only kv.1 w))
               (fun kv => quote ++ kv.1 ++ quote ++ bs ":" ++ text kv.2)).
    + cbn [mbind option_bind]. unfold pop. cbn [st_ out]. rewrite decide_True by done. cbn [text].
      rewrite <- !app_assoc. done.
    + eapply Forall_impl; [exact IH|]. cbn beta. intros [k v] Hv o fi. cbn [fst snd] in *.
      unfold add_key_only, add_text, add_first, add. cbn [out first_ st_].
      match goal with |- write v ?w0 = _ => destruct (Hv w0) as (fi' & -> & Hfi) end.
      cbn [out first_ st_] in *. rewrite <- !app_assoc. do 2 f_equal. tauto.
Qed.

(** ** What the calls put in the message, piece by piece *)

Abbreviation sep fi := (if fi : bool then [] else bs ",").
Abbreviation opening t := (if decide (t = e_obj) then bs "{" else bs "[").
Abbreviation closing t := (if decide (t = e_obj) then bs "}" else bs "]").
Definition kv_text (kv : bytes * json) : bytes := (quote ++ kv.1 ++ quote) ++ bs ":" ++ text kv.2.

Lemma key_str_out k v o fi st :
  add_key_str k v (mk_json_wtr o fi st) = mk_json_wtr (o ++ sep fi ++ kv_text (k, j_str v)) false st.
Proof.
  unfold add_key_str, add_key_only, add_text, add_first, add, kv_text. cbn [out first_ st_ fst snd text].
  rewrite <- !app_assoc. reflexivity.
Qed.
Lemma key_uint_out k v o fi st :
  add_key_uint k v (mk_json_wtr o fi st) = mk_json_wtr (o ++ sep fi ++ kv_text (k, j_uint v)) false st.
Proof.
  unfold add_key_uint, add_key_only, add_text, add_uint, add_first, add, kv_text.
  cbn [out first_ st_ fst snd text]. rewrite <- !app_assoc. reflexivity.
Qed.
Lemma key_true_out k o fi st :
  add_key_true k (mk_json_wtr o fi st) = mk_json_wtr (o ++ sep fi ++ kv_text (k, j_true)) false st.
Proof.
  unfold add_key_true, add_key_only, add_text, add_first, add, kv_text.
  cbn [out first_ st_ fst snd text]. rewrite <- !app_assoc. reflexivity.
Qed.
Lemma key_type_out k t o fi st :
  add_key_type k t (mk_json_wtr o fi st)
  = mk_json_wtr (o ++ sep fi ++ (quote ++ k ++ quote) ++ bs ":" ++ opening t) true (t :: st).
Proof.
  unfold add_key_type, add_type, add_obj, add_arr, add_key_only, add_text, add_first, add.
  destruct t; cbn [out first_ st_ text];
    [rewrite decide_True by done | rewrite decide_False by done]; rewrite <- !app_assoc; reflexivity.
Qed.
Lemma val_type_out t o fi st :
  add_val_type t (mk_json_wtr o fi st) = mk_json_wtr (o ++ sep fi ++ opening t) true (t :: st).
Proof.
  unfold add_val_type, add_type, add_obj, add_arr, add_first.
  destruct t; cbn [out first_ st_];
    [rewrite decide_True by done | rewrite decide_False by done]; rewrite <- !app_assoc; reflexivity.
Qed.
Lemma pop_out o fi t st :
  pop (mk_json_wtr o fi (t :: st)) = Some (mk_json_wtr (o ++ closing t) false st).
Proof. reflexivity. Qed.

Lemma text_obj kvs : text (j_obj kvs) = bs "{" ++ comma (kv_text <$> kvs) ++ bs "}".
Proof.
  cbn [text]. do 3 f_equal. apply list_fmap_ext. intros _ [k v] _. unfold kv_text. cbn [fst snd].
  rewrite <- !app_assoc. reflexivity.
Qed.
Lemma text_arr vs : text (j_arr vs) = bs "[" ++ comma (text <$> vs) ++ bs "]".
Proof. reflexivity. Qed.
Lemma kv_text_obj k kvs : kv_text (k, j_obj kvs) = (quote ++ k ++ quote) ++ bs ":" ++ text (j_obj kvs).
Proof. reflexivity. Qed.
Lemma kv_text_arr k vs : kv_text (k, j_arr vs) = (quote ++ k ++ quote) ++ bs ":" ++ text (j_arr vs).
Proof. reflexivity. Qed.
Lemma comma_one x : comma [x] = x.
Proof. unfold comma. cbn [mbind list_bind]. apply app_nil_r. Qed.
Lemma comma_more x y l : comma (x :: y :: l) = x ++ bs "," ++ comma (y :: l).
Proof. unfold comma. rewrite bind_cons, <- app_assoc. done. Qed.

(** Calls as their output, and texts as sequences of pieces. *)
Ltac outs :=
  repeat first
  [ rewrite key_str_out | rewrite key_uint_out | rewrite key_true_out | rewrite key_type_out
  | rewrite val_type_out | rewrite pop_out
  | progress cbn [mbind option_bind] ].
Ltac pieces :=
  repeat first
  [ rewrite kv_text_obj | rewrite kv_text_arr | rewrite text_obj | rewrite text_arr
  | rewrite <- app_comm_cons | rewrite fmap_cons | rewrite fmap_nil | rewrite comma_more | rewrite comma_one
  | rewrite decide_True by reflexivity | rewrite decide_False by discriminate
  | rewrite app_nil_l | rewrite app_nil_r | rewrite <- app_assoc ]; try reflexivity.

(** The calls for a value, nested to any depth, put exactly its JSON text
    in the message — commas where they belong and every bracket closed — and
    leave the stack of open containers as it was. *)
Theorem write_text v w :
  exists fi, write v w = Some (mk_json_wtr (out w ++ text v) fi (st_ w))
    /\ (fi = first_ w \/ fi = false).
Proof. apply write_out. Qed.
