(* ===== verification/JTree.v ===== *)
(** * JSON parse tree ([jtree] of [pc/jtree.hpp], [pc/jtree.cpp])

    The tree is a vector of nodes linked by index; index 0 is null.  The parser
    is a machine over the characters, with the open containers on a stack.
    Popping or reading the top of an empty stack, and an index outside the
    vector, have no result. *)

From S2P Require Import Prelude Text.

Inductive type_t := e_obj | e_arr | e_keyval | e_val.
#[export] Instance type_t_eq_dec : EqDecision type_t.
Proof. solve_decision. Defined.

(** [next_] has 24 bits; the union of head and tail, key and value, position
    and size is the pair [a_], [b_] of 32-bit words. *)
Record node := mk_node { type_ : type_t; next_ : Z; a_ : Z; b_ : Z }.

Record jtree := mk_jtree { nv_ : list node; st_ : list Z; key_ : Z; buf_ : bytes }.

Definition new_jtree : jtree := mk_jtree [] [] 0 [].

Definition at_node (nv : list node) (i : Z) : option node := nv !! Z.to_nat i.
Definition set_node (nv : list node) (i : Z) (nd : node) : list node := <[Z.to_nat i := nd]> nv.

Definition set_nv (j : jtree) (nv : list node) : jtree := mk_jtree nv (st_ j) (key_ j) (buf_ j).
Definition set_key (j : jtree) (k : Z) : jtree := mk_jtree (nv_ j) (st_ j) k (buf_ j).
Definition set_st (j : jtree) (st : list Z) : jtree := mk_jtree (nv_ j) st (key_ j) (buf_ j).

(** [new_node]: its index and the tree with it. *)
Definition new_node (j : jtree) (t : type_t) (i k : Z) : Z * jtree :=
  let nxt := wrap 32 (Z.of_nat (length (nv_ j))) in
  (nxt, set_nv j (nv_ j ++ [mk_node t 0 (wrap 32 i) (wrap 32 k)])).

Definition add_arr (j : jtree) (val : Z) : option jtree :=
  match st_ j with
  | [] => None
  | top :: _ =>
      obj ← at_node (nv_ j) top;
      if negb (b_ obj =? 0) then
        l ← at_node (nv_ j) (b_ obj);
        let nv := set_node (nv_ j) (b_ obj) (mk_node (type_ l) (wrap 24 val) (a_ l) (b_ l)) in
        obj ← at_node nv top;
        Some (set_nv j (set_node nv top (mk_node (type_ obj) (next_ obj) (a_ obj) val)))
      else
        Some (set_nv j (set_node (nv_ j) top (mk_node (type_ obj) (next_ obj) val val)))
  end.

Definition add_obj (j : jtree) (val : Z) : option jtree :=
  let '(kvidx, j) := new_node j e_keyval (key_ j) val in add_arr j kvidx.

Definition add (j : jtree) (val : Z) : option jtree :=
  match st_ j with
  | [] => Some j
  | _ => if negb (key_ j =? 0) then j ← add_obj j val; Some (set_key j 0) else add_arr j val
  end.

Definition parse_start (t : type_t) (j : jtree) : option jtree :=
  let '(idx, j) := new_node j t 0 0 in
  j ← add j idx;
  Some (set_st j (idx :: st_ j)).
Definition parse_start_object : jtree -> option jtree := parse_start e_obj.
Definition parse_start_array : jtree -> option jtree := parse_start e_arr.

(** [parse_end_object] and [parse_end_array]: [st_.pop_back()]. *)
Definition parse_end (j : jtree) : option jtree :=
  match st_ j with [] => None | _ :: st => Some (set_st j st) end.

(** Texts are given by their position and end. *)
Definition parse_key (j : jtree) (txt etxt : Z) : jtree :=
  let '(idx, j) := new_node j e_val txt (etxt - txt) in set_key j idx.
Definition parse_string (j : jtree) (txt etxt : Z) : option jtree :=
  let '(idx, j) := new_node j e_val txt (etxt - txt) in add j idx.

(** ** The character machine

    [e_string] is split in two: in the text, and past its closing quote, where
    the loop looks whether the text is a key. *)
Inductive state_t := s_start | s_string (txt : Z) | s_peek (txt etxt : Z)
                   | s_number (txt : Z) | s_keyword (txt : Z).

(** A character [c] at position [p] in state [e_start]. *)
Definition on_start (j : jtree) (p c : Z) : option (jtree * state_t) :=
  if c =? 123 then j ← parse_start_object j; Some (j, s_start)
  else if c =? 91 then j ← parse_start_array j; Some (j, s_start)
  else if (c =? 125) || (c =? 93) then j ← parse_end j; Some (j, s_start)
  else if c =? 34 then Some (j, s_string (p + 1))
  else if (c =? 45) || (c =? 46) || isdigit c then Some (j, s_number p)
  else if (c =? 116) || (c =? 102) || (c =? 110) then Some (j, s_keyword p)
  else Some (j, s_start).

Definition is_number_char (c : Z) : bool :=
  isdigit c || (c =? 46) || (c =? 45) || (c =? 101) || (c =? 43).

Definition on_char (j : jtree) (s : state_t) (p c : Z) : option (jtree * state_t) :=
  match s with
  | s_start => on_start j p c
  | s_string txt => if c =? 34 then Some (j, s_peek txt p) else Some (j, s_string txt)
  | s_peek txt etxt =>
      if c =? 58 then on_start (parse_key j txt etxt) p c
      else if negb (isspace c) then j ← parse_string j txt etxt; on_start j p c
      else Some (j, s_peek txt etxt)
  | s_number txt =>
      if negb (is_number_char c) then j ← parse_string j txt p; on_start j p c
      else Some (j, s_number txt)
  | s_keyword txt =>
      if negb (isalpha c) then j ← parse_string j txt p; on_start j p c
      else Some (j, s_keyword txt)
  end.

Fixpoint parse_chars (j : jtree) (s : state_t) (p : Z) (l : bytes) : option (jtree * state_t) :=
  match l with
  | [] => Some (j, s)
  | c :: l' => '(j, s) ← on_char j s p c; parse_chars j s (p + 1) l'
  end.

(** [jtree::parse]: [nv_.resize( 1 )] keeps the null node. *)
Definition parse (j : jtree) (b : bytes) : option jtree :=
  let nv := take 1 (nv_ j) ++ replicate (1 - length (nv_ j)) (mk_node e_obj 0 0 0) in
  '(j, _) ← parse_chars (mk_jtree nv [] 0 b) s_start 0 b; Some j.

Definition is_valid (j : jtree) : bool :=
  (1 <? length (nv_ j))%nat && bool_decide (st_ j = []).

(** ** Access *)

Definition get_type (j : jtree) (i : Z) : option type_t := type_ <$> at_node (nv_ j) i.
Definition get_next (j : jtree) (i : Z) : option Z := next_ <$> at_node (nv_ j) i.
Definition get_first (j : jtree) (i : Z) : option Z := a_ <$> at_node (nv_ j) i.
Definition get_last (j : jtree) (i : Z) : option Z := b_ <$> at_node (nv_ j) i.
Definition get_key (j : jtree) (i : Z) : option Z := a_ <$> at_node (nv_ j) i.
Definition get_val (j : jtree) (i : Z) : option Z := b_ <$> at_node (nv_ j) i.
Definition get_str (j : jtree) (i : Z) : option bytes :=
  (fun n => slice (Z.to_nat (a_ n)) (Z.to_nat (b_ n)) (buf_ j)) <$> at_node (nv_ j) i.
Definition get_uint (j : jtree) (i : Z) : option Z := str_to_uint <$> get_str j i.
Definition get_int (j : jtree) (i : Z) : option Z := str_to_int <$> get_str j i.
Definition get_bool (j : jtree) (i : Z) : option bool :=
  n ← at_node (nv_ j) i; c ← buf_ j !! Z.to_nat (a_ n); Some (c =? 116).

Fixpoint find_from (fuel : nat) (j : jtree) (it : Z) (key : bytes) : option Z :=
  if it =? 0 then Some 0 else
  match fuel with
  | O => None
  | S fuel' =>
      t ← get_type j it;
      if decide (t = e_keyval) then
        k ← get_key j it;
        s ← get_str j k;
        if str_eqb key s then get_val j it
        else n ← get_next j it; find_from fuel' j n key
      else Some 0
  end.
Definition find_val (j : jtree) (obj : Z) (key : bytes) : option Z :=
  it ← get_first j obj; find_from (length (nv_ j)) j it key.

(** ** Well-formed trees

    Every link is null or the index of a later node of the vector, so that
    following links ends; a key and a value are nodes. *)

Definition in_range (nv : list node) (i : Z) : Prop := 0 <= i < Z.of_nat (length nv).

Definition node_ok (nv : list node) (i : Z) (n : node) : Prop :=
  (next_ n = 0 \/ i < next_ n) /\ in_range nv (next_ n)
  /\ match type_ n with
     | e_val => True
     | _ => in_range nv (a_ n) /\ in_range nv (b_ n)
     end.

Record wf (j : jtree) : Prop := {
  wf_null : exists n0, at_node (nv_ j) 0 = Some n0;
  wf_node i n : 0 <= i -> at_node (nv_ j) i = Some n -> node_ok (nv_ j) i n;
  wf_st i : i ∈ st_ j -> 0 < i /\ exists n, at_node (nv_ j) i = Some n
                           /\ (type_ n = e_obj \/ type_ n = e_arr);
  wf_key : in_range (nv_ j) (key_ j) }.

(** The bound of the 24-bit links. *)
Definition max_nodes : Z := 2 ^ 24.

Lemma at_node_pos nv i n : at_node nv i = Some n -> 0 <= i -> in_range nv i.
Proof. unfold at_node, in_range. intros H%lookup_lt_Some. lia. Qed.

Lemma in_range_at nv i : in_range nv i -> exists n, at_node nv i = Some n.
Proof. intros [H1 H2]. apply lookup_lt_is_Some_2. lia. Qed.

Lemma in_range_app nv n i : in_range nv i -> in_range (nv ++ [n]) i.
Proof. unfold in_range. rewrite length_app. simpl. lia. Qed.

Lemma in_range_set nv k n i : in_range (set_node nv k n) i <-> in_range nv i.
Proof. unfold in_range, set_node. rewrite length_insert. done. Qed.

Lemma at_node_app nv n i :
  0 <= i -> at_node (nv ++ [n]) i
            = if decide (i = Z.of_nat (length nv)) then Some n else at_node nv i.
Proof.
  intros Hi. unfold at_node. destruct (decide (i = Z.of_nat (length nv))) as [->|Hne].
  - rewrite Nat2Z.id, lookup_app_r, Nat.sub_diag by lia. done.
  - destruct (decide (i < Z.of_nat (length nv))).
    + apply lookup_app_l. lia.
    + rewrite lookup_app_r by lia. rewrite (lookup_ge_None_2 nv) by lia.
      apply lookup_ge_None_2. simpl. lia.
Qed.

Lemma at_node_set nv k n i :
  in_range nv k -> 0 <= i ->
  at_node (set_node nv k n) i = if decide (k = i) then Some n else at_node nv i.
Proof.
  intros [H1 H2] Hi. unfold at_node, set_node. destruct (decide (k = i)) as [->|].
  - apply list_lookup_insert_eq. lia.
  - apply list_lookup_insert_ne. lia.
Qed.

Lemma node_ok_mono nv nv' i n :
  (forall k, in_range nv k -> in_range nv' k) -> node_ok nv i n -> node_ok nv' i n.
Proof.
  intros Hm (H1 & H2 & H3). split; [done|]. split; [auto|]. 
  destruct (type_ n); try done; destruct H3; auto.
Qed.

(** A new node, whatever it holds, as long as its links are good. *)
Lemma wf_new_node j t i k :
  wf j -> Z.of_nat (length (nv_ j)) < max_nodes ->
  (t <> e_val -> in_range (nv_ j) i /\ in_range (nv_ j) k) ->
  let r := new_node j t i k in
  r.1 = Z.of_nat (length (nv_ j)) /\ wf r.2 /\ st_ r.2 = st_ j /\ key_ r.2 = key_ j
  /\ length (nv_ r.2) = S (length (nv_ j))
  /\ (exists n, at_node (nv_ r.2) r.1 = Some n /\ type_ n = t)
  /\ (forall x, 0 <= x -> x <> r.1 -> at_node (nv_ r.2) x = at_node (nv_ j) x).
Proof.
  intros [Hz Hn Hst Hk] Hlen Hik. unfold max_nodes in Hlen. cbn zeta.
  unfold new_node. cbn [fst snd nv_ st_ key_ set_nv]. rewrite wrap_small by mach.
  assert (0 < Z.of_nat (length (nv_ j))) as Hpos.
  { destruct Hz as [n0 Hz%lookup_lt_Some]. lia. }
  assert (forall z, in_range (nv_ j) z -> in_range (nv_ j ++ [mk_node t 0 (wrap 32 i) (wrap 32 k)]) z)
    as Hm by (intros; apply in_range_app; done).
  split; [done|]. split; [split; cbn [nv_ st_ key_ set_nv]|].
  - rewrite at_node_app by lia. rewrite decide_False by lia. done.
  - intros x n Hx. rewrite at_node_app by done. destruct (decide _) as [->|_].
    + intros [= <-]. split; [left; done|]. split; [apply Hm; unfold in_range; simpl; lia|].
      cbn [type_ a_ b_]. assert (t <> e_val -> in_range (nv_ j) (wrap 32 i) /\ in_range (nv_ j) (wrap 32 k)) as Hw.
      { intros Ht. destruct (Hik Ht) as [[? ?] [? ?]]. rewrite !wrap_small by mach. apply Hik. done. }
      destruct t; try done; destruct Hw; done || auto.
    + intros E. eapply node_ok_mono; [exact Hm|]. auto.
  - intros x Hx. destruct (Hst x Hx) as (? & n & Hat & Ht). split; [done|]. exists n.
    rewrite at_node_app by lia. rewrite decide_False; [done|].
    pose proof (at_node_pos _ _ _ Hat ltac:(lia)) as [? ?]. lia.
  - auto.
  - split; [done|]. split; [done|]. split; [rewrite length_app; simpl; lia|]. split.
    + eexists. rewrite at_node_app, decide_True by (done || lia). done.
    + intros x Hx Hne. rewrite at_node_app, decide_False by done. done.
Qed.

(** Rewriting a node by a good one keeps the tree well formed. *)
Lemma wf_set_node j i nd nd' :
  wf j -> at_node (nv_ j) i = Some nd -> 0 <= i -> type_ nd' = type_ nd ->
  node_ok (nv_ j) i nd' -> wf (set_nv j (set_node (nv_ j) i nd')).
Proof.
  intros [Hz Hn Hst Hk] Hi H0 Ht Hok. pose proof (at_node_pos _ _ _ Hi H0) as Hr.
  assert (forall z, in_range (nv_ j) z -> in_range (set_node (nv_ j) i nd') z) as Hm
    by (intros; apply in_range_set; done).
  split; cbn [nv_ st_ key_ set_nv].
  - rewrite at_node_set by (done || lia). destruct (decide (i = 0)); eauto.
  - intros x n Hx. rewrite at_node_set by done. destruct (decide (i = x)) as [->|].
    + intros [= <-]. eapply node_ok_mono; eauto.
    + intros E. eapply node_ok_mono; eauto.
  - intros x Hx. destruct (Hst x Hx) as (? & n & Hat & Htn). split; [done|].
    rewrite at_node_set by (done || lia). destruct (decide (i = x)) as [->|]; [|eauto].
    exists nd'. split; [done|]. assert (n = nd) as -> by congruence. rewrite Ht. done.
  - auto.
Qed.

Definition same_types (nv nv' : list node) : Prop :=
  forall x n, 0 <= x -> at_node nv x = Some n ->
  exists n', at_node nv' x = Some n' /\ type_ n' = type_ n.

Lemma same_types_set nv i nd nd' :
  at_node nv i = Some nd -> 0 <= i -> type_ nd' = type_ nd -> same_types nv (set_node nv i nd').
Proof.
  intros Hi H0 Ht x n Hx Hn. rewrite at_node_set by (done || eapply at_node_pos; eauto).
  destruct (decide (i = x)) as [->|]; [|eauto]. exists nd'. split; [done | congruence].
Qed.

(** Appending a node that is later than the container's last one. *)
Lemma wf_add_arr j val top st :
  wf j -> st_ j = top :: st -> in_range (nv_ j) val -> 0 < val ->
  Z.of_nat (length (nv_ j)) <= max_nodes ->
  (forall obj, at_node (nv_ j) top = Some obj -> b_ obj < val) ->
  exists j', add_arr j val = Some j' /\ wf j' /\ st_ j' = st_ j /\ key_ j' = key_ j
    /\ length (nv_ j') = length (nv_ j) /\ same_types (nv_ j) (nv_ j').
Proof.
  intros Hwf Hst Hval Hv0 Hlen Hlast. pose proof Hwf as [Hz Hn Hs Hk].
  destruct (Hs top ltac:(rewrite Hst; left)) as (Htop & obj & Hobj & Htype).
  specialize (Hlast obj Hobj). unfold add_arr. rewrite Hst, Hobj. cbn [mbind option_bind].
  pose proof (Hn top obj ltac:(lia) Hobj) as (Hnx & Hnr & Hab).
  assert (in_range (nv_ j) (a_ obj) /\ in_range (nv_ j) (b_ obj)) as [Ha Hb]
    by (destruct Htype as [E|E]; rewrite E in Hab; done).
  unfold in_range, max_nodes in *. destruct (Z.eqb_spec (b_ obj) 0) as [E|E]; cbn [negb].
  - eexists. split; [reflexivity|]. split.
    2: { split_and!; try done; [apply length_insert | eapply same_types_set; eauto; lia]. }
    eapply wf_set_node; eauto; [lia|]. split; [done|]. split; [done|].
    destruct Htype as [E'|E']; cbn; rewrite E'; done.
  - destruct (in_range_at (nv_ j) (b_ obj)) as [l Hl]; [done|]. rewrite Hl. cbn [mbind option_bind].
    rewrite (wrap_small 24 val) by mach. set (l' := mk_node (type_ l) val (a_ l) (b_ l)).
    pose proof (Hn (b_ obj) l ltac:(lia) Hl) as (Hlx & Hlr & Hlab).
    assert (wf (set_nv j (set_node (nv_ j) (b_ obj) l'))) as Hwf'.
    { eapply wf_set_node; eauto; [lia|]. subst l'. split; [right; cbn; lia|]. split; done. }
    destruct (wf_st _ Hwf' top ltac:(cbn; rewrite Hst; left)) as (_ & obj' & Hobj' & Htype').
    cbn [nv_ set_nv] in Hobj'. rewrite Hobj'. cbn [mbind option_bind]. eexists. split; [reflexivity|].
    pose proof (wf_node _ Hwf' top obj' ltac:(lia) Hobj') as (H1 & H2 & H3). cbn [nv_ set_nv] in *.
    split.
    2: { split_and!; try done; cbn; [unfold set_node; rewrite !length_insert; done|].
         intros x n Hx Hnx'. destruct (same_types_set (nv_ j) (b_ obj) l l' Hl ltac:(lia) eq_refl x n Hx Hnx')
           as (n1 & Hn1 & <-). eapply (same_types_set _ top obj'); eauto; lia. }
    apply (wf_set_node (set_nv j (set_node (nv_ j) (b_ obj) l')) top obj'); try done; [lia|].
    split; [done|]. split; [done|]. cbn [type_ a_ b_].
    assert (in_range (set_node (nv_ j) (b_ obj) l') val) by (apply in_range_set; done).
    destruct Htype' as [E'|E']; rewrite E' in H3 |- *; tauto.
Qed.

(** One value: a new node, added to the open container under the pending key. *)
Lemma wf_new_add j t i k :
  wf j -> Z.of_nat (length (nv_ j)) + 2 < max_nodes ->
  (t <> e_val -> in_range (nv_ j) i /\ in_range (nv_ j) k) ->
  let r := new_node j t i k in
  exists j', add r.2 r.1 = Some j' /\ wf j' /\ st_ j' = st_ j
    /\ (length (nv_ j') <= length (nv_ j) + 2)%nat
    /\ 0 < r.1 /\ exists n, at_node (nv_ j') r.1 = Some n /\ type_ n = t.
Proof.
  intros Hwf Hlen Hik. cbn zeta.
  destruct (wf_new_node j t i k Hwf ltac:(lia) Hik) as (Hr & Hwf1 & Hst1 & Hk1 & Hl1 & Hn1 & Hsame1).
  destruct (new_node j t i k) as [idx j1]. cbn [fst snd] in *.
  assert (0 < idx) as Hpos by (destruct (wf_null _ Hwf) as [n0 H%lookup_lt_Some]; lia).
  unfold add. destruct (st_ j1) as [|top st] eqn:Est.
  { exists j1. split_and!; try done; [congruence | lia]. }
  assert (forall obj, at_node (nv_ j) top = Some obj -> b_ obj < idx) as Hlast.
  { intros obj Hobj. rewrite Hst1 in *.
    destruct (wf_st _ Hwf top) as (Htop & o & Ho & Ht); [rewrite <- Hst1; left|].
    assert (o = obj) as -> by congruence.
    destruct (wf_node _ Hwf top obj ltac:(lia) Ho) as (_ & _ & Hab).
    destruct Ht as [E|E]; rewrite E in Hab; unfold in_range in Hab; lia. }
  assert (top < idx /\ 0 < top) as [Htop Htop0].
  { destruct (wf_st _ Hwf top) as (Htop & o & Ho & _); [rewrite <- Hst1; left|].
    pose proof (at_node_pos _ _ _ Ho ltac:(lia)) as [_ ?]. lia. }
  destruct (Z.eqb_spec (key_ j1) 0) as [Ek|Ek]; cbn [negb].
  - destruct (wf_add_arr j1 idx top st Hwf1 Est) as (j' & -> & Hwf' & Hst' & Hk' & Hl' & Hty').
    + unfold in_range. lia.
    + done.
    + lia.
    + intros obj Hobj. rewrite Hsame1 in Hobj by (done || lia). auto.
    + exists j'. split_and!; try done; [congruence | lia |].
      destruct Hn1 as (n & Hn & <-). apply (Hty' idx n); [lia | done].
  - unfold add_obj.
    destruct (wf_new_node j1 e_keyval (key_ j1) idx Hwf1) as (Hr2 & Hwf2 & Hst2 & Hk2 & Hl2 & Hn2 & Hsame2).
    { lia. }
    { intros _. split; [apply (wf_key _ Hwf1) | unfold in_range; lia]. }
    destruct (new_node j1 e_keyval (key_ j1) idx) as [kv j2]. cbn [fst snd] in *.
    destruct (wf_add_arr j2 kv top st Hwf2) as (j' & -> & Hwf' & Hst' & Hk' & Hl' & Hty').
    + congruence.
    + unfold in_range. lia.
    + lia.
    + lia.
    + intros obj Hobj. rewrite Hsame2, Hsame1 in Hobj by lia. specialize (Hlast obj Hobj). lia.
    + cbn [mbind option_bind]. exists (set_key j' 0). split; [done|]. split.
      { destruct Hwf' as [Hz Hn Hs Hk]. split; try done. cbn. destruct Hz as [n0 Hz%lookup_lt_Some].
        unfold in_range. lia. }
      cbn [st_ set_key nv_]. split; [congruence|]. split; [lia|]. split; [done|].
      destruct Hn1 as (n & Hn & <-). apply (Hty' idx n); [lia|]. rewrite Hsame2 by lia. done.
Qed.

Lemma parse_start_ok t j :
  t = e_obj \/ t = e_arr -> wf j -> Z.of_nat (length (nv_ j)) + 2 < max_nodes ->
  exists j', parse_start t j = Some j' /\ wf j' /\ (length (nv_ j') <= length (nv_ j) + 2)%nat.
Proof.
  intros Ht Hwf Hlen. destruct (wf_new_add j t 0 0 Hwf Hlen) as (j' & Ea & Hwf' & Hst & Hl & Hpos & Hn).
  { intros _. destruct (wf_null _ Hwf) as [n0 Hz%lookup_lt_Some]. unfold in_range. lia. }
  unfold parse_start. destruct (new_node j t 0 0) as [idx j1]. cbn [fst snd] in *. rewrite Ea.
  eexists. split; [reflexivity|]. split; [|done]. destruct Hwf' as [Hz Hno Hs Hk].
  split; try done. intros x [->|Hx]%elem_of_cons; [|auto]. split; [done|].
  destruct Hn as (n & Hn & En). exists n. split; [exact Hn|]. rewrite En. done.
Qed.

Lemma parse_string_ok j txt etxt :
  wf j -> Z.of_nat (length (nv_ j)) + 2 < max_nodes ->
  exists j', parse_string j txt etxt = Some j' /\ wf j' /\ st_ j' = st_ j
    /\ (length (nv_ j') <= length (nv_ j) + 2)%nat.
Proof.
  intros Hwf Hlen. destruct (wf_new_add j e_val txt (etxt - txt) Hwf Hlen)
    as (j' & Ea & Hwf' & Hst & Hl & _); [done|].
  unfold parse_string. destruct (new_node _ _ _ _) as [idx j1]. exists j'. done.
Qed.

Lemma parse_key_ok j txt etxt :
  wf j -> Z.of_nat (length (nv_ j)) + 2 < max_nodes ->
  let j' := parse_key j txt etxt in
  wf j' /\ st_ j' = st_ j /\ length (nv_ j') = (length (nv_ j) + 1)%nat.
Proof.
  intros Hwf Hlen. destruct (wf_new_node j e_val txt (etxt - txt) Hwf ltac:(lia))
    as (Hr & [Hz Hn Hs _] & Hst & _ & Hl & _); [done|].
  unfold parse_key. destruct (new_node _ _ _ _) as [idx j1]. cbn in *.
  split; [split; try done|split; [done|lia]]. cbn. unfold in_range. lia.
Qed.

(** What goes wrong: a bracket that closes nothing. *)
Definition closes_nothing (j : jtree) (c : Z) : Prop := st_ j = [] /\ (c = 125 \/ c = 93).

Lemma on_start_ok j p c :
  wf j -> Z.of_nat (length (nv_ j)) + 2 < max_nodes ->
  match on_start j p c with
  | Some (j', _) => wf j' /\ (length (nv_ j') <= length (nv_ j) + 2)%nat
  | None => closes_nothing j c
  end.
Proof.
  intros Hwf Hlen. unfold on_start.
  destruct (Z.eqb_spec c 123).
  { destruct (parse_start_ok e_obj j) as (j' & E & ? & ?); auto. unfold parse_start_object.
    rewrite E. done. }
  destruct (Z.eqb_spec c 91).
  { destruct (parse_start_ok e_arr j) as (j' & E & ? & ?); auto. unfold parse_start_array.
    rewrite E. done. }
  destruct (Z.eqb_spec c 125) as [Hc|Hc]; [|destruct (Z.eqb_spec c 93) as [Hc'|Hc']]; cbn [orb].
  1, 2: unfold parse_end; destruct (st_ j) as [|x st] eqn:Est; cbn; [split; auto|];
    split; [|cbn; lia]; destruct Hwf as [Hz Hn Hs Hk]; split; try done;
    intros y Hy; apply Hs; rewrite Est; right; exact Hy.
  repeat case_match; simplify_eq; split; done || lia.
Qed.

Lemma on_char_ok j s p c :
  wf j -> Z.of_nat (length (nv_ j)) + 4 < max_nodes ->
  match on_char j s p c with
  | Some (j', _) => wf j' /\ (length (nv_ j') <= length (nv_ j) + 4)%nat
  | None => st_ j = [] /\ (c = 125 \/ c = 93)
  end.
Proof.
  intros Hwf Hlen.
  assert (forall j1, wf j1 -> (length (nv_ j1) <= length (nv_ j) + 2)%nat -> st_ j1 = st_ j ->
            match on_start j1 p c with
            | Some (j', _) => wf j' /\ (length (nv_ j') <= length (nv_ j) + 4)%nat
            | None => st_ j = [] /\ (c = 125 \/ c = 93)
            end) as Hstart.
  { intros j1 Hwf1 Hl1 Hst1. pose proof (on_start_ok j1 p c Hwf1) as H.
    destruct (on_start j1 p c) as [[j2 s2]|].
    - destruct H; [lia|]. split; [done|lia].
    - unfold closes_nothing in H. rewrite Hst1 in H. apply H. lia. }
  destruct s as [|txt|txt etxt|txt|txt]; unfold on_char.
  - apply Hstart; done || lia.
  - destruct (c =? 34); split; done || lia.
  - destruct (c =? 58).
    + destruct (parse_key_ok j txt etxt Hwf) as (H1 & H2 & H3); [lia|]. apply Hstart; done || lia.
    + destruct (negb (isspace c)); [|split; done || lia].
      destruct (parse_string_ok j txt etxt Hwf) as (j1 & -> & H1 & H2 & H3); [lia|]. apply Hstart; done.
  - destruct (negb (is_number_char c)); [|split; done || lia].
    destruct (parse_string_ok j txt p Hwf) as (j1 & -> & H1 & H2 & H3); [lia|]. apply Hstart; done.
  - destruct (negb (isalpha c)); [|split; done || lia].
    destruct (parse_string_ok j txt p Hwf) as (j1 & -> & H1 & H2 & H3); [lia|]. apply Hstart; done.
Qed.

Lemma parse_chars_ok l j s p :
  wf j -> Z.of_nat (length (nv_ j)) + 4 * Z.of_nat (length l) < max_nodes ->
  (exists j' s', parse_chars j s p l = Some (j', s') /\ wf j')
  \/ exists l1 c l2 j1 s1, l = l1 ++ c :: l2 /\ parse_chars j s p l1 = Some (j1, s1)
       /\ closes_nothing j1 c /\ parse_chars j s p l = None.
Proof.
  revert j s p; induction l as [|c l IH]; intros j s p Hwf Hlen.
  { left. exists j, s. done. }
  cbn [parse_chars length] in *. pose proof (on_char_ok j s p c Hwf ltac:(lia)) as H.
  destruct (on_char j s p c) as [[j1 s1]|] eqn:E; cbn [mbind option_bind].
  - destruct H as [Hwf1 Hl1]. destruct (IH j1 s1 (p + 1) Hwf1 ltac:(lia)) as [H|H]; [left; exact H|].
    destruct H as (l1 & c' & l2 & j2 & s2 & -> & E2 & Hc & En). right.
    exists (c :: l1), c', l2, j2, s2. cbn [parse_chars]. rewrite E. done.
  - right. exists [], c, l, j, s. done.
Qed.

(** The tree [parse] starts from. *)
Definition cleared (j : jtree) (b : bytes) : jtree :=
  mk_jtree (take 1 (nv_ j) ++ replicate (1 - length (nv_ j)) (mk_node e_obj 0 0 0)) [] 0 b.

Definition null_node_ok (j : jtree) : Prop :=
  match nv_ j with [] => True | n :: _ => n = mk_node e_obj 0 0 0 end.

Lemma cleared_wf j b : null_node_ok j -> wf (cleared j b) /\ length (nv_ (cleared j b)) = 1%nat.
Proof.
  intros Hn. assert (nv_ (cleared j b) = [mk_node e_obj 0 0 0]) as E.
  { unfold cleared, null_node_ok in *. cbn. destruct (nv_ j) as [|n nv]; [done|]. subst n. done. }
  rewrite E. split; [|done]. split; rewrite E.
  - eexists. done.
  - intros i n Hi Hat. pose proof (at_node_pos _ _ _ Hat Hi) as [_ Hlt]. simpl in Hlt.
    assert (i = 0) as -> by lia. injection Hat as <-. unfold node_ok, in_range. simpl. lia.
  - intros i Hi. inversion Hi.
  - cbn. unfold in_range. simpl. lia.
Qed.

(** (C38) Parsing any text of up to four million characters either yields a
    well-formed tree — every link within the vector and forward, so that no walk
    along it leaves the vector or fails to end — or reaches a bracket that
    closes nothing, the one input on which the parser takes from an empty
    stack. *)
Theorem parse_well_formed j b :
  null_node_ok j -> 1 + 4 * Z.of_nat (length b) < max_nodes ->
  (exists j', parse j b = Some j' /\ wf j')
  \/ exists l1 c l2 j1 s1, b = l1 ++ c :: l2
       /\ parse_chars (cleared j b) s_start 0 l1 = Some (j1, s1)
       /\ closes_nothing j1 c /\ parse j b = None.
Proof.
  intros Hn Hlen. destruct (cleared_wf j b Hn) as [Hwf Hl]. unfold parse. fold (cleared j b).
  destruct (parse_chars_ok b (cleared j b) s_start 0 Hwf) as [H|H]; [rewrite Hl; lia| |].
  - left. destruct H as (j' & s' & -> & Hwf'). eexists. split; [reflexivity | done].
  - right. destruct H as (l1 & c & l2 & j1 & s1 & E & E1 & Hc & ->). exists l1, c, l2, j1, s1. done.
Qed.

(** (C39) Looking a key up in an object (or array) of a well-formed tree ends and
    gives null or a node of the tree. *)
Theorem find_val_total j obj n key :
  wf j -> 0 <= obj -> at_node (nv_ j) obj = Some n -> type_ n = e_obj \/ type_ n = e_arr ->
  exists v, find_val j obj key = Some v /\ in_range (nv_ j) v.
Proof.
  intros Hwf Hobj Hn Ht. unfold find_val, get_first. rewrite Hn. cbn.
  destruct (wf_node _ Hwf obj n Hobj Hn) as (_ & _ & Hab).
  assert (in_range (nv_ j) (a_ n)) as Hr by (destruct Ht as [E|E]; rewrite E in Hab; tauto).
  assert (in_range (nv_ j) 0) as H0.
  { destruct (wf_null _ Hwf) as [n0 Hz%lookup_lt_Some]. unfold in_range. lia. }
  revert Hr. generalize (a_ n). clear n obj Hobj Hn Ht Hab.
  assert (forall fuel it, in_range (nv_ j) it -> Z.of_nat (length (nv_ j)) - it <= Z.of_nat fuel ->
            exists v, find_from fuel j it key = Some v /\ in_range (nv_ j) v) as Hloop.
  { induction fuel as [|fuel IH]; intros it Hit Hf; [unfold in_range in Hit; lia|].
    cbn [find_from]. destruct (Z.eqb_spec it 0) as [->|Hne]; [exists 0; done|].
    destruct (in_range_at _ _ Hit) as [n Hn]. unfold get_type, get_key, get_val, get_next.
    rewrite Hn. cbn. destruct (decide (type_ n = e_keyval)) as [E|]; [|exists 0; done].
    destruct (wf_node _ Hwf it n ltac:(unfold in_range in *; lia) Hn) as (Hnx & Hnr & Hab).
    rewrite E in Hab. destruct Hab as [Ha Hb]. unfold get_str.
    destruct (in_range_at _ _ Ha) as [k Hk]. rewrite Hk. cbn.
    destruct (str_eqb key _); [exists (b_ n); done|].
    destruct (Z.eq_dec (next_ n) 0) as [En|En].
    - rewrite En. exists 0. split; [destruct fuel; done | done].
    - apply IH; [done|]. destruct Hnx; lia. }
  intros it Hit. apply Hloop; [done|]. unfold in_range in Hit. lia.
Qed.

(** A text that is only a string is a valid tree whose first node is the
    string: its position is then taken for a node index. *)
Example find_val_of_string :
  exists j, parse new_jtree (bs "        " ++ [34; 120; 34; 44]) = Some j /\ is_valid j = true
    /\ find_val j 1 (bs "method") = None.
Proof. eexists. split; [vm_compute; reflexivity|]. split; vm_compute; reflexivity. Qed.

(** ** Witnesses *)

Lemma parse_well_formed_witness :
  1 + 4 * Z.of_nat (length (bs "[1,2]")) < max_nodes /\ exists j', parse new_jtree (bs "[1,2]") = Some j' /\ wf j'.
Proof.
  assert (1 + 4 * Z.of_nat (length (bs "[1,2]")) < max_nodes) as Hl by (vm_compute; reflexivity).
  split; [exact Hl|].
  destruct (parse_well_formed new_jtree (bs "[1,2]") I Hl) as [H|(l1 & c & l2 & j1 & s1 & _ & _ & _ & E)];
    [exact H | vm_compute in E; discriminate].
Defined.

(** The tree of an object with one key. *)
Definition sample_text : bytes :=
  bs "{" ++ [34] ++ bs "id" ++ [34] ++ bs ":12}".
Definition sample_tree : jtree := default new_jtree (parse new_jtree sample_text).

Lemma sample_tree_wf : wf sample_tree.
Proof.
  destruct (parse_chars_ok sample_text (cleared new_jtree sample_text) s_start 0)
    as [(j & s & E & Hwf)|(l1 & c & l2 & j1 & s1 & _ & _ & _ & E)].
  - apply cleared_wf. exact I.
  - vm_compute. reflexivity.
  - unfold sample_tree, parse. fold (cleared new_jtree sample_text). rewrite E. exact Hwf.
  - vm_compute in E. discriminate.
Qed.

Lemma find_val_total_witness :
  exists v, find_val sample_tree 1 (bs "id") = Some v /\ in_range (nv_ sample_tree) v
    /\ get_uint sample_tree v = Some 12.
Proof.
  destruct (find_val_total sample_tree 1 (mk_node e_obj 0 4 4) (bs "id") sample_tree_wf)
    as (v & E & Hr).
  - lia.
  - vm_compute. reflexivity.
  - left. reflexivity.
  - exists v. split; [exact E|]. split; [exact Hr|]. vm_compute in E. injection E as <-.
    vm_compute. reflexivity.
Defined.
