(* ===== verification/JsonParse.v ===== *)
(** * JSON texts and their trees ([JsonWtr], [JTree])

    [repr] says that a node of a tree, with the nodes its links lead to, is the
    representation of a value.  Parsing the text the writer makes of an object or
    array gives a tree whose root represents it, and looking a key up in the
    representation of an object gives that of the key's value. *)

From S2P Require Import Prelude Text JTree.
From S2P Require JsonWtr.
Import JsonWtr (json, j_str, j_uint, j_int, j_null, j_true, j_false, j_arr, j_obj, json_ind', text, comma, quote).

(** ** Representation *)

(** The text a value has in the buffer, when it is not a container. *)
Definition scalar (v : json) : option bytes :=
  match v with
  | j_str s => Some s
  | j_uint n => Some (uint_to_str n)
  | j_int n => Some (int_to_str n)
  | j_null => Some (bs "null")
  | j_true => Some (bs "true")
  | j_false => Some (bs "false")
  | j_arr _ | j_obj _ => None
  end.

Definition is_str (v : json) : bool := match v with j_str _ => true | _ => false end.

Section repr.
Context (nv : list node) (buf : bytes).

(** Node [i] is the text [s], behind a quote when [q]. *)
Definition text_node (i : Z) (q : bool) (s : bytes) : Prop :=
  exists n, at_node nv i = Some n /\ type_ n = e_val /\ slice (Z.to_nat (a_ n)) (Z.to_nat (b_ n)) buf = s
    /\ 0 < a_ n /\ exists c, buf !! Z.to_nat (a_ n - 1) = Some c /\ (c =? 34) = q.

(** The children of a container: each leads to the next, the last to null. *)
Fixpoint linked (its : list Z) : Prop :=
  match its with
  | [] => True
  | it :: its' => (exists n, at_node nv it = Some n /\ next_ n = hd 0 its') /\ linked its'
  end.

(** A child at [it], in an array or under a key, with its nodes from [lo] on
    and below [hi]; [R i lo hi] is the representation of its value. *)
Definition item (R : Z -> Z -> Z -> Prop) (k : option bytes) (it lo hi : Z) : Prop :=
  match k with
  | None => lo <= it < hi /\ R it (it + 1) hi
  | Some k =>
      exists n, lo <= a_ n /\ a_ n < b_ n < it /\ it < hi /\ at_node nv it = Some n /\ type_ n = e_keyval
        /\ text_node (a_ n) true k /\ R (b_ n) (it + 1) hi
  end.

Definition container (t : type_t) (i : Z) (its : list Z) : Prop :=
  exists n, at_node nv i = Some n /\ type_ n = t /\ a_ n = hd 0 its /\ b_ n = default 0 (last its) /\ linked its.

(** Node [i] represents [v], with further nodes from [lo] on and below [hi]. *)
Fixpoint repr (v : json) (i lo hi : Z) : Prop :=
  match v with
  | j_arr vs =>
      exists its, container e_arr i its
        /\ (fix go vs its lo :=
              match vs, its with
              | [], [] => lo <= hi
              | v :: vs', it :: its' => exists h, item (repr v) None it lo h /\ go vs' its' h
              | _, _ => False
              end) vs its lo
  | j_obj kvs =>
      exists its, container e_obj i its
        /\ (fix go kvs its lo :=
              match kvs, its with
              | [], [] => lo <= hi
              | kv :: kvs', it :: its' => exists h, item (repr kv.2) (Some kv.1) it lo h /\ go kvs' its' h
              | _, _ => False
              end) kvs its lo
  | _ => exists s, scalar v = Some s /\ text_node i (is_str v) s /\ lo <= hi
  end.

(** The children of arrays and objects alike. *)
Fixpoint items (l : list (option bytes * json)) (its : list Z) (lo hi : Z) : Prop :=
  match l, its with
  | [], [] => lo <= hi
  | x :: l', it :: its' => exists h, item (repr x.2) x.1 it lo h /\ items l' its' h hi
  | _, _ => False
  end.

Definition elems (vs : list json) : list (option bytes * json) := (fun v => (None, v)) <$> vs.
Definition members (kvs : list (bytes * json)) : list (option bytes * json) := (fun kv => (Some kv.1, kv.2)) <$> kvs.

Lemma repr_arr vs i lo hi :
  repr (j_arr vs) i lo hi <-> exists its, container e_arr i its /\ items (elems vs) its lo hi.
Proof.
  cbn [repr]. apply exist_proper. intros its. apply and_iff_compat_l. revert its lo.
  induction vs as [|v vs IH]; intros [|it its] lo; try done. cbn [elems fmap list_fmap items fst snd].
  apply exist_proper. intros h. apply and_iff_compat_l. apply IH.
Qed.

Lemma repr_obj kvs i lo hi :
  repr (j_obj kvs) i lo hi <-> exists its, container e_obj i its /\ items (members kvs) its lo hi.
Proof.
  cbn [repr]. apply exist_proper. intros its. apply and_iff_compat_l. revert its lo.
  induction kvs as [|[k v] kvs IH]; intros [|it its] lo; try done. cbn [members fmap list_fmap items fst snd].
  apply exist_proper. intros h. apply and_iff_compat_l. apply IH.
Qed.

Lemma items_le l its lo hi : items l its lo hi -> lo <= hi /\ Forall (fun it => lo <= it < hi) its.
Proof.
  revert its lo. induction l as [|[k v] l IH]; intros [|it its] lo; try done.
  intros (h & Hi & Hg). destruct (IH _ _ Hg) as [H1 H2].
  assert (lo <= it < h) as Hit by (destruct k; cbn in Hi; [destruct Hi as (n & ? & ? & ? & _) | destruct Hi]; lia).
  split; [lia|]. constructor; [lia|]. eapply Forall_impl; [exact H2|]. cbn. lia.
Qed.
End repr.

(** ** What keeps a representation *)

(** The same node but for its link. *)
Definition same_but_next (n n' : node) : Prop := type_ n' = type_ n /\ a_ n' = a_ n /\ b_ n' = b_ n.

Lemma text_node_stable nv nv' buf i q s :
  text_node nv buf i q s -> (forall n, at_node nv i = Some n -> exists n', at_node nv' i = Some n' /\ same_but_next n n') ->
  text_node nv' buf i q s.
Proof.
  intros (n & Hn & Ht & Hs) H. destruct (H n Hn) as (n' & Hn' & E1 & E2 & E3). exists n'. rewrite E1, E2, E3. done.
Qed.

(** Nodes from [lo] on and below [hi] are the same, but for the link of [x]. *)
Definition kept_but (nv nv' : list node) (x lo hi : Z) : Prop :=
  forall i n, lo <= i < hi -> at_node nv i = Some n ->
  exists n', at_node nv' i = Some n' /\ same_but_next n n' /\ (i <> x -> n' = n).

Lemma kept_but_sub nv nv' x x' lo hi lo' hi' :
  kept_but nv nv' x lo hi -> lo <= lo' -> hi' <= hi -> (x' = x \/ x < lo' \/ hi' <= x) -> kept_but nv nv' x' lo' hi'.
Proof.
  intros H Hlo Hhi Hx i n Hi Hn. destruct (H i n ltac:(lia) Hn) as (n' & H1 & H2 & H3).
  exists n'. split_and!; [done | done |]. intros Hne. apply H3. lia.
Qed.

Lemma linked_stable nv nv' its : linked nv its -> (forall i n, i ∈ its -> at_node nv i = Some n -> at_node nv' i = Some n) ->
  linked nv' its.
Proof.
  induction its as [|it its IH]; [done|]. intros [(n & Hn & Hx) Hl] H. split.
  - exists n. split; [|done]. apply H; [left | done].
  - apply IH; [done|]. intros i m Hi. apply H. by right.
Qed.

(** The root's link may change, and the link of a node outside. *)
Definition root_kept (nv nv' : list node) (i : Z) : Prop :=
  forall n, at_node nv i = Some n -> exists n', at_node nv' i = Some n' /\ same_but_next n n'.
Definition stable (nv nv' : list node) (buf : bytes) (v : json) : Prop :=
  forall i lo hi, repr nv buf v i lo hi -> root_kept nv nv' i -> kept_but nv nv' 0 lo hi -> 0 < lo -> repr nv' buf v i lo hi.

Lemma kept_root nv nv' x lo hi i : kept_but nv nv' x lo hi -> lo <= i < hi -> root_kept nv nv' i.
Proof. intros H Hi n Hn. destruct (H i n Hi Hn) as (n' & ? & ? & _). by exists n'. Qed.

Lemma container_stable nv nv' t i its lo hi :
  container nv t i its -> root_kept nv nv' i -> kept_but nv nv' 0 lo hi -> 0 < lo ->
  Forall (fun it => lo <= it < hi) its -> container nv' t i its.
Proof.
  intros (n & Hn & E1 & E2 & E3 & Hl) Hroot Hk Hpos Hin. rewrite Forall_forall in Hin.
  destruct (Hroot n Hn) as (n' & Hn' & F1 & F2 & F3). exists n'. rewrite F1, F2, F3. split_and!; try done.
  eapply linked_stable; [exact Hl|]. intros j m Hj Hm. specialize (Hin j Hj). cbn in Hin.
  destruct (Hk j m Hin Hm) as (m' & H1 & _ & H2). rewrite H1. f_equal. apply H2. lia.
Qed.

Lemma item_stable nv nv' buf v k it lo h x :
  stable nv nv' buf v -> item nv buf (repr nv buf v) k it lo h -> kept_but nv nv' x lo h -> 0 < lo ->
  x = 0 \/ x = it \/ h <= x -> item nv' buf (repr nv' buf v) k it lo h.
Proof.
  intros Hv Hit Hk Hpos Hx. destruct k as [k|]; cbn [item] in *.
  - destruct Hit as (m & B1 & B2 & B3 & Hm & Htm & Hkt & Hr).
    destruct (Hk it m ltac:(lia) Hm) as (m' & Hm' & (F1 & F2 & F3) & _). exists m'. rewrite F1, F2, F3.
    split_and!; try done; try lia.
    + eapply text_node_stable; [exact Hkt|]. apply (kept_root _ _ _ _ _ _ Hk). lia.
    + apply Hv; [exact Hr | apply (kept_root _ _ _ _ _ _ Hk); lia | | lia].
      eapply kept_but_sub; [exact Hk | lia | lia | lia].
  - destruct Hit as [Hb Hr]. split; [done|]. apply Hv; [exact Hr | apply (kept_root _ _ _ _ _ _ Hk); lia | | lia].
    eapply kept_but_sub; [exact Hk | lia | lia | lia].
Qed.

Lemma items_stable nv nv' buf l its lo hi :
  Forall (fun x => stable nv nv' buf x.2) l -> items nv buf l its lo hi -> kept_but nv nv' 0 lo hi -> 0 < lo ->
  items nv' buf l its lo hi.
Proof.
  intros Hl. revert its lo. induction Hl as [|[k v] l Hv Hl IH]; intros [|it its] lo Hi Hk Hpos; try done.
  destruct Hi as (h & Hit & Hg). exists h. destruct (items_le _ _ _ _ _ _ Hg) as [Hle _]. cbn [fst snd] in *.
  assert (lo < h) as Hlh.
  { destruct k; cbn in Hit; [destruct Hit as (n & ? & ? & ? & _) | destruct Hit]; lia. }
  split.
  - eapply item_stable; [exact Hv | exact Hit | | lia | by left]. eapply kept_but_sub; [exact Hk | lia | lia | by left].
  - apply IH; [exact Hg | | lia]. eapply kept_but_sub; [exact Hk | lia | lia | by left].
Qed.

Lemma repr_stable nv nv' buf v : stable nv nv' buf v.
Proof.
  induction v as [| | | | | |vs IH|kvs IH] using json_ind'; intros i lo hi Hr Hroot Hk Hpos;
    try (destruct Hr as (t0 & E & Ht & Hle); exists t0; split; [done|]; split; [by eapply text_node_stable | done]).
  - apply repr_arr in Hr as (its & Hc & Hi). apply repr_arr. exists its. split.
    + eapply container_stable; try eassumption. eapply items_le, Hi.
    + eapply items_stable; try eassumption. by apply Forall_fmap.
  - apply repr_obj in Hr as (its & Hc & Hi). apply repr_obj. exists its. split.
    + eapply container_stable; try eassumption. eapply items_le, Hi.
    + eapply items_stable; try eassumption. by apply Forall_fmap.
Qed.

(** The last child's own link may change too. *)
Lemma items_stable_last nv nv' buf l its lo hi :
  items nv buf l its lo hi -> kept_but nv nv' (default 0 (last its)) lo hi -> 0 < lo -> items nv' buf l its lo hi.
Proof.
  revert its lo. induction l as [|[k v] l IH]; intros [|it its] lo Hi Hk Hpos; try done.
  destruct Hi as (h & Hit & Hg). exists h. destruct (items_le _ _ _ _ _ _ Hg) as [Hle Hin]. cbn [fst snd] in *.
  assert (lo < h) as Hlh.
  { destruct k; cbn in Hit; [destruct Hit as (n & ? & ? & ? & _) | destruct Hit]; lia. }
  destruct its as [|it' its].
  - split; [|destruct l; [exact Hg | done]]. cbn in Hk.
    eapply item_stable; [apply repr_stable | exact Hit | eapply kept_but_sub; [exact Hk | lia | lia | by left] | lia | by right; left].
  - rewrite last_cons in Hk. destruct (last (it' :: its)) as [x|] eqn:El; [|by apply last_None in El]. cbn in Hk.
    assert (h <= x) as Hx.
    { rewrite Forall_forall in Hin. apply Hin. apply last_Some in El as [? ->]. apply elem_of_app. right. by left. }
    split.
    + eapply item_stable; [apply repr_stable | exact Hit | eapply kept_but_sub; [exact Hk | lia | lia | by left] | lia | by right; right].
    + apply IH; [exact Hg | | lia]. rewrite El. eapply kept_but_sub; [exact Hk | lia | lia | by left].
Qed.

(** ** Adding a child *)

Definition len (j : jtree) : Z := Z.of_nat (length (nv_ j)).

(** The container on top of the stack, ready for a child. *)
Record open_top (j : jtree) (top : Z) (st : list Z) (nt : node) : Prop := {
  ot_st : st_ j = top :: st;
  ot_top : at_node (nv_ j) top = Some nt;
  ot_range : 0 < top < len j;
  ot_last : b_ nt = 0 \/ (0 < b_ nt < len j /\ b_ nt <> top);
  ot_key : 0 <= key_ j < len j }.

(** Child [c] was added to [top], whose node was [nt]. *)
Record added (j j' : jtree) (top c : Z) (nt : node) : Prop := {
  ad_st : st_ j' = st_ j;
  ad_key : key_ j' = 0;
  ad_buf : buf_ j' = buf_ j;
  ad_len : len j <= c < len j';
  ad_top : at_node (nv_ j') top = Some (mk_node (type_ nt) (next_ nt) (if b_ nt =? 0 then c else a_ nt) c);
  ad_last m : b_ nt <> 0 -> at_node (nv_ j) (b_ nt) = Some m ->
              at_node (nv_ j') (b_ nt) = Some (mk_node (type_ m) c (a_ m) (b_ m));
  ad_same x : 0 <= x < len j -> x <> top -> b_ nt = 0 \/ x <> b_ nt -> at_node (nv_ j') x = at_node (nv_ j) x;
  ad_next : exists m, at_node (nv_ j') c = Some m /\ next_ m = 0 }.

Lemma at_node_lt nv i : 0 <= i < Z.of_nat (length nv) -> exists n, at_node nv i = Some n.
Proof. intros H. apply in_range_at. exact H. Qed.

Lemma add_arr_ok j top st nt c :
  st_ j = top :: st -> at_node (nv_ j) top = Some nt -> 0 < top < len j ->
  b_ nt = 0 \/ (0 < b_ nt < len j /\ b_ nt <> top) -> 0 < c < 2 ^ 24 ->
  exists nv', add_arr j c = Some (set_nv j nv') /\ length nv' = length (nv_ j)
    /\ at_node nv' top = Some (mk_node (type_ nt) (next_ nt) (if b_ nt =? 0 then c else a_ nt) c)
    /\ (forall m, b_ nt <> 0 -> at_node (nv_ j) (b_ nt) = Some m ->
          at_node nv' (b_ nt) = Some (mk_node (type_ m) c (a_ m) (b_ m)))
    /\ (forall x, 0 <= x -> x <> top -> b_ nt = 0 \/ x <> b_ nt -> at_node nv' x = at_node (nv_ j) x).
Proof.
  intros Hst Hnt Htop Hlast Hc. unfold add_arr, len in *. rewrite Hst, Hnt. cbn [mbind option_bind].
  destruct (Z.eqb_spec (b_ nt) 0) as [Eb|Eb]; cbn [negb].
  - eexists. split; [reflexivity|]. unfold in_range.
    split; [apply length_insert|]. split; [|split; [done|]].
    + rewrite at_node_set by (unfold in_range; lia). by rewrite decide_True.
    + intros x Hx Hxt _. rewrite at_node_set by (unfold in_range; lia). by rewrite decide_False.
  - destruct Hlast as [|[Hb Hbt]]; [lia|]. destruct (at_node_lt (nv_ j) (b_ nt) ltac:(lia)) as [m Hm].
    rewrite Hm. cbn [mbind option_bind]. rewrite at_node_set by (unfold in_range; lia). rewrite decide_False by done.
    rewrite Hnt. cbn [mbind option_bind]. eexists. split; [reflexivity|]. rewrite wrap_small by mach.
    split; [unfold set_node; by rewrite !length_insert|].
    split; [|split].
    + rewrite at_node_set by (unfold in_range, set_node; rewrite ?length_insert; lia). by rewrite decide_True.
    + intros m' _ Hm'. rewrite at_node_set by (unfold in_range, set_node; rewrite ?length_insert; lia).
      rewrite decide_False by done. rewrite at_node_set by (unfold in_range; lia). rewrite decide_True by done.
      congruence.
    + intros x Hx Hxt [|Hxb]; [lia|]. rewrite at_node_set by (unfold in_range, set_node; rewrite ?length_insert; lia).
      rewrite decide_False by done. rewrite at_node_set by (unfold in_range; lia). by rewrite decide_False.
Qed.

Lemma at_node_snoc nv n : at_node (nv ++ [n]) (Z.of_nat (length nv)) = Some n.
Proof. rewrite at_node_app by lia. by rewrite decide_True. Qed.
Lemma at_node_old nv n x : 0 <= x < Z.of_nat (length nv) -> at_node (nv ++ [n]) x = at_node nv x.
Proof. intros H. rewrite at_node_app by lia. rewrite decide_False; [done | lia]. Qed.

(** A new node is added as a child, directly or under the pending key. *)
Lemma add_new_ok j top st nt t a b :
  open_top j top st nt -> len j + 2 < 2 ^ 24 ->
  let '(idx, j1) := new_node j t a b in
  idx = len j /\
  exists j' c, add j1 idx = Some j' /\ added j j' top c nt
    /\ at_node (nv_ j') idx = Some (mk_node t 0 (wrap 32 a) (wrap 32 b))
    /\ (if key_ j =? 0 then c = idx /\ len j' = idx + 1
        else c = idx + 1 /\ len j' = idx + 2 /\ at_node (nv_ j') c = Some (mk_node e_keyval 0 (key_ j) idx)).
Proof.
  intros [Hst Hnt Htop Hlast Hkey] Hlen. unfold new_node, len in *.
  rewrite (wrap_small 32 (Z.of_nat _)) by mach. split; [done|].
  set (n1 := mk_node t 0 (wrap 32 a) (wrap 32 b)). set (j1 := set_nv j (nv_ j ++ [n1])).
  assert (len j1 = len j + 1) as Hl1 by (unfold j1, len; cbn; rewrite length_app; cbn; lia). unfold len in Hl1.
  unfold add. change (st_ j1) with (st_ j). rewrite Hst. change (key_ j1) with (key_ j).
  destruct (Z.eqb_spec (key_ j) 0) as [Ek|Ek]; cbn [negb].
  - destruct (add_arr_ok j1 top st nt (Z.of_nat (length (nv_ j)))) as (nv' & -> & Hl & H1 & H2 & H3);
      try done; try (unfold len; lia).
    { unfold j1. cbn. by rewrite at_node_old by lia. }
    eexists _, _. split; [reflexivity|]. unfold j1 in *. cbn [set_nv nv_] in *.
    assert (at_node nv' (Z.of_nat (length (nv_ j))) = Some n1) as Hn.
    { rewrite H3; [apply at_node_snoc | lia | lia | lia]. }
    split; [|split; [exact Hn | rewrite Hl, length_app; cbn; split; [done | lia]]].
    split; cbn [st_ key_ buf_ set_nv nv_]; unfold len; cbn [set_nv nv_]; try done.
    + rewrite Hl, length_app. cbn. lia.
    + intros m Hb Hm. apply H2; [done|]. by rewrite at_node_old by lia.
    + intros x Hx Hxt Hxb. rewrite H3 by (done || lia). by apply at_node_old.
    + exists n1. done.
  - unfold add_obj, new_node. rewrite (wrap_small 32 (Z.of_nat (length (nv_ j1)))) by mach.
    change (key_ j1) with (key_ j). rewrite (wrap_small 32 (key_ j)) by mach.
    rewrite (wrap_small 32 (Z.of_nat (length (nv_ j)))) by mach.
    set (n2 := mk_node e_keyval 0 (key_ j) (Z.of_nat (length (nv_ j)))). set (j2 := set_nv j1 (nv_ j1 ++ [n2])).
    assert (len j2 = len j + 2) as Hl2 by (unfold j2, len; cbn; rewrite !length_app; cbn; lia). unfold len in Hl2.
    destruct (add_arr_ok j2 top st nt (Z.of_nat (length (nv_ j1)))) as (nv' & -> & Hl & H1 & H2 & H3);
      try done; try (unfold len; lia).
    { unfold j2. cbn. rewrite at_node_old by (unfold j1 in Hl1; cbn in Hl1; lia). by rewrite at_node_old by lia. }
    cbn [mbind option_bind]. eexists _, _. split; [reflexivity|].
    unfold j2 in *. cbn [set_nv nv_ set_key] in *.
    assert (at_node nv' (Z.of_nat (length (nv_ j))) = Some n1) as Hn.
    { rewrite H3; [|lia..]. rewrite at_node_old by (unfold j1; cbn; rewrite length_app; cbn; lia). apply at_node_snoc. }
    assert (at_node nv' (Z.of_nat (length (nv_ j1))) = Some n2) as Hn2.
    { rewrite H3; [apply at_node_snoc | lia..]. }
    assert (forall x, 0 <= x < Z.of_nat (length (nv_ j)) -> at_node (nv_ j1 ++ [n2]) x = at_node (nv_ j) x) as Hold.
    { intros x Hx. rewrite at_node_old by lia. by apply at_node_old. }
    assert (Z.of_nat (length nv') = Z.of_nat (length (nv_ j)) + 2) as Hnv by (rewrite Hl, length_app; cbn [length]; lia).
    split; [|split; [exact Hn|]].
    + split; cbn [st_ key_ buf_ set_nv nv_ set_key]; unfold len; cbn [set_nv nv_ set_key]; try done.
      * lia.
      * intros m Hb Hm. apply H2; [done|]. by rewrite Hold by lia.
      * intros x Hx Hxt Hxb. rewrite H3 by (done || lia). by apply Hold.
      * exists n2. done.
    + rewrite Hnv, Hl1. split_and!; [lia | lia |]. rewrite <- Hl1. exact Hn2.
Qed.

(** ** Parsing a value

    [then_char] goes on with a character in the start state. *)

Definition then_char (j : jtree) (p d : Z) (rest : bytes) : option (jtree * state_t) :=
  '(j, s) ← on_start j p d; parse_chars j s (p + 1) rest.

(** The characters that end a value inside a container. *)
Definition is_delim (d : Z) : Prop := d = 44 \/ d = 93 \/ d = 125.

(** Strings have no quote in them, and numbers are of their width. *)
Definition no_quote (s : bytes) : Prop := Forall (fun c => c <> 34) s.
Fixpoint clean (v : json) : Prop :=
  match v with
  | j_str s => no_quote s
  | j_uint n => in_u 64 n
  | j_int n => INT64_MIN < n <= INT64_MAX
  | j_null | j_true | j_false => True
  | j_arr vs => (fix go l := match l with [] => True | v :: l' => clean v /\ go l' end) vs
  | j_obj kvs => (fix go l := match l with [] => True | kv :: l' => no_quote kv.1 /\ clean kv.2 /\ go l' end) kvs
  end.

Lemma parse_string_chars s j txt p l :
  no_quote s -> parse_chars j (s_string txt) p (s ++ l) = parse_chars j (s_string txt) (p + Z.of_nat (length s)) l.
Proof.
  intros H. revert p. induction H as [|c s Hc Hs IH]; intros p; [cbn; by rewrite Z.add_0_r|].
  cbn [app parse_chars on_char]. destruct (Z.eqb_spec c 34); [done|]. cbn [mbind option_bind].
  rewrite IH. cbn [length]. f_equal. lia.
Qed.

Lemma parse_number_chars s j txt p l :
  Forall (fun c => is_number_char c = true) s ->
  parse_chars j (s_number txt) p (s ++ l) = parse_chars j (s_number txt) (p + Z.of_nat (length s)) l.
Proof.
  intros H. revert p. induction H as [|c s Hc Hs IH]; intros p; [cbn; by rewrite Z.add_0_r|].
  cbn [app parse_chars on_char]. rewrite Hc. cbn [negb mbind option_bind]. rewrite IH. cbn [length]. f_equal. lia.
Qed.

Lemma parse_keyword_chars s j txt p l :
  Forall (fun c => isalpha c = true) s ->
  parse_chars j (s_keyword txt) p (s ++ l) = parse_chars j (s_keyword txt) (p + Z.of_nat (length s)) l.
Proof.
  intros H. revert p. induction H as [|c s Hc Hs IH]; intros p; [cbn; by rewrite Z.add_0_r|].
  cbn [app parse_chars on_char]. rewrite Hc. cbn [negb mbind option_bind]. rewrite IH. cbn [length]. f_equal. lia.
Qed.

(** Where the text of a scalar lies in its JSON text. *)
Definition scalar_off (v : json) : Z := match v with j_str _ => 1 | _ => 0 end.

Lemma digits_number_char s : is_digits s -> Forall (fun c => is_number_char c = true) s.
Proof. intros H. eapply Forall_impl; [exact H|]. cbn. intros c Hc. unfold is_number_char. by rewrite Hc. Qed.

Lemma number_parse j c s p d rest :
  isdigit c = true \/ c = 45 -> Forall (fun c => is_number_char c = true) s -> is_delim d ->
  parse_chars j s_start p ((c :: s) ++ d :: rest)
  = (j ← parse_string j p (p + Z.of_nat (length (c :: s))); then_char j (p + Z.of_nat (length (c :: s))) d rest).
Proof.
  intros Hc Hs Hd. cbn [app parse_chars on_char]. unfold on_start.
  assert (c <> 123 /\ c <> 91 /\ c <> 125 /\ c <> 93 /\ c <> 34 /\ ((c =? 45) || (c =? 46) || isdigit c) = true)
    as (N1 & N2 & N3 & N4 & N5 & N6).
  { unfold isdigit in *. lia. }
  destruct (Z.eqb_spec c 123); [lia|]. destruct (Z.eqb_spec c 91); [lia|].
  destruct (Z.eqb_spec c 125); [lia|]. destruct (Z.eqb_spec c 93); [lia|]. destruct (Z.eqb_spec c 34); [lia|].
  cbn [orb]. rewrite N6. cbn [mbind option_bind]. rewrite parse_number_chars by done.
  cbn [parse_chars on_char length]. replace (is_number_char d) with false
    by (destruct Hd as [-> | [-> | ->]]; reflexivity).
  cbn [negb]. replace (p + 1 + Z.of_nat (length s)) with (p + Z.of_nat (S (length s))) by lia.
  unfold then_char. destruct (parse_string j p _); [|done]. cbn [mbind option_bind]. done.
Qed.

Lemma keyword_parse j c s p d rest :
  c = 116 \/ c = 102 \/ c = 110 -> Forall (fun c => isalpha c = true) s -> is_delim d ->
  parse_chars j s_start p ((c :: s) ++ d :: rest)
  = (j ← parse_string j p (p + Z.of_nat (length (c :: s))); then_char j (p + Z.of_nat (length (c :: s))) d rest).
Proof.
  intros Hc Hs Hd. cbn [app parse_chars on_char]. replace (on_start j p c) with (Some (j, s_keyword p))
    by (destruct Hc as [-> | [-> | ->]]; reflexivity).
  cbn [mbind option_bind]. rewrite parse_keyword_chars by done. cbn [parse_chars on_char length].
  replace (isalpha d) with false by (destruct Hd as [-> | [-> | ->]]; reflexivity).
  cbn [negb]. replace (p + 1 + Z.of_nat (length s)) with (p + Z.of_nat (S (length s))) by lia.
  unfold then_char. destruct (parse_string j p _); [|done]. cbn [mbind option_bind]. done.
Qed.

Lemma uint_chars n : in_u 64 n -> exists c s, uint_to_str n = c :: s /\ isdigit c = true /\ is_digits s.
Proof.
  intros H. destruct (uint_to_str_digits n H) as (ds & -> & Hd & _ & Hne).
  destruct Hd as [|c s Hc Hs]; [done|]. by exists c, s.
Qed.

Lemma int_chars n : INT64_MIN < n <= INT64_MAX ->
  exists c s, int_to_str n = c :: s /\ (isdigit c = true \/ c = 45) /\ is_digits s.
Proof.
  intros H. unfold int_to_str. destruct (Z.eqb_spec n 0); [exists 48, []; split_and!; [done | by left | constructor]|].
  destruct (Z.ltb_spec n 0).
  - rewrite swrap_small by mach.
    destruct (put_digits_spec digit_fuel (- n) []) as (ds & -> & Hds & _ & _); [unfold digit_fuel; mach|].
    rewrite app_nil_r. exists 45, ds. split_and!; [done | by right | done].
  - destruct (put_digits_spec digit_fuel n []) as (ds & -> & Hds & _ & Hne); [unfold digit_fuel; mach|].
    rewrite app_nil_r. specialize (Hne ltac:(lia)). destruct Hds as [|c s Hc Hs]; [done|]. exists c, s.
    split_and!; [done | by left | done].
Qed.

(** The text of a scalar is taken up to its delimiter. *)
Lemma scalar_parse v t j p d rest :
  scalar v = Some t -> clean v -> is_delim d ->
  parse_chars j s_start p (text v ++ d :: rest)
  = (j ← parse_string j (p + scalar_off v) (p + scalar_off v + Z.of_nat (length t));
     then_char j (p + Z.of_nat (length (text v))) d rest).
Proof.
  intros Ht Hc Hd. destruct v as [s|n|n| | | | |]; cbn [scalar] in Ht; try done; injection Ht as <-;
    cbn [scalar_off text]; rewrite ?Z.add_0_r.
  - unfold quote. cbn [app parse_chars on_char on_start Z.eqb Pos.eqb orb mbind option_bind].
    rewrite <- app_assoc. rewrite parse_string_chars by done. cbn [app parse_chars on_char Z.eqb Pos.eqb mbind option_bind].
    assert ((d =? 58) = false /\ isspace d = false) as [-> ->] by (destruct Hd as [-> | [-> | ->]]; done).
    cbn [negb]. replace (p + Z.of_nat (length (34 :: s ++ [34]))) with (p + 1 + Z.of_nat (length s) + 1)
      by (cbn [length]; rewrite length_app; cbn [length]; lia).
    unfold then_char. destruct (parse_string j _ _); [|done]. cbn [mbind option_bind]. done.
  - destruct (uint_chars n Hc) as (c & s & -> & H1 & H2). apply number_parse; [by left | by apply digits_number_char | done].
  - destruct (int_chars n Hc) as (c & s & -> & H1 & H2). apply number_parse; [done | by apply digits_number_char | done].
  - change (bs "null") with (110 :: bs "ull"). apply keyword_parse; [lia | repeat constructor | done].
  - change (bs "true") with (116 :: bs "rue"). apply keyword_parse; [lia | repeat constructor | done].
  - change (bs "false") with (102 :: bs "alse"). apply keyword_parse; [lia | repeat constructor | done].
Qed.

(** The text of a scalar within that of the value. *)
Lemma scalar_slice v t pre post :
  scalar v = Some t ->
  slice (length pre + Z.to_nat (scalar_off v)) (length t) (pre ++ text v ++ post) = t.
Proof.
  intros Ht. destruct v as [s|n|n| | | | |]; cbn [scalar] in Ht; try done; injection Ht as <-; cbn [scalar_off text];
    try (rewrite Nat.add_0_r; apply slice_app).
  rewrite <- !app_assoc. rewrite app_assoc. apply slice_at; [|done]. rewrite length_app. done.
Qed.

(** What comes before a value is not a quote. *)
Definition opened (pre : bytes) : Prop := exists l c, pre = l ++ [c] /\ c <> 34.

(** The character before it. *)
Lemma scalar_before v t l d rest :
  scalar v = Some t -> opened l ->
  0 < Z.of_nat (length l) + scalar_off v
  /\ exists c, (l ++ text v ++ d :: rest) !! Z.to_nat (Z.of_nat (length l) + scalar_off v - 1) = Some c /\ (c =? 34) = is_str v.
Proof.
  intros Ht (l0 & c & -> & Hc). rewrite length_app. cbn [length].
  assert (forall x, (((l0 ++ [c]) ++ x) : bytes) !! Z.to_nat (Z.of_nat (length l0 + 1) + 0 - 1) = Some c) as Hl.
  { intros x. rewrite <- app_assoc. replace (Z.to_nat (Z.of_nat (length l0 + 1) + 0 - 1)) with (length l0) by lia.
    by apply list_lookup_middle. }
  assert ((c =? 34) = false) as Hq by (by apply Z.eqb_neq).
  destruct v; cbn [scalar] in Ht; try done; cbn [scalar_off is_str]; (split; [lia|]); try (exists c; split; [apply Hl | done]).
  exists 34. split; [|done]. cbn [text]. unfold quote. rewrite <- !app_assoc.
  replace (Z.to_nat (Z.of_nat (length l0 + 1) + 1 - 1)) with (length (l0 ++ [c])) by (rewrite length_app; cbn; lia).
  rewrite app_assoc. by apply list_lookup_middle.
Qed.

(** What parsing a value in a container does. *)
Definition placed (j j' : jtree) (v : json) (c : Z) : Prop :=
  if key_ j =? 0 then c = len j /\ repr (nv_ j') (buf_ j') v (len j) (len j + 1) (len j')
  else c = len j + 1 /\ at_node (nv_ j') c = Some (mk_node e_keyval 0 (key_ j) (len j))
       /\ repr (nv_ j') (buf_ j') v (len j) (len j + 2) (len j').

Definition parses (v : json) : Prop :=
  forall j top st nt pre d rest,
    clean v -> is_delim d -> opened pre -> open_top j top st nt -> buf_ j = pre ++ text v ++ d :: rest ->
    Z.of_nat (length (buf_ j)) < 2 ^ 32 -> len j + 2 * Z.of_nat (length (text v)) < 2 ^ 24 ->
    exists j' c, parse_chars j s_start (Z.of_nat (length pre)) (text v ++ d :: rest)
                 = then_char j' (Z.of_nat (length pre) + Z.of_nat (length (text v))) d rest
      /\ added j j' top c nt /\ placed j j' v c /\ len j' <= len j + 2 * Z.of_nat (length (text v)).

Lemma text_pos v : clean v -> (0 < length (text v))%nat.
Proof.
  destruct v as [s|n|n| | | |vs|kvs]; cbn; try lia.
  - intros H. destruct (uint_chars n H) as (c & s & -> & _). cbn. lia.
  - intros H. destruct (int_chars n H) as (c & s & -> & _). cbn. lia.
Qed.

Lemma scalar_parses v t : scalar v = Some t -> parses v.
Proof.
  intros Ht j top st nt pre d rest Hc Hd Hpre Ho Hb Hb32 Hlen.
  rewrite (scalar_parse v t) by done. unfold parse_string.
  pose proof (text_pos v Hc) as Hpos. set (p := Z.of_nat (length pre) + scalar_off v).
  replace (p + Z.of_nat (length t) - p) with (Z.of_nat (length t)) by lia.
  pose proof (add_new_ok j top st nt e_val p (Z.of_nat (length t)) Ho ltac:(lia)) as H.
  destruct (new_node j e_val p (Z.of_nat (length t))) as [idx j1]. destruct H as (-> & j' & c & -> & Ha & Hn & Hk).
  cbn [mbind option_bind]. exists j', c. split; [done|]. split; [done|].
  assert (0 <= scalar_off v) as Hoff by (destruct v; cbn; lia).
  assert (Z.of_nat (length t) <= Z.of_nat (length (buf_ j)) /\ p <= Z.of_nat (length (buf_ j))) as [Hl1 Hl2].
  { rewrite Hb, !length_app. cbn [length]. unfold p. destruct v; cbn [scalar] in Ht; try done; injection Ht as <-;
      cbn [text scalar_off]; rewrite ?length_app; cbn [length]; lia. }
  assert (forall lo hi, lo <= hi -> repr (nv_ j') (buf_ j') v (len j) lo hi) as Hr.
  { intros lo hi Hlh. assert (text_node (nv_ j') (buf_ j') (len j) (is_str v) t) as Htn.
    { eexists. split; [exact Hn|]. split; [done|]. cbn [a_ b_]. unfold p in *. rewrite !wrap_small by (unfold in_u; lia).
      rewrite (ad_buf _ _ _ _ _ Ha), Hb. split; [rewrite Nat2Z.id, Z2Nat.inj_add, Nat2Z.id by lia; by apply scalar_slice|].
      by apply (scalar_before v t). }
    destruct v; cbn [scalar] in Ht; try done; injection Ht as <-; cbn [repr]; eexists; done. }
  unfold placed. destruct (key_ j =? 0).
  - destruct Hk as [-> Hl]. rewrite Hl. split; [|lia]. split; [done|]. apply Hr. lia.
  - destruct Hk as (-> & Hl & Hkv). rewrite Hl. split; [|lia]. split_and!; [done | done |]. apply Hr. lia.
Qed.

(** ** Filling a container *)

(** The text of a child: its key, if it has one, and its value. *)
Definition itext (x : option bytes * json) : bytes :=
  (match x.1 with Some k => quote ++ k ++ quote ++ bs ":" | None => [] end) ++ text x.2.

(** Container [idx], without a link as yet, has the children [its], which
    represent [l]; the nodes below those of [j0] other than its own are as in [j0]. *)
Record filling (j0 j : jtree) (t : type_t) (idx : Z) (st : list Z) (l : list (option bytes * json)) (its : list Z) : Prop := {
  fi_st : st_ j = idx :: st;
  fi_key : key_ j = 0;
  fi_buf : buf_ j = buf_ j0;
  fi_len : 0 < idx < len j0;
  fi_top : at_node (nv_ j) idx = Some (mk_node t 0 (hd 0 its) (default 0 (last its)));
  fi_linked : linked (nv_ j) its;
  fi_items : items (nv_ j) (buf_ j) l its (len j0) (len j);
  fi_same x : 0 <= x < len j0 -> x <> idx -> at_node (nv_ j) x = at_node (nv_ j0) x }.

Lemma items_snoc nv buf l its x it lo h hi :
  items nv buf l its lo h -> item nv buf (repr nv buf x.2) x.1 it h hi -> items nv buf (l ++ [x]) (its ++ [it]) lo hi.
Proof.
  revert its lo. induction l as [|y l IH]; intros [|it0 its] lo Hi Hx; try done.
  - cbn in Hi |- *. assert (lo <= it /\ it < hi) as [? ?].
    { destruct x as [[k|] v]; cbn in Hx; [destruct Hx as (n & ? & ? & ? & _) | destruct Hx]; lia. }
    exists hi. split; [|lia]. destruct x as [[k|] v]; cbn in *.
    + destruct Hx as (n & H1 & H2). exists n. split; [lia | done].
    + destruct Hx. split; [lia | done].
  - destruct Hi as (h' & H1 & H2). exists h'. split; [done|]. by apply IH.
Qed.

Lemma items_last nv buf l its lo hi x : items nv buf l its lo hi -> last its = Some x -> lo <= x < hi.
Proof.
  intros Hi Hx. destruct (items_le _ _ _ _ _ _ Hi) as [_ H]. rewrite Forall_forall in H. apply H.
  apply last_Some in Hx as [l' ->]. apply elem_of_app. right. by left.
Qed.

(** A child is linked after the last. *)
Lemma linked_snoc nv nv' buf l its lo hi c :
  items nv buf l its lo hi -> linked nv its ->
  (forall i, lo <= i < hi -> last its <> Some i -> at_node nv' i = at_node nv i) ->
  (forall x, last its = Some x -> exists m, at_node nv' x = Some m /\ next_ m = c) ->
  (exists m, at_node nv' c = Some m /\ next_ m = 0) -> linked nv' (its ++ [c]).
Proof.
  intros Hi Hl Hsame Hlast Hc. revert l lo Hi Hsame. induction its as [|it its IH]; intros [|x l] lo Hi Hsame; try done.
  destruct Hi as (h & Hit & Hg). destruct Hl as [(n & Hn & Hx) Hl].
  assert (lo <= it < h) as Hlh by (destruct x as [[k|] v]; cbn in Hit; [destruct Hit as (m & ? & ? & ? & _) | destruct Hit]; lia).
  destruct (items_le _ _ _ _ _ _ Hg) as [Hle Hin].
  destruct its as [|it' its]; [cbn; split; [by apply Hlast | done]|].
  rewrite last_cons in Hlast, Hsame. destruct (last (it' :: its)) as [y|] eqn:El; [|by apply last_None in El].
  pose proof (items_last _ _ _ _ _ _ _ Hg El) as Hy. split.
  - exists n. cbn [hd app] in *. split; [|done]. rewrite Hsame; [done | lia | intros [= E]; lia].
  - eapply (IH Hl); [exact Hlast | exact Hg | intros i H; apply Hsame; lia].
Qed.

Lemma last_snoc_hd (its : list Z) c : hd 0 (its ++ [c]) = match last its with None => c | Some _ => hd 0 its end.
Proof. destruct its as [|x its]; [done|]. cbn [app hd]. destruct (last (x :: its)) eqn:E; [done|]. by apply last_None in E. Qed.

(** One child more. *)
Lemma filling_step j0 j j2 j' t idx st l its x c :
  filling j0 j t idx st l its ->
  st_ j2 = st_ j -> buf_ j2 = buf_ j -> len j <= len j2 -> (forall i, 0 <= i < len j -> at_node (nv_ j2) i = at_node (nv_ j) i) ->
  added j2 j' idx c (mk_node t 0 (hd 0 its) (default 0 (last its))) ->
  item (nv_ j') (buf_ j') (repr (nv_ j') (buf_ j') x.2) x.1 c (len j) (len j') ->
  filling j0 j' t idx st (l ++ [x]) (its ++ [c]).
Proof.
  intros [F1 F2 F3 F4 F5 F6 F7 F8] Hst Hbuf Hlen Hold [A1 A2 A3 A4 A5 A6 A7 A8] Hx. cbn [type_ next_ a_ b_] in *.
  destruct (items_le _ _ _ _ _ _ F7) as [Hle _].
  assert (forall y, last its = Some y -> len j0 <= y < len j) as Hlast by (intros y; by apply (items_last _ _ _ _ _ _ _ F7)).
  assert (forall i, 0 <= i < len j -> i <> idx -> last its <> Some i -> at_node (nv_ j') i = at_node (nv_ j) i) as Hsame.
  { intros i Hi Hne Hl. rewrite A7; [by apply Hold | lia | done |]. destruct (last its) as [y|]; cbn; [right | by left].
    congruence. }
  assert (forall y m, last its = Some y -> at_node (nv_ j) y = Some m ->
            at_node (nv_ j') y = Some (mk_node (type_ m) c (a_ m) (b_ m))) as Hnew.
  { intros y m Hy Hm. rewrite Hy in A6. cbn in A6. specialize (Hlast y Hy). apply A6; [lia|]. by rewrite Hold by lia. }
  split.
  - congruence.
  - done.
  - congruence.
  - done.
  - rewrite A5, last_snoc_hd, last_snoc. cbn [default]. f_equal. f_equal.
    destruct (last its) as [y|] eqn:El; cbn; [|done]. specialize (Hlast y eq_refl).
    destruct (Z.eqb_spec y 0); [lia | done].
  - eapply linked_snoc; [exact F7 | exact F6 | intros i Hi; apply Hsame; lia | | done].
    intros y Hy. destruct (at_node_lt (nv_ j) y) as [m Hm]; [specialize (Hlast y Hy); unfold len in *; lia|].
    rewrite (Hnew y m Hy Hm). eexists. split; [done | done].
  - eapply items_snoc; [|exact Hx]. eapply items_stable_last; [rewrite A3, Hbuf; exact F7 | | lia].
    intros i n Hi Hn. destruct (decide (last its = Some i)) as [Ei|Ei].
    + rewrite (Hnew i n Ei Hn). eexists. split; [done|]. split; [by split_and!|]. rewrite Ei. done.
    + rewrite Hsame by (done || lia). exists n. split; [done|]. split; [by split_and! | done].
  - intros i Hi Hne. rewrite Hsame; [by apply F8 | lia | done |]. intros E. specialize (Hlast i E). lia.
Qed.

(** ** Parsing the children *)

Definition clean_key (k : option bytes) : Prop := match k with Some k => no_quote k | None => True end.
Definition clean_item (x : option bytes * json) : Prop := clean_key x.1 /\ clean x.2.

Lemma clean_arr vs : clean (j_arr vs) -> Forall clean_item (elems vs).
Proof. cbn. induction vs as [|v vs IH]; [constructor|]. intros [H1 H2]. constructor; [done | by apply IH]. Qed.
Lemma clean_obj kvs : clean (j_obj kvs) -> Forall clean_item (members kvs).
Proof.
  cbn. induction kvs as [|kv kvs IH]; [constructor|]. intros (H1 & H2 & H3). constructor; [done | by apply IH].
Qed.

(** The tree after the key of a child, if it has one, was read. *)
Definition keyed (j : jtree) (p : Z) (k : option bytes) : jtree :=
  match k with Some k => parse_key j (p + 1) (p + 1 + Z.of_nat (length k)) | None => j end.
Definition klen (k : option bytes) : Z := match k with Some k => Z.of_nat (length k) + 3 | None => 0 end.

Lemma key_parse j p k v l :
  clean_key k ->
  parse_chars j s_start p (itext (k, v) ++ l) = parse_chars (keyed j p k) s_start (p + klen k) (text v ++ l).
Proof.
  intros Hk. unfold itext. destruct k as [k|]; cbn [fst snd keyed klen]; [|by rewrite Z.add_0_r].
  unfold quote. rewrite <- !app_assoc. cbn [app parse_chars on_char on_start Z.eqb Pos.eqb orb mbind option_bind].
  rewrite parse_string_chars by done. change (bs ":") with [58].
  cbn [app parse_chars on_char on_start Z.eqb Pos.eqb isdigit orb andb mbind option_bind].
  change (on_start (parse_key j (p + 1) (p + 1 + Z.of_nat (length k))) (p + 1 + Z.of_nat (length k) + 1) 58)
    with (Some (parse_key j (p + 1) (p + 1 + Z.of_nat (length k)), s_start)). cbn [mbind option_bind].
  replace (p + (Z.of_nat (length k) + 3)) with (p + 1 + Z.of_nat (length k) + 1 + 1) by lia. done.
Qed.

(** The text of a key lies in the buffer after its quote. *)
Lemma keyed_spec j pre k v post :
  buf_ j = pre ++ itext (k, v) ++ post -> Z.of_nat (length (buf_ j)) < 2 ^ 32 -> len j < 2 ^ 24 -> key_ j = 0 ->
  let j2 := keyed j (Z.of_nat (length pre)) k in
  st_ j2 = st_ j /\ buf_ j2 = buf_ j /\ (forall i, 0 <= i < len j -> at_node (nv_ j2) i = at_node (nv_ j) i)
  /\ match k with
     | Some k => len j2 = len j + 1 /\ key_ j2 = len j /\ text_node (nv_ j2) (buf_ j) (len j) true k
     | None => j2 = j
     end.
Proof.
  intros Hb H32 Hl Hk. destruct k as [k|]; cbn [keyed]; [|done]. cbn zeta. unfold parse_key, new_node, len in *.
  rewrite (wrap_small 32 (Z.of_nat (length (nv_ j)))) by (unfold in_u; lia). split_and!; try done; cbn [nv_ set_nv set_key key_].
  - intros i Hi. by apply at_node_old.
  - rewrite length_app. cbn [length]. lia.
  - eexists. split; [apply at_node_snoc|]. split; [done|]. cbn [a_ b_].
    assert (Z.of_nat (length pre) + 1 + Z.of_nat (length k) <= Z.of_nat (length (buf_ j))) as Hle.
    { rewrite Hb. unfold itext, quote. cbn [fst snd]. repeat (rewrite length_app || cbn [length]). lia. }
    rewrite !wrap_small by (unfold in_u; lia).
    rewrite Hb. unfold itext, quote. cbn [fst snd].
    replace (Z.to_nat (Z.of_nat (length pre) + 1 + Z.of_nat (length k) - (Z.of_nat (length pre) + 1))) with (length k) by lia.
    replace (Z.to_nat (Z.of_nat (length pre) + 1)) with (length (pre ++ [34])) by (rewrite length_app; cbn [length]; lia).
    repeat rewrite <- app_assoc. rewrite (app_assoc pre). split; [apply slice_app|]. split; [lia|].
    exists 34. split; [|done]. rewrite <- app_assoc. replace (Z.to_nat (Z.of_nat (length pre) + 1 - 1)) with (length pre) by lia.
    by apply list_lookup_middle.
Qed.

Definition ilen (x : option bytes * json) : Z := Z.of_nat (length (itext x)).

Lemma ilen_eq k v : ilen (k, v) = klen k + Z.of_nat (length (text v)).
Proof. unfold ilen, itext, quote. destruct k as [k|]; cbn; rewrite ?length_app; cbn; rewrite ?length_app; cbn; lia. Qed.

(** One child. *)
Lemma parse_item j0 j t idx st l its x pre d rest :
  filling j0 j t idx st l its -> parses x.2 -> clean_item x -> is_delim d -> opened pre ->
  buf_ j = pre ++ itext x ++ d :: rest -> Z.of_nat (length (buf_ j)) < 2 ^ 32 -> len j + 2 * ilen x < 2 ^ 24 ->
  exists j' c, parse_chars j s_start (Z.of_nat (length pre)) (itext x ++ d :: rest)
               = then_char j' (Z.of_nat (length pre) + ilen x) d rest
    /\ filling j0 j' t idx st (l ++ [x]) (its ++ [c]) /\ len j' <= len j + 2 * ilen x.
Proof.
  intros HF Hp [Hck Hcv] Hd Hpre Hb H32 Hlen. destruct x as [k v]. cbn [fst snd] in *. rewrite ilen_eq in *.
  pose proof (text_pos v Hcv) as Hpos. assert (0 <= klen k) as Hk0 by (destruct k; cbn; lia).
  destruct HF as [F1 F2 F3 F4 F5 F6 F7 F8].
  destruct (keyed_spec j pre k v (d :: rest) Hb H32 ltac:(lia) F2) as (K1 & K2 & K3 & K4).
  rewrite key_parse by done. set (j2 := keyed j (Z.of_nat (length pre)) k) in *.
  destruct (items_le _ _ _ _ _ _ F7) as [Hle _].
  assert (len j2 <= len j + klen k /\ len j <= len j2 /\ 0 <= key_ j2 < len j2) as (Hl2 & Hl2' & Hk2).
  { destruct k as [k|]; [destruct K4 as (-> & -> & _); cbn [klen]; lia | rewrite K4, F2; cbn; lia]. }
  assert (open_top j2 idx st (mk_node t 0 (hd 0 its) (default 0 (last its)))) as Ho.
  { split; [congruence | rewrite K3 by lia; done | lia | cbn [b_] | done].
    destruct (last its) as [y|] eqn:El; cbn; [right | by left].
    pose proof (items_last _ _ _ _ _ _ _ F7 El). lia. }
  set (key := match k with Some k => quote ++ k ++ quote ++ bs ":" | None => [] end).
  assert (opened (pre ++ key)) as Hop.
  { unfold key. destruct k as [k|]; [|by rewrite app_nil_r]. exists (pre ++ quote ++ k ++ quote), 58. split; [|done].
    rewrite <- !app_assoc. done. }
  destruct (Hp j2 idx st _ (pre ++ key) d rest Hcv Hd Hop Ho) as (j' & c & E & Ha & Hpl & Hl'); try lia.
  { rewrite K2, Hb. unfold itext, key. cbn [fst snd]. by rewrite <- !app_assoc. }
  { rewrite K2. done. }
  exists j', c.
  replace (Z.of_nat (length pre) + (klen k + Z.of_nat (length (text v))))
    with (Z.of_nat (length pre) + klen k + Z.of_nat (length (text v))) by lia.
  replace (Z.of_nat (length (pre ++ key)))
    with (Z.of_nat (length pre) + klen k) in E.
  2: { rewrite length_app. unfold key. destruct k as [k|]; unfold quote; cbn; rewrite ?length_app; cbn; lia. }
  split; [exact E|]. split; [|lia].
  eapply (filling_step j0 j j2 j' t idx st l its (k, v) c); try done. cbn [fst snd].
  unfold placed in Hpl. destruct Ha as [A1 A2 A3 A4 A5 A6 A7 A8]. cbn [b_] in *. destruct k as [k|].
  - destruct K4 as (E1 & E2 & Htxt). rewrite E2 in Hpl. destruct (Z.eqb_spec (len j) 0); [lia|].
    destruct Hpl as (-> & Hn & Hr). cbn [item].
    exists (mk_node e_keyval 0 (len j) (len j2)). cbn [a_ b_ type_]. rewrite E1 in *. split_and!; try done; try lia.
    + rewrite A3, K2. eapply text_node_stable; [exact Htxt|]. intros n0 Hn0.
      exists n0. split; [|by split_and!]. rewrite A7; [done | lia | lia |].
      destruct (last its) as [y|] eqn:El; cbn; [right | by left].
      pose proof (items_last _ _ _ _ _ _ _ F7 El). lia.
    + replace (len j + 1 + 1 + 1) with (len j + 1 + 2) by lia. exact Hr.
  - subst j2. rewrite K4 in *. rewrite F2 in Hpl. cbn in Hpl. destruct Hpl as [-> Hr]. cbn [item]. split; [lia | done].
Qed.

(** The children, each but the first behind a comma. *)
Definition itexts (l : list (option bytes * json)) : bytes := comma (itext <$> l).

Lemma comma_cons' x l : comma (x :: l) = x ++ match l with [] => [] | _ => bs "," ++ comma l end.
Proof. destruct l as [|y l]; [done|]. rewrite JsonWtr.comma_cons, bind_cons. cbn. done. Qed.

Lemma length_comma n l : Forall (fun x => (length x <= n)%nat) l -> (length (comma l) <= length l * (n + 1))%nat.
Proof.
  induction 1 as [|x l Hx Hl IH]; [done|]. rewrite comma_cons', length_app. cbn [length].
  destruct l; [cbn [length] in *; lia|]. rewrite length_app. cbn [length Nat.mul] in *. change (length (bs ",")) with 1%nat. lia.
Qed.

Lemma then_comma j p rest : then_char j p 44 rest = parse_chars j s_start (p + 1) rest.
Proof. done. Qed.

Lemma parse_items j0 t idx st cl rest : forall l x l0 its j pre,
  filling j0 j t idx st l0 its -> Forall (fun x => parses x.2) (x :: l) -> Forall clean_item (x :: l) ->
  is_delim cl -> opened pre -> buf_ j = pre ++ itexts (x :: l) ++ cl :: rest -> Z.of_nat (length (buf_ j)) < 2 ^ 32 ->
  len j + 2 * Z.of_nat (length (itexts (x :: l))) < 2 ^ 24 ->
  exists j' its', parse_chars j s_start (Z.of_nat (length pre)) (itexts (x :: l) ++ cl :: rest)
                  = then_char j' (Z.of_nat (length pre) + Z.of_nat (length (itexts (x :: l)))) cl rest
    /\ filling j0 j' t idx st (l0 ++ x :: l) its' /\ len j' <= len j + 2 * Z.of_nat (length (itexts (x :: l))).
Proof.
  induction l as [|y l IH]; intros x l0 its j pre HF Hp Hc Hcl Hpre Hb H32 Hlen;
    apply Forall_cons in Hp as [Hp Hps]; apply Forall_cons in Hc as [Hc Hcs];
    unfold itexts in *; rewrite fmap_cons, comma_cons' in *.
  - cbn [fmap list_fmap] in *. rewrite app_nil_r in *.
    destruct (parse_item j0 j t idx st l0 its x pre cl rest HF Hp Hc Hcl Hpre Hb H32 Hlen) as (j' & c & E & HF' & Hl).
    exists j', (its ++ [c]). done.
  - set (r := comma (itext <$> y :: l)) in *.
    assert (match itext <$> y :: l with [] => [] | _ => bs "," ++ r end = 44 :: r) as Er by done. rewrite Er in *.
    rewrite <- app_assoc in *. cbn [app] in *. rewrite length_app in *. cbn [length] in *.
    assert (ilen x = Z.of_nat (length (itext x))) as Ex by done.
    destruct (parse_item j0 j t idx st l0 its x pre 44 (r ++ cl :: rest) HF Hp Hc) as (j1 & c & E & HF1 & Hl);
      [by left | done | exact Hb | done | lia |].
    assert (buf_ j1 = buf_ j) as Eb by (rewrite (fi_buf _ _ _ _ _ _ _ HF1), (fi_buf _ _ _ _ _ _ _ HF); done).
    destruct (IH y (l0 ++ [x]) (its ++ [c]) j1 (pre ++ itext x ++ [44])) as (j' & its' & E' & HF' & Hl');
      try done; try lia.
    { exists (pre ++ itext x), 44. by rewrite <- app_assoc. }
    { rewrite Eb, Hb. rewrite <- !app_assoc. done. }
    { by rewrite Eb. }
    { fold r. lia. }
    exists j', its'. rewrite E, then_comma. unfold itexts in E', Hl'. fold r in E', Hl'.
    replace (Z.of_nat (length (pre ++ itext x ++ [44]))) with (Z.of_nat (length pre) + ilen x + 1) in E'
      by (rewrite !length_app; cbn [length]; lia).
    rewrite E'. split; [f_equal; lia|]. split; [|lia]. rewrite <- app_assoc in HF'. exact HF'.
Qed.

(** From the opening bracket to the one that closes it. *)
Lemma parse_filled j0 t idx st cl l pre rest :
  filling j0 j0 t idx st [] [] -> Forall (fun x => parses x.2) l -> Forall clean_item l ->
  cl = 93 \/ cl = 125 -> opened pre -> buf_ j0 = pre ++ itexts l ++ cl :: rest -> Z.of_nat (length (buf_ j0)) < 2 ^ 32 ->
  len j0 + 2 * Z.of_nat (length (itexts l)) < 2 ^ 24 ->
  exists j' its, parse_chars j0 s_start (Z.of_nat (length pre)) (itexts l ++ cl :: rest)
                 = parse_chars (set_st j' st) s_start (Z.of_nat (length pre) + Z.of_nat (length (itexts l)) + 1) rest
    /\ filling j0 j' t idx st l its /\ len j' <= len j0 + 2 * Z.of_nat (length (itexts l)).
Proof.
  intros HF Hp Hc Hcl Hpre Hb H32 Hlen.
  assert (forall j p, st_ j = idx :: st -> then_char j p cl rest = parse_chars (set_st j st) s_start (p + 1) rest) as Hend.
  { intros j p Hst. unfold then_char, on_start, parse_end. rewrite Hst. destruct Hcl as [-> | ->]; done. }
  destruct l as [|x l].
  - exists j0, []. cbn [itexts comma fmap list_fmap app length] in *. rewrite Z.add_0_r. split_and!; [|done|lia].
    change (parse_chars j0 s_start (Z.of_nat (length pre)) (cl :: rest)) with (then_char j0 (Z.of_nat (length pre)) cl rest).
    apply Hend. apply HF.
  - assert (is_delim cl) as Hd by (unfold is_delim; tauto).
    destruct (parse_items j0 t idx st cl rest l x [] [] j0 pre HF Hp Hc Hd Hpre Hb H32 Hlen) as (j' & its & E & HF' & Hl).
    exists j', its. rewrite E. split_and!; [|done|done]. apply Hend. apply HF'.
Qed.

(** ** Containers *)

(** The type, brackets and children of an array or object. *)
Definition children (v : json) : option (type_t * Z * Z * list (option bytes * json)) :=
  match v with
  | j_arr vs => Some (e_arr, 91, 93, elems vs)
  | j_obj kvs => Some (e_obj, 123, 125, members kvs)
  | _ => None
  end.

Lemma children_op v t op cl l : children v = Some (t, op, cl, l) -> op <> 34.
Proof. destruct v; cbn; intros [= <- <- <- <-]; done. Qed.

Lemma children_spec v t op cl l : children v = Some (t, op, cl, l) ->
  text v = op :: itexts l ++ [cl] /\ (cl = 93 \/ cl = 125) /\ (clean v -> Forall clean_item l)
  /\ (forall j p, on_start j p op = (j ← parse_start t j; Some (j, s_start)))
  /\ (forall nv buf i lo hi, repr nv buf v i lo hi <-> exists its, container nv t i its /\ items nv buf l its lo hi).
Proof.
  destruct v as [| | | | | |vs|kvs]; cbn [children]; try done; intros [= <- <- <- <-].
  - split_and!; [|lia | apply clean_arr | done | intros; apply repr_arr]. cbn [text]. unfold itexts, elems.
    rewrite <- list_fmap_compose. done.
  - split_and!; [|lia | apply clean_obj | done | intros; apply repr_obj]. cbn [text]. unfold itexts, members.
    rewrite <- list_fmap_compose. do 3 f_equal. apply list_fmap_ext. intros _ [k v] _. unfold itext. cbn [compose fst snd].
    by rewrite <- !app_assoc.
Qed.

(** A container with nothing in it yet. *)
Lemma filling_start j t idx st :
  st_ j = idx :: st -> key_ j = 0 -> 0 < idx < len j -> at_node (nv_ j) idx = Some (mk_node t 0 0 0) ->
  filling j j t idx st [] [].
Proof. intros H1 H2 H3 H4. by split. Qed.

(** A full container represents its value. *)
Lemma filling_repr v t op cl l j0 j idx st its :
  children v = Some (t, op, cl, l) -> filling j0 j t idx st l its -> repr (nv_ j) (buf_ j) v idx (len j0) (len j).
Proof.
  intros Hv [F1 F2 F3 F4 F5 F6 F7 F8]. apply (children_spec _ _ _ _ _ Hv). exists its. split; [|done].
  eexists. split; [exact F5|]. done.
Qed.

Lemma children_parses v t op cl l : children v = Some (t, op, cl, l) -> Forall (fun x => parses x.2) l -> parses v.
Proof.
  intros Hv Hp j top st nt pre d rest Hcv Hd Hpre Ho Hb H32 Hlen.
  destruct (children_spec _ _ _ _ _ Hv) as (Ht & Hcl & Hcc & Hop & Hrep). rewrite Ht in *.
  cbn [length] in *. rewrite length_app in *. cbn [length] in *.
  pose proof (add_new_ok j top st nt t 0 0 Ho ltac:(lia)) as H.
  cbn [app parse_chars on_char]. rewrite Hop. unfold parse_start.
  destruct (new_node j t 0 0) as [idx j1]. destruct H as (Hidx & j1' & c & -> & Ha & Hn & Hk).
  cbn [mbind option_bind]. set (j0 := set_st j1' (idx :: st_ j1')).
  pose proof Ha as [A1 A2 A3 A4 A5 A6 A7 A8]. pose proof Ho as [Hst Hnt Htop Hlast Hkey].
  assert (len j0 = len j1') as Hj0 by done.
  assert (len j1' <= len j + 2) as Hl1 by (destruct (key_ j =? 0); [destruct Hk | destruct Hk as (_ & ? & _)]; lia).
  assert (filling j0 j0 t idx (st_ j1') [] []) as HF by (apply filling_start; [done | done | rewrite Hj0; lia | done]).
  destruct (parse_filled j0 t idx (st_ j1') cl l (pre ++ [op]) (d :: rest) HF Hp (Hcc Hcv) Hcl)
    as (jn & its & E & HFn & Hln); try lia.
  { exists pre, op. split; [done|]. eapply children_op, Hv. }
  { change (buf_ j0) with (buf_ j1'). rewrite A3, Hb. rewrite <- !app_assoc. cbn. by rewrite <- app_assoc. }
  { change (buf_ j0) with (buf_ j1'). by rewrite A3. }
  exists (set_st jn (st_ j1')), c. rewrite length_app in E. cbn [length] in E.
  replace (Z.of_nat (length pre) + 1) with (Z.of_nat (length pre + 1)) by lia.
  rewrite <- app_assoc. cbn [app]. rewrite E. destruct (items_le _ _ _ _ _ _ (fi_items _ _ _ _ _ _ _ HFn)) as [Hle _].
  assert (forall x, 0 <= x < len j1' -> x <> idx -> at_node (nv_ jn) x = at_node (nv_ j1') x) as Hsame
    by (intros x Hx; apply (fi_same _ _ _ _ _ _ _ HFn); done).
  split; [|split; [|split]].
  - change (parse_chars ?j s_start ?p (d :: rest)) with (then_char j p d rest). cbn [app]. f_equal. lia.
  - split; cbn [st_ key_ buf_ nv_ set_st]; try done.
    + apply HFn.
    + rewrite (fi_buf _ _ _ _ _ _ _ HFn). done.
    + unfold len in *. cbn [nv_ set_st]. lia.
    + rewrite Hsame by lia. done.
    + intros m Hbm Hm. rewrite Hsame by lia. by apply A6.
    + intros x Hx Hxt Hxb. rewrite Hsame by lia. by apply A7.
    + destruct (decide (c = idx)) as [->|Hne]; [eexists; split; [apply (fi_top _ _ _ _ _ _ _ HFn) | done]|].
      rewrite Hsame by lia. done.
  - pose proof (filling_repr v _ _ _ _ _ _ _ _ _ Hv HFn) as Hr. rewrite Hj0 in Hr. unfold placed.
    cbn [nv_ buf_ set_st]. unfold len at 4 5. cbn [nv_ set_st]. fold (len jn). subst idx.
    destruct (key_ j =? 0).
    + destruct Hk as [-> Hl]. split; [done|]. by rewrite Hl in Hr.
    + destruct Hk as (-> & Hl & Hkv). rewrite Hl in Hr. split_and!; [done | | exact Hr].
      rewrite Hsame by lia. done.
  - unfold len in *. cbn [nv_ set_st]. lia.
Qed.

Lemma parse_value v : parses v.
Proof.
  induction v as [| | | | | |vs IH|kvs IH] using json_ind'; try (eapply scalar_parses; done).
  - eapply children_parses; [done|]. by apply Forall_fmap.
  - eapply children_parses; [done|]. by apply Forall_fmap.
Qed.

Lemma parse_text_repr j v : children v <> None -> clean v -> null_node_ok j ->
  Z.of_nat (length (text v)) < 2 ^ 32 -> 1 + 2 * Z.of_nat (length (text v)) < 2 ^ 24 ->
  exists j', parse j (text v) = Some j' /\ is_valid j' = true /\ buf_ j' = text v
    /\ repr (nv_ j') (buf_ j') v 1 2 (len j').
Proof.
  intros Hv Hc Hnull H32 Hlen. destruct (children v) as [[[[t op] cl] l]|] eqn:Ev; [|done].
  destruct (children_spec _ _ _ _ _ Ev) as (Ht & Hcl & Hcc & Hop & Hrep).
  unfold parse. fold (cleared j (text v)).
  assert (cleared j (text v) = mk_jtree [mk_node e_obj 0 0 0] [] 0 (text v)) as ->.
  { unfold cleared, null_node_ok in *. destruct (nv_ j) as [|n nv]; [done|]. by subst n. }
  set (start := mk_jtree _ [] 0 (text v)).
  replace (parse_chars start s_start 0 (text v)) with (parse_chars start s_start 0 (op :: itexts l ++ [cl]))
    by (by rewrite <- Ht).
  subst start. cbn [parse_chars on_char]. rewrite Hop. unfold parse_start. cbn [mbind option_bind new_node].
  change (wrap 32 (Z.of_nat (length (nv_ (mk_jtree [mk_node e_obj 0 0 0] [] 0 (text v)))))) with 1.
  change (wrap 32 0) with 0. cbn [set_nv nv_ st_ key_ buf_ app add mbind option_bind set_st].
  set (j0 := mk_jtree [mk_node e_obj 0 0 0; mk_node t 0 0 0] [1] 0 (text v)).
  assert (filling j0 j0 t 1 [] [] []) as HF by (apply filling_start; done).
  assert (length (text v) = S (length (itexts l) + 1)) as Hlt by (rewrite Ht; cbn; rewrite length_app; done).
  destruct (parse_filled j0 t 1 [] cl l [op] [] HF) as (jn & its & E & HFn & Hln).
  - apply Forall_true. intros x. apply parse_value.
  - by apply Hcc.
  - done.
  - exists [], op. split; [done|]. eapply children_op, Ev.
  - exact Ht.
  - exact H32.
  - change (len j0) with 2. lia.
  - cbn [length] in E. change (0 + 1) with (Z.of_nat 1).
    change (set_st _ [1]) with j0. rewrite E. cbn [parse_chars mbind option_bind].
    eexists. split; [done|]. pose proof (filling_repr v _ _ _ _ _ _ _ _ _ Ev HFn) as Hr.
    change (len j0) with 2 in Hr. cbn [nv_ buf_ set_st]. split; [|split; [exact (fi_buf _ _ _ _ _ _ _ HFn) | exact Hr]].
    unfold is_valid. cbn [nv_ st_ set_st]. apply andb_true_intro. split; [|done]. apply Nat.ltb_lt.
    pose proof (fi_top _ _ _ _ _ _ _ HFn) as H%at_node_pos; [|lia]. unfold in_range in H. lia.
Qed.

(** ** Reading a representation *)

Definition lookup_member (key : bytes) (kvs : list (bytes * json)) : option json :=
  snd <$> find (fun kv => str_eqb key kv.1) kvs.

Lemma text_node_str j i q s : text_node (nv_ j) (buf_ j) i q s -> get_str j i = Some s.
Proof. intros (n & Hn & _ & Hs & _). unfold get_str. rewrite Hn. cbn. by rewrite Hs. Qed.

Lemma repr_scalar nv buf v i lo hi s : scalar v = Some s -> repr nv buf v i lo hi -> text_node nv buf i (is_str v) s.
Proof. intros Hs Hr. destruct v; cbn [scalar] in Hs; try done; destruct Hr as (s' & E & Ht & _); cbn [scalar] in E; assert (s' = s) as -> by congruence; exact Ht. Qed.

Lemma get_str_repr j v i lo hi s : repr (nv_ j) (buf_ j) v i lo hi -> scalar v = Some s -> get_str j i = Some s.
Proof. intros Hr Hs. by eapply text_node_str, repr_scalar. Qed.

Lemma get_uint_repr j n i lo hi : repr (nv_ j) (buf_ j) (j_uint n) i lo hi -> in_u 64 n -> get_uint j i = Some n.
Proof. intros Hr Hn. unfold get_uint. rewrite (get_str_repr j (j_uint n) i lo hi _ Hr eq_refl). cbn [fmap option_fmap option_map]. f_equal. by apply uint_back. Qed.

Lemma get_int_repr j n i lo hi :
  repr (nv_ j) (buf_ j) (j_int n) i lo hi -> INT64_MIN < n <= INT64_MAX -> get_int j i = Some n.
Proof. intros Hr Hn. unfold get_int. rewrite (get_str_repr j (j_int n) i lo hi _ Hr eq_refl). cbn [fmap option_fmap option_map]. f_equal. by apply int_back. Qed.

Lemma find_from_repr key j : forall kvs its lo hi fuel,
  items (nv_ j) (buf_ j) (members kvs) its lo hi -> linked (nv_ j) its -> 0 < lo -> (length its <= fuel)%nat ->
  match lookup_member key kvs with
  | Some v => exists i lo' hi', find_from fuel j (hd 0 its) key = Some i
                /\ lo < i /\ lo < lo' /\ hi' <= hi /\ repr (nv_ j) (buf_ j) v i lo' hi'
  | None => find_from fuel j (hd 0 its) key = Some 0
  end.
Proof.
  induction kvs as [|[k v] kvs IH]; intros [|it its] lo hi fuel Hi Hl Hlo Hf; try done.
  { destruct fuel; done. }
  destruct Hi as (h & (n & B1 & B2 & B3 & Hn & Ht & Hk & Hr) & Hg). cbn [fst snd] in *.
  destruct (items_le _ _ _ _ _ _ Hg) as [Hle _]. destruct Hl as [(n' & Hn' & Hx) Hl]. rewrite Hn in Hn'. injection Hn' as <-.
  destruct fuel as [|fuel]; [cbn in Hf; lia|]. cbn [hd find_from length] in *.
  destruct (Z.eqb_spec it 0); [lia|].
  unfold get_type, get_key, get_next, get_val. rewrite Hn. cbn [fmap option_fmap option_map mbind option_bind].
  rewrite decide_True by done. rewrite (text_node_str _ _ _ _ Hk). cbn [mbind option_bind].
  unfold lookup_member. cbn [find fst]. destruct (str_eqb key k); cbn [fmap option_fmap option_map snd].
  - exists (b_ n), (it + 1), h. split_and!; try done; lia.
  - rewrite Hx. specialize (IH its h hi fuel Hg Hl ltac:(lia) ltac:(lia)). unfold lookup_member in IH.
    destruct (find _ kvs) as [kv|]; cbn [fmap option_fmap option_map] in *; [|done].
    destruct IH as (i & lo' & hi' & E & H1 & H2 & H3 & H4). exists i, lo', hi'. split_and!; try done; lia.
Qed.

Lemma items_length nv buf l its lo hi : items nv buf l its lo hi -> Z.of_nat (length its) <= hi - lo.
Proof.
  revert its lo. induction l as [|[k v] l IH]; intros [|it its] lo Hi; try done; [cbn in *; lia|].
  destruct Hi as (h & Hit & Hg). specialize (IH _ _ Hg). cbn [fst snd length] in *.
  destruct k as [k|]; cbn in Hit; [destruct Hit as (n & ? & ? & ? & _) | destruct Hit]; lia.
Qed.

Lemma find_val_repr j kvs i lo hi key :
  repr (nv_ j) (buf_ j) (j_obj kvs) i lo hi -> 0 < lo -> hi <= len j ->
  match lookup_member key kvs with
  | Some v => exists i' lo' hi', find_val j i key = Some i' /\ lo < i' /\ lo < lo' /\ hi' <= hi
                /\ repr (nv_ j) (buf_ j) v i' lo' hi'
  | None => find_val j i key = Some 0
  end.
Proof.
  intros (its & (n & Hn & _ & Ha & _ & Hl) & Hi)%repr_obj Hlo Hhi. unfold find_val, get_first. rewrite Hn.
  cbn [fmap option_fmap option_map mbind option_bind]. rewrite Ha.
  pose proof (items_length _ _ _ _ _ _ Hi). by apply find_from_repr; [..|unfold len in *; lia].
Qed.

(** Looking a key up in the node of an object finds the value of its first
    member of that name, in the sense that the node returned represents it, and
    gives null for any other key. *)
Theorem find_member j kvs i lo hi key :
  repr (nv_ j) (buf_ j) (j_obj kvs) i lo hi -> 0 < lo -> hi <= len j ->
  match lookup_member key kvs with
  | Some v => exists i' lo' hi', find_val j i key = Some i' /\ lo < i' /\ lo < lo' /\ hi' <= hi
                /\ repr (nv_ j) (buf_ j) v i' lo' hi'
  | None => find_val j i key = Some 0
  end.
Proof. apply find_val_repr. Qed.

(** (C37) What is written is what is parsed: the calls of the JSON writer for any
    object or array, nested to any depth, produce a text that the parser accepts,
    with a tree whose first node represents it — every string, number and
    constant in its place, every container with its children in order.  Strings
    and keys hold no quote, and the text is below the size at which the 24-bit
    links of the tree overflow. *)
Theorem write_parse v j :
  children v <> None -> clean v -> null_node_ok j -> 1 + 2 * Z.of_nat (length (text v)) < max_nodes ->
  exists w j', JsonWtr.write v JsonWtr.new_json_wtr = Some w /\ JTree.parse j (JsonWtr.out w) = Some j' /\ is_valid j' = true
    /\ repr (nv_ j') (buf_ j') v 1 2 (len j').
Proof.
  intros Hv Hc Hn Hlen. unfold max_nodes in Hlen.
  destruct (JsonWtr.write_out v JsonWtr.new_json_wtr) as (fi & -> & _). cbn [JsonWtr.out JsonWtr.new_json_wtr app].
  destruct (parse_text_repr j v Hv Hc Hn) as (j' & E & H1 & _ & H2); [lia | done|].
  eexists _, j'. split; [done|]. done.
Qed.

(** ** Nodes *)

(** Node [i] represents [v]. *)
Definition node_repr (j : jtree) (v : json) (i : Z) : Prop :=
  exists lo hi, 0 < lo /\ hi <= len j /\ repr (nv_ j) (buf_ j) v i lo hi.
(** What a lookup finds. *)
Definition found (j : jtree) (o : option json) (i : Z) : Prop :=
  match o with Some v => i <> 0 /\ node_repr j v i | None => i = 0 end.

Lemma find_found j kvs i key :
  node_repr j (j_obj kvs) i -> exists t, find_val j i key = Some t /\ found j (lookup_member key kvs) t.
Proof.
  intros (lo & hi & H1 & H2 & Hr). pose proof (find_val_repr j kvs i lo hi key Hr H1 H2) as H.
  destruct (lookup_member key kvs) as [v|]; [|by exists 0].
  destruct H as (t & lo' & hi' & E & H3 & H4 & H5 & H6). exists t. split; [done|]. split; [lia|].
  exists lo', hi'. split_and!; [lia | lia | done].
Qed.

Definition json_type (v : json) : type_t := match v with j_arr _ => e_arr | j_obj _ => e_obj | _ => e_val end.

Lemma get_type_node j v i : node_repr j v i -> get_type j i = Some (json_type v).
Proof.
  intros (lo & hi & _ & _ & Hr). unfold get_type. destruct v as [s|n|n| | | |vs|kvs];
    try (destruct Hr as (t & _ & (n0 & Hn & Ht & _) & _); by rewrite Hn; cbn; rewrite Ht).
  - apply repr_arr in Hr as (its & (n & Hn & Ht & _) & _). by rewrite Hn; cbn; rewrite Ht.
  - apply repr_obj in Hr as (its & (n & Hn & Ht & _) & _). by rewrite Hn; cbn; rewrite Ht.
Qed.

Lemma get_str_node j v i s : node_repr j v i -> scalar v = Some s -> get_str j i = Some s.
Proof. intros (lo & hi & _ & _ & Hr). by apply (get_str_repr j v i lo hi). Qed.

Lemma scalar_type v : is_Some (scalar v) <-> json_type v = e_val.
Proof. split; [intros [s Hs] | intros H]; destruct v; try done; by eexists. Qed.

(** ** Witnesses *)

Definition sample_json : json :=
  j_obj [(bs "id", j_uint 12); (bs "params", j_arr [j_int (- 3); j_str (bs "x"); j_obj [(bs "ok", j_true)]])].

Lemma write_parse_witness :
  exists w j', JsonWtr.write sample_json JsonWtr.new_json_wtr = Some w /\ JTree.parse new_jtree (JsonWtr.out w) = Some j'
    /\ is_valid j' = true /\ repr (nv_ j') (buf_ j') sample_json 1 2 (len j').
Proof.
  refine (write_parse sample_json new_jtree _ _ I _); [done | | by_decide].
  vm_compute. split_and!; try done; repeat constructor; done.
Defined.

Definition sample_parsed : jtree := default new_jtree (JTree.parse new_jtree (text sample_json)).
Lemma sample_repr : repr (nv_ sample_parsed) (buf_ sample_parsed) sample_json 1 2 (len sample_parsed).
Proof.
  destruct (parse_text_repr new_jtree sample_json) as (j' & E & _ & _ & Hr); [done | | done | by_decide | by_decide |].
  - vm_compute. split_and!; try done; repeat constructor; done.
  - unfold sample_parsed. rewrite E. exact Hr.
Qed.

Lemma find_member_witness :
  exists i' lo' hi', find_val sample_parsed 1 (bs "id") = Some i' /\ 2 < i' /\ 2 < lo' /\ hi' <= len sample_parsed
    /\ repr (nv_ sample_parsed) (buf_ sample_parsed) (j_uint 12) i' lo' hi'.
Proof. exact (find_member sample_parsed _ 1 2 (len sample_parsed) (bs "id") sample_repr eq_refl (Z.le_refl _)). Defined.
