(* ===== verification/Bincode.v ===== *)
(** * Transactions ([pc/bincode.hpp], [upd_price::build_tx] of [pc/rpc_client.cpp])

    [bincode] writes values at a position of a raw buffer — here the 1270 bytes
    of one message block; a write past its end has no result.  [build_tx] is
    shown to write the transaction [tx_bytes] describes, with a signature of
    exactly the message part, for the batches that fit. *)

From S2P Require Import Prelude NetBuf Base64 JsonWtr.

(** ** The buffer *)

Record bincode := mk_bincode { bbuf : bytes; idx_ : nat }.

Definition attach (buf : bytes) : bincode := mk_bincode buf 0.
Definition get_pos (t : bincode) : nat := idx_ t.
Definition set_pos (p : nat) (t : bincode) : bincode := mk_bincode (bbuf t) p.
Definition tx_size (t : bincode) : nat := idx_ t.

(** [add( const char *, size_t )]: copy and advance. *)
Definition add_bytes (s : bytes) (t : bincode) : option bincode :=
  if bool_decide (idx_ t + length s <= length (bbuf t))%nat
  then Some (mk_bincode (blit (idx_ t) s (bbuf t)) (idx_ t + length s))
  else None.

Definition add_u8 (v : Z) := add_bytes (le_bytes 1 (wrap 8 v)).
Definition add_u16 (v : Z) := add_bytes (le_bytes 2 (wrap 16 v)).
Definition add_u32 (v : Z) := add_bytes (le_bytes 4 (wrap 32 v)).
Definition add_u64 (v : Z) := add_bytes (le_bytes 8 (wrap 64 v)).
(** [int32_t] and [int64_t] have the bytes of their unsigned words. *)
Definition add_i32 (v : Z) := add_u32 v.
Definition add_i64 (v : Z) := add_u64 v.

(** The 32 bytes of a [hash] or [pub_key]. *)
Definition add_hash (pk : bytes) := add_bytes pk.

(** [add_len]: one byte below 128, else two. *)
Definition len_bytes (n : Z) : bytes :=
  if n <? 128 then [Z.land n 127]
  else [Z.lor 128 (Z.land n 127); Z.land (Z.shiftr n 7) 127].
Definition add_len (n : Z) := add_bytes (len_bytes n).

Definition sig_len : nat := 64.
Definition reserve_sign (t : bincode) : nat * bincode :=
  (idx_ t, mk_bincode (bbuf t) (idx_ t + sig_len)).

Section sign.
(** [signature::sign] with OpenSSL's Ed25519: the 64 bytes for a message. *)
Context {key_cache : Type} (ed25519_sign : key_cache -> bytes -> bytes).

Definition sign (sig msg : nat) (kp : key_cache) (t : bincode) : option bincode :=
  let s := ed25519_sign kp (slice msg (idx_ t - msg) (bbuf t)) in
  if bool_decide (sig + length s <= length (bbuf t))%nat
  then Some (mk_bincode (blit sig s (bbuf t)) (idx_ t)) else None.

(** ** Price updates *)

Definition PC_VERSION : Z := 2.
Definition PC_TPU_PROTO_ID : Z := 0xb1ab.
Definition e_cmd_agg_price : Z := 8.
Definition e_cmd_upd_price_no_fail_on_error : Z := 13.
Definition cmd_upd_price_size : Z := 40.

Definition words (l : list Z) : bytes := l ≫= le_bytes 8.
Definition sysvar_clock : bytes :=
  words [0xc974c71817d5a706; 0xb65e1d6998635628; 0x5c6d4b9ba3b85e8b; 0x215b5573].
Definition compute_budget_program_id : bytes :=
  words [0x321721e56f460603; 0xe79bc372baadecff; 0x6b12f7c5bbe58cbc; 0x403a9b432c].

Record upd_price := mk_upd_price {
  bhash_ : bytes; ckey_ : key_cache; pkey_ : bytes; gkey_ : bytes; akey_ : bytes;
  price_ : Z; conf_ : Z; pub_slot_ : Z; cmd_ : Z; ust_ : Z }.

(** [upd_price::set_price], and [set_slot]. *)
Definition set_price (px conf st : Z) (is_agg : bool) (u : upd_price) : upd_price :=
  mk_upd_price (bhash_ u) (ckey_ u) (pkey_ u) (gkey_ u) (akey_ u) px conf (pub_slot_ u)
    (if is_agg then e_cmd_agg_price else e_cmd_upd_price_no_fail_on_error) st.
Definition set_slot (pub_slot : Z) (u : upd_price) : upd_price :=
  mk_upd_price (bhash_ u) (ckey_ u) (pkey_ u) (gkey_ u) (akey_ u) (price_ u) (conf_ u) pub_slot
    (cmd_ u) (ust_ u).

(** The parameters; a key pair is represented by its public key. *)
Definition set_symbol_status (st : Z) (u : upd_price) : upd_price :=
  mk_upd_price (bhash_ u) (ckey_ u) (pkey_ u) (gkey_ u) (akey_ u) (price_ u) (conf_ u) (pub_slot_ u) (cmd_ u) st.
Definition set_publish (pk : bytes) (u : upd_price) : upd_price :=
  mk_upd_price (bhash_ u) (ckey_ u) pk (gkey_ u) (akey_ u) (price_ u) (conf_ u) (pub_slot_ u) (cmd_ u) (ust_ u).
Definition set_pubcache (pk : key_cache) (u : upd_price) : upd_price :=
  mk_upd_price (bhash_ u) pk (pkey_ u) (gkey_ u) (akey_ u) (price_ u) (conf_ u) (pub_slot_ u) (cmd_ u) (ust_ u).
Definition set_account (akey : bytes) (u : upd_price) : upd_price :=
  mk_upd_price (bhash_ u) (ckey_ u) (pkey_ u) (gkey_ u) akey (price_ u) (conf_ u) (pub_slot_ u) (cmd_ u) (ust_ u).
Definition set_program (gkey : bytes) (u : upd_price) : upd_price :=
  mk_upd_price (bhash_ u) (ckey_ u) (pkey_ u) gkey (akey_ u) (price_ u) (conf_ u) (pub_slot_ u) (cmd_ u) (ust_ u).
Definition set_block_hash (bhash : bytes) (u : upd_price) : upd_price :=
  mk_upd_price bhash (ckey_ u) (pkey_ u) (gkey_ u) (akey_ u) (price_ u) (conf_ u) (pub_slot_ u) (cmd_ u) (ust_ u).

(** The instruction of the [i]-th of [n] updates. *)
Definition add_upd (n i : Z) (u : upd_price) (t : bincode) : option bincode :=
  t ← add_u8 (n + 2) t;
  t ← add_len 3 t;
  t ← add_u8 0 t;
  t ← add_u8 (i + 1) t;
  t ← add_u8 (n + 1) t;
  t ← add_len cmd_upd_price_size t;
  t ← add_u32 PC_VERSION t;
  t ← add_i32 (cmd_ u) t;
  t ← add_i32 (ust_ u) t;
  t ← add_i32 0 t;
  t ← add_i64 (price_ u) t;
  t ← add_u64 (conf_ u) t;
  add_u64 (pub_slot_ u) t.

Fixpoint add_upds (n i : Z) (us : list upd_price) (t : bincode) : option bincode :=
  match us with
  | [] => Some t
  | u :: us' => t ← add_upd n i u t; add_upds n (i + 1) us' t
  end.
Fixpoint add_accs (us : list upd_price) (t : bincode) : option bincode :=
  match us with
  | [] => Some t
  | u :: us' => t ← add_hash (akey_ u) t; add_accs us' t
  end.

Definition add_cu_units (n cu_units : Z) (t : bincode) : option bincode :=
  if 0 <? cu_units then
    t ← add_u8 (n + 3) t;
    t ← add_len 0 t;
    t ← add_len 5 t;
    t ← add_u8 2 t;
    add_u32 (wrap 32 (cu_units * n)) t
  else Some t.
Definition add_cu_price (n cu_price : Z) (t : bincode) : option bincode :=
  if 0 <? cu_price then
    t ← add_u8 (n + 3) t;
    t ← add_len 0 t;
    t ← add_len 9 t;
    t ← add_u8 3 t;
    add_u64 cu_price t
  else Some t.

(** The message part of [build_tx]: header, accounts, block hash, instructions. *)
Definition build_msg (first : upd_price) (us : list upd_price) (cu_units cu_price : Z)
    (t : bincode) : option bincode :=
  let n := Z.of_nat (length us) in
  t ← add_u8 1 t;
  t ← add_u8 0 t;
  t ← add_u8 2 t;
  t ← add_len (n + 4) t;
  t ← add_hash (pkey_ first) t;
  t ← add_accs us t;
  t ← add_hash sysvar_clock t;
  t ← add_hash (gkey_ first) t;
  t ← add_hash compute_budget_program_id t;
  t ← add_hash (bhash_ first) t;
  t ← add_len (n + (if 0 <? cu_units then 1 else 0) + (if 0 <? cu_price then 1 else 0)) t;
  t ← add_cu_units n cu_units t;
  t ← add_cu_price n cu_price t;
  add_upds n 0 us t.

(** [upd_price::build_tx]: [None] for a write outside the buffer, [Some None]
    when it returns false; else the buffer and the signature [sig_] kept in the
    first update. *)
Definition build_tx (us : list upd_price) (cu_units cu_price : Z) (t : bincode)
  : option (option (bincode * bytes)) :=
  match us with
  | [] => Some None
  | first :: _ =>
      t ← add_len 1 t;
      let '(pub_idx, t) := reserve_sign t in
      let tx_idx := get_pos t in
      t ← build_msg first us cu_units cu_price t;
      t ← sign pub_idx tx_idx (ckey_ first) t;
      Some (Some (t, slice pub_idx sig_len (bbuf t)))
  end.

Definition zero_block : bytes := replicate (Z.to_nat buf_max) 0.

(** [tx_wtr::init], [build_tx], [tx_wtr::commit]: a message for the transaction
    proxy, in the first block of a fresh writer. *)
Definition set_size (t : bincode) : bincode :=
  mk_bincode (blit 2 (le_bytes 2 (wrap 16 (Z.of_nat (idx_ t)))) (bbuf t)) (idx_ t).
Definition build (us : list upd_price) (cu_units cu_price : Z) : option (option (bytes * bytes)) :=
  t ← add_u16 PC_TPU_PROTO_ID (attach zero_block);
  t ← add_u16 0 t;
  r ← build_tx us cu_units cu_price t;
  match r with
  | None => Some None
  | Some (t, sig) => let t := set_size t in Some (Some (take (idx_ t) (bbuf t), sig))
  end.

(** [upd_price::request]: the transaction as base64 in a JSON-RPC call. *)
Definition request (us : list upd_price) (cu_units cu_price : Z) (w : json_wtr)
  : option (option (json_wtr * bytes)) :=
  r ← build_tx us cu_units cu_price (attach zero_block);
  match r with
  | None => Some None
  | Some (t, sig) =>
      let w := add_key_str (bs "method") (bs "sendTransaction") w in
      let w := add_key_type (bs "params") e_arr w in
      w ← add_val_enc_base64 (take (idx_ t) (bbuf t)) w;
      let w := add_val_type e_obj w in
      let w := add_key_str (bs "encoding") (bs "base64") w in
      let w := add_key_true (bs "skipPreflight") w in
      w ← pop w;
      w ← pop w;
      Some (Some (w, sig))
  end.

(** ** The format of a transaction *)

Definition upd_bytes (n i : Z) (u : upd_price) : bytes :=
  [wrap 8 (n + 2); 3; 0; wrap 8 (i + 1); wrap 8 (n + 1); 40]
  ++ le_bytes 4 PC_VERSION ++ le_bytes 4 (wrap 32 (cmd_ u)) ++ le_bytes 4 (wrap 32 (ust_ u))
  ++ le_bytes 4 0 ++ le_bytes 8 (wrap 64 (price_ u)) ++ le_bytes 8 (wrap 64 (conf_ u))
  ++ le_bytes 8 (wrap 64 (pub_slot_ u)).
Fixpoint upds_bytes (n i : Z) (us : list upd_price) : bytes :=
  match us with [] => [] | u :: us' => upd_bytes n i u ++ upds_bytes n (i + 1) us' end.

Definition cu_bytes (n cu_units cu_price : Z) : bytes :=
  (if 0 <? cu_units then [wrap 8 (n + 3); 0; 5; 2] ++ le_bytes 4 (wrap 32 (cu_units * n)) else [])
  ++ (if 0 <? cu_price then [wrap 8 (n + 3); 0; 9; 3] ++ le_bytes 8 (wrap 64 cu_price) else []).

(** What is signed: header, accounts, block hash, instructions. *)
Definition message_bytes (first : upd_price) (us : list upd_price) (cu_units cu_price : Z) : bytes :=
  let n := Z.of_nat (length us) in
  [1; 0; 2] ++ len_bytes (n + 4) ++ pkey_ first ++ (us ≫= akey_)
  ++ sysvar_clock ++ gkey_ first ++ compute_budget_program_id ++ bhash_ first
  ++ len_bytes (n + (if 0 <? cu_units then 1 else 0) + (if 0 <? cu_price then 1 else 0))
  ++ cu_bytes n cu_units cu_price ++ upds_bytes n 0 us.
Definition tx_bytes (first : upd_price) (us : list upd_price) (cu_units cu_price : Z) : bytes :=
  let m := message_bytes first us cu_units cu_price in
  [1] ++ ed25519_sign (ckey_ first) m ++ m.
Definition tx_signature (first : upd_price) (us : list upd_price) (cu_units cu_price : Z) : bytes :=
  ed25519_sign (ckey_ first) (message_bytes first us cu_units cu_price).

(** ** Writing *)

(** The bytes written from the start of the buffer. *)
Record wrote (t : bincode) (size : nat) (c : bytes) : Prop := {
  wr_idx : idx_ t = length c;
  wr_fit : (length c <= size)%nat;
  wr_len : length (bbuf t) = size;
  wr_data : take (length c) (bbuf t) = c }.

Lemma add_bytes_wrote t size c s :
  wrote t size c -> (length (c ++ s) <= size)%nat ->
  exists t', add_bytes s t = Some t' /\ wrote t' size (c ++ s).
Proof.
  intros [Hi Hf Hl Hd] Hs. rewrite length_app in Hs. unfold add_bytes.
  rewrite bool_decide_true by lia. eexists. split; [reflexivity|].
  split; cbn [idx_ bbuf]; rewrite ?length_app; [lia | lia | rewrite length_blit; lia |].
  rewrite Hi. unfold blit. rewrite Hd, app_assoc. apply take_app_length'.
  symmetry. apply length_app.
Qed.

(** Signing fills the reserved bytes and leaves the others; more signatures may
    be reserved before the message. *)
Lemma sign_gap t size a g b m kp :
  wrote t size (a ++ g ++ b ++ m) -> length g = sig_len ->
  (forall x, length (ed25519_sign kp x) = sig_len) ->
  exists t', sign (length a) (length (a ++ g ++ b)) kp t = Some t'
    /\ wrote t' size (a ++ ed25519_sign kp m ++ b ++ m)
    /\ slice (length a) sig_len (bbuf t') = ed25519_sign kp m.
Proof.
  intros [Hi Hf Hl Hd] Hg Hsig.
  assert (exists rest, bbuf t = a ++ g ++ b ++ m ++ rest) as [rest Eb].
  { exists (drop (length (a ++ g ++ b ++ m)) (bbuf t)).
    rewrite <- (take_drop (length (a ++ g ++ b ++ m)) (bbuf t)) at 1. rewrite Hd, <- !app_assoc. done. }
  assert (slice (length (a ++ g ++ b)) (idx_ t - length (a ++ g ++ b)) (bbuf t) = m) as Es.
  { rewrite Eb, Hi. replace (a ++ g ++ b ++ m ++ rest) with ((a ++ g ++ b) ++ m ++ rest) by (rewrite <- !app_assoc; done).
    apply slice_at; [done|]. rewrite !length_app. lia. }
  unfold sign. rewrite Es, Hsig. rewrite Eb, !length_app in Hl. rewrite !length_app in *.
  rewrite bool_decide_true by (rewrite Eb, !length_app; lia).
  eexists. split; [reflexivity|].
  assert (blit (length a) (ed25519_sign kp m) (bbuf t) = a ++ ed25519_sign kp m ++ b ++ m ++ rest) as Ebl
    by (rewrite Eb; apply blit_app; rewrite Hsig; done).
  cbn [bbuf]. rewrite Ebl. split; [|apply slice_at; rewrite ?Hsig; done].
  split; cbn [idx_ bbuf]; rewrite ?Ebl, ?length_app, ?Hsig; try lia.
  rewrite !app_assoc. apply take_app_length'. rewrite !length_app, Hsig. lia.
Qed.

Lemma sign_wrote t size a g m kp :
  wrote t size (a ++ g ++ m) -> length g = sig_len ->
  (forall x, length (ed25519_sign kp x) = sig_len) ->
  exists t', sign (length a) (length a + sig_len) kp t = Some t'
    /\ wrote t' size (a ++ ed25519_sign kp m ++ m)
    /\ slice (length a) sig_len (bbuf t') = ed25519_sign kp m.
Proof.
  intros H Hg Hsig. replace (length a + sig_len)%nat with (length (a ++ g ++ [])) by (rewrite app_nil_r, length_app; lia).
  by apply (sign_gap t size a g [] m kp).
Qed.

(** Reserving takes 64 bytes, whatever they hold. *)
Lemma reserve_wrote t size c :
  wrote t size c -> (length c + sig_len <= size)%nat ->
  exists g, length g = sig_len /\ idx_ t = length c /\ wrote (mk_bincode (bbuf t) (idx_ t + sig_len)) size (c ++ g).
Proof.
  intros [Hi Hfit Hlen Hd] Hs. set (g := slice (length c) sig_len (bbuf t)).
  assert (length g = sig_len) as Hg by (apply length_slice; lia).
  exists g. split_and!; [done..|]. split; cbn [idx_ bbuf]; rewrite ?length_app, ?Hg; [lia..|done|].
  rewrite <- (take_drop (length c) (bbuf t)) at 1. rewrite Hd, take_app_add. done.
Qed.

(** [f] appends the bytes [s] wherever they fit. *)
Definition writes (f : bincode -> option bincode) (s : bytes) : Prop :=
  forall t size c, wrote t size c -> (length (c ++ s) <= size)%nat ->
  exists t', f t = Some t' /\ wrote t' size (c ++ s).

Lemma writes_bytes s : writes (add_bytes s) s.
Proof. intros t size c. apply add_bytes_wrote. Qed.

Lemma writes_none : writes (fun t => Some t) [].
Proof. intros t size c H _. exists t. rewrite app_nil_r. done. Qed.

Lemma writes_bind f g s1 s2 :
  writes f s1 -> writes g s2 -> writes (fun t => t ← f t; g t) (s1 ++ s2).
Proof.
  intros Hf Hg t size c H Hl. rewrite app_assoc in Hl |- *.
  destruct (Hf t size c H) as (t1 & -> & H1); [rewrite length_app in Hl; lia|]. apply Hg; done.
Qed.

Lemma writes_upd n i u : writes (add_upd n i u) (upd_bytes n i u).
Proof.
  assert (upd_bytes n i u = le_bytes 1 (wrap 8 (n + 2)) ++ len_bytes 3 ++ le_bytes 1 (wrap 8 0)
    ++ le_bytes 1 (wrap 8 (i + 1)) ++ le_bytes 1 (wrap 8 (n + 1)) ++ len_bytes cmd_upd_price_size
    ++ le_bytes 4 (wrap 32 PC_VERSION) ++ le_bytes 4 (wrap 32 (cmd_ u)) ++ le_bytes 4 (wrap 32 (ust_ u))
    ++ le_bytes 4 (wrap 32 0) ++ le_bytes 8 (wrap 64 (price_ u)) ++ le_bytes 8 (wrap 64 (conf_ u))
    ++ le_bytes 8 (wrap 64 (pub_slot_ u))) as ->.
  { unfold upd_bytes. assert (forall z, le_bytes 1 (wrap 8 z) = [wrap 8 z]) as H1.
    { intros z. simpl. f_equal. apply Z.mod_small. apply (wrap_bound 8). lia. }
    rewrite !H1. done. }
  unfold add_upd. repeat (apply writes_bind; [apply writes_bytes|]). apply writes_bytes.
Qed.

Lemma writes_upds n us i : writes (add_upds n i us) (upds_bytes n i us).
Proof.
  revert i; induction us as [|u us IH]; intros i; [apply writes_none|].
  cbn [add_upds upds_bytes]. apply writes_bind; [apply writes_upd | apply IH].
Qed.

Lemma writes_accs us : writes (add_accs us) (us ≫= akey_).
Proof.
  induction us as [|u us IH]; [apply writes_none|]. cbn [add_accs]. rewrite bind_cons.
  apply writes_bind; [apply writes_bytes | apply IH].
Qed.

Lemma byte_of_u8 z : [wrap 8 z] = le_bytes 1 (wrap 8 z).
Proof. simpl. f_equal. symmetry. apply Z.mod_small. apply (wrap_bound 8). lia. Qed.

Lemma writes_cu n cu_units cu_price :
  writes (fun t => t ← add_cu_units n cu_units t; add_cu_price n cu_price t) (cu_bytes n cu_units cu_price).
Proof.
  unfold cu_bytes. apply writes_bind.
  - unfold add_cu_units. destruct (0 <? cu_units); [|apply writes_none].
    change ([wrap 8 (n + 3); 0; 5; 2] ++ ?l) with ([wrap 8 (n + 3)] ++ [0] ++ [5] ++ [2] ++ l).
    rewrite byte_of_u8. repeat (apply writes_bind; [apply writes_bytes|]).
    rewrite <- (wrap_wrap 32 (cu_units * n)) at 2 by lia. apply writes_bytes.
  - unfold add_cu_price. destruct (0 <? cu_price); [|apply writes_none].
    change ([wrap 8 (n + 3); 0; 9; 3] ++ ?l) with ([wrap 8 (n + 3)] ++ [0] ++ [9] ++ [3] ++ l).
    rewrite byte_of_u8. repeat (apply writes_bind; [apply writes_bytes|]). apply writes_bytes.
Qed.

Lemma writes_msg first us cu_units cu_price :
  writes (build_msg first us cu_units cu_price) (message_bytes first us cu_units cu_price).
Proof.
  unfold build_msg, message_bytes. set (n := Z.of_nat (length us)).
  change ([1; 0; 2] ++ ?l) with ([1] ++ [0] ++ [2] ++ l).
  do 5 (apply writes_bind; [apply writes_bytes|]).
  apply writes_bind; [apply writes_accs|].
  do 5 (apply writes_bind; [apply writes_bytes|]).
  intros t size c H Hl. rewrite app_assoc in Hl |- *.
  destruct (writes_cu n cu_units cu_price t size c H) as (t1 & E & H1);
    [rewrite length_app in Hl; lia|].
  destruct (writes_upds n us 0 t1 size _ H1 Hl) as (t2 & E2 & H2). exists t2. split; [|exact H2].
  destruct (add_cu_units n cu_units t) as [t0|]; [|done]. cbn in E |- *. rewrite E. exact E2.
Qed.

(** A signature is 64 bytes. *)
Context (sign_length : forall kp m, length (ed25519_sign kp m) = sig_len).

Lemma build_tx_wrote first us cu_units cu_price t size pre :
  head us = Some first -> wrote t size pre ->
  (length pre + length (tx_bytes first us cu_units cu_price) <= size)%nat ->
  exists t', build_tx us cu_units cu_price t = Some (Some (t', tx_signature first us cu_units cu_price))
    /\ wrote t' size (pre ++ tx_bytes first us cu_units cu_price).
Proof.
  intros Hf Hw Hl. destruct us as [|u us]; [done|]. injection Hf as ->. unfold tx_bytes in *.
  set (m := message_bytes first (first :: us) cu_units cu_price) in *.
  rewrite !length_app, sign_length in Hl. simpl length in Hl. unfold sig_len in Hl.
  unfold build_tx. destruct (add_bytes_wrote t size pre [1] Hw) as (t1 & E1 & H1);
    [rewrite length_app; simpl; lia|].
  change (add_len 1 t) with (add_bytes [1] t). rewrite E1. cbn [mbind option_bind reserve_sign].
  destruct (reserve_wrote t1 size (pre ++ [1]) H1) as (g & Hg & Hpos & H2);
    [rewrite length_app; simpl; unfold sig_len; lia|].
  destruct (writes_msg first (first :: us) cu_units cu_price _ size _ H2) as (t2 & E2 & H3).
  { fold m. rewrite !length_app, Hg. simpl. unfold sig_len. lia. }
  rewrite E2. cbn [mbind option_bind]. fold m in H3. rewrite <- app_assoc in H3.
  destruct (sign_wrote t2 size (pre ++ [1]) g m (ckey_ first) H3 Hg (sign_length _)) as (t3 & E3 & H4 & Hs).
  unfold get_pos. cbn [idx_]. rewrite Hpos, E3. cbn [mbind option_bind]. rewrite Hs.
  exists t3. split; [done|].
  rewrite <- app_assoc in H4. exact H4.
Qed.

(** The keys and hashes of updates have 32 bytes. *)
Definition upd_ok (u : upd_price) : Prop :=
  length (pkey_ u) = 32%nat /\ length (gkey_ u) = 32%nat /\ length (akey_ u) = 32%nat
  /\ length (bhash_ u) = 32%nat.

Lemma length_upds_bytes n us i : length (upds_bytes n i us) = (46 * length us)%nat.
Proof.
  revert i; induction us as [|u us IH]; intros i; [done|]. cbn [upds_bytes]. rewrite length_app, IH.
  unfold upd_bytes. rewrite !length_app, !length_le_bytes. cbn [length]. lia.
Qed.

Lemma length_accs us : Forall upd_ok us -> length (us ≫= akey_) = (32 * length us)%nat.
Proof.
  induction 1 as [|u us (_ & _ & Hu & _) _ IH]; [done|]. rewrite bind_cons, length_app, Hu, IH.
  cbn [length]. lia.
Qed.

Definition cu_size (cu_units cu_price : Z) : nat :=
  (if 0 <? cu_units then 8 else 0) + (if 0 <? cu_price then 12 else 0).

(** The size of a transaction of [n] updates. *)
Lemma length_tx_bytes first us cu_units cu_price :
  head us = Some first -> Forall upd_ok us -> (length us < 124)%nat ->
  length (tx_bytes first us cu_units cu_price)
  = (230 + 78 * length us + cu_size cu_units cu_price)%nat.
Proof.
  intros Hf Hus Hn. assert (upd_ok first) as (H1 & H2 & H3 & H4).
  { destruct us as [|u us]; [done|]. injection Hf as ->. apply Forall_cons_1 in Hus. tauto. }
  unfold tx_bytes, message_bytes, cu_bytes. rewrite !length_app, sign_length, length_upds_bytes,
    length_accs, H1, H2, H4 by done.
  assert (forall z, z < 128 -> length (len_bytes z) = 1%nat) as Hlen.
  { intros z Hz. unfold len_bytes. destruct (Z.ltb_spec z 128); [done | lia]. }
  rewrite !Hlen by (destruct (0 <? cu_units), (0 <? cu_price); lia).
  change (length sysvar_clock) with 32%nat. change (length compute_budget_program_id) with 32%nat.
  unfold cu_size, sig_len. destruct (0 <? cu_units), (0 <? cu_price);
    rewrite ?length_app, ?length_le_bytes; cbn [length]; lia.
Qed.

(** The statement below, for use elsewhere. *)
Lemma build_frame first us cu_units cu_price :
  head us = Some first -> Forall upd_ok us -> (length us <= 13)%nat ->
  build us cu_units cu_price
  = Some (Some (le_bytes 2 PC_TPU_PROTO_ID
                ++ le_bytes 2 (Z.of_nat (4 + length (tx_bytes first us cu_units cu_price)))
                ++ tx_bytes first us cu_units cu_price,
                tx_signature first us cu_units cu_price)).
Proof.
  intros Hf Hus Hn. set (tx := tx_bytes first us cu_units cu_price).
  assert (length tx <= 1264)%nat as Hl.
  { unfold tx. rewrite length_tx_bytes by (done || lia). unfold cu_size.
    destruct (0 <? cu_units), (0 <? cu_price); lia. }
  set (size := Z.to_nat buf_max). assert (size = 1270%nat) as Hsize by reflexivity.
  assert (wrote (attach zero_block) size []) as H0 by (split; try done; unfold size; cbn [length]; lia).
  unfold build, add_u16. set (hd := le_bytes 2 (wrap 16 PC_TPU_PROTO_ID)).
  destruct (add_bytes_wrote _ size [] hd H0) as (t1 & E1 & H1); [rewrite Hsize; simpl; lia|].
  rewrite E1. cbn [mbind option_bind].
  destruct (add_bytes_wrote _ size _ (le_bytes 2 (wrap 16 0)) H1) as (t2 & E2 & H2);
    [rewrite Hsize; simpl; lia|].
  rewrite E2. cbn [mbind option_bind].
  destruct (build_tx_wrote first us cu_units cu_price t2 size _ Hf H2) as (t3 & E3 & H3).
  { fold tx. rewrite Hsize. change (length (([] ++ hd) ++ le_bytes 2 (wrap 16 0))) with 4%nat. lia. }
  rewrite E3. cbn [mbind option_bind]. do 2 f_equal. f_equal. unfold set_size. cbn [idx_ bbuf].
  fold tx in H3. destruct H3 as [Hi Hfit Hlen Hd].
  change (([] ++ hd) ++ le_bytes 2 (wrap 16 0)) with (hd ++ le_bytes 2 (wrap 16 0)) in *.
  assert (length (hd ++ le_bytes 2 (wrap 16 0)) = 4%nat) as H4 by reflexivity.
  rewrite length_app, H4 in Hi. rewrite Hi, wrap_small by (unfold in_u; change (2 ^ 16) with 65536; lia).
  assert (bbuf t3 = hd ++ le_bytes 2 (wrap 16 0) ++ tx ++ drop (4 + length tx) (bbuf t3)) as Eb.
  { rewrite <- (take_drop (4 + length tx) (bbuf t3)) at 1. rewrite length_app, H4 in Hd.
    rewrite Hd, <- !app_assoc. done. }
  rewrite Eb. rewrite (blit_app hd (le_bytes 2 (wrap 16 0)));
    [|rewrite !length_le_bytes; done].
  rewrite !app_assoc. apply take_app_length'. rewrite !length_app, !length_le_bytes. done.
Qed.

(** (C40) A batch of up to thirteen price updates becomes, in one message block,
    the proxy header with the right size followed by exactly the transaction:
    one signature of exactly the message part (kept in the first update), and a
    message listing the accounts and instructions of the batch in order. *)
Theorem build_transaction first us cu_units cu_price :
  head us = Some first -> Forall upd_ok us -> (length us <= 13)%nat ->
  build us cu_units cu_price
  = Some (Some (le_bytes 2 PC_TPU_PROTO_ID
                ++ le_bytes 2 (Z.of_nat (4 + length (tx_bytes first us cu_units cu_price)))
                ++ tx_bytes first us cu_units cu_price,
                tx_signature first us cu_units cu_price)).
Proof. apply build_frame. Qed.

Lemma enc_base64_len_block n : 0 <= n -> (buf_max <? enc_base64_len n) = (951 <? n).
Proof.
  intros Hn. unfold enc_base64_len, buf_max.
  replace (n + 2 - (n + 2) mod 3) with ((n + 2) / 3 * 3) by (pose proof (Z.div_mod (n + 2) 3); lia).
  rewrite Z.div_mul by lia.
  pose proof (Z.div_mod (n + 2) 3 ltac:(lia)) as Hd. pose proof (Z.mod_pos_bound (n + 2) 3 ltac:(lia)).
  destruct (Z.ltb_spec 1270 ((n + 2) / 3 * 4)), (Z.ltb_spec 951 n); lia || done.
Qed.

(** Sent as a JSON-RPC call, a batch is encoded only if its transaction has
    at most 951 bytes — nine updates, or eight when both compute budget
    instructions are present.  A larger one asks [reserve] for more than a block,
    and the encoder writes through the null pointer that returns. *)
Theorem request_limit first us cu_units cu_price w :
  head us = Some first -> Forall upd_ok us -> (length us <= 13)%nat ->
  match request us cu_units cu_price w with
  | Some (Some (w', sig)) => sig = tx_signature first us cu_units cu_price /\ st_ w' = st_ w /\ (230 + 78 * length us + cu_size cu_units cu_price <= 951)%nat
  | Some None => False
  | None => (951 < 230 + 78 * length us + cu_size cu_units cu_price)%nat
  end.
Proof.
  intros Hf Hus Hn. pose proof (length_tx_bytes first us cu_units cu_price Hf Hus ltac:(lia)) as Hl.
  assert (wrote (attach zero_block) (Z.to_nat buf_max) []) as H0
    by (split; try done; cbn [length]; lia).
  destruct (build_tx_wrote first us cu_units cu_price _ _ _ Hf H0) as (t & Et & [Hi _ _ Hd]).
  { rewrite Hl. change (Z.to_nat buf_max) with 1270%nat. cbn [length]. unfold cu_size.
    destruct (0 <? cu_units), (0 <? cu_price); lia. }
  unfold request. rewrite Et. cbn [mbind option_bind]. rewrite Hi, Hd. cbn [app] in *.
  unfold add_val_enc_base64, add_enc_base64. rewrite Hl, enc_base64_len_block by lia.
  destruct (Z.ltb_spec 951 (Z.of_nat (230 + 78 * length us + cu_size cu_units cu_price)));
    cbn -[Nat.mul tx_signature]; [lia | split_and!; [done | done | lia]].
Qed.

(** The call's text: the method and, as parameters, the transaction in base64 and
    how it is encoded. *)
Definition send_json (tx : bytes) : list (bytes * json) :=
  [(bs "method", j_str (bs "sendTransaction"));
   (bs "params", j_arr [j_str (enc_base64 tx); j_obj [(bs "encoding", j_str (bs "base64")); (bs "skipPreflight", j_true)]])].

Lemma val_base64_out s o fi st : Z.of_nat (length s) <= 951 ->
  add_val_enc_base64 s (mk_json_wtr o fi st) = Some (mk_json_wtr (o ++ sep fi ++ text (j_str (enc_base64 s))) false st).
Proof.
  intros Hs. unfold add_val_enc_base64, add_enc_base64. rewrite enc_base64_len_block by lia.
  destruct (Z.ltb_spec 951 (Z.of_nat (length s))); [lia|]. unfold add, add_first. cbn [out first_ st_ text].
  by rewrite <- !app_assoc.
Qed.

Lemma request_text first us cu_units cu_price o :
  head us = Some first -> Forall upd_ok us -> (230 + 78 * length us + cu_size cu_units cu_price <= 951)%nat ->
  request us cu_units cu_price (mk_json_wtr o false [e_obj])
  = Some (Some (mk_json_wtr (o ++ (send_json (tx_bytes first us cu_units cu_price) ≫= fun kv => bs "," ++ kv_text kv)) false [e_obj],
                tx_signature first us cu_units cu_price)).
Proof.
  intros Hf Hus Hn. pose proof (length_tx_bytes first us cu_units cu_price Hf Hus ltac:(lia)) as Hl.
  assert (wrote (attach zero_block) (Z.to_nat buf_max) []) as H0 by (split; try done; cbn [length]; lia).
  destruct (build_tx_wrote first us cu_units cu_price _ _ _ Hf H0) as (t & Et & [Hi _ _ Hd]).
  { rewrite Hl. change (Z.to_nat buf_max) with 1270%nat. cbn [length]. lia. }
  unfold request. rewrite Et. cbn [mbind option_bind]. rewrite Hi, Hd. cbn [app] in *.
  clear Et Hi Hd. revert Hl. generalize (tx_bytes first us cu_units cu_price). intros tx Hl.
  outs. rewrite val_base64_out by lia. outs. do 4 f_equal. unfold send_json. cbn [mbind list_bind]. pieces.
Qed.
End sign.

(** ** Witnesses *)

Definition test_sign (k : Z) (m : bytes) : bytes := replicate 64 k.
Definition test_upd (k : Z) : upd_price (key_cache := Z) :=
  mk_upd_price (replicate 32 9) 7 (replicate 32 1) (replicate 32 2) (replicate 32 k) 42 3 100
    e_cmd_upd_price_no_fail_on_error 1.

Lemma test_upds_ok l : Forall upd_ok (test_upd <$> l).
Proof. induction l as [|k l IH]; constructor; [split_and!; reflexivity | exact IH]. Qed.

Lemma build_transaction_witness :
  build test_sign [test_upd 5; test_upd 6] 20000 0
  = Some (Some (le_bytes 2 PC_TPU_PROTO_ID ++ le_bytes 2 398
                ++ tx_bytes test_sign (test_upd 5) [test_upd 5; test_upd 6] 20000 0,
                replicate 64 7)).
Proof.
  rewrite (build_transaction test_sign (fun _ _ => eq_refl) (test_upd 5) [test_upd 5; test_upd 6] 20000 0).
  - vm_compute. reflexivity.
  - reflexivity.
  - apply (test_upds_ok [5; 6]).
  - simpl. lia.
Defined.

Lemma request_limit_witness :
  request test_sign (test_upd <$> [1; 2; 3; 4; 5; 6; 7; 8; 9]) 20000 1000 new_json_wtr = None.
Proof.
  pose proof (request_limit test_sign (fun _ _ => eq_refl) (test_upd 1)
                (test_upd <$> [1; 2; 3; 4; 5; 6; 7; 8; 9]) 20000 1000 new_json_wtr) as H.
  destruct (request test_sign (test_upd <$> [1; 2; 3; 4; 5; 6; 7; 8; 9]) 20000 1000 new_json_wtr)
    as [[[w sg]|]|]; [| |reflexivity]; exfalso.
  - destruct H as [_ [_ H]]; [reflexivity | apply test_upds_ok | simpl; lia|]. vm_compute in H. lia.
  - apply H; [reflexivity | apply test_upds_ok | simpl; lia].
Defined.
