(* ===== verification/KeyPair.v ===== *)
(** * Keys and signatures ([pc/key_pair.hpp], [pc/key_pair.cpp])

    A hash, public key, key pair or signature is its bytes.  Texts are decoded
    into the object's own bytes: a text of more bytes than the object holds has
    no result, a shorter one leaves the old last bytes.  Key generation, signing
    and verification are OpenSSL's. *)

From S2P Require Import Prelude Base58 JsonWtr JTree.
From S2P Require Text JsonParse.

(** ** [hash], [pub_key] *)

Definition hash_len : nat := 32.

Definition hash_zero : bytes := replicate hash_len 0.

(** The comparison of the four words. *)
Definition hash_eqb (a b : bytes) : bool :=
  (of_le (slice 0 8 a) =? of_le (slice 0 8 b)) && (of_le (slice 8 8 a) =? of_le (slice 8 8 b))
  && (of_le (slice 16 8 a) =? of_le (slice 16 8 b)) && (of_le (slice 24 8 a) =? of_le (slice 24 8 b)).

(** Writing [d] over the [n] bytes [old]. *)
Definition store (n : nat) (d old : bytes) : option bytes :=
  if bool_decide (length d <= n)%nat then Some (d ++ drop (length d) old) else None.

(** [init_from_text] and [hash::dec_base58]; the text of [init_from_file] too. *)
Definition init_from_text (buf old : bytes) : option bytes := store hash_len (dec_base58 buf) old.
Definition init_from_buf (pk : bytes) : bytes := take hash_len pk.

(** [hash::enc_base58( std::string& )]. *)
Definition hash_to_text (h : bytes) : bytes := enc_base58 h 64.

(** ** [key_pair] *)

Definition key_pair_len : nat := 64.
Definition key_pair_zero : bytes := replicate key_pair_len 0.

(** [init_from_json]: the numbers of the array, one byte each, wherever the
    list ends; the result says whether there were 64. *)
Fixpoint read_bytes (fuel : nat) (jt : jtree) (it : Z) (n : nat) (pk : bytes) : option (nat * bytes) :=
  if it =? 0 then Some (n, pk) else
  match fuel with
  | O => None
  | S fuel' =>
      v ← JTree.get_uint jt it;
      if bool_decide (n < length pk)%nat then
        it ← JTree.get_next jt it;
        read_bytes fuel' jt it (S n) (<[n := wrap 8 v]> pk)
      else None
  end.
Definition init_from_json (buf pk : bytes) : option (bool * bytes) :=
  jt ← JTree.parse new_jtree buf;
  it ← JTree.get_first jt 1;
  '(n, pk) ← read_bytes (length (nv_ jt)) jt it 0 pk;
  Some (bool_decide (n = key_pair_len), pk).

Definition get_pub_key (kp : bytes) : bytes := init_from_buf (drop hash_len kp).

(** ** [signature] *)

Definition signature_len : nat := 64.
Definition sig_from_text (buf old : bytes) : option bytes := store signature_len (dec_base58 buf) old.
Definition sig_to_text (sig : bytes) : bytes := enc_base58 sig 256.

(** ** Round trips *)

Lemma store_full n d old : length d = n -> length old = n -> store n d old = Some d.
Proof.
  intros Hd Ho. unfold store. rewrite bool_decide_true by lia.
  rewrite drop_ge by lia. rewrite app_nil_r. done.
Qed.

Lemma init_from_text_ok buf old h :
  init_from_text buf old = Some h -> is_bytes old -> length old = hash_len ->
  is_bytes h /\ length h = hash_len.
Proof.
  unfold init_from_text, store. destruct (bool_decide_reflect (length (dec_base58 buf) <= hash_len)%nat); [|done].
  intros [= <-] Ho Hl. split; [apply Forall_app_2; [apply dec_base58_is_bytes | by apply Forall_drop]|].
  rewrite length_app, length_drop. lia.
Qed.

Lemma all_zero l : ~ Exists (fun b => b <> 0) l -> l = replicate (length l) 0.
Proof.
  induction l as [|x l IH]; intros H; [done|]. cbn [length replicate]. f_equal.
  - destruct (decide (x = 0)); [done|]. exfalso. apply H. left. done.
  - apply IH. intros E. apply H. right. done.
Qed.

(** Text and bytes of any object of up to 64 bytes. *)
Lemma store_text n l old reslen :
  is_bytes l -> length l = n -> (0 < n <= 64)%nat -> length old = n ->
  Z.of_nat (b58_size n) + 2 <= reslen ->
  store n (dec_base58 (enc_base58 l reslen)) old
  = if decide (l = replicate n 0) then None else Some l.
Proof.
  intros Hl <- Hn Ho Hres. destruct (decide _) as [E|Hne].
  - rewrite E at 2. rewrite dec_enc_zeros by (done || lia).
    unfold store. rewrite bool_decide_false by (rewrite length_replicate; lia). done.
  - assert (Exists (fun b => b <> 0) l) as Hx
      by (apply dec_stable; intros H; apply Hne, all_zero, H).
    rewrite dec_enc_nonzero by (done || lia).
    apply store_full; done.
Qed.

Lemma hash_back h old :
  is_bytes h -> length h = hash_len -> length old = hash_len ->
  init_from_text (hash_to_text h) old = if decide (h = hash_zero) then None else Some h.
Proof.
  intros. apply (store_text hash_len); try assumption; [unfold hash_len; lia | by_decide].
Qed.

(** The text of a public key or hash reads back as the key — except the
    all-zero key, whose text is decoded past the end of the object. *)
Theorem hash_text h old :
  is_bytes h -> length h = hash_len -> length old = hash_len ->
  init_from_text (hash_to_text h) old = if decide (h = hash_zero) then None else Some h.
Proof. apply hash_back. Qed.

(** The same for signatures. *)
Theorem signature_text s old :
  is_bytes s -> length s = signature_len -> length old = signature_len ->
  sig_from_text (sig_to_text s) old
  = if decide (s = replicate signature_len 0) then None else Some s.
Proof.
  intros. apply (store_text signature_len); try assumption; [unfold signature_len; lia | by_decide].
Qed.

Lemma of_le_bytes_inj a b :
  is_bytes a -> is_bytes b -> length a = length b -> of_le a = of_le b -> a = b.
Proof.
  intros Ha; revert b; induction Ha as [|x a Hx Ha IH]; intros [|y b] Hb Hl He; try done.
  apply Forall_cons_1 in Hb as [Hy Hb]. cbn [of_le] in He. unfold is_byte, in_u in *.
  change (2 ^ 8) with 256 in *.
  assert (x = y) as -> by lia. f_equal. apply IH; [done | simpl in Hl; lia | lia].
Qed.

Lemma slice_is_bytes off n l : is_bytes l -> is_bytes (slice off n l).
Proof. intros H. apply Forall_take, Forall_drop, H. Qed.

Lemma slice_split {A} n (l l' : list A) off :
  slice off n l = slice off n l' -> drop (off + n) l = drop (off + n) l' -> drop off l = drop off l'.
Proof.
  unfold slice. intros H1 H2. rewrite <- (take_drop n (drop off l)), <- (take_drop n (drop off l')).
  rewrite !drop_drop, H1, H2. done.
Qed.

Lemma hash_eqb_iff a b :
  is_bytes a -> is_bytes b -> length a = hash_len -> length b = hash_len ->
  hash_eqb a b = true <-> a = b.
Proof.
  intros Ha Hb Hla Hlb. split; [|intros ->; unfold hash_eqb; rewrite !Z.eqb_refl; done].
  unfold hash_len in *. assert (forall off, (off + 8 <= 32)%nat ->
    of_le (slice off 8 a) = of_le (slice off 8 b) -> slice off 8 a = slice off 8 b) as Hs.
  { intros off Hoff. apply of_le_bytes_inj; try apply slice_is_bytes; try done.
    rewrite !length_slice by lia. done. }
  unfold hash_eqb. rewrite !andb_true_iff, !Z.eqb_eq. intros [[[H1 H2] H3] H4].
  change (drop 0 a = drop 0 b). apply (slice_split 8); [apply Hs; [lia|done]|].
  apply (slice_split 8); [apply Hs; [lia|done]|].
  apply (slice_split 8); [apply Hs; [lia|done]|].
  apply (slice_split 8); [apply Hs; [lia|done]|]. rewrite !drop_ge by lia. done.
Qed.

(** [operator==], a comparison of four words, compares the bytes. *)
Theorem hash_eqb_eq a b :
  is_bytes a -> is_bytes b -> length a = hash_len -> length b = hash_len ->
  hash_eqb a b = true <-> a = b.
Proof. apply hash_eqb_iff. Qed.

(** ** Key files

    A key pair is written as an array of numbers. *)

Lemma add_val_key_pair_write kp :
  add_val_key_pair kp new_json_wtr = write (j_arr (j_uint <$> kp)) new_json_wtr.
Proof.
  unfold add_val_key_pair. cbn [write]. change (add_val_type JsonWtr.e_arr new_json_wtr) with (JsonWtr.add_arr new_json_wtr).
  assert (forall w, foldl (fun w v => w ← w; write v (add_first w)) (Some w) (j_uint <$> kp)
                    = Some (foldl (fun w b => add_val_uint b w) w kp)) as H.
  { induction kp as [|b kp IH]; intros w; [done|]. cbn [fmap list_fmap foldl mbind option_bind write]. by rewrite IH. }
  by rewrite H.
Qed.

Lemma insert_app_take (pk : bytes) n b :
  (n < length pk)%nat -> take (S n) (<[n := b]> pk) = take n pk ++ [b].
Proof. intros H. rewrite (take_S_r _ _ b) by (by apply list_lookup_insert_eq). by rewrite take_insert_ge. Qed.

(** The numbers of an array, read into the bytes from the [n]-th on. *)
Lemma read_bytes_repr jt kp its lo hi : forall n pk fuel,
  is_bytes kp -> JsonParse.items (nv_ jt) (JTree.buf_ jt) (JsonParse.elems (j_uint <$> kp)) its lo hi ->
  JsonParse.linked (nv_ jt) its -> 0 < lo -> (length its <= fuel)%nat -> (n + length kp = length pk)%nat ->
  read_bytes fuel jt (hd 0 its) n pk = Some (length pk, take n pk ++ kp).
Proof.
  revert its lo. induction kp as [|b kp IH]; intros [|it its] lo n pk fuel Hb Hi Hl Hlo Hf Hlen; try done.
  { cbn [length] in Hlen. rewrite app_nil_r, take_ge by lia. destruct fuel; cbn; do 2 f_equal; lia. }
  apply Forall_cons in Hb as [Hb Hbs]. destruct Hi as (h & [Hit Hr] & Hg). cbn [fst snd length] in *.
  destruct Hl as [(m & Hm & Hx) Hl]. destruct fuel as [|fuel]; [lia|].
  destruct (JsonParse.items_le _ _ _ _ _ _ Hg) as [Hle _].
  cbn [read_bytes hd]. destruct (Z.eqb_spec it 0); [lia|].
  rewrite (JsonParse.get_uint_repr jt b it _ _ Hr) by (unfold is_byte in *; mach). cbn [mbind option_bind].
  rewrite bool_decide_true by lia. unfold JTree.get_next. rewrite Hm. cbn [fmap option_fmap option_map mbind option_bind].
  rewrite Hx, (IH its h) by (rewrite ?length_insert; auto with lia). rewrite length_insert.
  rewrite wrap_small by (unfold is_byte in *; mach). rewrite insert_app_take by lia. by rewrite <- app_assoc.
Qed.

Lemma numbers_clean kp : is_bytes kp -> JsonParse.clean (j_arr (j_uint <$> kp)).
Proof. induction 1 as [|b kp Hb Hk IH]; [done|]. cbn in *. split; [unfold is_byte in *; mach | exact IH]. Qed.

Lemma length_numbers kp : (length (text (j_arr (j_uint <$> kp))) <= 2 + length kp * 21)%nat.
Proof.
  cbn [text]. rewrite !length_app. change (length (bs "[")) with 1%nat. change (length (bs "]")) with 1%nat.
  assert (length (comma (text <$> (j_uint <$> kp))) <= length kp * 21)%nat; [|lia].
  etrans; [apply (JsonParse.length_comma 20)|by rewrite !length_fmap].
  rewrite !Forall_fmap. apply Forall_true. intros b. apply Text.length_uint_to_str.
Qed.

Lemma key_file_back kp old :
  is_bytes kp -> length kp = key_pair_len -> length old = key_pair_len ->
  exists w, add_val_key_pair kp new_json_wtr = Some w /\ init_from_json (out w) old = Some (true, kp).
Proof.
  intros Hb Hlen Hold. rewrite add_val_key_pair_write. set (v := j_arr (j_uint <$> kp)).
  destruct (write_out v new_json_wtr) as (fi & -> & _). eexists. split; [done|]. cbn [out new_json_wtr app].
  destruct (JsonParse.parse_text_repr new_jtree v) as (j & E & _ & _ & Hr); try done.
  1: apply numbers_clean; done.
  1, 2: pose proof (length_numbers kp) as Hl; unfold key_pair_len in Hlen; fold v in Hl; lia.
  unfold init_from_json. rewrite E. cbn [mbind option_bind]. apply JsonParse.repr_arr in Hr as (its & Hc & Hi).
  destruct Hc as (n & Hn & _ & Ha & _ & Hl). unfold get_first. rewrite Hn. cbn [fmap option_fmap option_map mbind option_bind].
  rewrite Ha. pose proof (JsonParse.items_length _ _ _ _ _ _ Hi).
  rewrite (read_bytes_repr j kp its 2 (JsonParse.len j)) by (auto with lia || unfold JsonParse.len in *; lia).
  cbn [mbind option_bind take app]. rewrite bool_decide_true by done. done.
Qed.

(** A key file written by [add_val( const key_pair& )] gives back the key
    pair when [init_from_json] reads it, with the answer that there were 64
    numbers. *)
Theorem key_file_roundtrip kp old :
  is_bytes kp -> length kp = key_pair_len -> length old = key_pair_len ->
  exists w, add_val_key_pair kp new_json_wtr = Some w /\ init_from_json (out w) old = Some (true, kp).
Proof.
  apply key_file_back.
Qed.

(** ** Witnesses *)

Definition sample_hash : bytes := Z.of_nat <$> seq 7 32.

Lemma sample_hash_ok : is_bytes sample_hash.
Proof. by_decide. Qed.

Lemma hash_text_witness : init_from_text (hash_to_text sample_hash) hash_zero = Some sample_hash.
Proof.
  rewrite (hash_text sample_hash hash_zero sample_hash_ok eq_refl eq_refl).
  vm_compute. reflexivity.
Defined.

Lemma signature_text_witness :
  sig_from_text (sig_to_text (sample_hash ++ sample_hash)) (replicate signature_len 0)
  = Some (sample_hash ++ sample_hash).
Proof.
  rewrite (signature_text (sample_hash ++ sample_hash) (replicate signature_len 0)
             ltac:(by_decide) eq_refl eq_refl).
  vm_compute. reflexivity.
Defined.

Lemma hash_eqb_eq_witness : hash_eqb sample_hash hash_zero = true <-> sample_hash = hash_zero.
Proof. apply (hash_eqb_eq sample_hash hash_zero sample_hash_ok); by_decide. Defined.

Lemma key_file_roundtrip_witness :
  exists w, add_val_key_pair (sample_hash ++ sample_hash) new_json_wtr = Some w
    /\ init_from_json (out w) key_pair_zero = Some (true, sample_hash ++ sample_hash).
Proof. apply (key_file_roundtrip (sample_hash ++ sample_hash) key_pair_zero); by_decide. Defined.
