(* ===== verification/KeyStore.v ===== *)
(** * The directory of keys ([pc/key_store.hpp], [pc/key_store.cpp])

    Key pairs are kept in files of one directory, as arrays of numbers, and the
    publisher's, mapping's and program's keys in memory once they are read.  The
    file system is an interface, [FileSystem]: the calls the code makes, with
    what is documented about them.  Generated key pairs are inputs. *)

From S2P Require Import Prelude Base58 JsonWtr KeyPair.
From S2P Require Text JsonParse NetBuf.

(** ** The file system

    [os_open]: [open] with [O_CREAT], [O_TRUNC] and [O_WRONLY], and the mode of a
    new file.  [os_write]: the result of [write] on the file.  [os_map]: the
    bytes [mem_map::init] maps, if it succeeds. *)
Class FileSystem (fs : Type) := {
  os_open : bytes -> Z -> fs -> option fs;
  os_write : bytes -> bytes -> fs -> Z * fs;
  os_chmod : bytes -> Z -> fs -> fs;
  os_map : bytes -> fs -> option bytes;
  (** What is in a file, and its permissions. *)
  content : bytes -> fs -> option bytes;
  mode : bytes -> fs -> Z;
  open_truncates : forall p md s s', os_open p md s = Some s' ->
    content p s' = Some [] /\ forall q, q <> p -> content q s' = content q s /\ mode q s' = mode q s;
  write_appends : forall p b c n s s', content p s = Some c -> os_write p b s = (n, s') ->
    (0 <= n -> n <= Z.of_nat (length b) /\ (b <> [] -> 0 < n) /\ content p s' = Some (c ++ take (Z.to_nat n) b))
    /\ forall q, q <> p -> content q s' = content q s /\ mode q s' = mode q s;
  chmod_sets : forall p md s, (content p s <> None -> mode p (os_chmod p md s) = md)
    /\ (forall q, content q (os_chmod p md s) = content q s)
    /\ forall q, q <> p -> mode q (os_chmod p md s) = mode q s;
  map_reads : forall p c s, content p s = Some c -> c <> [] -> Z.land (mode p s) 256 <> 0 ->
    os_map p s = Some c }.

Section key_store.
Context {fs : Type} `{FileSystem fs}.

(** ** Writing a key file *)

(** The [do]-[while] over [write]. *)
Fixpoint write_loop (fuel : nat) (file buf : bytes) (s : fs) : option (bool * fs) :=
  match fuel with
  | O => None
  | S fuel' =>
      let '(num, s) := os_write file buf s in
      if num <? 0 then Some (false, s) else
      let buf := drop (Z.to_nat num) buf in
      match buf with
      | [] => Some (true, s)
      | _ => write_loop fuel' file buf s
      end
  end.

(** The text is that of the writer's first block, which holds it all:
    [key_text_block]. *)
Definition write_key_file (key_file kp : bytes) (s : fs) : option (bool * fs) :=
  w ← add_val_key_pair kp new_json_wtr;
  match os_open key_file 384 s with
  | None => Some (false, s)
  | Some s =>
      r ← write_loop (S (length (out w))) key_file (out w) s;
      let '(ok, s) := r in Some (if ok : bool then (true, os_chmod key_file 256 s) else (false, s))
  end.

(** ** The store *)

(** [ckey_]: the handle OpenSSL makes of a private key, or the null pointer. *)
Record key_store := mk_key_store {
  has_pkey_ : bool; has_mkey_ : bool; has_mpub_ : bool; has_gkey_ : bool; has_gpub_ : bool;
  pkey_ : bytes; mkey_ : bytes; gkey_ : bytes; ckey_ : option bytes;
  ppub_ : bytes; mpub_ : bytes; gpub_ : bytes; dir_ : bytes; err_ : option bytes }.

Definition new_key_store : key_store :=
  mk_key_store false false false false false key_pair_zero key_pair_zero key_pair_zero None
    hash_zero hash_zero hash_zero [] None.

Definition set_dir (dirn : bytes) (k : key_store) : key_store :=
  mk_key_store (has_pkey_ k) (has_mkey_ k) (has_mpub_ k) (has_gkey_ k) (has_gpub_ k)
    (pkey_ k) (mkey_ k) (gkey_ k) (ckey_ k) (ppub_ k) (mpub_ k) (gpub_ k) dirn (err_ k).
Definition get_dir (k : key_store) : bytes := dir_ k.
Definition set_err_msg (m : bytes) (k : key_store) : key_store :=
  mk_key_store (has_pkey_ k) (has_mkey_ k) (has_mpub_ k) (has_gkey_ k) (has_gpub_ k)
    (pkey_ k) (mkey_ k) (gkey_ k) (ckey_ k) (ppub_ k) (mpub_ k) (gpub_ k) (dir_ k) (Some m).

Definition set_publish (has : bool) (kp : bytes) (ck : option bytes) (pub : bytes) (k : key_store) : key_store :=
  mk_key_store has (has_mkey_ k) (has_mpub_ k) (has_gkey_ k) (has_gpub_ k)
    kp (mkey_ k) (gkey_ k) ck pub (mpub_ k) (gpub_ k) (dir_ k) (err_ k).
Definition set_mapping (has has_pub : bool) (kp pub : bytes) (k : key_store) : key_store :=
  mk_key_store (has_pkey_ k) has has_pub (has_gkey_ k) (has_gpub_ k)
    (pkey_ k) kp (gkey_ k) (ckey_ k) (ppub_ k) pub (gpub_ k) (dir_ k) (err_ k).
Definition set_program (has has_pub : bool) (kp pub : bytes) (k : key_store) : key_store :=
  mk_key_store (has_pkey_ k) (has_mkey_ k) (has_mpub_ k) has has_pub
    (pkey_ k) (mkey_ k) kp (ckey_ k) (ppub_ k) (mpub_ k) pub (dir_ k) (err_ k).

(** *** The directory *)

(** [error::set_err_msg] with an error code; [strerror] is the system's. *)
Context (strerror : Z -> bytes).
Definition errno_msg (m : bytes) (errno : Z) : bytes :=
  m ++ bs " [" ++ Text.uint_to_str errno ++ bs " " ++ strerror errno ++ bs "]".

(** The members of [struct stat] that are used. *)
Record stat := mk_stat { st_mode : Z; st_uid : Z }.

(** [create]: the results of [stat], [chmod] and [mkdir], an error code or
    success. *)
Definition create (found : bool) (chmod_rc mkdir_rc : option Z) (k : key_store) : bool * key_store :=
  if found then
    match chmod_rc with
    | Some errno => (false, set_err_msg (errno_msg (bs "failed to chmod key_store directory") errno) k)
    | None => (true, k)
    end
  else
    match mkdir_rc with
    | Some errno => (false, set_err_msg (errno_msg (bs "failed to create key_store directory") errno) k)
    | None => (true, k)
    end.

Definition forget (k : key_store) : key_store :=
  mk_key_store false false false false false (pkey_ k) (mkey_ k) (gkey_ k) (ckey_ k)
    (ppub_ k) (mpub_ k) (gpub_ k) (dir_ k) (err_ k).

(** [init]: what [stat] says of the directory, and the ids of the user. *)
Definition init (fst : Z + stat) (uid euid : Z) (k : key_store) : bool * key_store :=
  let k := forget k in
  match fst with
  | inl errno => (false, set_err_msg (errno_msg (bs "cant find key_store directory") errno) k)
  | inr fst =>
      if negb (Z.land (st_mode fst) 61440 =? 16384) then
        (false, set_err_msg (bs "key_store path not a directory") k)
      else if negb (st_uid fst =? uid) || negb (st_uid fst =? euid) then
        (false, set_err_msg (bs "user must own the key_store directory") k)
      else if Z.land (st_mode fst) 256 =? 0 then
        (false, set_err_msg (bs "user must have read access to key_store directory") k)
      else if Z.land (st_mode fst) 128 =? 0 then
        (false, set_err_msg (bs "user must have write access to key_store directory") k)
      else if negb (Z.land (st_mode fst) 63 =? 0) then
        (false, set_err_msg (bs "key store directory must be restricted to user read/write permissions") k)
      else if bool_decide (last (dir_ k) = Some 47) then (true, k)
      else (true, set_dir (dir_ k ++ bs "/") k)
  end.

Definition get_publish_key_pair_file (k : key_store) : bytes := dir_ k ++ bs "publish_key_pair.json".
Definition get_mapping_key_pair_file (k : key_store) : bytes := dir_ k ++ bs "mapping_key_pair.json".
Definition get_mapping_pub_key_file (k : key_store) : bytes := dir_ k ++ bs "mapping_key.json".
Definition get_program_key_pair_file (k : key_store) : bytes := dir_ k ++ bs "program_key_pair.json".
Definition get_program_pub_key_file (k : key_store) : bytes := dir_ k ++ bs "program_key.json".

(** *** Reading keys *)

(** [key_pair::init_from_file] and [hash::init_from_file], over the old bytes. *)
Definition key_pair_from_file (file : bytes) (s : fs) (old : bytes) : option (bool * bytes) :=
  match os_map file s with
  | None => Some (false, old)
  | Some b => init_from_json b old
  end.
Definition hash_from_file (file : bytes) (s : fs) (old : bytes) : option (bool * bytes) :=
  match os_map file s with
  | None => Some (false, old)
  | Some b => pk ← store hash_len (dec_base58 b) old; Some (true, pk)
  end.

(** [key_cache::set]: the handle of the private key. *)
Definition key_cache_set (kp : bytes) : option bytes := Some (take hash_len kp).

(** The functions that give a pointer tell whether it is null; what it points to
    is the member. *)
Definition get_publish_key_pair (s : fs) (k : key_store) : option (bool * key_store) :=
  if has_pkey_ k then Some (true, k) else
  '(ok, kp) ← key_pair_from_file (get_publish_key_pair_file k) s (pkey_ k);
  Some (if ok : bool
        then (true, set_publish true kp (key_cache_set kp) (get_pub_key kp) k)
        else (false, set_publish false kp (ckey_ k) (ppub_ k) k)).
Definition get_publish_key_cache (s : fs) (k : key_store) : option (bool * key_store) :=
  get_publish_key_pair s k.
Definition get_publish_pub_key (s : fs) (k : key_store) : option (bool * key_store) :=
  if has_pkey_ k then Some (true, k) else get_publish_key_pair s k.

Definition get_mapping_key_pair (s : fs) (k : key_store) : option (bool * key_store) :=
  if has_mkey_ k then Some (true, k) else
  '(ok, kp) ← key_pair_from_file (get_mapping_key_pair_file k) s (mkey_ k);
  Some (if ok : bool
        then (true, set_mapping true true kp (get_pub_key kp) k)
        else (false, set_mapping false (has_mpub_ k) kp (mpub_ k) k)).
Definition get_mapping_pub_key (s : fs) (k : key_store) : option (bool * key_store) :=
  if has_mpub_ k then Some (true, k) else
  '(ok, k) ← get_mapping_key_pair s k;
  if ok : bool then Some (true, k) else
  '(ok, pk) ← hash_from_file (get_mapping_pub_key_file k) s (mpub_ k);
  Some (if ok : bool
        then (true, set_mapping (has_mkey_ k) true (mkey_ k) pk k)
        else (false, set_mapping (has_mkey_ k) (has_mpub_ k) (mkey_ k) pk k)).

Definition get_program_key_pair (s : fs) (k : key_store) : option (bool * key_store) :=
  if has_gkey_ k then Some (true, k) else
  '(ok, kp) ← key_pair_from_file (get_program_key_pair_file k) s (gkey_ k);
  Some (if ok : bool
        then (true, set_program true true kp (get_pub_key kp) k)
        else (false, set_program false (has_gpub_ k) kp (gpub_ k) k)).
Definition get_program_pub_key (s : fs) (k : key_store) : option (bool * key_store) :=
  if has_gpub_ k then Some (true, k) else
  '(ok, k) ← get_program_key_pair s k;
  if ok : bool then Some (true, k) else
  '(ok, pk) ← hash_from_file (get_program_pub_key_file k) s (gpub_ k);
  Some (if ok : bool
        then (true, set_program (has_gkey_ k) true (gkey_ k) pk k)
        else (false, set_program (has_gkey_ k) (has_gpub_ k) (gkey_ k) pk k)).

(** *** Creating keys

    [gen] is the key pair [key_pair::gen] makes. *)

Definition create_publish_key_pair (gen : bytes) (k : key_store) (s : fs) : option (bool * key_store * fs) :=
  '(ok, s) ← write_key_file (get_publish_key_pair_file k) gen s;
  Some (if ok : bool
        then (true, set_publish true gen (ckey_ k) (get_pub_key gen) k, s)
        else (false, set_publish (has_pkey_ k) gen (ckey_ k) (ppub_ k) k, s)).
Definition create_mapping_key_pair (gen : bytes) (k : key_store) (s : fs) : option (bool * key_store * fs) :=
  '(ok, s) ← write_key_file (get_mapping_key_pair_file k) gen s;
  Some (if ok : bool
        then (true, set_mapping true true gen (get_pub_key gen) k, s)
        else (false, set_mapping (has_mkey_ k) (has_mpub_ k) gen (mpub_ k) k, s)).
Definition create_program_key_pair (gen : bytes) (k : key_store) (s : fs) : option (bool * key_store * fs) :=
  '(ok, s) ← write_key_file (get_program_key_pair_file k) gen s;
  Some (if ok : bool
        then (true, set_program true true gen (get_pub_key gen) k, s)
        else (false, set_program (has_gkey_ k) (has_gpub_ k) gen (gpub_ k) k, s)).

(** The files of other accounts are named after their public keys. *)
Definition account_file (pk : bytes) (k : key_store) : bytes :=
  dir_ k ++ bs "account_" ++ hash_to_text pk ++ bs ".json".
Definition create_account_key_pair (gen : bytes) (k : key_store) (s : fs) : option (bool * bytes * fs) :=
  '(ok, s) ← write_key_file (account_file (get_pub_key gen) k) gen s;
  Some (ok, gen, s).
Definition get_account_key_pair (pk : bytes) (k : key_store) (s : fs) (res : bytes) : option (bool * bytes) :=
  '(ok, res) ← key_pair_from_file (account_file pk k) s res;
  Some (if ok : bool then hash_eqb (get_pub_key res) pk else false, res).

(** ** What is written is read back *)

Lemma byte_digits b : is_byte b -> (length (Text.uint_to_str b) <= 3)%nat.
Proof.
  intros Hb. assert (Forall (fun n => length (Text.uint_to_str (Z.of_nat n)) <= 3)%nat (seq 0 256)) as Ha by by_decide.
  rewrite Forall_forall in Ha. rewrite <- (Z2Nat.id b) by (unfold is_byte, in_u in Hb; lia).
  apply Ha, elem_of_seq. unfold is_byte, in_u in Hb. change (2 ^ 8) with 256 in Hb. lia.
Qed.

(** The text of a key pair: at least the brackets, and so short that it is in
    one block even though every number asks for 32 free bytes. *)
Lemma key_text_block kp :
  is_bytes kp -> length kp = key_pair_len ->
  (2 <= length (text (j_arr (j_uint <$> kp))) <= 258)%nat
  /\ Z.of_nat (length (text (j_arr (j_uint <$> kp)))) + 32 <= NetBuf.buf_max.
Proof.
  intros Hb Hl. cbn [text]. rewrite !length_app. change (length (bs "[")) with 1%nat. change (length (bs "]")) with 1%nat.
  assert (length (comma (text <$> (j_uint <$> kp))) <= length kp * 4)%nat as Hc.
  { etrans; [apply (JsonParse.length_comma 3)|by rewrite !length_fmap].
    rewrite !Forall_fmap. eapply Forall_impl; [exact Hb|]. intros b. apply byte_digits. }
  unfold key_pair_len in Hl. change NetBuf.buf_max with 1270. lia.
Qed.

Definition same_file (p : bytes) (s s' : fs) : Prop := content p s' = content p s /\ mode p s' = mode p s.

#[local] Instance same_file_trans p : Transitive (same_file p).
Proof. intros a b c [H1 H2] [H3 H4]. split; congruence. Qed.

(** The loop ends; when it succeeds the whole buffer is in the file. *)
Lemma write_loop_ends fuel file : forall buf c s, content file s = Some c -> buf <> [] -> (length buf < fuel)%nat ->
  exists ok s', write_loop fuel file buf s = Some (ok, s')
    /\ (ok = true -> content file s' = Some (c ++ buf)) /\ forall q, q <> file -> same_file q s s'.
Proof.
  induction fuel as [|fuel IH]; intros buf c s Hc Hne Hf; [lia|]. cbn [write_loop].
  destruct (os_write file buf s) as [n s1] eqn:E. destruct (write_appends _ _ _ _ _ _ Hc E) as [Hn Ho].
  destruct (Z.ltb_spec n 0); [by exists false, s1|].
  destruct (Hn ltac:(done)) as (Hle & Hp & Hc1). specialize (Hp Hne).
  destruct (drop (Z.to_nat n) buf) as [|b r] eqn:Ed.
  - exists true, s1. split_and!; [done | intros _ | done]. rewrite Hc1, take_ge; [done|].
    apply (f_equal length) in Ed. rewrite length_drop in Ed. cbn in Ed. lia.
  - destruct (IH (b :: r) _ _ Hc1) as (ok & s2 & Hw & Hok & Hs); [done| |].
    + rewrite <- Ed, length_drop. lia.
    + exists ok, s2. split_and!; [done| |].
      * intros Ht. rewrite (Hok Ht), <- app_assoc, <- Ed, take_drop. done.
      * intros q Hq. etrans; [apply (Ho q Hq)|apply (Hs q Hq)].
Qed.

(** The text of a key pair in its file. *)
Definition key_text (kp : bytes) : bytes := text (j_arr (j_uint <$> kp)).

Lemma write_key_file_ends file kp s :
  is_bytes kp -> length kp = key_pair_len ->
  exists ok s', write_key_file file kp s = Some (ok, s')
    /\ (ok = true -> content file s' = Some (key_text kp) /\ mode file s' = 256)
    /\ forall q, q <> file -> same_file q s s'.
Proof.
  intros Hb Hl. unfold write_key_file. rewrite add_val_key_pair_write.
  destruct (write_out (j_arr (j_uint <$> kp)) new_json_wtr) as (fi & -> & _). cbn [mbind option_bind out new_json_wtr app].
  fold (key_text kp). destruct (key_text_block kp Hb Hl) as [Hk _]. fold (key_text kp) in Hk.
  destruct (os_open file 384 s) as [s1|] eqn:Eo; [|by exists false, s].
  destruct (open_truncates _ _ _ _ Eo) as [Hc Ho].
  destruct (write_loop_ends (S (length (key_text kp))) file (key_text kp) [] s1) as (ok & s2 & -> & Hok & Hs);
    [done | intros E; rewrite E in Hk; cbn in Hk; lia | lia |]. cbn [mbind option_bind].
  assert (forall q, q <> file -> same_file q s s2) as Hq
    by (intros q Hq; etrans; [apply (Ho q Hq)|apply (Hs q Hq)]).
  destruct ok; [|by exists false, s2]. destruct (chmod_sets file 256 s2) as (Hm & Hcc & Hmm).
  exists true, (os_chmod file 256 s2). split_and!; [done| |].
  - intros _. rewrite Hcc, (Hok eq_refl). split; [done|]. apply Hm. by rewrite (Hok eq_refl).
  - intros q Hn. etrans; [apply Hq, Hn|]. split; [apply Hcc | apply Hmm, Hn].
Qed.

Lemma key_text_reads kp old :
  is_bytes kp -> length kp = key_pair_len -> length old = key_pair_len ->
  init_from_json (key_text kp) old = Some (true, kp).
Proof.
  intros Hb Hl Ho. destruct (key_file_back kp old Hb Hl Ho) as (w & Hw & <-). f_equal.
  rewrite add_val_key_pair_write in Hw.
  destruct (write_out (j_arr (j_uint <$> kp)) new_json_wtr) as (fi & E & _). rewrite E in Hw. by injection Hw as <-.
Qed.

Lemma written_reads file kp s old :
  is_bytes kp -> length kp = key_pair_len -> length old = key_pair_len ->
  content file s = Some (key_text kp) -> mode file s = 256 ->
  key_pair_from_file file s old = Some (true, kp).
Proof.
  intros Hb Hl Ho Hc Hm. unfold key_pair_from_file. rewrite (map_reads _ _ _ Hc).
  - by apply key_text_reads.
  - destruct (key_text_block kp Hb Hl) as [Hk _]. fold (key_text kp) in Hk. intros E. rewrite E in Hk. cbn in Hk. lia.
  - by rewrite Hm.
Qed.

Lemma get_pub_key_ok kp : is_bytes kp -> length kp = key_pair_len -> is_bytes (get_pub_key kp) /\ length (get_pub_key kp) = hash_len.
Proof.
  intros Hb Hl. unfold get_pub_key, init_from_buf. split; [by apply Forall_take, Forall_drop|].
  rewrite length_take, length_drop, Hl. done.
Qed.

(** A generated account key: either it could not be stored, or the store gives
    it back for its public key, whatever the caller's object held, from a file
    only the user can read; no other file has changed. *)
Theorem created_account_found gen k s :
  is_bytes gen -> length gen = key_pair_len ->
  exists ok s', create_account_key_pair gen k s = Some (ok, gen, s')
    /\ (forall q, q <> account_file (get_pub_key gen) k -> same_file q s s')
    /\ (ok = true -> mode (account_file (get_pub_key gen) k) s' = 256
        /\ forall k' res, dir_ k' = dir_ k -> length res = key_pair_len ->
           get_account_key_pair (get_pub_key gen) k' s' res = Some (true, gen)).
Proof.
  intros Hb Hl. unfold create_account_key_pair.
  destruct (write_key_file_ends (account_file (get_pub_key gen) k) gen s Hb Hl) as (ok & s' & -> & Hok & Hs).
  exists ok, s'. split_and!; [done..|]. intros Ht. destruct (Hok Ht) as [Hc Hm]. split; [done|].
  intros k' res Hd Hr. unfold get_account_key_pair, account_file. rewrite Hd. fold (account_file (get_pub_key gen) k).
  rewrite (written_reads _ gen) by done. cbn [mbind option_bind]. do 2 f_equal.
  destruct (get_pub_key_ok gen Hb Hl). by apply hash_eqb_iff.
Qed.


(** ** The keys in memory *)

Lemma init_from_json_length b old ok kp :
  init_from_json b old = Some (ok, kp) -> length kp = length old.
Proof.
  unfold init_from_json. destruct (JTree.parse JTree.new_jtree b) as [jt|]; [|done]. cbn [mbind option_bind].
  destruct (JTree.get_first jt 1) as [it|]; [|done]. cbn [mbind option_bind].
  assert (forall fuel it n pk m pk', read_bytes fuel jt it n pk = Some (m, pk') -> length pk' = length pk) as Hr.
  { induction fuel as [|fuel IH]; intros it' n pk m pk'; cbn [read_bytes].
    - by destruct (it' =? 0); intros [=]; subst.
    - destruct (it' =? 0); [by intros [=]; subst|].
      destruct (JTree.get_uint jt it') as [v|]; [|done]. cbn [mbind option_bind].
      destruct (bool_decide _); [|done]. destruct (JTree.get_next jt it') as [it2|]; [|done]. cbn [mbind option_bind].
      intros E%IH. by rewrite length_insert in E. }
  destruct (read_bytes _ jt it 0 old) as [[n pk]|] eqn:E; [|done]. cbn [mbind option_bind].
  intros [=]; subst. by eapply Hr.
Qed.

Lemma key_pair_from_file_length file s old ok kp :
  key_pair_from_file file s old = Some (ok, kp) -> length kp = length old.
Proof.
  unfold key_pair_from_file. destruct (os_map file s) as [b|]; [apply init_from_json_length|]. by intros [=]; subst.
Qed.

Lemma hash_from_file_length file s old ok pk :
  hash_from_file file s old = Some (ok, pk) -> length old = hash_len -> length pk = hash_len.
Proof.
  unfold hash_from_file, store. destruct (os_map file s) as [b|]; [|by intros [=]; subst].
  case_bool_decide; [|done]. cbn [mbind option_bind]. intros [=] Ho; subst. rewrite length_app, length_drop. lia.
Qed.

(** What the flags say: a key pair in memory comes with its public key, and the
    publisher's with the handle that signs. *)
Record coherent (k : key_store) : Prop := {
  co_pkey : length (pkey_ k) = key_pair_len;
  co_mkey : length (mkey_ k) = key_pair_len;
  co_gkey : length (gkey_ k) = key_pair_len;
  co_mpub : length (mpub_ k) = hash_len;
  co_gpub : length (gpub_ k) = hash_len;
  co_publish : has_pkey_ k = true -> ppub_ k = get_pub_key (pkey_ k) /\ ckey_ k = key_cache_set (pkey_ k);
  co_mapping : has_mkey_ k = true -> has_mpub_ k = true /\ mpub_ k = get_pub_key (mkey_ k);
  co_program : has_gkey_ k = true -> has_gpub_ k = true /\ gpub_ k = get_pub_key (gkey_ k) }.

Lemma length_pub kp : length kp = key_pair_len -> length (get_pub_key kp) = hash_len.
Proof. intros Hl. unfold get_pub_key, init_from_buf. rewrite length_take, length_drop, Hl. done. Qed.

(** The functions that read keys. *)
Inductive key_read : Type :=
  | r_publish_key_pair | r_publish_key_cache | r_publish_pub_key
  | r_mapping_key_pair | r_mapping_pub_key | r_program_key_pair | r_program_pub_key.
Definition read (r : key_read) : fs -> key_store -> option (bool * key_store) :=
  match r with
  | r_publish_key_pair => get_publish_key_pair
  | r_publish_key_cache => get_publish_key_cache
  | r_publish_pub_key => get_publish_pub_key
  | r_mapping_key_pair => get_mapping_key_pair
  | r_mapping_pub_key => get_mapping_pub_key
  | r_program_key_pair => get_program_key_pair
  | r_program_pub_key => get_program_pub_key
  end.
(** Which flag a reader's pointer stands for. *)
Definition loaded (r : key_read) (k : key_store) : bool :=
  match r with
  | r_publish_key_pair | r_publish_key_cache | r_publish_pub_key => has_pkey_ k
  | r_mapping_key_pair => has_mkey_ k
  | r_mapping_pub_key => has_mpub_ k
  | r_program_key_pair => has_gkey_ k
  | r_program_pub_key => has_gpub_ k
  end.

#[local] Arguments get_pub_key : simpl never.
#[local] Arguments hash_len : simpl never.
#[local] Arguments key_pair_len : simpl never.
Ltac coherence := split; cbn; auto using length_pub; try congruence; try done.

Lemma publish_key_pair_coherent s k ok k' :
  coherent k -> get_publish_key_pair s k = Some (ok, k') -> coherent k' /\ ok = has_pkey_ k'.
Proof.
  intros Hk. unfold get_publish_key_pair. destruct (has_pkey_ k) eqn:Eh; [by intros [=]; subst|].
  destruct (key_pair_from_file _ s _) as [[b kp]|] eqn:E; [|done]. cbn [mbind option_bind].
  apply key_pair_from_file_length in E. rewrite (co_pkey k Hk) in E.
  destruct Hk. destruct b; intros [=]; subst; (split; [coherence | done]).
Qed.

Lemma mapping_key_pair_coherent s k ok k' :
  coherent k -> get_mapping_key_pair s k = Some (ok, k') -> coherent k' /\ ok = has_mkey_ k'.
Proof.
  intros Hk. unfold get_mapping_key_pair. destruct (has_mkey_ k) eqn:Eh; [by intros [=]; subst|].
  destruct (key_pair_from_file _ s _) as [[b kp]|] eqn:E; [|done]. cbn [mbind option_bind].
  apply key_pair_from_file_length in E. rewrite (co_mkey k Hk) in E.
  destruct Hk. destruct b; intros [=]; subst; (split; [coherence | done]).
Qed.

Lemma program_key_pair_coherent s k ok k' :
  coherent k -> get_program_key_pair s k = Some (ok, k') -> coherent k' /\ ok = has_gkey_ k'.
Proof.
  intros Hk. unfold get_program_key_pair. destruct (has_gkey_ k) eqn:Eh; [by intros [=]; subst|].
  destruct (key_pair_from_file _ s _) as [[b kp]|] eqn:E; [|done]. cbn [mbind option_bind].
  apply key_pair_from_file_length in E. rewrite (co_gkey k Hk) in E.
  destruct Hk. destruct b; intros [=]; subst; (split; [coherence | done]).
Qed.

Lemma mapping_pub_key_coherent s k ok k' :
  coherent k -> get_mapping_pub_key s k = Some (ok, k') -> coherent k' /\ ok = has_mpub_ k'.
Proof.
  intros Hk. unfold get_mapping_pub_key. destruct (has_mpub_ k) eqn:Eh; [by intros [=]; subst|].
  destruct (get_mapping_key_pair s k) as [[b k1]|] eqn:E; [|done]. cbn [mbind option_bind].
  assert (b = false -> has_mpub_ k1 = false) as Hn.
  { intros ->. revert E. unfold get_mapping_key_pair. destruct (has_mkey_ k); [done|].
    destruct (key_pair_from_file _ s _) as [[[] kp]|]; cbn; intros [=]; subst; done. }
  destruct (mapping_key_pair_coherent _ _ _ _ Hk E) as [H1 Hb].
  destruct b; [intros [=]; subst; split; [done|]; by destruct (co_mapping _ H1)|].
  destruct (hash_from_file _ s _) as [[b pk]|] eqn:Ef; [|done]. cbn [mbind option_bind].
  apply hash_from_file_length in Ef; [|apply H1]. specialize (Hn eq_refl).
  destruct H1. destruct b; intros [=]; subst; (split; [coherence | done]).
Qed.

Lemma program_pub_key_coherent s k ok k' :
  coherent k -> get_program_pub_key s k = Some (ok, k') -> coherent k' /\ ok = has_gpub_ k'.
Proof.
  intros Hk. unfold get_program_pub_key. destruct (has_gpub_ k) eqn:Eh; [by intros [=]; subst|].
  destruct (get_program_key_pair s k) as [[b k1]|] eqn:E; [|done]. cbn [mbind option_bind].
  assert (b = false -> has_gpub_ k1 = false) as Hn.
  { intros ->. revert E. unfold get_program_key_pair. destruct (has_gkey_ k); [done|].
    destruct (key_pair_from_file _ s _) as [[[] kp]|]; cbn; intros [=]; subst; done. }
  destruct (program_key_pair_coherent _ _ _ _ Hk E) as [H1 Hb].
  destruct b; [intros [=]; subst; split; [done|]; by destruct (co_program _ H1)|].
  destruct (hash_from_file _ s _) as [[b pk]|] eqn:Ef; [|done]. cbn [mbind option_bind].
  apply hash_from_file_length in Ef; [|apply H1]. specialize (Hn eq_refl).
  destruct H1. destruct b; intros [=]; subst; (split; [coherence | done]).
Qed.

(** Reading a key keeps the keys in memory coherent: a key pair comes with its
    public key, the publisher's with the handle that signs; the pointer given is
    null exactly when the key is not in memory afterwards. *)
Theorem reads_coherent r s k ok k' :
  coherent k -> read r s k = Some (ok, k') -> coherent k' /\ ok = loaded r k'.
Proof.
  intros Hk. destruct r; cbn [read loaded]; unfold get_publish_key_cache.
  - by apply publish_key_pair_coherent.
  - by apply publish_key_pair_coherent.
  - unfold get_publish_pub_key. destruct (has_pkey_ k) eqn:E; [by intros [=]; subst|]. by apply publish_key_pair_coherent.
  - by apply mapping_key_pair_coherent.
  - by apply mapping_pub_key_coherent.
  - by apply program_key_pair_coherent.
  - by apply program_pub_key_coherent.
Qed.

(** A key pair from an account file is the one asked for. *)
Theorem account_checked pk k s res res' :
  get_account_key_pair pk k s res = Some (true, res') -> is_bytes res' -> is_bytes pk ->
  length pk = hash_len -> length res = key_pair_len -> get_pub_key res' = pk.
Proof.
  unfold get_account_key_pair. destruct (key_pair_from_file _ s res) as [[[] kp]|] eqn:E; [|done..].
  cbn [mbind option_bind]. intros [=]; subst. intros Hb Hp Hl Hr. apply key_pair_from_file_length in E.
  apply hash_eqb_iff; try done; apply get_pub_key_ok; congruence.
Qed.

(** The mapping's and the program's key pairs are in memory and on file once
    they are created; a store that forgot them reads them back. *)
Theorem created_mapping_found gen k s :
  is_bytes gen -> length gen = key_pair_len ->
  exists ok k' s', create_mapping_key_pair gen k s = Some (ok, k', s')
    /\ (ok = true -> has_mkey_ k' = true /\ mkey_ k' = gen /\ mpub_ k' = get_pub_key gen
        /\ forall k2, dir_ k2 = dir_ k -> has_mkey_ k2 = false -> length (mkey_ k2) = key_pair_len ->
           get_mapping_key_pair s' k2 = Some (true, set_mapping true true gen (get_pub_key gen) k2)).
Proof.
  intros Hb Hl. unfold create_mapping_key_pair.
  destruct (write_key_file_ends (get_mapping_key_pair_file k) gen s Hb Hl) as (ok & s' & -> & Hok & _).
  cbn [mbind option_bind]. destruct ok; do 3 eexists; (split; [done|]); [|done].
  intros _. split_and!; [done..|]. intros k2 Hd Hn Hk2. destruct (Hok eq_refl) as [Hc Hm].
  unfold get_mapping_key_pair, get_mapping_key_pair_file. rewrite Hn, Hd. fold (get_mapping_key_pair_file k).
  by rewrite (written_reads _ gen) by done.
Qed.

End key_store.
Arguments same_file {fs _}.

(** ** A file system, and witnesses

    Files are texts with permissions; an existing file without write permission
    cannot be opened, and one [write] takes at most 100 bytes. *)

Abbreviation disk := (gmap bytes (bytes * Z)).
Definition disk_content (p : bytes) (d : disk) : option bytes := fst <$> d !! p.
Definition disk_mode (p : bytes) (d : disk) : Z := default 0 (snd <$> d !! p).
Definition disk_open (p : bytes) (md : Z) (d : disk) : option disk :=
  match d !! p with
  | Some (_, m) => if Z.land m 128 =? 0 then None else Some (<[p := ([], m)]> d)
  | None => Some (<[p := ([], md)]> d)
  end.
Definition disk_write (p : bytes) (b : bytes) (d : disk) : Z * disk :=
  match d !! p with
  | Some (c, m) => (Z.of_nat (length (take 100 b)), <[p := (c ++ take 100 b, m)]> d)
  | None => (-1, d)
  end.
Definition disk_chmod (p : bytes) (md : Z) (d : disk) : disk :=
  match d !! p with Some (c, _) => <[p := (c, md)]> d | None => d end.
Definition disk_map (p : bytes) (d : disk) : option bytes :=
  match d !! p with
  | Some (c, m) => if (Z.land m 256 =? 0) || bool_decide (c = []) then None else Some c
  | None => None
  end.

Lemma disk_others (p q : bytes) (x : bytes * Z) (d : disk) :
  q <> p -> disk_content q (<[p := x]> d) = disk_content q d /\ disk_mode q (<[p := x]> d) = disk_mode q d.
Proof. intros Hq. unfold disk_content, disk_mode. by rewrite lookup_insert_ne. Qed.

#[local] Instance disk_system : FileSystem disk.
Proof.
  refine {| os_open := disk_open; os_write := disk_write; os_chmod := disk_chmod; os_map := disk_map;
            content := disk_content; mode := disk_mode |}.
  - intros p md s s'. unfold disk_open. destruct (s !! p) as [[c m]|].
    + destruct (_ =? 0); [done|]. intros [=]; subst. split; [|by intros; apply disk_others].
      unfold disk_content. by rewrite lookup_insert_eq.
    + intros [=]; subst. split; [|by intros; apply disk_others]. unfold disk_content. by rewrite lookup_insert_eq.
  - intros p b c n s s' Hc. unfold disk_write. unfold disk_content in Hc. destruct (s !! p) as [[c0 m]|]; [|done].
    injection Hc as ->. intros [=]; subst. split; [|by intros; apply disk_others]. intros _.
    rewrite Nat2Z.id. split_and!.
    + rewrite length_take. lia.
    + destruct b; [done|]. cbn. lia.
    + unfold disk_content. rewrite lookup_insert_eq. cbn. do 2 f_equal. rewrite length_take.
      destruct (decide (100 <= length b)%nat); [by rewrite Nat.min_l by lia|].
      rewrite !take_ge by lia. done.
  - intros p md s. unfold disk_content, disk_mode, disk_chmod. destruct (s !! p) as [[c m]|] eqn:E; [|done].
    split_and!; [by rewrite lookup_insert_eq| |by intros q Hq; rewrite lookup_insert_ne].
    intros q. destruct (decide (q = p)) as [->|Hq]; [by rewrite lookup_insert_eq, E|by rewrite lookup_insert_ne].
  - intros p c s. unfold disk_content, disk_mode, disk_map. destruct (s !! p) as [[c0 m]|]; cbn; [|done].
    intros [=] Hne Hm; subst. rewrite bool_decide_false by done. by destruct (Z.eqb_spec (Z.land m 256) 0).
Defined.

Definition sample_kp : bytes := Z.of_nat <$> seq 100 64.
Definition sample_store : key_store := set_dir (bs "/keys/") new_key_store.
Definition no_disk : disk := ∅.

Lemma sample_kp_ok : is_bytes sample_kp.
Proof. by_decide. Qed.

Lemma created_account_found_witness :
  exists ok s', create_account_key_pair sample_kp sample_store no_disk = Some (ok, sample_kp, s')
    /\ (forall q, q <> account_file (get_pub_key sample_kp) sample_store -> same_file q no_disk s')
    /\ (ok = true -> mode (account_file (get_pub_key sample_kp) sample_store) s' = 256
        /\ forall k' res, dir_ k' = dir_ sample_store -> length res = key_pair_len ->
           get_account_key_pair (get_pub_key sample_kp) k' s' res = Some (true, sample_kp)).
Proof. apply (created_account_found sample_kp sample_store no_disk sample_kp_ok eq_refl). Defined.

(** It can be stored. *)
Example account_created :
  (fun r => r.1.1) <$> create_account_key_pair sample_kp sample_store no_disk = Some true.
Proof. vm_compute. reflexivity. Qed.

Definition publish_disk : disk := {[ bs "/keys/publish_key_pair.json" := (key_text sample_kp, 256) ]}.
Definition publish_store : key_store :=
  set_publish true sample_kp (key_cache_set sample_kp) (get_pub_key sample_kp) sample_store.

Lemma new_coherent : coherent sample_store.
Proof. by split. Qed.

Lemma reads_coherent_witness : coherent publish_store /\ true = loaded r_publish_key_pair publish_store.
Proof.
  apply (reads_coherent r_publish_key_pair publish_disk sample_store true publish_store new_coherent).
  vm_compute. reflexivity.
Defined.

Definition account_disk : disk := {[ account_file (get_pub_key sample_kp) sample_store := (key_text sample_kp, 256) ]}.

Lemma account_checked_witness : get_pub_key sample_kp = get_pub_key sample_kp.
Proof.
  apply (account_checked (get_pub_key sample_kp) sample_store account_disk key_pair_zero sample_kp);
    [vm_compute; reflexivity | apply sample_kp_ok | by_decide | reflexivity | reflexivity].
Defined.

Lemma created_mapping_found_witness :
  exists ok k' s', create_mapping_key_pair sample_kp sample_store no_disk = Some (ok, k', s')
    /\ (ok = true -> has_mkey_ k' = true /\ mkey_ k' = sample_kp /\ mpub_ k' = get_pub_key sample_kp
        /\ forall k2, dir_ k2 = dir_ sample_store -> has_mkey_ k2 = false -> length (mkey_ k2) = key_pair_len ->
           get_mapping_key_pair s' k2 = Some (true, set_mapping true true sample_kp (get_pub_key sample_kp) k2)).
Proof. apply (created_mapping_found sample_kp sample_store no_disk sample_kp_ok eq_refl). Defined.

(** A store that creates its publishing key has no handle to sign with: the
    key is in memory, so nothing sets the handle later. *)
Definition cache_after_create : option (bool * option bytes) :=
  '(_, k, s) ← create_publish_key_pair sample_kp sample_store no_disk;
  '(ok, k) ← get_publish_key_cache s k;
  Some (ok, ckey_ k).
Example created_key_cannot_sign : cache_after_create = Some (true, None).
Proof. vm_compute. reflexivity. Qed.

(** A second creation fails, since the file is there and read-only; the store
    then gives out the new key pair, which no file has, with the old public key. *)
Definition second_creation : option (bool * bool * bytes * bytes) :=
  '(_, k, s) ← create_mapping_key_pair sample_kp sample_store no_disk;
  '(ok, k, s) ← create_mapping_key_pair key_pair_zero k s;
  '(found, k) ← get_mapping_key_pair s k;
  Some (ok, found, mkey_ k, mpub_ k).
Example failed_creation_replaces :
  second_creation = Some (false, true, key_pair_zero, get_pub_key sample_kp).
Proof. vm_compute. reflexivity. Qed.
