(* ===== verification/Capture.v ===== *)
(** * The capture of accounts ([pc/capture.hpp], [pc/capture.cpp])

    The manager's thread copies accounts into buffers, a thread of the class
    writes the buffers to a gzip file and gives them back.  Two threads share a
    mutex, three vectors of buffers and two atomic flags; a step here is what one
    thread does between two accesses to what is shared.  zlib is an interface,
    [Gz]. *)

From S2P Require Import Prelude.
From S2P Require KeyStore.

(** ** zlib

    [gzwrite b z]: the result of writing [b].  [gzread n z]: the result of reading
    up to [n] bytes, and the bytes stored.  [gz_open z]: the file opened for
    reading once the writer has closed it.  A writer is [writes] when its disk
    does not fail; a reader is [intact] when its file is. *)
Class Gz (wz rz : Type) := {
  gzwrite : bytes -> wz -> Z * wz;
  gzread : Z -> rz -> Z * bytes * rz;
  gz_open : wz -> rz;
  written : wz -> bytes;
  remaining : rz -> bytes;
  writes : wz -> Prop;
  intact : rz -> Prop;
  gzwrite_ok : forall b z n z', writes z -> b <> [] -> gzwrite b z = (n, z') ->
    0 < n <= Z.of_nat (length b) /\ written z' = written z ++ take (Z.to_nat n) b /\ writes z';
  gzread_some : forall len z n d z', gzread len z = (n, d, z') -> 0 < n ->
    n <= len /\ n = Z.of_nat (length d);
  gzread_ok : forall len z n d z', intact z -> 0 < len -> gzread len z = (n, d, z') ->
    intact z' /\ if 0 <? n then remaining z = d ++ remaining z' else remaining z = [] /\ remaining z' = [];
  gz_open_ok : forall z, writes z -> intact (gz_open z) /\ remaining (gz_open z) = written z }.

(** ** What is captured *)

(** An account, when it was captured, and its key. *)
Record update := mk_update { ts_ : Z; key_ : bytes; acc_ : bytes }.

(** [pc_acc_t::size_]. *)
Definition acc_size (a : bytes) : Z := of_le (slice 12 4 a).
Definition sizeof_acc : Z := 16.
Definition sizeof_key : Z := 32.
Definition sizeof_time : Z := 8.

(** One record of the file. *)
Definition entry (u : update) : bytes :=
  le_bytes 8 (ts_ u) ++ take 32 (key_ u) ++ take (Z.to_nat (acc_size (acc_ u))) (acc_ u).

(** ** The state *)

Definition max_size : Z := 32 * 1024.
Definition sizeof_cap_buf : Z := 8.
(** What a block holds after its header. *)
Definition buf_room : Z := max_size - sizeof_cap_buf.

(** A block of memory is named by its address. *)
Abbreviation loc := positive (only parsing).

Section capture.
Context {wz rz : Type} `{Gz wz rz}.

(** [curr_] and [reuse_] belong to the manager's thread, [zfd_] to the writing
    one; the mutex guards [pend_] and [done_].  [heap]: of every block allocated,
    the bytes of [buf_] below [size_]. *)
Record capture := mk_capture {
  curr_ : option loc; reuse_ : list loc; pend_ : list loc; done_ : list loc;
  is_run_ : bool; is_wtr_ : bool; zfd_ : wz; heap : gmap loc bytes }.

Definition new_capture (z : wz) : capture := mk_capture None [] [] [] true false z ∅.

Definition set_main (cu : option loc) (re : list loc) (c : capture) : capture :=
  mk_capture cu re (pend_ c) (done_ c) (is_run_ c) (is_wtr_ c) (zfd_ c) (heap c).
Definition set_shared (pe dn : list loc) (wtr : bool) (c : capture) : capture :=
  mk_capture (curr_ c) (reuse_ c) pe dn (is_run_ c) wtr (zfd_ c) (heap c).
Definition set_heap (h : gmap loc bytes) (c : capture) : capture :=
  mk_capture (curr_ c) (reuse_ c) (pend_ c) (done_ c) (is_run_ c) (is_wtr_ c) (zfd_ c) h.
Definition set_zfd (z : wz) (c : capture) : capture :=
  mk_capture (curr_ c) (reuse_ c) (pend_ c) (done_ c) (is_run_ c) (is_wtr_ c) z (heap c).
Definition set_is_run (b : bool) (c : capture) : capture :=
  mk_capture (curr_ c) (reuse_ c) (pend_ c) (done_ c) b (is_wtr_ c) (zfd_ c) (heap c).

(** ** The manager's thread *)

(** [reuse_.back()] if there is one, else a new block. *)
Definition alloc (c : capture) : capture :=
  match last (reuse_ c) with
  | Some l => set_heap (<[l := []]> (heap c)) (set_main (Some l) (removelast (reuse_ c)) c)
  | None =>
      let l := fresh (dom (heap c)) in
      set_heap (<[l := []]> (heap c)) (set_main (Some l) (reuse_ c) c)
  end.

(** The copy into the current buffer: [None] is a read past the account's
    memory or a write past the block's. *)
Definition put (u : update) (c : capture) : option capture :=
  l ← curr_ c;
  b ← heap c !! l;
  if Z.of_nat (length (acc_ u)) <? acc_size (acc_ u) then None else
  if buf_room <? Z.of_nat (length (b ++ entry u)) then None else
  Some (set_heap (<[l := b ++ entry u]> (heap c)) c).

(** [flush] under the lock; the vector [done] it swaps out. *)
Definition flush_lock (l : loc) (c : capture) : capture * list loc :=
  (set_shared (pend_ c ++ [l]) [] true c, done_ c).
(** [flush] after the lock. *)
Definition flush_tail (dn : list loc) (c : capture) : capture :=
  set_main None (reuse_ c ++ dn) c.

Definition flush (c : capture) : capture :=
  match curr_ c with
  | None => c
  | Some l => let '(c, dn) := flush_lock l c in flush_tail dn c
  end.

Definition tlen (u : update) : Z := acc_size (acc_ u) + sizeof_time + sizeof_key.

(** [write] up to the end of the lock in [flush], if it flushes. *)
Definition write_begin (u : update) (c : capture) : option (capture * option (list loc)) :=
  let c := match curr_ c with None => alloc c | Some _ => c end in
  l ← curr_ c;
  b ← heap c !! l;
  let left := u64 (max_size - Z.of_nat (length b) - sizeof_cap_buf) in
  if left <? tlen u then let '(c, dn) := flush_lock l c in Some (c, Some dn)
  else c ← put u c; Some (c, None).
Definition write_end (dn : list loc) (u : update) (c : capture) : option capture :=
  put u (alloc (flush_tail dn c)).

Definition write (u : update) (c : capture) : option capture :=
  '(c, dn) ← write_begin u c;
  match dn with None => Some c | Some dn => write_end dn u c end.

(** ** The writing thread *)

(** Where [run] is: before the test of [is_wtr_]; before the lock; in the loop
    over [pend], with the buffers to write and what is left of the first, or none
    of them, before the second lock; before the test of [is_run_]; returned. *)
Inductive run_pos :=
  | w_test
  | w_lock
  | w_write (pend todo : list loc) (off : nat)
  | w_stop
  | w_exit.

#[global] Instance run_pos_eq_dec : EqDecision run_pos.
Proof. solve_decision. Defined.

Definition run_step (w : run_pos) (c : capture) : option (run_pos * capture) :=
  match w with
  | w_test => Some (if is_wtr_ c then w_lock else w_stop, c)
  | w_lock => Some (w_write (pend_ c) (pend_ c) 0, set_shared [] (done_ c) false c)
  | w_write pend [] _ => Some (w_test, set_shared (pend_ c) (done_ c ++ pend) (is_wtr_ c) c)
  | w_write pend (l :: todo) off =>
      b ← heap c !! l;
      match drop off b with
      | [] => Some (w_write pend todo 0, c)
      | buf =>
          let '(num, z) := gzwrite buf (zfd_ c) in
          Some (if 0 <? num then w_write pend (l :: todo) (off + Z.to_nat num) else w_write pend todo 0,
                set_zfd z c)
      end
  | w_stop => Some (if is_run_ c then w_test else w_exit, c)
  | w_exit => None
  end.

(** [run] with nothing else running, as in the [join] of the destructor. *)
Fixpoint run (fuel : nat) (w : run_pos) (c : capture) : option capture :=
  match fuel with
  | O => None
  | S fuel' =>
      match run_step w c with
      | None => match w with w_exit => Some c | _ => None end
      | Some (w, c) => run fuel' w c
      end
  end.

(** ** Opening the file *)

(** The suffix [init] adds, here and in [replay]. *)
Definition gz_name (file : bytes) : bytes :=
  if (3 <=? length file)%nat && negb (bool_decide (drop (length file - 3) file = bs ".gz"))
  then file ++ bs ".gz" else file.

(** What the system answers: whether [stat] finds the file, the error codes of
    [open] and [gzdopen] if they fail, and the result of [gzbuffer]. *)
Record open_results := mk_open_results {
  stat_found : bool; open_err : option Z; gzdopen_err : option Z; gzbuffer_rc : Z }.

(** [init]: the error message, or the writing thread is started. *)
Definition init (strerror : Z -> bytes) (file_ : bytes) (r : open_results) : bool * option bytes :=
  let file := gz_name file_ in
  if stat_found r then (false, Some (bs "capture file already exists file=" ++ file)) else
  match open_err r with
  | Some errno => (false, Some (KeyStore.errno_msg strerror (bs "failed to create capture file=" ++ file) errno))
  | None =>
      match gzdopen_err r with
      | Some errno => (false, Some (KeyStore.errno_msg strerror (bs "failed to create capture file=" ++ file) errno))
      | None =>
          if negb (gzbuffer_rc r =? 0) then
            (false, Some (bs "failed to set compression buffer file=" ++ file))
          else (true, None)
      end
  end.

(** ** Both threads *)

(** Where the manager's thread is: between calls; after the lock of a [flush],
    with what it swapped out and what [write] has still to copy; in the [join]
    of the destructor. *)
Inductive main_pos :=
  | m_idle
  | m_flush (dn : list loc) (k : option update)
  | m_join.

(** [log]: what has been captured. *)
Record threads := mk_threads { mpos : main_pos; wpos : run_pos; cap : capture; log : list update }.

(** The accounts the manager captures: the part in use is in the account's
    memory, has a header, and fits a block with the time and the key. *)
Definition capturable (u : update) : Prop :=
  in_s 64 (ts_ u) /\ length (key_ u) = 32%nat /\ is_bytes (acc_ u)
  /\ sizeof_acc <= acc_size (acc_ u) <= Z.of_nat (length (acc_ u))
  /\ acc_size (acc_ u) + sizeof_time + sizeof_key <= buf_room.

#[global] Instance capturable_dec u : Decision (capturable u).
Proof. unfold capturable, is_bytes, is_byte. apply _. Defined.

(** What the manager's thread does: captures, flushes, and at last runs the
    destructor, whose [flush] comes before the flag. *)
Inductive main_step : threads -> threads -> Prop :=
  | main_write u w c c' tr : capturable u -> write_begin u c = Some (c', None) ->
      main_step (mk_threads m_idle w c tr) (mk_threads m_idle w c' (tr ++ [u]))
  | main_write_full u w c c' dn tr : capturable u -> write_begin u c = Some (c', Some dn) ->
      main_step (mk_threads m_idle w c tr) (mk_threads (m_flush dn (Some u)) w c' tr)
  | main_write_end dn u w c c' tr : write_end dn u c = Some c' ->
      main_step (mk_threads (m_flush dn (Some u)) w c tr) (mk_threads m_idle w c' (tr ++ [u]))
  | main_flush l w c c' dn tr : curr_ c = Some l -> flush_lock l c = (c', dn) ->
      main_step (mk_threads m_idle w c tr) (mk_threads (m_flush dn None) w c' tr)
  | main_flush_end dn w c tr :
      main_step (mk_threads (m_flush dn None) w c tr) (mk_threads m_idle w (flush_tail dn c) tr)
  | main_stop w c tr : curr_ c = None ->
      main_step (mk_threads m_idle w c tr) (mk_threads m_join w (set_is_run false c) tr).

Inductive step (s : threads) : threads -> Prop :=
  | step_main s' : main_step s s' -> step s s'
  | step_run w c : run_step (wpos s) (cap s) = Some (w, c) -> step s (mk_threads (mpos s) w c (log s)).

Definition started (z : wz) : threads := mk_threads m_idle w_test (new_capture z) [].

(** ** Who holds which block *)

Definition main_holds (m : main_pos) (c : capture) : list loc :=
  match m with m_flush dn _ => dn | _ => option_list (curr_ c) end.
Definition run_holds (w : run_pos) : list loc :=
  match w with w_write pend _ _ => pend | _ => [] end.
Definition held (s : threads) : list loc :=
  main_holds (mpos s) (cap s) ++ reuse_ (cap s) ++ pend_ (cap s) ++ done_ (cap s) ++ run_holds (wpos s).

(** Every block is in one place. *)
Definition owns (ls : list loc) (h : gmap loc bytes) : Prop :=
  NoDup ls /\ forall l, l ∈ ls <-> is_Some (h !! l).

#[global] Instance owns_perm : Proper ((≡ₚ) ==> (=) ==> iff) owns.
Proof.
  intros ls ks Hp h ? <-. unfold owns. rewrite Hp.
  by setoid_rewrite Hp.
Qed.

Lemma owns_update l b ls h : l ∈ ls -> owns ls h -> owns ls (<[l := b]> h).
Proof.
  intros Hl [Hn Hd]. split; [done|]. intros k. rewrite lookup_insert_is_Some', <- Hd.
  split; [by right | by intros [<-|]].
Qed.

Lemma owns_fresh b ls h : owns ls h -> owns (fresh (dom h) :: ls) (<[fresh (dom h) := b]> h).
Proof.
  intros [Hn Hd]. pose proof (is_fresh (dom h)) as Hf. rewrite elem_of_dom, <- Hd in Hf. split.
  - by constructor.
  - intros k. rewrite elem_of_cons, lookup_insert_is_Some', Hd. by rewrite (eq_comm k).
Qed.

Lemma owns_some l ls h : l ∈ ls -> owns ls h -> is_Some (h !! l).
Proof. intros Hl [_ Hd]. by apply Hd. Qed.

(** ** What is in the blocks *)

Definition bytes_at (h : gmap loc bytes) (l : loc) : bytes := default [] (h !! l).
Definition contents (h : gmap loc bytes) (ls : list loc) : bytes := concat (bytes_at h <$> ls).

Lemma contents_app h ls ks : contents h (ls ++ ks) = contents h ls ++ contents h ks.
Proof. unfold contents. by rewrite fmap_app, concat_app. Qed.

Lemma bytes_at_other h l b k : k <> l -> bytes_at (<[l := b]> h) k = bytes_at h k.
Proof. intros. unfold bytes_at. by rewrite lookup_insert_ne. Qed.

Lemma contents_other h l b ls : l ∉ ls -> contents (<[l := b]> h) ls = contents h ls.
Proof.
  intros Hl. unfold contents. f_equal. apply list_fmap_ext. intros i k Hk.
  apply bytes_at_other. intros ->. apply Hl. by eapply list_elem_of_lookup_2.
Qed.

(** What the writing thread has still to write of the buffers it took. *)
Definition run_rest (w : run_pos) (h : gmap loc bytes) : bytes :=
  match w with
  | w_write _ (l :: todo) off => drop off (bytes_at h l) ++ contents h todo
  | _ => []
  end.
Definition main_rest (m : main_pos) (c : capture) : bytes :=
  match m with m_flush _ _ => [] | _ => contents (heap c) (option_list (curr_ c)) end.
Definition unwritten (s : threads) : bytes :=
  run_rest (wpos s) (heap (cap s)) ++ contents (heap (cap s)) (pend_ (cap s)) ++ main_rest (mpos s) (cap s).

Definition entries (us : list update) : bytes := concat (entry <$> us).

Lemma entries_app us vs : entries (us ++ vs) = entries us ++ entries vs.
Proof. unfold entries. by rewrite fmap_app, concat_app. Qed.

Lemma length_entry u : capturable u -> Z.of_nat (length (entry u)) = tlen u.
Proof.
  intros (_ & Hk & _ & Hs & _). unfold entry, tlen, sizeof_time, sizeof_key, sizeof_acc in *.
  rewrite !length_app, length_le_bytes, !length_take. lia.
Qed.

(** ** The invariant *)

Definition run_ok (w : run_pos) (c : capture) : Prop :=
  match w with
  | w_lock => is_wtr_ c = true
  | w_write pend todo _ => exists sent, pend = sent ++ todo
  | _ => True
  end.
Definition main_ok (m : main_pos) (c : capture) : Prop :=
  match m with
  | m_idle => is_run_ c = true
  | m_flush _ k => is_run_ c = true /\ default True (capturable <$> k)
  | m_join => is_run_ c = false /\ curr_ c = None
  end.

Record inv (s : threads) : Prop := mk_inv {
  inv_owns : owns (held s) (heap (cap s));
  inv_room : map_Forall (fun _ b => Z.of_nat (length b) <= buf_room) (heap (cap s));
  inv_main : main_ok (mpos s) (cap s);
  inv_run : run_ok (wpos s) (cap s);
  inv_flag : pend_ (cap s) <> [] -> is_wtr_ (cap s) = true;
  inv_writes : writes (zfd_ (cap s));
  inv_stream : written (zfd_ (cap s)) ++ unwritten s = entries (log s) }.

(** ** The manager's steps *)

(** A block that is in no other place, empty. *)
Lemma alloc_spec c R :
  owns (reuse_ c ++ R) (heap c) -> exists l, curr_ (alloc c) = Some l
    /\ heap (alloc c) = (<[l := []]> (heap c)) /\ (l ∉ R)
    /\ owns (l :: reuse_ (alloc c) ++ R) (heap (alloc c)).
Proof.
  intros Ho. unfold alloc. destruct (last (reuse_ c)) as [l|] eqn:El.
  - apply last_Some in El as [re El]. rewrite El in Ho |- *.
    assert ((l :: re ++ R) ≡ₚ ((re ++ [l]) ++ R)) as Hp by solve_Permutation.
    exists l. simpl. rewrite removelast_last, Hp. split_and!; [done | done | |].
    + rewrite <- Hp in Ho. destruct Ho as [[Hl _]%NoDup_cons _]. set_solver.
    + apply owns_update; [set_solver | done].
  - exists (fresh (dom (heap c))). simpl. split_and!; [done | done | | by apply owns_fresh].
    intros HR. apply (is_fresh (dom (heap c))), elem_of_dom, (owns_some _ (reuse_ c ++ R)); [set_solver | done].
Qed.

Lemma alloc_rest c : pend_ (alloc c) = pend_ c /\ done_ (alloc c) = done_ c /\ is_run_ (alloc c) = is_run_ c
  /\ is_wtr_ (alloc c) = is_wtr_ c /\ zfd_ (alloc c) = zfd_ c.
Proof. unfold alloc. by destruct (last (reuse_ c)). Qed.

(** The copy is inside the block and the account. *)
Lemma put_spec u c l b :
  capturable u -> curr_ c = Some l -> heap c !! l = Some b -> Z.of_nat (length b) + tlen u <= buf_room ->
  put u c = Some (set_heap (<[l := b ++ entry u]> (heap c)) c).
Proof.
  intros Hu Ec Eb Hr. unfold put. rewrite Ec. simpl. rewrite Eb. simpl.
  destruct (Z.ltb_spec (Z.of_nat (length (acc_ u))) (acc_size (acc_ u))) as [Hlt|_].
  { destruct Hu as (_ & _ & _ & Hs & _). lia. }
  rewrite length_app. pose proof (length_entry u Hu).
  by destruct (Z.ltb_spec buf_room (Z.of_nat (length b + length (entry u)))) as [Hlt|_]; [lia|].
Qed.

(** What the writing thread has to write is not touched. *)
Lemma run_rest_other w c h l b : run_ok w c -> l ∉ run_holds w -> run_rest w (<[l := b]> h) = run_rest w h.
Proof.
  destruct w as [| |pend [|k todo] off| |]; try done. intros [sent ->] Hl. simpl in *.
  rewrite bytes_at_other, contents_other by set_solver. done.
Qed.

Lemma contents_new h l b : contents (<[l := b]> h) [l] = b.
Proof. unfold contents, bytes_at. simpl. by rewrite lookup_insert_eq, app_nil_r. Qed.

Lemma contents_put h c l b e : curr_ c = Some l -> h !! l = Some b ->
  contents (<[l := b ++ e]> h) (option_list (curr_ c)) = contents h (option_list (curr_ c)) ++ e.
Proof.
  intros -> Eb. simpl. rewrite contents_new. unfold contents, bytes_at. simpl. by rewrite Eb, app_nil_r.
Qed.

Lemma inv_alloc w c tr : inv (mk_threads m_idle w c tr) -> curr_ c = None -> inv (mk_threads m_idle w (alloc c) tr).
Proof.
  intros [Ho Hr Hm Hw Hf Hz Hs] Ec. unfold held, unwritten in *; simpl in *. rewrite Ec in *. simpl in *.
  destruct (alloc_spec c _ Ho) as (l & El & Eh & Hl & Ho').
  destruct (alloc_rest c) as (Ep & Ed & Er & Ew & Ez).
  split; unfold held, unwritten; simpl; rewrite ?El, ?Ep, ?Ed, ?Er, ?Ew, ?Ez; try done.
  - rewrite Eh. by apply map_Forall_insert_2.
  - destruct w; simpl in *; congruence.
  - rewrite Eh. rewrite (run_rest_other w c), contents_other by (done || set_solver).
    rewrite contents_new, <- Hs. done.
Qed.

Lemma inv_put u w c tr l b :
  inv (mk_threads m_idle w c tr) -> capturable u -> curr_ c = Some l -> heap c !! l = Some b ->
  Z.of_nat (length b) + tlen u <= buf_room ->
  inv (mk_threads m_idle w (set_heap (<[l := b ++ entry u]> (heap c)) c) (tr ++ [u])).
Proof.
  intros [Ho Hr Hm Hw Hf Hz Hs] Hu Ec Eb Hl.
  assert (l ∉ pend_ c ++ run_holds w) as Hn.
  { unfold held in Ho; simpl in Ho; rewrite Ec in Ho. destruct Ho as [[Hn _]%NoDup_cons _]. rewrite !not_elem_of_app in *. tauto. }
  split; unfold held, unwritten in *; simpl in *; try done.
  - apply owns_update; [rewrite Ec; set_solver | done].
  - apply map_Forall_insert_2; [|done]. rewrite length_app. pose proof (length_entry u Hu). lia.
  - rewrite (run_rest_other w c), contents_other, contents_put by (done || set_solver).
    rewrite entries_app, <- Hs. unfold entries. simpl. by rewrite app_nil_r, !app_assoc.
Qed.

Lemma inv_lock l k w c tr :
  inv (mk_threads m_idle w c tr) -> curr_ c = Some l -> default True (capturable <$> k) ->
  inv (mk_threads (m_flush (done_ c) k) w (flush_lock l c).1 tr).
Proof.
  intros [Ho Hr Hm Hw Hf Hz Hs] Ec Hk. split; unfold held, unwritten in *; simpl in *; try done.
  - rewrite Ec in Ho. eapply owns_perm; [|done|exact Ho]. simpl. solve_Permutation.
  - by destruct w.
  - rewrite Ec in Hs. simpl in Hs. by rewrite contents_app, app_nil_r.
Qed.

Lemma inv_tail dn k w c tr :
  inv (mk_threads (m_flush dn k) w c tr) -> inv (mk_threads m_idle w (flush_tail dn c) tr).
Proof.
  intros [Ho Hr Hm Hw Hf Hz Hs]. split; unfold held, unwritten in *; simpl in *; try done.
  - eapply owns_perm; [|done|exact Ho]. solve_Permutation.
  - by destruct Hm.
Qed.

(** The current block, a new one if there is none. *)
Lemma current_block w c tr :
  inv (mk_threads m_idle w c tr) ->
  let c0 := match curr_ c with None => alloc c | Some _ => c end in
  inv (mk_threads m_idle w c0 tr) /\ exists l b, curr_ c0 = Some l /\ heap c0 !! l = Some b
    /\ Z.of_nat (length b) <= buf_room /\ (curr_ c = None -> b = []).
Proof.
  intros Hi. destruct (curr_ c) as [l|] eqn:Ec; simpl.
  - split; [done|]. destruct Hi as [Ho Hr _ _ _ _ _]. unfold held in Ho. simpl in *. rewrite Ec in Ho.
    destruct (owns_some l _ _ (list_elem_of_here _ _) Ho) as [b Eb]. exists l, b. by specialize (Hr l b Eb).
  - split; [by apply inv_alloc|]. destruct Hi as [Ho _ _ _ _ _ _]. unfold held in Ho. simpl in *. rewrite Ec in Ho.
    destruct (alloc_spec c _ Ho) as (l & El & Eh & _). exists l, [].
    by rewrite Eh, lookup_insert_eq.
Qed.

Lemma write_begin_spec u w c tr :
  inv (mk_threads m_idle w c tr) -> capturable u -> exists c' dn, write_begin u c = Some (c', dn)
    /\ inv match dn with
           | None => mk_threads m_idle w c' (tr ++ [u])
           | Some dn => mk_threads (m_flush dn (Some u)) w c' tr
           end.
Proof.
  intros Hi Hu. destruct (current_block w c tr Hi) as (Hi0 & l & b & El & Eb & Hb & _).
  unfold write_begin. set (c0 := match curr_ c with None => alloc c | Some _ => c end) in *.
  rewrite El. simpl. rewrite Eb. simpl.
  assert (0 <= max_size - Z.of_nat (length b) - sizeof_cap_buf < 2 ^ 64) as Hl.
  { unfold max_size, sizeof_cap_buf, buf_room, max_size, sizeof_cap_buf in *. lia. }
  rewrite wrap_small by done. destruct (Z.ltb_spec (max_size - Z.of_nat (length b) - sizeof_cap_buf) (tlen u)) as [Hlt|Hge].
  - eexists _, _. split; [reflexivity|]. by eapply (inv_lock l (Some u)).
  - rewrite (put_spec u c0 l b) by (done || unfold buf_room; lia). eexists _, None. split; [reflexivity|].
    apply inv_put; try done. unfold buf_room. lia.
Qed.

Lemma write_end_spec dn u w c tr :
  inv (mk_threads (m_flush dn (Some u)) w c tr) -> exists c', write_end dn u c = Some c'
    /\ inv (mk_threads m_idle w c' (tr ++ [u])).
Proof.
  intros Hi. assert (capturable u) as Hu by apply (inv_main _ Hi). apply inv_tail in Hi.
  destruct (current_block w _ tr Hi) as (Hi0 & l & b & El & Eb & _ & Hb).
  rewrite (Hb eq_refl) in Eb. simpl in Hi0, El, Eb.
  assert (Z.of_nat (length (@nil Z)) + tlen u <= buf_room) as Hl by (destruct Hu as (_ & _ & _ & _ & Hl); exact Hl).
  unfold write_end. rewrite (put_spec u _ l []) by done. eexists. split; [reflexivity|]. by apply inv_put.
Qed.

Lemma main_step_inv s s' : inv s -> main_step s s' -> inv s'.
Proof.
  intros Hi Hs. destruct Hs as [u w c c' tr Hu Ew|u w c c' dn tr Hu Ew|dn u w c c' tr Ew|l w c c' dn tr Ec [= <- <-]|dn w c tr|w c tr Ec].
  - destruct (write_begin_spec u w c tr Hi Hu) as (? & ? & Ew' & Hi'). by simplify_eq.
  - destruct (write_begin_spec u w c tr Hi Hu) as (? & ? & Ew' & Hi'). by simplify_eq.
  - destruct (write_end_spec dn u w c tr Hi) as (? & Ew' & Hi'). by simplify_eq.
  - by apply (inv_lock l None).
  - by apply inv_tail in Hi.
  - destruct Hi as [Ho Hr Hm Hw Hf Hz Hs]. by split.
Qed.

(** ** The writing thread's steps *)

Lemma run_step_inv m w c tr w' c' :
  inv (mk_threads m w c tr) -> run_step w c = Some (w', c') -> inv (mk_threads m w' c' tr).
Proof.
  intros [Ho Hr Hm Hw Hf Hz Hs] E. unfold held, unwritten in *; simpl in *.
  destruct w as [| |pend [|l todo] off| |]; simpl in E; simplify_eq/=.
  - destruct (is_wtr_ c') eqn:Ew; split; unfold held, unwritten; simpl; rewrite ?Ew; done.
  - split; unfold held, unwritten; simpl; try done.
    + eapply owns_perm; [|done|exact Ho]. rewrite app_nil_r. solve_Permutation.
    + by exists [].
    + rewrite <- Hs. destruct (pend_ c); simpl; by rewrite ?drop_0.
  - split; unfold held, unwritten; simpl; try done.
    + eapply owns_perm; [|done|exact Ho]. solve_Permutation.
  - destruct Hw as [sent ->]. unfold bytes_at in Hs.
    destruct (heap c !! l) as [b|] eqn:Eb; simpl in E; [|done]. simpl in Hs.
    destruct (drop off b) as [|x bs'] eqn:Ed.
    + simplify_eq/=. split; unfold held, unwritten; simpl; try done.
      * exists (sent ++ [l]). by rewrite <- app_assoc.
      * rewrite <- Hs. destruct todo; simpl; by rewrite ?drop_0.
    + destruct (gzwrite (x :: bs') (zfd_ c)) as [n z] eqn:Eg. simplify_eq/=.
      destruct (gzwrite_ok (x :: bs') _ n z Hz ltac:(discriminate) Eg) as (Hn & Ewr & Hz').
      destruct (Z.ltb_spec 0 n); [|lia]. split; unfold held, unwritten; simpl; try done.
      * by exists sent.
      * rewrite <- Hs, Ewr. unfold bytes_at at 1. rewrite Eb. simpl.
        rewrite <- drop_drop, Ed, <- !app_assoc. f_equal.
        by rewrite (app_assoc (take _ _) (drop _ _)), take_drop.
  - destruct (is_run_ c') eqn:Er; split; unfold held, unwritten; simpl; try done; destruct m; by rewrite ?Er.
Qed.

Lemma step_inv s s' : inv s -> step s s' -> inv s'.
Proof.
  intros Hi [s'' Hs|w c Hs]; [by eapply main_step_inv|]. destruct s. by eapply run_step_inv.
Qed.

Lemma started_inv z : writes z -> written z = [] -> inv (started z).
Proof.
  intros Hz Hw. split; unfold held, unwritten; simpl; try done.
  - split; [by constructor|]. intros l. rewrite lookup_empty. split; [by intros ?%elem_of_nil | by intros [??]].
  - by rewrite Hw.
Qed.

Lemma reachable_inv z s : writes z -> written z = [] -> rtc step (started z) s -> inv s.
Proof. intros Hz Hw Hr. pose proof (started_inv z Hz Hw) as Hi. induction Hr; eauto using step_inv. Qed.

(** Only accounts that can be are captured. *)
Lemma step_log s s' : inv s -> Forall capturable (log s) -> step s s' -> Forall capturable (log s').
Proof.
  intros Hi Hl [s'' Hs|w c Hs]; [|done]. destruct Hs; try done; simpl in *; apply Forall_app_2; try done.
  - by apply Forall_singleton.
  - apply Forall_singleton. by destruct (inv_main _ Hi).
Qed.

Lemma reachable_log z s : writes z -> written z = [] -> rtc step (started z) s -> Forall capturable (log s).
Proof.
  intros Hz Hw Hr. pose proof (started_inv z Hz Hw) as Hi.
  assert (Forall capturable (log (started z))) as Hl by constructor.
  induction Hr; eauto using step_inv, step_log.
Qed.

(** ** The end of the writing thread *)

(** The steps [run] needs to write what is in buffers. *)
Definition cost (h : gmap loc bytes) (ls : list loc) : nat := sum_list ((fun l => S (length (bytes_at h l))) <$> ls).
Lemma cost_cons h l ls : cost h (l :: ls) = (S (length (bytes_at h l)) + cost h ls)%nat.
Proof. done. Qed.

Definition lock_cost (c : capture) : nat := if is_wtr_ c then 4 + cost (heap c) (pend_ c) else 0.
Definition run_cost (w : run_pos) (c : capture) : nat :=
  match w with
  | w_test => 3 + lock_cost c
  | w_lock => 6 + cost (heap c) (pend_ c)
  | w_write _ [] _ => 4 + lock_cost c
  | w_write _ (l :: todo) off => 5 + lock_cost c + (length (bytes_at (heap c) l) - off) + cost (heap c) todo
  | w_stop => 2
  | w_exit => 1
  end.

(** The thread has not looked at [is_wtr_] for the last time before the flush. *)
Definition settled (w : run_pos) (c : capture) : Prop :=
  match w with w_stop | w_exit => pend_ c = [] | _ => True end.

Lemma run_step_cost tr w c w' c' :
  inv (mk_threads m_join w c tr) -> settled w c -> run_step w c = Some (w', c') ->
  settled w' c' /\ (run_cost w' c' < run_cost w c)%nat.
Proof.
  intros [Ho Hr Hm Hw Hf Hz Hs] Hset E. simpl in *.
  destruct w as [| |pend [|l todo] off| |]; simpl in E; simplify_eq/=.
  - destruct (is_wtr_ c') eqn:Ew; simpl; [split; [done | unfold lock_cost; rewrite Ew; lia]|].
    split; [|unfold lock_cost; rewrite Ew; lia]. destruct (pend_ c'); [done|]. by specialize (Hf ltac:(done)).
  - split; [done|]. unfold lock_cost. simpl. destruct (pend_ c); rewrite ?cost_cons; lia.
  - split; [done|]. unfold lock_cost. simpl. lia.
  - destruct (heap c !! l) as [b|] eqn:Eb; simpl in E; [|done].
    assert (bytes_at (heap c) l = b) as Hb by (unfold bytes_at; by rewrite Eb).
    destruct (drop off b) as [|x bs'] eqn:Ed.
    + simplify_eq/=. split; [done|]. unfold lock_cost. destruct todo; rewrite ?cost_cons; simpl; lia.
    + destruct (gzwrite (x :: bs') (zfd_ c)) as [n z] eqn:Eg. simplify_eq/=.
      destruct (gzwrite_ok (x :: bs') _ n z Hz ltac:(discriminate) Eg) as (Hn & _).
      destruct (Z.ltb_spec 0 n); [|lia]. split; [done|]. simpl. unfold lock_cost. simpl.
      apply (f_equal length) in Ed. rewrite length_drop in Ed. simpl in *. lia.
  - destruct Hm as [Hrun _]. rewrite Hrun. split; [done | simpl; lia].
Qed.

(** The thread can take its next step. *)
Lemma run_step_some m tr w c :
  inv (mk_threads m w c tr) -> w <> w_exit -> is_Some (run_step w c).
Proof.
  intros [Ho _ _ Hw _ _ _] Hne. destruct w as [| |pend [|l todo] off| |]; simpl; try done.
  destruct Hw as [sent ->]. unfold held in Ho. simpl in *.
  destruct (owns_some l _ _ ltac:(do 5 (apply elem_of_app; right); left) Ho) as [b Eb].
  rewrite Eb. simpl. destruct (drop off b); [done|]. by destruct (gzwrite _ _).
Qed.

(** The loop of [run], in the destructor's [join], ends with all written. *)
Lemma run_total tr w c :
  inv (mk_threads m_join w c tr) -> settled w c -> exists c', run (run_cost w c) w c = Some c'
    /\ written (zfd_ c') = entries tr /\ writes (zfd_ c').
Proof.
  remember (run_cost w c) as n eqn:En. assert (run_cost w c <= n)%nat as Hn by lia. clear En.
  revert w c Hn. induction n as [|n IH]; intros w c Hn Hi Hset.
  - destruct w as [| |? [] ?| |]; simpl in Hn; lia.
  - simpl. destruct (run_step w c) as [[w' c']|] eqn:E.
    + destruct (run_step_cost tr w c w' c' Hi Hset E) as [Hset' Hlt].
      apply IH; [lia | by eapply run_step_inv | done].
    + destruct (decide (w = w_exit)) as [->|Hne]; [|by destruct (run_step_some _ _ _ _ Hi Hne); simplify_eq].
      exists c. destruct Hi as [_ _ [_ Hc] _ _ Hz Hs]. unfold unwritten in Hs. simpl in *.
      rewrite Hset, Hc in Hs. by rewrite app_nil_r in Hs.
Qed.

(** ** What the two threads do together *)

(** (C16) For accounts that fit a block ([capturable], in [main_step]) and a file
    whose writes do not fail ([writes]), whatever the interleaving: every block
    allocated is in exactly one place and holds no more than its size; what is in
    the file, then what the blocks on their way hold, is what was captured, in
    order; and both threads can go on: a capture is inside its block and its
    account, and the writing thread reads blocks that exist.  When both have
    ended, what is not in the file is what [pend_] holds: the last buffer may
    stay there ([last_buffer_lost]), and an account that does not fit is written
    past its block ([large_mapping]). *)
Theorem blocks_owned z s :
  writes z -> written z = [] -> rtc step (started z) s ->
  NoDup (held s) /\ (forall l, l ∈ held s <-> is_Some (heap (cap s) !! l))
  /\ map_Forall (fun _ b => Z.of_nat (length b) <= buf_room) (heap (cap s))
  /\ Forall capturable (log s) /\ written (zfd_ (cap s)) ++ unwritten s = entries (log s)
  /\ (forall u, mpos s = m_idle -> capturable u -> is_Some (write_begin u (cap s)))
  /\ (forall dn u, mpos s = m_flush dn (Some u) -> is_Some (write_end dn u (cap s)))
  /\ (wpos s <> w_exit -> is_Some (run_step (wpos s) (cap s)))
  /\ (mpos s = m_join -> wpos s = w_exit -> unwritten s = contents (heap (cap s)) (pend_ (cap s))).
Proof.
  intros Hz Hw Hr. pose proof (reachable_inv z s Hz Hw Hr) as Hi. pose proof (reachable_log z s Hz Hw Hr) as Hl.
  destruct s as [m w c tr]. simpl in *.
  destruct (inv_owns _ Hi) as [Hn Hd]. split_and!; [done | done | apply (inv_room _ Hi) | done | apply (inv_stream _ Hi) | | | |].
  - intros u -> Hu. destruct (write_begin_spec u w c tr Hi Hu) as (c' & dn & -> & _). by eexists.
  - intros dn u ->. destruct (write_end_spec dn u w c tr Hi) as (c' & -> & _). by eexists.
  - apply run_step_some with m tr. done.
  - intros -> ->. pose proof (inv_main _ Hi) as [_ Hc]. simpl in Hc. unfold unwritten. simpl. rewrite Hc. by rewrite app_nil_r.
Qed.

End capture.

(** ** Running a schedule *)

(** Which thread goes on, and what the manager's thread does next if it is
    between calls. *)
Inductive turn := t_write (u : update) | t_flush | t_stop | t_main | t_run.

Section schedule.
Context {wz rz : Type} `{Gz wz rz}.

Definition turn_step (t : turn) (s : threads (wz := wz)) : option (threads (wz := wz)) :=
  match t, mpos s with
  | t_write u, m_idle =>
      if decide (capturable u) then
        '(c, dn) ← write_begin u (cap s);
        Some match dn with
             | None => mk_threads m_idle (wpos s) c (log s ++ [u])
             | Some dn => mk_threads (m_flush dn (Some u)) (wpos s) c (log s)
             end
      else None
  | t_flush, m_idle =>
      l ← curr_ (cap s);
      let '(c, dn) := flush_lock l (cap s) in Some (mk_threads (m_flush dn None) (wpos s) c (log s))
  | t_stop, m_idle =>
      match curr_ (cap s) with
      | None => Some (mk_threads m_join (wpos s) (set_is_run false (cap s)) (log s))
      | Some _ => None
      end
  | t_main, m_flush dn (Some u) => c ← write_end dn u (cap s); Some (mk_threads m_idle (wpos s) c (log s ++ [u]))
  | t_main, m_flush dn None => Some (mk_threads m_idle (wpos s) (flush_tail dn (cap s)) (log s))
  | t_run, _ => '(w, c) ← run_step (wpos s) (cap s); Some (mk_threads (mpos s) w c (log s))
  | _, _ => None
  end.

Fixpoint turns (ts : list turn) (s : threads (wz := wz)) : option (threads (wz := wz)) :=
  match ts with [] => Some s | t :: ts => s ← turn_step t s; turns ts s end.

Lemma turn_step_sound t s s' : turn_step t s = Some s' -> step s s'.
Proof.
  intros E. destruct t as [u| | | |]; [apply step_main..|].
  all: destruct s as [m w c tr]; simpl in E; destruct m as [|dn [u'|]|]; try done.
  - case_decide; [|done]. destruct (write_begin u c) as [[c' [dn|]]|] eqn:Ew; simplify_eq/=; by constructor.
  - destruct (curr_ c) as [l|] eqn:Ec; simplify_eq/=. by eapply main_flush.
  - destruct (curr_ c) eqn:Ec; simplify_eq/=. by constructor.
  - destruct (write_end dn u' c) eqn:Ew; simplify_eq/=. by constructor.
  - simplify_eq. constructor.
  - destruct (run_step w c) as [[w' c']|] eqn:Er; simplify_eq/=. by apply (step_run (mk_threads m_idle w c tr)).
  - destruct (run_step w c) as [[w' c']|] eqn:Er; simplify_eq/=. by apply (step_run (mk_threads _ w c tr)).
  - destruct (run_step w c) as [[w' c']|] eqn:Er; simplify_eq/=. by apply (step_run (mk_threads _ w c tr)).
  - destruct (run_step w c) as [[w' c']|] eqn:Er; simplify_eq/=. by apply (step_run (mk_threads _ w c tr)).
Qed.

Lemma turns_sound ts s s' : turns ts s = Some s' -> rtc step s s'.
Proof.
  revert s. induction ts as [|t ts IH]; intros s E; simplify_eq/=; [done|].
  destruct (turn_step t s) as [s1|] eqn:Et; simplify_eq/=. eapply rtc_l; [by eapply turn_step_sound | by apply IH].
Qed.
End schedule.

(** ** A file to run it on *)

(** Bytes are written up to a hundred at a time, and read up to a thousand. *)
Definition disk_write (b z : bytes) : Z * bytes := (Z.of_nat (length (take 100 b)), z ++ take 100 b).
Definition disk_read (len : Z) (z : bytes) : Z * bytes * bytes :=
  let n := Z.to_nat (len `min` 1000) in (Z.of_nat (length (take n z)), take n z, drop n z).

Lemma disk_write_ok b z n z' : b <> [] -> disk_write b z = (n, z') ->
  0 < n <= Z.of_nat (length b) /\ z' = z ++ take (Z.to_nat n) b.
Proof.
  intros Hb [= <- <-]. rewrite Nat2Z.id, length_take. destruct b as [|x b]; [done|]. split; [simpl length; lia|].
  by rewrite <- take_take, (take_ge _ (length (x :: b))).
Qed.

Lemma disk_read_ok len z n d z' : 0 < len -> disk_read len z = (n, d, z') ->
  if 0 <? n then z = d ++ z' else z = [] /\ z' = [].
Proof.
  intros Hl [= <- <- <-]. rewrite length_take. destruct (Z.ltb_spec 0 (Z.of_nat (Z.to_nat (len `min` 1000) `min` length z))) as [Hn|Hn].
  - by rewrite take_drop.
  - destruct z; simpl in Hn; [|lia]. by rewrite drop_nil.
Qed.

Lemma disk_read_some len z n d z' : disk_read len z = (n, d, z') -> 0 < n -> n <= len /\ n = Z.of_nat (length d).
Proof. intros [= <- <- <-]. rewrite length_take. lia. Qed.

#[refine] Definition disk : Gz bytes bytes := {|
  gzwrite := disk_write; gzread := disk_read; gz_open z := z; written z := z; remaining z := z;
  writes _ := True; intact _ := True |}.
Proof.
  - intros b z n z' _ Hb E. destruct (disk_write_ok b z n z' Hb E) as [Hn Hz]. repeat split; [apply Hn | apply Hn | exact Hz].
  - apply disk_read_some.
  - intros len z n d z' _ Hl E. split; [done|]. by apply (disk_read_ok len z n d z').
  - done.
Defined.
#[local] Existing Instance disk.

(** An account of [n] bytes in use. *)
Definition account (n : nat) : bytes := replicate 12 7 ++ le_bytes 4 (Z.of_nat n) ++ replicate (n - 16) 9.
Definition upd1 : update := mk_update 5 (replicate 32 1) (account 20).
Definition upd2 : update := mk_update 6 (replicate 32 2) (account 16).


Definition begun : threads := started ([] : bytes).
(** The state after a schedule. *)
Definition after (ts : list turn) : threads := default begun (turns ts begun).

Lemma after_reach ts : is_Some (turns ts begun) -> rtc step begun (after ts).
Proof. intros [s E]. unfold after. rewrite E. by apply turns_sound with ts. Qed.

(** The second capture goes to a new block while the first is written. *)
Definition two_buffers : list turn :=
  [t_run; t_write upd1; t_run; t_flush; t_main; t_run; t_run; t_write upd2].

Lemma two_buffers_reach : rtc step begun (after two_buffers).
Proof. apply after_reach. vm_compute. by eexists. Qed.

Lemma blocks_owned_witness :
  writes ([] : bytes) /\ written ([] : bytes) = [] /\ rtc step begun (after two_buffers)
  /\ held (after two_buffers) = [2%positive; 1%positive] /\ NoDup (held (after two_buffers))
  /\ unwritten (after two_buffers) = entries [upd1; upd2].
Proof.
  split_and!; [done | done | exact two_buffers_reach | vm_compute; reflexivity | | vm_compute; reflexivity].
  by destruct (blocks_owned (H := disk) [] (after two_buffers) I eq_refl two_buffers_reach).
Defined.

(** The last buffer is lost when the thread looks at [is_wtr_] just before the
    destructor's [flush] and at [is_run_] just after it is reset. *)
Definition lost : threads := after [t_write upd1; t_run; t_flush; t_main; t_stop; t_run].

Example last_buffer_lost : rtc step begun lost /\ mpos lost = m_join /\ wpos lost = w_exit
  /\ zfd_ (cap lost) = [] /\ pend_ (cap lost) = [1%positive] /\ unwritten lost = entries [upd1].
Proof. split; [apply after_reach; vm_compute; by eexists | vm_compute; by repeat split]. Qed.

(** An account with more than 32720 bytes in use is written past the end of the
    block: a mapping of 1021 products, of the 5000 that its layout has room for. *)
Example large_mapping :
  write (mk_update 0 (replicate 32 0) (account (Z.to_nat (56 + 32 * 1021)))) (new_capture ([] : bytes)) = None.
Proof. vm_compute. reflexivity. Qed.
