(* ===== verification/Replay.v ===== *)
(** * The replay of a capture ([pc/replay.hpp], [pc/replay.cpp])

    The records of a capture are read back one at a time from a block of 1 MiB
    that is filled from the gzip file.  At the end: what a capture writes, with
    its two threads in any order, is what is read back. *)

From S2P Require Import Prelude Capture.

Definition buf_sz : Z := 1024 * 1024.
(** [hdr]: time, key and the header of the account. *)
Definition sizeof_hdr : Z := sizeof_time + sizeof_key + sizeof_acc.

Section replay.
Context {wz rz : Type} `{Gz wz rz}.

(** [buf_]: the bytes of the block below [len_].  [up_]: an offset in it. *)
Record replay := mk_replay { up_ : nat; buf_ : bytes; pos_ : nat; rzfd_ : rz }.

Definition new_replay (z : rz) : replay := mk_replay 0 [] 0 z.

(** [init]: the file, if [gzopen] opens it, and the result of [gzbuffer]. *)
Definition init (file_ : bytes) (opened : option rz) (gzbuffer_rc : Z) (r : replay) : (bool * option bytes) * replay :=
  let file := gz_name file_ in
  match opened with
  | None => ((false, Some (bs "failed to open file=" ++ file)), r)
  | Some z =>
      if negb (gzbuffer_rc =? 0) then
        ((false, Some (bs "failed to set compression buffer file=" ++ file)), mk_replay (up_ r) (buf_ r) (pos_ r) z)
      else ((true, None), mk_replay (up_ r) [] 0 z)
  end.

(** The account at [up_], as the pointer sees it. *)
Definition get_time (r : replay) : Z := i64 (of_le (slice (up_ r) 8 (buf_ r))).
Definition get_account (r : replay) : bytes := slice (up_ r + 8) 32 (buf_ r).
Definition get_update (r : replay) : bytes := drop (up_ r + 40) (buf_ r).

(** [left] and [upsz] of [get_next]. *)
Definition block_left (r : replay) : Z := Z.of_nat (length (buf_ r)) - Z.of_nat (pos_ r).
Definition next_size (r : replay) : Z :=
  if sizeof_hdr <=? block_left r then sizeof_time + sizeof_key + acc_size (drop (pos_ r + 40) (buf_ r))
  else sizeof_hdr.

(** The loop of [get_next]. *)
Fixpoint get_next_loop (fuel : nat) (r : replay) : option (bool * replay) :=
  match fuel with
  | O => None
  | S fuel' =>
      if next_size r <=? block_left r then
        Some (true, mk_replay (pos_ r) (buf_ r) (pos_ r + Z.to_nat (next_size r)) (rzfd_ r))
      else
        let buf := drop (pos_ r) (buf_ r) in
        let '(numread, d, z) := gzread (buf_sz - block_left r) (rzfd_ r) in
        if 0 <? numread then get_next_loop fuel' (mk_replay (pos_ r) (buf ++ d) 0 z)
        else Some (false, mk_replay (pos_ r) buf 0 z)
  end.

(** Every read brings a byte, and the block has [buf_sz]. *)
Definition get_next (r : replay) : option (bool * replay) := get_next_loop (Z.to_nat (buf_sz + 2)) r.

(** The record that [get_next] has found. *)
Definition current (r : replay) : update :=
  let a := get_update r in mk_update (get_time r) (get_account r) (take (Z.to_nat (acc_size a)) a).

(** The loop of a program that replays a capture, which reads the records in
    turn until there is none. *)
Fixpoint replay_all (fuel : nat) (r : replay) : option (list update) :=
  match fuel with
  | O => None
  | S fuel' =>
      '(ok, r) ← get_next r;
      if ok : bool then us ← replay_all fuel' r; Some (current r :: us) else Some []
  end.

(** ** Reading *)

(** What is written of a captured account. *)
Definition seen (u : update) : update :=
  mk_update (ts_ u) (key_ u) (take (Z.to_nat (acc_size (acc_ u))) (acc_ u)).

(** The bytes still to be given out. *)
Definition unread (r : replay) : bytes := drop (pos_ r) (buf_ r) ++ remaining (rzfd_ r).

Definition replay_ok (r : replay) : Prop :=
  (pos_ r <= length (buf_ r))%nat /\ Z.of_nat (length (buf_ r)) <= buf_sz /\ intact (rzfd_ r).

Lemma entry_parts u : capturable u ->
  entry u = le_bytes 8 (ts_ u) ++ key_ u ++ take (Z.to_nat (acc_size (acc_ u))) (acc_ u).
Proof. intros (_ & Hk & _). unfold entry. by rewrite (take_ge (key_ u)) by lia. Qed.

Lemma drop_entry u rest : capturable u ->
  drop 40 (entry u ++ rest) = take (Z.to_nat (acc_size (acc_ u))) (acc_ u) ++ rest.
Proof.
  intros Hu. rewrite entry_parts by done. destruct Hu as (_ & Hk & _).
  rewrite <- !app_assoc, (app_assoc (le_bytes 8 _)). apply drop_app_length'.
  rewrite length_app, length_le_bytes. lia.
Qed.

(** The size in the header is that of the account. *)
Lemma acc_size_entry u rest : capturable u -> acc_size (drop 40 (entry u ++ rest)) = acc_size (acc_ u).
Proof.
  intros Hu. rewrite drop_entry by done. destruct Hu as (_ & _ & _ & Hs & _). unfold sizeof_acc in Hs.
  unfold acc_size at 1. rewrite slice_app_le by (rewrite length_take; lia).
  rewrite <- (take_drop (Z.to_nat (acc_size (acc_ u))) (acc_ u)) at 3. unfold acc_size at 2.
  by rewrite slice_app_le by (rewrite length_take; lia).
Qed.

Lemma i64_time t : in_s 64 t -> i64 (of_le (le_bytes 8 t)) = t.
Proof.
  intros Ht. rewrite of_le_bytes. change (256 ^ Z.of_nat 8) with (2 ^ 64).
  fold (wrap 64 t). rewrite (swrap_wrap 64 t) by lia. by apply swrap_small.
Qed.

(** The pointers see the record that the block has there. *)
Lemma current_entry r u rest : capturable u -> drop (up_ r) (buf_ r) = entry u ++ rest -> current r = seen u.
Proof.
  intros Hu E. unfold current, get_time, get_account, get_update, slice.
  rewrite <- !drop_drop, E, acc_size_entry, drop_entry by done. unfold seen.
  pose proof Hu as (Ht & Hk & _ & Hs & _). unfold sizeof_acc in Hs. rewrite entry_parts by done. f_equal.
  - rewrite <- app_assoc, take_app_length' by (by rewrite length_le_bytes). by apply i64_time.
  - rewrite <- !app_assoc, drop_app_length' by (by rewrite length_le_bytes). by rewrite take_app_length' by done.
  - by rewrite take_app_length' by (rewrite length_take; lia).
Qed.

(** What of a stream is in the block. *)
Lemma split_prefix (b rem e rest : bytes) :
  b ++ rem = e ++ rest -> (length e <= length b)%nat -> exists b', b = e ++ b' /\ rest = b' ++ rem.
Proof.
  intros E Hl. exists (drop (length e) b).
  assert (take (length e) b = e) as Ht by (rewrite <- (take_app_le _ rem), E, take_app_length by done; done).
  split; [by rewrite <- Ht at 1; rewrite take_drop|].
  by rewrite <- drop_app_le, E, drop_app_length by done.
Qed.

Definition block (r : replay) : bytes := drop (pos_ r) (buf_ r).

Lemma length_block r : replay_ok r -> Z.of_nat (length (block r)) = block_left r.
Proof. intros (Hp & _). unfold block, block_left. rewrite length_drop. lia. Qed.

Lemma tlen_bound u : capturable u -> sizeof_hdr <= tlen u /\ tlen u < buf_sz.
Proof.
  intros (_ & _ & _ & Hs & Hl). unfold tlen, sizeof_hdr, buf_sz, sizeof_time, sizeof_key, sizeof_acc in *.
  unfold buf_room, max_size, sizeof_cap_buf in Hl. lia.
Qed.

Lemma next_size_entry r u rest :
  replay_ok r -> capturable u -> unread r = entry u ++ rest ->
  (next_size r <= block_left r -> next_size r = tlen u) /\ (block_left r < next_size r -> block_left r < tlen u).
Proof.
  intros Ho Hu E. pose proof (length_block r Ho) as Hl. pose proof (tlen_bound u Hu) as [Ht _]. unfold next_size.
  destruct (Z.leb_spec sizeof_hdr (block_left r)) as [Hh|Hh]; [|lia].
  assert (acc_size (drop (pos_ r + 40) (buf_ r)) = acc_size (acc_ u)) as ->; [|unfold tlen; lia].
  rewrite <- (acc_size_entry u rest Hu), <- E, <- drop_drop. unfold unread. fold (block r).
  unfold sizeof_hdr, sizeof_time, sizeof_key, sizeof_acc in Hh.
  rewrite drop_app_le by lia. unfold acc_size.
  by rewrite (slice_app_le 12 4) by (rewrite length_drop; lia).
Qed.

(** A read puts what it brings after what the block has. *)
Lemma refill r n d z :
  replay_ok r -> block_left r < buf_sz -> gzread (buf_sz - block_left r) (rzfd_ r) = (n, d, z) ->
  let r' := mk_replay (pos_ r) (block r ++ d) 0 z in
  (0 < n -> replay_ok r' /\ unread r' = unread r /\ block_left r' = block_left r + n)
  /\ (n <= 0 -> unread r = block r /\ remaining z = [] /\ intact z).
Proof.
  intros Ho Hlt E r'. pose proof (length_block r Ho) as Hl. destruct Ho as (Hp & Hb & Hi).
  assert (0 < buf_sz - block_left r) as Hpos by lia.
  destruct (gzread_ok _ _ _ _ _ Hi Hpos E) as [Hi' Hr]. unfold unread, replay_ok, r'. simpl. split; intros Hn.
  - destruct (gzread_some _ _ _ _ _ E Hn) as [Hle Hd]. destruct (Z.ltb_spec 0 n); [|lia].
    rewrite Hr, drop_0, length_app, <- app_assoc. split_and!; try done; [lia | lia |].
    unfold block_left at 1. simpl. rewrite length_app. lia.
  - destruct (Z.ltb_spec 0 n); [lia|]. destruct Hr as [Hr Hr']. by rewrite Hr, app_nil_r.
Qed.

(** The next record is found, whatever the reads bring at a time. *)
Lemma loop_reads fuel r u rest :
  replay_ok r -> capturable u -> unread r = entry u ++ rest -> buf_sz - block_left r < Z.of_nat fuel ->
  exists r', get_next_loop fuel r = Some (true, r') /\ replay_ok r' /\ current r' = seen u /\ unread r' = rest.
Proof.
  revert r. induction fuel as [|fuel IH]; intros r Ho Hu E Hf.
  { destruct Ho as (Hp & Hb & _). unfold block_left in Hf. lia. }
  simpl. pose proof (length_block r Ho) as Hl. pose proof (tlen_bound u Hu) as Ht. pose proof (length_entry u Hu) as Hen.
  destruct (next_size_entry r u rest Ho Hu E) as [Hsz Hsm].
  destruct (Z.leb_spec (next_size r) (block_left r)) as [Hle|Hlt]; [apply Hsz in Hle as Hs | apply Hsm in Hlt].
  - destruct (split_prefix (block r) (remaining (rzfd_ r)) (entry u) rest E ltac:(lia)) as (b' & Eb & ->).
    eexists. split; [reflexivity|]. destruct Ho as (Hp & Hb & Hi). unfold replay_ok, unread. simpl. split_and!; try done.
    + unfold block_left in *. lia.
    + by apply (current_entry _ u b').
    + rewrite <- drop_drop. fold (block r). rewrite Eb. rewrite drop_app_length' by lia. done.
  - assert (block_left r < buf_sz) as Hl2 by lia. fold (block r).
    destruct (gzread (buf_sz - block_left r) (rzfd_ r)) as [[n d] z] eqn:Eg.
    destruct (refill r n d z Ho Hl2 Eg) as [Hpos Hend]. destruct (Z.ltb_spec 0 n) as [Hn|Hn].
    + destruct (Hpos Hn) as (Ho' & Eu & El). apply IH; try done; [by rewrite Eu | lia].
    + destruct (Hend Hn) as (Eb & _). rewrite Eb in E. apply (f_equal length) in E.
      rewrite length_app in E. lia.
Qed.
(** The calls end, also on a file that cannot be read. *)
Lemma loop_total fuel r :
  (pos_ r <= length (buf_ r))%nat -> Z.of_nat (length (buf_ r)) <= buf_sz -> buf_sz - block_left r < Z.of_nat fuel ->
  exists ok r', get_next_loop fuel r = Some (ok, r') /\ (pos_ r' <= length (buf_ r'))%nat
    /\ Z.of_nat (length (buf_ r')) <= buf_sz.
Proof.
  revert r. induction fuel as [|fuel IH]; intros r Hp Hb Hf; [unfold block_left in Hf; lia|]. simpl.
  assert (Z.of_nat (length (drop (pos_ r) (buf_ r))) = block_left r) as Hl by (unfold block_left; rewrite length_drop; lia).
  destruct (Z.leb_spec (next_size r) (block_left r)).
  { eexists _, _. split; [reflexivity|]. simpl. unfold block_left in *. lia. }
  destruct (gzread _ _) as [[n d] z] eqn:E. destruct (Z.ltb_spec 0 n) as [Hn|Hn].
  - destruct (gzread_some _ _ _ _ _ E Hn) as [Hle Hd]. apply IH; simpl; rewrite ?length_app; [lia | lia |].
    unfold block_left at 1. simpl. rewrite length_app. lia.
  - eexists _, _. split; [reflexivity|]. simpl. rewrite Hl. unfold block_left. lia.
Qed.

(** A call of [get_next] ends, whatever the file gives, with the offset
    inside the block. *)
Theorem get_next_total r :
  (pos_ r <= length (buf_ r))%nat -> Z.of_nat (length (buf_ r)) <= buf_sz ->
  exists ok r', get_next r = Some (ok, r') /\ (pos_ r' <= length (buf_ r'))%nat
    /\ Z.of_nat (length (buf_ r')) <= buf_sz.
Proof. intros Hp Hb. apply loop_total; try done. unfold block_left, buf_sz. lia. Qed.

Lemma get_next_reads r u rest :
  replay_ok r -> capturable u -> unread r = entry u ++ rest ->
  exists r', get_next r = Some (true, r') /\ replay_ok r' /\ current r' = seen u /\ unread r' = rest.
Proof.
  intros Ho Hu E. apply loop_reads; try done. destruct Ho as (Hp & _). unfold block_left, buf_sz. lia.
Qed.

(** At the end there is no record. *)
Lemma get_next_end r : replay_ok r -> unread r = [] -> exists r', get_next r = Some (false, r').
Proof.
  intros Ho E. apply app_nil in E as [Eb Er]. fold (block r) in Eb. pose proof (length_block r Ho) as Hl.
  rewrite Eb in Hl. simpl in Hl. unfold get_next. destruct (Z.to_nat (buf_sz + 2)) as [|fuel] eqn:Ef; [unfold buf_sz in Ef; lia|].
  simpl. unfold next_size. rewrite <- Hl. simpl. destruct (gzread _ _) as [[n d] z] eqn:Eg.
  destruct (Z.ltb_spec 0 n) as [Hn|Hn]; [|by eexists].
  assert (0 < buf_sz - Z.of_nat 0) as Hpos by (unfold buf_sz; lia).
  destruct (gzread_ok _ _ _ _ _ (proj2 (proj2 Ho)) Hpos Eg) as [_ Hr].
  destruct (gzread_some _ _ _ _ _ Eg Hn) as [_ Hd].
  destruct (Z.ltb_spec 0 n); [|lia]. rewrite Er in Hr. destruct d; simpl in *; [lia | done].
Qed.

Lemma replay_all_reads us r :
  Forall capturable us -> replay_ok r -> unread r = entries us ->
  replay_all (S (length us)) r = Some (seen <$> us).
Proof.
  intros Hu. revert r. induction Hu as [|u us Hu Hus IH]; intros r Ho E; cbn [replay_all].
  - by destruct (get_next_end r Ho E) as [r' ->].
  - destruct (get_next_reads r u (entries us) Ho Hu E) as (r' & -> & Ho' & Ec & Er).
    cbn [mbind option_bind]. cbn [length]. by rewrite (IH r' Ho' Er), Ec.
Qed.

(** (C15) Once the destructor has stopped the writing thread, and unless that
    had then already looked at [is_wtr_] for the last time, the thread ends, and
    the file, opened again, gives back every account captured, with its time and
    key, in order, and then no more. *)
Theorem capture_replayed z s :
  writes z -> written z = [] -> rtc step (started z) s -> mpos s = m_join -> settled (wpos s) (cap s) ->
  exists c, run (run_cost (wpos s) (cap s)) (wpos s) (cap s) = Some c
    /\ replay_all (S (length (log s))) (new_replay (gz_open (zfd_ c))) = Some (seen <$> log s).
Proof.
  intros Hz Hw Hr Em Hset. pose proof (reachable_inv z s Hz Hw Hr) as Hi.
  pose proof (reachable_log z s Hz Hw Hr) as Hl. destruct s as [m w c tr]. simpl in *. subst m.
  destruct (run_total tr w c Hi Hset) as (c' & Erun & Ewr & Hwr). exists c'. split; [done|].
  destruct (gz_open_ok _ Hwr) as [Hin Hrem]. apply replay_all_reads; [done | |].
  - unfold replay_ok, buf_sz. simpl. split_and!; [lia | lia | done].
  - unfold unread. simpl. by rewrite Hrem.
Qed.
End replay.

(** ** A capture that is replayed *)

#[local] Existing Instance disk.

(** The second account is flushed, and the thread told to stop, while the first
    is being written. *)
Definition stopped : threads := after (two_buffers ++ [t_flush; t_main; t_stop]).

Lemma stopped_reach : rtc step begun stopped.
Proof. apply after_reach. vm_compute. by eexists. Qed.

Lemma capture_replayed_witness :
  log stopped = [upd1; upd2] /\ zfd_ (cap stopped) = [] /\
  exists c, run (run_cost (wpos stopped) (cap stopped)) (wpos stopped) (cap stopped) = Some c
    /\ replay_all 3 (new_replay (gz_open (zfd_ c))) = Some [seen upd1; seen upd2].
Proof.
  split_and!; [vm_compute; reflexivity | vm_compute; reflexivity |].
  exact (capture_replayed (H := disk) [] stopped I eq_refl stopped_reach eq_refl I).
Defined.

Lemma get_next_total_witness :
  (0 <= 56)%nat /\ exists ok r', get_next (mk_replay 0 (entry upd1) 0 ([] : bytes)) = Some (ok, r')
    /\ (pos_ r' <= length (buf_ r'))%nat /\ Z.of_nat (length (buf_ r')) <= buf_sz.
Proof. split; [lia|]. apply (get_next_total (H := disk)); [apply Nat.le_0_l | vm_compute; discriminate]. Defined.

(** A record cut short at the end of the file is not given out. *)
Example short_record : replay_all 3 (new_replay (entry upd1 ++ removelast (entry upd2))) = Some [seen upd1].
Proof. vm_compute. reflexivity. Qed.
