(* ===== verification/Calendar.v ===== *)
(** * Dates ([nsecs_to_utc6] of [pc/misc.cpp])

    The text of a time stamp in nanoseconds.  [gmtime_r] is the C library's: it is
    defined here over eras of 400 years, and shown to give the date of the
    Gregorian calendar, which [days_from_epoch] counts year by year and month by
    month. *)

From S2P Require Import Prelude Text.

(** ** The Gregorian calendar *)

Definition is_leap (y : Z) : bool := (y mod 4 =? 0) && (negb (y mod 100 =? 0) || (y mod 400 =? 0)).
Definition year_days (y : Z) : Z := if is_leap y then 366 else 365.
Definition month_days (leap : bool) (m : Z) : Z :=
  if m =? 2 then (if leap then 29 else 28)
  else if (m =? 4) || (m =? 6) || (m =? 9) || (m =? 11) then 30 else 31.
Definition days_in_month (y : Z) : Z -> Z := month_days (is_leap y).

(** The days of the years before [y], from year 1 on. *)
Definition days_before_year (y : Z) : Z :=
  let p := y - 1 in 365 * p + p / 4 - p / 100 + p / 400.
Definition months_days (leap : bool) (m : Z) : Z := foldr Z.add 0 (month_days leap <$> seqZ 1 (m - 1)).
Definition days_before_month (y : Z) : Z -> Z := months_days (is_leap y).
Definition days_from_epoch (y m d : Z) : Z :=
  days_before_year y - days_before_year 1970 + days_before_month y m + (d - 1).

Definition valid_date (y m d : Z) : Prop := 1 <= m <= 12 /\ 1 <= d <= days_in_month y m.
#[export] Instance valid_date_dec y m d : Decision (valid_date y m d).
Proof. unfold valid_date. apply _. Defined.

Lemma div_step y k : 0 < k -> y / k = (y - 1) / k + (if y mod k =? 0 then 1 else 0).
Proof.
  intros Hk. pose proof (Z.mod_pos_bound y k Hk) as Hb. pose proof (Z.div_mod y k ltac:(lia)) as E.
  destruct (Z.eqb_spec (y mod k) 0) as [Hm|Hm].
  - rewrite <- (Z.div_unique (y - 1) k (y / k - 1) (k - 1)); lia.
  - rewrite <- (Z.div_unique (y - 1) k (y / k) (y mod k - 1)); lia.
Qed.

(** The years are counted one by one. *)
Lemma days_before_next_year y : days_before_year (y + 1) = days_before_year y + year_days y.
Proof.
  unfold days_before_year, year_days, is_leap. replace (y + 1 - 1) with y by lia.
  rewrite (div_step y 4), (div_step y 100), (div_step y 400) by lia.
  assert (y mod 400 = 0 -> y mod 100 = 0) as H1 by (intros ?; Z.to_euclidean_division_equations; lia).
  assert (y mod 100 = 0 -> y mod 4 = 0) as H2 by (intros ?; Z.to_euclidean_division_equations; lia).
  destruct (Z.eqb_spec (y mod 4) 0), (Z.eqb_spec (y mod 100) 0), (Z.eqb_spec (y mod 400) 0); simpl; lia.
Qed.

Lemma is_leap_era y e : is_leap (y + 400 * e) = is_leap y.
Proof.
  unfold is_leap.
  replace (y + 400 * e) with (y + (100 * e) * 4) at 1 by lia. rewrite Z_mod_plus_full.
  replace (y + 400 * e) with (y + (4 * e) * 100) at 1 by lia. rewrite Z_mod_plus_full.
  replace (y + 400 * e) with (y + e * 400) by lia. by rewrite Z_mod_plus_full.
Qed.
Lemma days_in_month_era y e m : days_in_month (y + 400 * e) m = days_in_month y m.
Proof. unfold days_in_month. by rewrite is_leap_era. Qed.

Lemma days_from_epoch_era y e m d : days_from_epoch (y + 400 * e) m d = days_from_epoch y m d + 146097 * e.
Proof.
  unfold days_from_epoch, days_before_month. rewrite is_leap_era.
  unfold days_before_year. replace (y + 400 * e - 1) with (y - 1 + (100 * e) * 4) at 2 by lia.
  replace (y + 400 * e - 1) with (y - 1 + (4 * e) * 100) at 2 by lia.
  replace (y + 400 * e - 1) with (y - 1 + e * 400) at 2 by lia. rewrite !Z.div_add by lia. lia.
Qed.

(** ** [gmtime_r] *)

(** The date of a day of an era, which starts on a first of March. *)
Definition era_date (doe : Z) : Z * Z * Z :=
  let yoe := (doe - doe / 1460 + doe / 36524 - doe / 146096) / 365 in
  let doy := doe - (365 * yoe + yoe / 4 - yoe / 100) in
  let mp := (5 * doy + 2) / 153 in
  let m := if mp <? 10 then mp + 3 else mp - 9 in
  (if m <=? 2 then yoe + 1 else yoe, m, doy - (153 * mp + 2) / 5 + 1).

Record tm := mk_tm { tm_year : Z; tm_mon : Z; tm_mday : Z; tm_hour : Z; tm_min : Z; tm_sec : Z }.

Definition gmtime_r (ts : Z) : tm :=
  let z := ts / 86400 + 719468 in
  let '(y, m, d) := era_date (z mod 146097) in
  let s := ts mod 86400 in
  mk_tm (y + 400 * (z / 146097) - 1900) (m - 1) d (s / 3600) (s / 60 mod 60) (s mod 60).

(** The year: the quotient grows with the day, and it is that of the first and
    of the last day. *)
Definition era_year (doe : Z) : Z := (doe - doe / 1460 + doe / 36524 - doe / 146096) / 365.

Fixpoint all_from (f : Z -> bool) (n : nat) (z : Z) : bool :=
  match n with O => true | S n' => f z && all_from f n' (z + 1) end.

Lemma all_from_true f n z d : all_from f n z = true -> z <= d < z + Z.of_nat n -> f d = true.
Proof.
  revert z. induction n as [|n IH]; intros z E Hd; [lia|]. apply andb_prop in E as [Ef E].
  destruct (decide (d = z)) as [->|]; [done|]. apply (IH (z + 1) E). lia.
Qed.

Lemma era_year_step doe : era_year doe <= era_year (doe + 1).
Proof. apply Z.div_le_mono; [lia|]. Z.to_euclidean_division_equations. lia. Qed.

Lemma era_year_mono a b : a <= b -> era_year a <= era_year b.
Proof.
  intros Hab. replace b with (a + Z.of_nat (Z.to_nat (b - a))) by lia.
  induction (Z.to_nat (b - a)) as [|n IH]; [by replace (a + Z.of_nat 0) with a by lia|].
  replace (a + Z.of_nat (S n)) with (a + Z.of_nat n + 1) by lia. etrans; [exact IH | apply era_year_step].
Qed.

Definition year_check (y : Z) : bool :=
  (era_year (days_before_year (y + 1)) =? y) && (era_year (days_before_year (y + 2) - 1) =? y).
Lemma years_checked : all_from year_check 400 0 = true.
Proof. vm_compute. reflexivity. Qed.

Lemma era_year_ok y doe :
  0 <= y < 400 -> days_before_year (y + 1) <= doe < days_before_year (y + 2) -> era_year doe = y.
Proof.
  intros Hy Hd. pose proof (all_from_true _ _ _ y years_checked ltac:(lia)) as E.
  apply andb_prop in E as [E1%Z.eqb_eq E2%Z.eqb_eq].
  pose proof (era_year_mono _ _ (proj1 Hd)). pose proof (era_year_mono doe (days_before_year (y + 2) - 1) ltac:(lia)). lia.
Qed.

(** Every day is in a year. *)
Lemma year_of_day n doe : 0 <= doe < days_before_year (Z.of_nat n + 1) ->
  exists y, 0 <= y < Z.of_nat n /\ days_before_year (y + 1) <= doe < days_before_year (y + 2).
Proof.
  induction n as [|n IH]; intros Hd; [change (days_before_year (Z.of_nat 0 + 1)) with 0 in Hd; lia|].
  destruct (decide (doe < days_before_year (Z.of_nat n + 1))) as [Hlt|Hge].
  - destruct (IH ltac:(lia)) as (y & Hy & Hb). exists y. split; [lia | done].
  - exists (Z.of_nat n). split; [lia|]. replace (Z.of_nat n + 2) with (Z.of_nat (S n) + 1) by lia. lia.
Qed.

(** The months, from March on, of a year and of the next one. *)
Definition month_check (leap next : bool) (doy : Z) : bool :=
  let mp := (5 * doy + 2) / 153 in
  let m := if mp <? 10 then mp + 3 else mp - 9 in
  let d := doy - (153 * mp + 2) / 5 + 1 in
  let l := if m <=? 2 then next else leap in
  (1 <=? m) && (m <=? 12) && (1 <=? d) && (d <=? month_days l m)
  && (months_days l m + (d - 1) =? doy - 306 + (if m <=? 2 then 0 else if leap then 366 else 365)).
Lemma months_checked leap next : all_from (month_check leap next) (if next then 366 else 365) 0 = true.
Proof. destruct leap, next; vm_compute; reflexivity. Qed.

Lemma era_date_ok doe : 0 <= doe < 146097 ->
  let '(y, m, d) := era_date doe in
  0 <= y <= 400 /\ valid_date y m d /\ days_from_epoch y m d = doe - 719468.
Proof.
  intros Hd. destruct (year_of_day 400 doe Hd) as (y & Hy & Hb). pose proof (era_year_ok y doe Hy Hb) as Ey.
  unfold era_date. fold (era_year doe). rewrite Ey.
  pose proof (days_before_next_year y) as En. pose proof (days_before_next_year (y + 1)) as En'.
  replace (y + 1 + 1) with (y + 2) in En' by lia. unfold year_days in En, En'.
  assert (365 * y + y / 4 - y / 100 = days_before_year (y + 1)) as Es.
  { unfold days_before_year. replace (y + 1 - 1) with y by lia. rewrite (Z.div_small y 400) by lia. lia. }
  rewrite Es. set (doy := doe - days_before_year (y + 1)) in *.
  assert (month_check (is_leap y) (is_leap (y + 1)) doy = true) as E.
  { apply (all_from_true _ _ _ _ (months_checked (is_leap y) (is_leap (y + 1)))). unfold doy. destruct (is_leap (y + 1)); lia. }
  unfold month_check in E. set (mp := (5 * doy + 2) / 153) in *.
  set (m := if mp <? 10 then mp + 3 else mp - 9) in *. set (d := doy - (153 * mp + 2) / 5 + 1) in *.
  rewrite !andb_true_iff, !Z.leb_le, Z.eqb_eq in E. destruct E as [[[[H1 H2] H3] H4] H5].
  assert (is_leap (if m <=? 2 then y + 1 else y) = if m <=? 2 then is_leap (y + 1) else is_leap y) as El by (by destruct (m <=? 2)).
  unfold valid_date, days_in_month, days_from_epoch, days_before_month. rewrite El. split_and!; [destruct (m <=? 2); lia..|].
  change (days_before_year 1970) with 719162. destruct (m <=? 2); unfold doy in *; destruct (is_leap y); lia.
Qed.

(** The second of a date and a time. *)
Definition timegm (t : tm) : Z :=
  days_from_epoch (tm_year t + 1900) (tm_mon t + 1) (tm_mday t) * 86400
  + tm_hour t * 3600 + tm_min t * 60 + tm_sec t.

(** The date is one of the calendar, and it is that of the second. *)
Lemma gmtime_r_ok ts :
  let t := gmtime_r ts in
  valid_date (tm_year t + 1900) (tm_mon t + 1) (tm_mday t)
  /\ 0 <= tm_hour t < 24 /\ 0 <= tm_min t < 60 /\ 0 <= tm_sec t < 60 /\ timegm t = ts.
Proof.
  unfold gmtime_r. set (z := ts / 86400 + 719468). pose proof (era_date_ok (z mod 146097) (Z.mod_pos_bound z 146097 ltac:(done))) as Hd.
  destruct (era_date (z mod 146097)) as [[y m] d]. destruct Hd as (_ & Hv & Hd). unfold timegm. simpl.
  replace (y + 400 * (z / 146097) - 1900 + 1900) with (y + 400 * (z / 146097)) by lia.
  replace (m - 1 + 1) with m by lia. rewrite days_from_epoch_era, Hd. split_and!; try (Z.to_euclidean_division_equations; lia).
  unfold valid_date in *. by rewrite days_in_month_era.
Qed.

Lemma gmtime_year ts : 0 <= ts < 9223372037 -> 0 <= tm_year (gmtime_r ts) + 1900 < 10000.
Proof.
  intros Hts. unfold gmtime_r. set (z := ts / 86400 + 719468).
  pose proof (era_date_ok (z mod 146097) (Z.mod_pos_bound z 146097 ltac:(done))) as Hd.
  destruct (era_date (z mod 146097)) as [[y m] d]. destruct Hd as (Hy & _). simpl.
  assert (0 <= z / 146097 < 10); [|lia]. unfold z. Z.to_euclidean_division_equations. lia.
Qed.

Lemma month_length y m : days_in_month y m <= 31.
Proof. unfold days_in_month, month_days. repeat case_match; lia. Qed.

(** ** [nsecs_to_utc6] *)

Definition nsecs_to_utc6 (ts : Z) : bytes :=
  let nsecs := Z.rem ts PC_NSECS_IN_SEC in
  let ts := Z.quot ts PC_NSECS_IN_SEC in
  let t := gmtime_r ts in
  uint_to_str4 (tm_year t + 1900) ++ bs "-" ++ uint_to_str2 (tm_mon t + 1) ++ bs "-" ++ uint_to_str2 (tm_mday t)
  ++ bs "T" ++ uint_to_str2 (tm_hour t) ++ bs ":" ++ uint_to_str2 (tm_min t) ++ bs ":" ++ uint_to_str2 (tm_sec t)
  ++ bs "." ++ uint_to_str6 (Z.quot nsecs 1000) ++ bs "Z".

(** A reader of the text: the microsecond it names. *)
Definition decimal (l : bytes) : Z := foldl (fun a c => 10 * a + (c - 48)) 0 l.
Definition read_utc6 (l : bytes) : Z :=
  timegm (mk_tm (decimal (slice 0 4 l) - 1900) (decimal (slice 5 2 l) - 1) (decimal (slice 8 2 l))
            (decimal (slice 11 2 l)) (decimal (slice 14 2 l)) (decimal (slice 17 2 l))) * 1000000
  + decimal (slice 20 6 l).

(** ** The text *)

Lemma foldl_put_fixed n v acc a :
  0 <= v < 10 ^ Z.of_nat n ->
  foldl (fun a c => 10 * a + (c - 48)) a (put_fixed n v acc)
  = foldl (fun a c => 10 * a + (c - 48)) (a * 10 ^ Z.of_nat n + v) acc.
Proof.
  revert v acc a. induction n as [|n IH]; intros v acc a Hv.
  - simpl. f_equal. simpl in Hv. lia.
  - rewrite Nat2Z.inj_succ, Z.pow_succ_r in * by lia. simpl.
    rewrite Z.quot_div_nonneg, Z.rem_mod_nonneg by lia. rewrite IH by (Z.to_euclidean_division_equations; lia).
    simpl. f_equal. rewrite wrap_small by (unfold in_u; Z.to_euclidean_division_equations; lia).
    pose proof (Z.div_mod v 10 ltac:(done)). lia.
Qed.

Lemma decimal_fixed n v : 0 <= v < 10 ^ Z.of_nat n -> decimal (put_fixed n v []) = v.
Proof. intros. unfold decimal. by rewrite foldl_put_fixed. Qed.

Lemma length_put_fixed n v acc : length (put_fixed n v acc) = (n + length acc)%nat.
Proof. revert v acc. induction n as [|n IH]; intros; simpl; [done|]. rewrite IH. simpl. lia. Qed.

(** The fields of the text, each at its place. *)
Lemma utc6_fields (y mo d h mi s us : bytes) :
  length y = 4%nat -> length mo = 2%nat -> length d = 2%nat -> length h = 2%nat -> length mi = 2%nat ->
  length s = 2%nat -> length us = 6%nat ->
  let t := y ++ bs "-" ++ mo ++ bs "-" ++ d ++ bs "T" ++ h ++ bs ":" ++ mi ++ bs ":" ++ s ++ bs "." ++ us ++ bs "Z" in
  length t = 27%nat /\ slice 0 4 t = y /\ slice 5 2 t = mo /\ slice 8 2 t = d /\ slice 11 2 t = h
  /\ slice 14 2 t = mi /\ slice 17 2 t = s /\ slice 20 6 t = us.
Proof.
  intros Hy Hmo Hd Hh Hmi Hs Hus.
  repeat match goal with
  | H : length ?l = S _ |- _ => destruct l; [discriminate H | simpl in H; injection H as H]
  | H : length ?l = 0%nat |- _ => apply nil_length_inv in H; subst l
  end.
  simpl. by repeat split.
Qed.

(** The text of a time stamp has 27 characters and names its microsecond. *)
Theorem utc6_text ts :
  0 <= ts < 2 ^ 63 -> length (nsecs_to_utc6 ts) = 27%nat /\ read_utc6 (nsecs_to_utc6 ts) = ts / 1000.
Proof.
  intros Hts. unfold nsecs_to_utc6, PC_NSECS_IN_SEC. rewrite Z.quot_div_nonneg, Z.rem_mod_nonneg by lia.
  pose proof (Z.mod_pos_bound ts 1000000000 ltac:(done)) as Hn. rewrite Z.quot_div_nonneg by lia.
  set (sec := ts / 1000000000). pose proof (gmtime_r_ok sec) as Ht. pose proof (gmtime_year sec) as Hyr.
  cbv zeta in Ht. remember (gmtime_r sec) as t eqn:Eq. clear Eq. destruct Ht as ([Hm Hd] & Hh & Hmi & Hs & Et).
  assert (0 <= sec < 9223372037) as Hsec by (unfold sec; Z.to_euclidean_division_equations; lia).
  specialize (Hyr Hsec). pose proof (month_length (tm_year t + 1900) (tm_mon t + 1)) as Hml.
  assert (0 <= ts mod 1000000000 / 1000 < 1000000) as Hus by (Z.to_euclidean_division_equations; lia).
  destruct (utc6_fields (uint_to_str4 (tm_year t + 1900)) (uint_to_str2 (tm_mon t + 1)) (uint_to_str2 (tm_mday t))
    (uint_to_str2 (tm_hour t)) (uint_to_str2 (tm_min t)) (uint_to_str2 (tm_sec t))
    (uint_to_str6 (ts mod 1000000000 / 1000))) as (E & E1 & E2 & E3 & E4 & E5 & E6 & E7);
    [unfold uint_to_str4, uint_to_str2, uint_to_str6; by rewrite length_put_fixed..|].
  split; [exact E|]. unfold read_utc6. rewrite E1, E2, E3, E4, E5, E6, E7.
  unfold uint_to_str4, uint_to_str2, uint_to_str6. rewrite !decimal_fixed by (simpl Z.of_nat; lia).
  replace (mk_tm _ _ _ _ _ _) with t by (destruct t; simpl; f_equal; lia). rewrite Et.
  pose proof (Z.div_mod ts 1000000000 ltac:(done)) as Ed. fold sec in Ed. rewrite Ed at 2.
  replace (1000000000 * sec + ts mod 1000000000) with (ts mod 1000000000 + (1000000 * sec) * 1000) by lia.
  rewrite Z.div_add by done. lia.
Qed.

Lemma utc6_text_witness : 0 <= 1600000000123456789 < 2 ^ 63
  /\ nsecs_to_utc6 1600000000123456789 = bs "2020-09-13T12:26:40.123456Z"
  /\ read_utc6 (nsecs_to_utc6 1600000000123456789) = 1600000000123456.
Proof.
  assert (0 <= 1600000000123456789 < 2 ^ 63) as H by lia.
  split; [exact H|]. split; [vm_compute; reflexivity|]. exact (proj2 (utc6_text 1600000000123456789 H)).
Defined.
