(* ===== verification/Reconnect.v ===== *)
(** * Connecting and reconnecting ([tcp_connect], [ws_connect], [tx_connect] of
    [pc/net_socket.cpp])

    A connection is opened without blocking: [init] starts it, [check] asks
    whether it stands.  Three owners keep connections up with the same machine:
    [tx_connect] itself, the manager and the transaction server.  It tries again
    after a time that doubles with every failure.  What the system calls return
    and what the clock says are inputs.  [Link] is what the machine needs of the
    connections it keeps. *)

From S2P Require Text.
From S2P Require Import Prelude.

Import Text (PC_NSECS_IN_SEC).
Definition PC_RECONNECT_TIMEOUT : Z := 120 * PC_NSECS_IN_SEC.

(** ** [tcp_connect] *)

Record tcp_connect := mk_tcp_connect { wait_ : bool; sts_ : Z; terr_ : bool }.
Definition new_tcp_connect : tcp_connect := mk_tcp_connect false 0 false.
Definition timeout_ : Z := 10000000000.

(** How [init] ends: no socket, no address for the host, connected at once, in
    progress since a time, refused. *)
Inductive init_rc := no_socket | no_host | connected | in_progress (now : Z) | refused.
Definition tcp_init (rc : init_rc) (c : tcp_connect) : tcp_connect * bool :=
  match rc with
  | no_socket | no_host | refused => (mk_tcp_connect false (sts_ c) true, false)
  | connected => (mk_tcp_connect false (sts_ c) false, true)
  | in_progress now => (mk_tcp_connect true now false, true)
  end.

(** What [select] says: ready, with the socket's error, failed, or nothing yet
    at a time. *)
Inductive check_rc := sel_ready (so_error : bool) | sel_fail | sel_none (now : Z).
Definition tcp_check (rc : check_rc) (c : tcp_connect) : tcp_connect :=
  if negb (wait_ c) then c else
  match rc with
  | sel_ready e => mk_tcp_connect false (sts_ c) (terr_ c || e)
  | sel_fail => mk_tcp_connect false (sts_ c) true
  | sel_none now =>
      if timeout_ <? now - sts_ c then mk_tcp_connect false (sts_ c) true else c
  end.

(** ** [ws_connect]: the handshake on top *)

Record ws_link := mk_ws_link { ws_tcp : tcp_connect; hs_ : bool }.
Definition new_ws_link : ws_link := mk_ws_link new_tcp_connect false.
Definition ws_init (rc : init_rc) (c : ws_link) : ws_link :=
  let '(t, ok) := tcp_init rc (ws_tcp c) in
  if ok then mk_ws_link t false else mk_ws_link t (hs_ c).

(** What polling brings: nothing, the status of the response, a failed read. *)
Inductive poll_rc := p_none | p_status (st : Z) | p_fail.
Definition parse_status (st : Z) (c : ws_link) : ws_link :=
  let t := ws_tcp c in
  mk_ws_link (mk_tcp_connect (wait_ t) (sts_ t) (if st =? 101 then terr_ t else true)) true.
Definition ws_poll (rc : poll_rc) (c : ws_link) : ws_link :=
  match rc with
  | p_none => c
  | p_status st => parse_status st c
  | p_fail => mk_ws_link (mk_tcp_connect (wait_ (ws_tcp c)) (sts_ (ws_tcp c)) true) (hs_ c)
  end.
Definition ws_check (rc : check_rc) (prc : poll_rc) (c : ws_link) : ws_link :=
  let c := mk_ws_link (tcp_check rc (ws_tcp c)) (hs_ c) in
  if negb (wait_ (ws_tcp c)) && negb (terr_ (ws_tcp c)) then ws_poll prc c else c.
Definition ws_is_wait (c : ws_link) : bool := wait_ (ws_tcp c) || (negb (terr_ (ws_tcp c)) && negb (hs_ c)).

(** ** What is kept connected *)

(** [E] is what the system calls of one turn return. *)
Class Link (C E : Type) := {
  get_is_wait : C -> bool;
  get_is_err : C -> bool;
  check : E -> C -> C;
  init : E -> C -> C
}.

Record tcp_env := mk_tcp_env { e_check : check_rc; e_init : init_rc }.
#[export] Instance tcp_link : Link tcp_connect tcp_env := {
  get_is_wait := wait_; get_is_err := terr_;
  check e := tcp_check (e_check e);
  init e c := (tcp_init (e_init e) c).1 }.

(** The RPC connections: HTTP, and the web socket if there is one. *)
Record rpc_env := mk_rpc_env { e_http : tcp_env; e_ws : tcp_env; e_poll : poll_rc }.
Record rpc_conns := mk_rpc_conns { hconn_ : tcp_connect; wconn_ : option ws_link }.
#[export] Instance rpc_link : Link rpc_conns rpc_env := {
  get_is_wait c := wait_ (hconn_ c) || match wconn_ c with Some w => ws_is_wait w | None => false end;
  get_is_err c := terr_ (hconn_ c) || match wconn_ c with Some w => terr_ (ws_tcp w) | None => false end;
  check e c :=
    mk_rpc_conns (if wait_ (hconn_ c) then tcp_check (e_check (e_http e)) (hconn_ c) else hconn_ c)
      ((fun w => if ws_is_wait w then ws_check (e_check (e_ws e)) (e_poll e) w else w) <$> wconn_ c);
  init e c :=
    mk_rpc_conns (tcp_init (e_init (e_http e)) (hconn_ c)).1 (ws_init (e_init (e_ws e)) <$> wconn_ c) }.

(** ** The machine *)

(** The result of a turn; [down] tells that a standing connection was lost. *)
Inductive outcome := o_wait | o_connected | o_idle (down : bool) | o_retry (down : bool).

Section reconnect.
Context {C E : Type} `{Link C E}.

Record reconn := mk_reconn {
  link : C; has_conn_ : bool; wait_conn_ : bool; cts_ : Z; ctimeout_ : Z }.
Definition new_reconn (c : C) (wait : bool) : reconn := mk_reconn c false wait 0 PC_NSECS_IN_SEC.

(** One turn at time [ts]; [tx] for [tx_connect], which keeps [wait_conn_] when
    connected. *)
Definition reconnect (tx : bool) (ts : Z) (e : E) (r : reconn) : outcome * reconn :=
  let c := if get_is_wait (link r) then check e (link r) else link r in
  if get_is_wait c then (o_wait, mk_reconn c (has_conn_ r) (wait_conn_ r) (cts_ r) (ctimeout_ r))
  else if negb (get_is_err c) then
    (o_connected, mk_reconn c true (tx && wait_conn_ r) (cts_ r) PC_NSECS_IN_SEC)
  else if ts - cts_ r <? ctimeout_ r then
    (o_idle (has_conn_ r), mk_reconn c false false (cts_ r) (ctimeout_ r))
  else
    (o_retry (has_conn_ r),
     mk_reconn (init e c) false true ts (Z.min (ctimeout_ r + ctimeout_ r) PC_RECONNECT_TIMEOUT)).

(** The outcomes of a sequence of turns, with their times. *)
Fixpoint run (tx : bool) (es : list (Z * E)) (r : reconn) : list (Z * outcome) * reconn :=
  match es with
  | [] => ([], r)
  | (ts, e) :: es' =>
      let '(o, r) := reconnect tx ts e r in
      let '(tr, r) := run tx es' r in ((ts, o) :: tr, r)
  end.

(** The time of the last attempt of a trace, and the attempts since the last
    success. *)
Fixpoint last_retry (tr : list (Z * outcome)) : option Z :=
  match tr with
  | [] => None
  | (ts, o) :: tr' =>
      match last_retry tr', o with Some t, _ => Some t | None, o_retry _ => Some ts | None, _ => None end
  end.
Definition streak_step (k : nat) (o : outcome) : nat :=
  match o with o_retry _ => S k | o_connected => 0 | _ => k end.
Definition streak (tr : list (Z * outcome)) : nat := foldl streak_step 0%nat (snd <$> tr).

Definition wait_after (k : nat) : Z := Z.min (2 ^ Z.of_nat k * PC_NSECS_IN_SEC) PC_RECONNECT_TIMEOUT.

Lemma wait_after_S k : wait_after (S k) = Z.min (wait_after k + wait_after k) PC_RECONNECT_TIMEOUT.
Proof.
  unfold wait_after. rewrite Nat2Z.inj_succ, Z.pow_succ_r by lia.
  pose proof (Z.pow_pos_nonneg 2 (Z.of_nat k) ltac:(lia) ltac:(lia)).
  unfold PC_RECONNECT_TIMEOUT, PC_NSECS_IN_SEC. lia.
Qed.

Lemma wait_after_bounds k : PC_NSECS_IN_SEC <= wait_after k <= PC_RECONNECT_TIMEOUT.
Proof.
  unfold wait_after. pose proof (Z.pow_pos_nonneg 2 (Z.of_nat k) ltac:(lia) ltac:(lia)).
  unfold PC_RECONNECT_TIMEOUT, PC_NSECS_IN_SEC. lia.
Qed.

Lemma reconnect_timeout tx ts e r k :
  ctimeout_ r = wait_after k ->
  let '(o, r') := reconnect tx ts e r in
  ctimeout_ r' = wait_after (streak_step k o)
  /\ cts_ r' = (match o with o_retry _ => ts | _ => cts_ r end).
Proof.
  intros Hk. unfold reconnect. destruct (get_is_wait _); [done|]. destruct (negb _).
  { split; [reflexivity | done]. }
  destruct (_ <? _); [done|]. cbn [ctimeout_ cts_ streak_step]. rewrite wait_after_S, Hk. done.
Qed.

Lemma run_state tx es r k t0 tr r' :
  ctimeout_ r = wait_after k -> cts_ r = t0 -> run tx es r = (tr, r') ->
  ctimeout_ r' = wait_after (foldl streak_step k (snd <$> tr))
  /\ cts_ r' = default t0 (last_retry tr).
Proof.
  revert r k t0 tr. induction es as [|[ts e] es IH]; intros r k t0 tr Hk Ht; simpl.
  { intros [= <- <-]. done. }
  pose proof (reconnect_timeout tx ts e r k Hk) as Hst. destruct (reconnect tx ts e r) as [o r1].
  destruct Hst as [H1 H2]. destruct (run tx es r1) as [tr1 r2] eqn:Er. intros [= <- <-].
  destruct (IH r1 _ _ _ H1 eq_refl Er) as [H3 H4]. split; [exact H3|]. rewrite H4. simpl.
  destruct (last_retry tr1); [done|]. rewrite H2, Ht. by destruct o.
Qed.

Lemma reconnect_retry tx ts e r d r' :
  reconnect tx ts e r = (o_retry d, r') -> ctimeout_ r <= ts - cts_ r.
Proof.
  unfold reconnect. destruct (get_is_wait _); [done|]. destruct (negb _); [done|].
  destruct (Z.ltb_spec (ts - cts_ r) (ctimeout_ r)); [done | lia].
Qed.

(** After [k] attempts without success the next comes no sooner than [2^k]
    seconds, or 120, after the last. *)
Theorem retry_spacing tx c wait es tr r ts e d r' t :
  run tx es (new_reconn c wait) = (tr, r) -> reconnect tx ts e r = (o_retry d, r') ->
  last_retry tr = Some t -> wait_after (streak tr) <= ts - t.
Proof.
  intros Hr Hre Ht. apply (run_state _ _ _ 0 0) in Hr as [H1 H2]; [|reflexivity..].
  rewrite Ht in H2. cbn [default] in H2. pose proof (reconnect_retry _ _ _ _ _ _ Hre) as H3.
  unfold streak. rewrite H1, H2 in H3. exact H3.
Qed.

Lemma run_bounds tx c wait es tr r :
  run tx es (new_reconn c wait) = (tr, r) -> PC_NSECS_IN_SEC <= ctimeout_ r <= PC_RECONNECT_TIMEOUT.
Proof.
  intros Hr. apply (run_state _ _ _ 0 0) in Hr as [-> _]; [|reflexivity..].
  apply wait_after_bounds.
Qed.
End reconnect.
Arguments reconn : clear implicits.

(** ** [tx_connect] *)

Inductive tx_event := ev_on_connect | ev_on_disconnect.
Definition tx_connect : Type := reconn tcp_connect.
Definition new_tx_connect : tx_connect := new_reconn new_tcp_connect true.
Definition get_is_connect (t : tx_connect) : bool := has_conn_ t.
Definition outcome_events (o : outcome) : list tx_event :=
  match o with
  | o_connected => [ev_on_connect]
  | o_idle true | o_retry true => [ev_on_disconnect]
  | _ => []
  end.
Definition tx_reconnect (ts : Z) (e : tcp_env) (t : tx_connect) : tx_connect * list tx_event :=
  let '(o, t) := reconnect true ts e t in (t, outcome_events o).

(** The time [check] reads, when it reads one. *)
Definition check_time (rc : check_rc) (dflt : Z) : Z := match rc with sel_none now => now | _ => dflt end.

(** (C29) The proxy connection is never stuck: once 10 s have passed since the
    connection was started and 120 s since the last attempt, a turn finds it
    connected or tries again. *)
Theorem tx_never_stuck es tr t ts e :
  run true es new_tx_connect = (tr, t) ->
  PC_RECONNECT_TIMEOUT <= ts - cts_ t -> timeout_ < check_time (e_check e) ts - sts_ (link t) ->
  let t' := (tx_reconnect ts e t).1 in
  get_is_connect t' = true \/ (cts_ t' = ts /\ link t' = (tcp_init (e_init e) (link t')).1).
Proof.
  intros Hr Hcts Hsts. pose proof (run_bounds _ _ _ _ _ _ Hr) as Hb.
  unfold tx_reconnect, reconnect. set (c := if get_is_wait (link t) then _ else _).
  assert (get_is_wait c = false) as Hw.
  { subst c. cbn [get_is_wait tcp_link check]. destruct (wait_ (link t)) eqn:E; [|done].
    unfold tcp_check. rewrite E. simpl. destruct (e_check e) as [| |now]; try done.
    cbn [check_time] in Hsts. destruct (Z.ltb_spec timeout_ (now - sts_ (link t))); [done | lia]. }
  rewrite Hw. destruct (negb (get_is_err c)); [by left|].
  destruct (Z.ltb_spec (ts - cts_ t) (ctimeout_ t)); [lia|]. right. split; [done|].
  cbn [fst link]. change (init e c) with (tcp_init (e_init e) c).1. by destruct (e_init e).
Qed.

(** ** The handshake has no time-out

    Once its TCP connection stands, a web socket whose server does not answer is
    waited for, however long. *)
Lemma handshake_waits (es : list (Z * rpc_env)) (r : reconn rpc_conns) h w :
  link r = mk_rpc_conns h (Some w) -> wait_ h = false ->
  wait_ (ws_tcp w) = false -> terr_ (ws_tcp w) = false -> hs_ w = false ->
  Forall (fun x => e_poll x.2 = p_none) es ->
  Forall (fun x => x.2 = o_wait) (run false es r).1.
Proof.
  intros Hl Hh Hw He Hhs Hes. revert r Hl. induction Hes as [|[ts e] es Hp Hes IH]; intros r Hl; [constructor|].
  assert (ws_is_wait w = true) as Hww by (unfold ws_is_wait; by rewrite Hw, He, Hhs).
  assert (check e (mk_rpc_conns h (Some w)) = mk_rpc_conns h (Some w)) as Hc.
  { cbn [check rpc_link hconn_ wconn_ fmap option_fmap option_map]. rewrite Hh, Hww. do 2 f_equal.
    unfold ws_check, tcp_check. rewrite Hw. cbn [negb ws_tcp]. rewrite Hw, He. cbn. cbn in Hp. rewrite Hp. by destruct w. }
  assert (get_is_wait (mk_rpc_conns h (Some w)) = true) as Hgw
    by (cbn [get_is_wait rpc_link hconn_ wconn_]; rewrite Hww; apply orb_true_r).
  simpl. unfold reconnect at 1. rewrite Hl, Hgw, Hc, Hgw.
  match goal with |- context [run false es ?r] => specialize (IH r eq_refl); destruct (run false es r) end.
  constructor; done.
Qed.

(** ** Witnesses *)

(** Two failed attempts; the third comes four seconds after the second. *)
Definition fail_env : tcp_env := mk_tcp_env sel_fail refused.
Definition sec (n : Z) : Z := n * PC_NSECS_IN_SEC.
Definition fail_start : reconn tcp_connect := new_reconn (mk_tcp_connect true 0 false) true.
Definition fail_turns : list (Z * tcp_env) :=
  [(sec 1, fail_env); (sec 2, fail_env); (sec 3, fail_env); (sec 6, fail_env)].
Definition fail_run := run false fail_turns fail_start.

Lemma retry_spacing_witness :
  last_retry fail_run.1 = Some (sec 3) /\ streak fail_run.1 = 2%nat
  /\ wait_after (streak fail_run.1) <= sec 7 - sec 3.
Proof.
  split; [vm_compute; reflexivity|]. split; [vm_compute; reflexivity|].
  apply (retry_spacing false (mk_tcp_connect true 0 false) true fail_turns fail_run.1 fail_run.2 (sec 7) fail_env
           false (reconnect false (sec 7) fail_env fail_run.2).2 (sec 3)); vm_compute; reflexivity.
Defined.

Lemma tx_never_stuck_witness :
  exists tr t, run true [(sec 1, mk_tcp_env (sel_ready false) (in_progress 0))] new_tx_connect = (tr, t)
    /\ get_is_connect (tx_reconnect (sec 500) (mk_tcp_env (sel_none (sec 500)) (in_progress (sec 500))) t).1 = true.
Proof.
  do 2 eexists. split; [reflexivity|].
  destruct (tx_never_stuck [(sec 1, mk_tcp_env (sel_ready false) (in_progress 0))] _ _ (sec 500)
              (mk_tcp_env (sel_none (sec 500)) (in_progress (sec 500))) eq_refl) as [H|[H _]].
  - vm_compute. congruence.
  - vm_compute. reflexivity.
  - exact H.
  - vm_compute in H. discriminate H.
Defined.
