(* ===== verification/TxSvr.v ===== *)
(** * The transaction proxy ([tx_user], [tx_svr] of [pcapps/tx_svr.cpp], the
    requests of [pcapps/tx_rpc_client.cpp], [ip_addr] of [pc/net_socket.cpp])

    Clients send transactions with a four-byte header over TCP; the proxy sends
    each of them to the leaders of the slots around the current one, whose
    addresses it learns over RPC.  Datagrams, RPC requests and the reset of the
    RPC client are recorded in order; the JSON of the requests is that of
    [treq_json].  Users are linked in the lists of [DblList]; a pointer to a
    user that was deleted has no result. *)

From S2P Require Text DblList JTree Bincode.
From S2P Require Import Prelude NetConnect JsonWtr KeyPair Reconnect.
Import JTree (jtree, find_val, get_str, get_uint, get_int, get_first, get_next).
Import DblList (dbl_list, prev_next, ptr).

(** ** Addresses *)

Section addr.
(** [inet_addr] of the C library: the address of a dotted text. *)
Context (inet_addr : bytes -> Z).

(** The text up to the first colon, and what is behind it. *)
Fixpoint until_colon (s : bytes) : option (bytes * bytes) :=
  match s with
  | [] => None
  | c :: s' => if c =? 58 then Some ([], s') else '(a, b) ← until_colon s'; Some (c :: a, b)
  end.

Definition AF_INET : Z := 2.
Definition sockaddr_in (port addr : Z) : bytes :=
  le_bytes 2 AF_INET ++ rev (le_bytes 2 port) ++ le_bytes 4 addr ++ replicate 8 0.

(** The constructor from text: the host is copied into 64 bytes. *)
Definition ip_addr (ap : bytes) : option bytes :=
  match until_colon ap with
  | Some (h, p) =>
      if (length h <? 64)%nat then Some (sockaddr_in (u16 (Text.str_to_int p)) (inet_addr h)) else None
  | None => if (length ap <=? 64)%nat then Some (sockaddr_in 0 0) else None
  end.
Definition ip_zero : bytes := replicate 16 0.
(** [operator==], by words. *)
Definition ip_eqb (a b : bytes) : bool :=
  (of_le (slice 0 8 a) =? of_le (slice 0 8 b)) && (of_le (slice 8 8 a) =? of_le (slice 8 8 b)).

(** ** Requests *)

(** What the requests inherit from [rpc_request]. *)
Record treq := mk_treq { sent_ts_ : Z; recv_ts_ : Z; rerr_ : option bytes; err_code_ : Z }.
Definition new_treq : treq := mk_treq 0 0 None 0.
Definition get_is_recv (r : treq) : bool := sent_ts_ r <=? recv_ts_ r.
Definition set_sent (now : Z) (r : treq) : treq := mk_treq now (recv_ts_ r) (rerr_ r) (err_code_ r).
Definition set_recv (now : Z) (r : treq) : treq := mk_treq (sent_ts_ r) now (rerr_ r) (err_code_ r).
Definition set_rerr (e : option bytes) (r : treq) : treq := mk_treq (sent_ts_ r) (recv_ts_ r) e (err_code_ r).

Record slot_leaders := mk_slot_leaders {
  lbase : treq; rslot_ : Z; limit_ : Z; lslot_ : Z; lvec_ : list bytes }.
Definition PC_LEADER_MAX : Z := 256.
Definition PC_LEADER_MIN : Z := 32.
Definition PC_HBEAT_INTERVAL : Z := 16.
Definition new_slot_leaders : slot_leaders := mk_slot_leaders new_treq 0 PC_LEADER_MAX 0 [].
Definition get_last_slot (l : slot_leaders) : Z := u64 (lslot_ l + limit_ l).
Definition get_leader (slot : Z) (l : slot_leaders) : option bytes :=
  let idx := u64 (slot - lslot_ l) in
  if idx <? Z.of_nat (length (lvec_ l)) then lvec_ l !! Z.to_nat idx else None.
Definition set_lbase (b : treq) (l : slot_leaders) : slot_leaders :=
  mk_slot_leaders b (rslot_ l) (limit_ l) (lslot_ l) (lvec_ l).
Definition set_rslot (s : Z) (l : slot_leaders) : slot_leaders :=
  mk_slot_leaders (lbase l) s (limit_ l) (lslot_ l) (lvec_ l).

(** The request an RPC event sends. *)
Inductive treq_kind := q_health | q_slots | q_nodes | q_leaders (slot limit : Z).
#[export] Instance treq_kind_eq_dec : EqDecision treq_kind.
Proof. solve_decision. Defined.
Definition treq_json (q : treq_kind) (w : json_wtr) : option json_wtr :=
  match q with
  | q_health => Some (add_key_str (bs "method") (bs "getHealth") w)
  | q_slots => Some (add_key_str (bs "method") (bs "slotSubscribe") w)
  | q_nodes => Some (add_key_str (bs "method") (bs "getClusterNodes") w)
  | q_leaders slot limit =>
      let w := add_key_str (bs "method") (bs "getSlotLeaders") w in
      pop (add_val_uint limit (add_val_uint slot (add_key_type (bs "params") e_arr w)))
  end.

(** ** State *)

Inductive svr_event := ev_udp (addr payload : bytes) | ev_rpc (q : treq_kind) | ev_rpc_reset.
#[export] Instance svr_event_eq_dec : EqDecision svr_event.
Proof. solve_decision. Defined.

Record tx_svr := mk_tx_svr {
  conns : reconn rpc_conns; slot_ : Z; slot_cnt_ : Z; avec_ : list bytes;
  hreq_ : treq; sreq_ : treq; creq_ : treq; nmap_ : gmap bytes bytes; lreq_ : slot_leaders;
  users : gmap ptr prev_next; olist_ : dbl_list; dlist_ : dbl_list;
  svr_err : option bytes; events : list svr_event }.

Definition set_conns (c : reconn rpc_conns) (s : tx_svr) : tx_svr :=
  mk_tx_svr c (slot_ s) (slot_cnt_ s) (avec_ s) (hreq_ s) (sreq_ s) (creq_ s) (nmap_ s) (lreq_ s)
    (users s) (olist_ s) (dlist_ s) (svr_err s) (events s).
Definition set_slots (slot cnt : Z) (s : tx_svr) : tx_svr :=
  mk_tx_svr (conns s) slot cnt (avec_ s) (hreq_ s) (sreq_ s) (creq_ s) (nmap_ s) (lreq_ s)
    (users s) (olist_ s) (dlist_ s) (svr_err s) (events s).
Definition set_avec (a : list bytes) (s : tx_svr) : tx_svr :=
  mk_tx_svr (conns s) (slot_ s) (slot_cnt_ s) a (hreq_ s) (sreq_ s) (creq_ s) (nmap_ s) (lreq_ s)
    (users s) (olist_ s) (dlist_ s) (svr_err s) (events s).
Definition set_hreq (r : treq) (s : tx_svr) : tx_svr :=
  mk_tx_svr (conns s) (slot_ s) (slot_cnt_ s) (avec_ s) r (sreq_ s) (creq_ s) (nmap_ s) (lreq_ s)
    (users s) (olist_ s) (dlist_ s) (svr_err s) (events s).
Definition set_sreq (r : treq) (s : tx_svr) : tx_svr :=
  mk_tx_svr (conns s) (slot_ s) (slot_cnt_ s) (avec_ s) (hreq_ s) r (creq_ s) (nmap_ s) (lreq_ s)
    (users s) (olist_ s) (dlist_ s) (svr_err s) (events s).
Definition set_creq (r : treq) (s : tx_svr) : tx_svr :=
  mk_tx_svr (conns s) (slot_ s) (slot_cnt_ s) (avec_ s) (hreq_ s) (sreq_ s) r (nmap_ s) (lreq_ s)
    (users s) (olist_ s) (dlist_ s) (svr_err s) (events s).
Definition set_nmap (m : gmap bytes bytes) (s : tx_svr) : tx_svr :=
  mk_tx_svr (conns s) (slot_ s) (slot_cnt_ s) (avec_ s) (hreq_ s) (sreq_ s) (creq_ s) m (lreq_ s)
    (users s) (olist_ s) (dlist_ s) (svr_err s) (events s).
Definition set_lreq (l : slot_leaders) (s : tx_svr) : tx_svr :=
  mk_tx_svr (conns s) (slot_ s) (slot_cnt_ s) (avec_ s) (hreq_ s) (sreq_ s) (creq_ s) (nmap_ s) l
    (users s) (olist_ s) (dlist_ s) (svr_err s) (events s).
Definition set_users (u : gmap ptr prev_next) (ol dl : dbl_list) (s : tx_svr) : tx_svr :=
  mk_tx_svr (conns s) (slot_ s) (slot_cnt_ s) (avec_ s) (hreq_ s) (sreq_ s) (creq_ s) (nmap_ s) (lreq_ s)
    u ol dl (svr_err s) (events s).
Definition set_svr_err (e : bytes) (s : tx_svr) : tx_svr :=
  mk_tx_svr (conns s) (slot_ s) (slot_cnt_ s) (avec_ s) (hreq_ s) (sreq_ s) (creq_ s) (nmap_ s) (lreq_ s)
    (users s) (olist_ s) (dlist_ s) (Some e) (events s).
Definition add_events (l : list svr_event) (s : tx_svr) : tx_svr :=
  mk_tx_svr (conns s) (slot_ s) (slot_cnt_ s) (avec_ s) (hreq_ s) (sreq_ s) (creq_ s) (nmap_ s) (lreq_ s)
    (users s) (olist_ s) (dlist_ s) (svr_err s) (events s ++ l).

(** The constructor, with the RPC connections; both are set up by [init]. *)
Definition new_tx_svr : tx_svr :=
  mk_tx_svr (new_reconn (mk_rpc_conns new_tcp_connect (Some new_ws_link)) false) 0 0 []
    new_treq new_treq new_treq ∅ new_slot_leaders ∅ DblList.new_dbl_list DblList.new_dbl_list None [].

(** The ports [init] takes from the host option. *)
Definition PC_RPC_HTTP_PORT : Z := 8899.
Definition init_ports (rhost : bytes) : option (bytes * Z * Z) :=
  '(h, rport, wport) ← Text.get_host_port rhost;
  let rport := if rport =? 0 then PC_RPC_HTTP_PORT else rport in
  Some (h, rport, if wport =? 0 then rport + 1 else wport).

(** [clnt_.send] for each request, at time [now]. *)
Definition send_hreq (now : Z) (s : tx_svr) : tx_svr :=
  add_events [ev_rpc q_health] (set_hreq (set_sent now (hreq_ s)) s).
Definition send_sreq (now : Z) (s : tx_svr) : tx_svr :=
  add_events [ev_rpc q_slots] (set_sreq (set_sent now (sreq_ s)) s).
Definition send_creq (now : Z) (s : tx_svr) : tx_svr :=
  add_events [ev_rpc q_nodes] (set_creq (set_sent now (creq_ s)) s).
Definition send_lreq (now : Z) (s : tx_svr) : tx_svr :=
  let l := lreq_ s in
  add_events [ev_rpc (q_leaders (rslot_ l) (limit_ l))] (set_lreq (set_lbase (set_sent now (lbase l)) l) s).

(** ** Users and their transactions *)

(** [submit]: a datagram to each leader; the system refuses one longer than
    UDP allows. *)
Definition max_datagram : Z := 65507.
Definition udp_send (addr buf : bytes) (len : Z) : list svr_event :=
  if len <=? max_datagram then [ev_udp addr (take (Z.to_nat len) buf)] else [].
Definition submit (buf : bytes) (len : Z) (s : tx_svr) : tx_svr :=
  add_events (avec_ s ≫= fun a => udp_send a buf len) s.

Definition del_user (u : ptr) (s : tx_svr) : option tx_svr :=
  '(ol, h) ← DblList.del (olist_ s) u (users s);
  '(dl, h) ← DblList.add (dlist_ s) u h;
  Some (set_users h ol dl s).

(** [teardown_users]: [delete] frees the node.  The number of users bounds the
    loop. *)
Fixpoint teardown_loop (fuel : nat) (s : tx_svr) : option tx_svr :=
  match DblList.first (dlist_ s) with
  | None => Some s
  | Some u =>
      match fuel with
      | O => None
      | S fuel' =>
          '(dl, h) ← DblList.del (dlist_ s) u (users s);
          teardown_loop fuel' (set_users (delete u h) (olist_ s) dl s)
      end
  end.
Definition teardown_users (s : tx_svr) : option tx_svr := teardown_loop (size (users s)) s.

(** [accept]: a user that could be set up joins the open list. *)
Definition accept (u : ptr) (init_ok : bool) (s : tx_svr) : option tx_svr :=
  if init_ok then
    '(ol, h) ← DblList.add (olist_ s) u (<[u := DblList.new_prev_next]> (users s));
    Some (set_users h ol (dlist_ s) s)
  else Some s.

(** A user's connection; [closed] once it was torn down. *)
Record tx_user := mk_tx_user { svr : tx_svr; self : ptr; closed : bool }.
Definition user_teardown (c : tx_user) : option tx_user :=
  s ← del_user (self c) (svr c); Some (mk_tx_user s (self c) true).

Definition sizeof_tx_hdr : Z := 4.
Definition tx_parse (c : tx_user) (buf : bytes) : option (tx_user * option nat) :=
  let sz := Z.of_nat (length buf) in
  let size_ := of_le (slice 2 2 buf) in
  if (sz <? sizeof_tx_hdr) || (sz <? size_) then Some (c, None)
  else if negb (of_le (slice 0 2 buf) =? Bincode.PC_TPU_PROTO_ID) then c ← user_teardown c; Some (c, None)
  else Some (mk_tx_user (submit (drop 4 buf) (u64 (size_ - sizeof_tx_hdr)) (svr c)) (self c) (closed c),
             Some (Z.to_nat size_)).

(** ** Leaders *)

Definition add_addr (addr : bytes) (s : tx_svr) : tx_svr :=
  if existsb (fun a => ip_eqb a addr) (avec_ s) then s else set_avec (avec_ s ++ [addr]) s.

Definition get_ip_addr (k : bytes) (s : tx_svr) : option bytes := nmap_ s !! k.

(** A leader without an address: the cluster nodes, and the schedule, are asked
    for again. *)
Definition missing_leader (now : Z) (s : tx_svr) : tx_svr :=
  let s := if get_is_recv (creq_ s) then send_creq now s else s in
  if get_is_recv (lbase (lreq_ s)) then
    send_lreq now (set_lreq (set_rslot (u64 (slot_ s - PC_LEADER_MIN)) (lreq_ s)) s)
  else s.

(** The loop over the slots around the current one; [pkey] is the leader of the
    slot before. *)
Fixpoint slot_loop (fuel : nat) (now slot max_slot : Z) (pkey : option bytes) (s : tx_svr) : tx_svr :=
  match fuel with
  | O => s
  | S fuel' =>
      if slot <? max_slot then
        let ikey := get_leader slot (lreq_ s) in
        let s :=
          match ikey with
          | Some k =>
              if match pkey with None => true | Some p => negb (hash_eqb k p) end then
                match get_ip_addr k s with
                | Some a => add_addr a s
                | None => missing_leader now s
                end
              else s
          | None => s
          end in
        slot_loop fuel' now (u64 (slot + 1)) max_slot ikey s
      else s
  end.
Definition num_slots : nat := 6.

Definition err_text (pre e : bytes) : bytes := pre ++ bs "[" ++ e ++ bs "]".

(** [on_response( slot_subscribe * )] for slot [slot]. *)
Definition on_slot (now slot : Z) (s : tx_svr) : tx_svr :=
  match rerr_ (sreq_ s) with
  | Some e => set_svr_err (err_text (bs "failed to slot_subscribe ") e) s
  | None =>
      if slot <=? slot_ s then s else
      let hbeat := slot_cnt_ s mod PC_HBEAT_INTERVAL =? 0 in
      let s := set_slots slot (u64 (slot_cnt_ s + 1)) s in
      let s := if hbeat then send_hreq now s else s in
      let s := if get_is_recv (lbase (lreq_ s)) && (u64 (get_last_slot (lreq_ s) - PC_LEADER_MIN) <? slot)
               then send_lreq now (set_lreq (set_rslot (u64 (slot - PC_LEADER_MIN)) (lreq_ s)) s) else s in
      slot_loop num_slots now (u64 (slot - 1)) (Z.min (u64 (slot + 5)) (get_last_slot (lreq_ s))) None
        (set_avec [] s)
  end.

(** *** The other responses *)

Definition on_nodes (s : tx_svr) : tx_svr :=
  match rerr_ (creq_ s) with
  | Some e => set_creq (set_rerr None (creq_ s)) (set_svr_err (err_text (bs "failed to get cluster nodes") e) s)
  | None => s
  end.
Definition on_leaders (s : tx_svr) : tx_svr :=
  match rerr_ (lbase (lreq_ s)) with
  | Some e => set_lreq (set_lbase (set_rerr None (lbase (lreq_ s))) (lreq_ s))
                (set_svr_err (err_text (bs "failed to get slot leaders ") e) s)
  | None => s
  end.
Definition on_health (s : tx_svr) : tx_svr :=
  match rerr_ (hreq_ s) with Some _ => set_hreq (set_rerr None (hreq_ s)) s | None => s end.

(** [rpc_request::on_error], up to the callback: the error and its code, if the
    response has one. *)
Definition error_of (jt : jtree) : option (option (bytes * Z)) :=
  etok ← find_val jt 1 (bs "error");
  if etok =? 0 then Some None else
  mtok ← find_val jt etok (bs "message");
  txt ← get_str jt mtok;
  ctok ← find_val jt etok (bs "code");
  code ← get_int jt ctok;
  Some (Some (txt, code)).
(** The request when its callback runs. *)
Definition answered (err : option (bytes * Z)) (now : Z) (r : treq) : treq :=
  match err with
  | Some (txt, code) => mk_treq (sent_ts_ r) now (Some txt) code
  | None => set_recv now r
  end.

(** *** [pcapps/tx_rpc_client.cpp] *)

Definition response_health (jt : jtree) (now : Z) (s : tx_svr) : option tx_svr :=
  err ← error_of jt; Some (on_health (set_hreq (answered err now (hreq_ s)) s)).

(** The loops over the children of a node. *)
Fixpoint read_nodes (fuel : nat) (jt : jtree) (tok : Z) (pkey : bytes) (m : gmap bytes bytes)
  : option (gmap bytes bytes) :=
  if tok =? 0 then Some m else
  match fuel with
  | O => None
  | S fuel' =>
      ktok ← find_val jt tok (bs "pubkey");
      ktxt ← get_str jt ktok;
      pkey ← init_from_text ktxt pkey;
      atok ← find_val jt tok (bs "tpu");
      atxt ← get_str jt atok;
      addr ← ip_addr atxt;
      nxt ← get_next jt tok;
      read_nodes fuel' jt nxt pkey (<[pkey := addr]> m)
  end.
Definition response_nodes (jt : jtree) (now : Z) (s : tx_svr) : option tx_svr :=
  err ← error_of jt;
  m ← (match err with
       | Some _ => Some (nmap_ s)
       | None =>
           rtok ← find_val jt 1 (bs "result");
           tok ← get_first jt rtok;
           read_nodes (length (JTree.nv_ jt)) jt tok hash_zero (nmap_ s)
       end);
  Some (on_nodes (set_creq (answered err now (creq_ s)) (set_nmap m s))).

Fixpoint read_leaders (fuel : nat) (jt : jtree) (tok : Z) (pkey : bytes) : option (list bytes) :=
  if tok =? 0 then Some [] else
  match fuel with
  | O => None
  | S fuel' =>
      ktxt ← get_str jt tok;
      pkey ← init_from_text ktxt pkey;
      nxt ← get_next jt tok;
      l ← read_leaders fuel' jt nxt pkey;
      Some (pkey :: l)
  end.
Definition response_leaders (jt : jtree) (now : Z) (s : tx_svr) : option tx_svr :=
  err ← error_of jt;
  lv ← (match err with
        | Some _ => Some []
        | None =>
            rtok ← find_val jt 1 (bs "result");
            tok ← get_first jt rtok;
            read_leaders (length (JTree.nv_ jt)) jt tok hash_zero
        end);
  let l := lreq_ s in
  Some (on_leaders (set_lreq (mk_slot_leaders (answered err now (lbase l)) (rslot_ l) (limit_ l) (rslot_ l) lv) s)).

(** The response to the subscription: an error, or the start of notifications,
    which the RPC client routes. *)
Definition response_slots (jt : jtree) (now : Z) (s : tx_svr) : option tx_svr :=
  err ← error_of jt;
  match err with
  | Some _ => Some (on_slot now 0 (set_sreq (answered err now (sreq_ s)) s))
  | None => Some s
  end.
(** A notification; the result says whether the subscription ends. *)
Definition notify_slots (jt : jtree) (now last : Z) (s : tx_svr) : option (bool * tx_svr) :=
  err ← error_of jt;
  match err with
  | Some _ => Some (true, on_slot now last (set_sreq (answered err now (sreq_ s)) s))
  | None =>
      ptok ← find_val jt 1 (bs "params");
      rtok ← find_val jt ptok (bs "result");
      stok ← find_val jt rtok (bs "slot");
      slot ← get_uint jt stok;
      Some (false, on_slot now slot (set_sreq (answered err now (sreq_ s)) s))
  end.

(** ** Polling *)

(** What [reconnect_rpc] does when the connections stand. *)
Definition on_connected (now : Z) (s : tx_svr) : tx_svr :=
  let s := add_events [ev_rpc_reset] (set_avec [] (set_slots 0 (slot_cnt_ s) s)) in
  let b := lbase (lreq_ s) in
  send_creq now (send_sreq now (set_lreq (set_lbase (set_recv (sent_ts_ b) b) (lreq_ s)) s)).
Definition reconnect_rpc (now : Z) (e : rpc_env) (s : tx_svr) : tx_svr :=
  let '(o, c) := reconnect false now e (conns s) in
  let s := set_conns c s in
  match o with o_connected => on_connected now s | _ => s end.
(** [poll], after the sockets' events. *)
Definition poll (now : Z) (e : rpc_env) (s : tx_svr) : option tx_svr :=
  s ← teardown_users s;
  Some (if negb (has_conn_ (conns s)) || Reconnect.get_is_err (link (conns s)) then reconnect_rpc now e s else s).

(** ** The connection of a user *)

(** The parser of [NetConnect]: a header that announces no bytes is taken for
    ever, and has no result; a connection that was torn down has no bytes. *)
Definition user_parse (c : tx_user) (b : bytes) : option (parse_res tx_user) :=
  if closed c then Some (need c) else
  r ← tx_parse c b;
  match r with
  | (c', Some n) => if (n =? 0)%nat then None else Some (took c' n)
  | (c', None) => Some (if closed c' then took c' 4 else need c')
  end.

Lemma of_le_nonneg l : is_bytes l -> 0 <= of_le l.
Proof. induction 1 as [|x l Hx Hl IH]; simpl; [lia|]. unfold is_byte, in_u in Hx. lia. Qed.

Definition hdr_size (b : bytes) : Z := of_le (slice 2 2 b).
Definition hdr_ready (b : bytes) : bool := negb ((Z.of_nat (length b) <? sizeof_tx_hdr) || (Z.of_nat (length b) <? hdr_size b)).

Lemma hdr_more b x :
  (4 <= length b)%nat -> slice 0 2 (b ++ x) = slice 0 2 b /\ hdr_size (b ++ x) = hdr_size b.
Proof. intros H. unfold hdr_size. rewrite !slice_app_le by lia. done. Qed.

Lemma hdr_ready_le b : hdr_ready b = true -> (4 <= length b)%nat /\ hdr_size b <= Z.of_nat (length b).
Proof.
  unfold hdr_ready, sizeof_tx_hdr. rewrite negb_orb, andb_true_iff, !negb_true_iff, !Z.ltb_ge. lia.
Qed.

Lemma hdr_ready_more b x : hdr_ready b = true -> hdr_ready (b ++ x) = true.
Proof.
  intros H. destruct (hdr_ready_le _ H) as [H1 H2]. destruct (hdr_more b x H1) as [_ E].
  unfold hdr_ready, sizeof_tx_hdr. rewrite E, length_app. rewrite negb_orb, andb_true_iff, !negb_true_iff, !Z.ltb_ge. lia.
Qed.

Lemma udp_send_more a b x size :
  4 <= size <= Z.of_nat (length b) \/ size < 4 /\ 0 < size ->
  udp_send a (drop 4 (b ++ x)) (u64 (size - 4)) = udp_send a (drop 4 b) (u64 (size - 4)).
Proof.
  intros Hs. unfold udp_send, max_datagram. destruct (Z.leb_spec (u64 (size - 4)) 65507) as [Hl|]; [|done].
  do 2 f_equal. destruct Hs as [Hs|Hs].
  - assert (u64 (size - 4) = size - 4 \/ u64 (size - 4) <> size - 4) as [E|E] by lia.
    + rewrite E. rewrite drop_app_le by lia. apply take_app_le. rewrite length_drop. lia.
    + unfold wrap in *. destruct (Z_lt_dec (size - 4) (2 ^ 64)).
      * rewrite Z.mod_small in E by lia. done.
      * rewrite drop_app_le by lia. apply take_app_le. rewrite length_drop.
        pose proof (Z.mod_le (size - 4) (2 ^ 64) ltac:(lia) ltac:(lia)). lia.
  - exfalso. unfold wrap in Hl. rewrite <- (Z_mod_plus_full _ 1), Z.mod_small in Hl by lia. lia.
Qed.

Lemma submit_more b x size s :
  4 <= size <= Z.of_nat (length b) \/ size < 4 /\ 0 < size ->
  submit (drop 4 (b ++ x)) (u64 (size - 4)) s = submit (drop 4 b) (u64 (size - 4)) s.
Proof.
  intros Hs. unfold submit. f_equal. induction (avec_ s) as [|a l IH]; [done|].
  cbn [mbind list_bind]. rewrite udp_send_more by done. by f_equal.
Qed.

Lemma tx_parse_ready c b : hdr_ready b = false -> tx_parse c b = Some (c, None).
Proof. unfold hdr_ready. rewrite negb_false_iff. intros H. unfold tx_parse. unfold hdr_size in H. by rewrite H. Qed.

(** A header that is complete is read the same with more bytes behind. *)
Lemma tx_parse_more c b x : hdr_ready b = true -> 0 < hdr_size b -> tx_parse c (b ++ x) = tx_parse c b.
Proof.
  intros H Hpos. pose proof (hdr_ready_more b x H) as H'. destruct (hdr_ready_le _ H) as [H1 H2].
  destruct (hdr_more b x H1) as [E1 E2].
  unfold hdr_ready in H, H'. apply negb_true_iff in H, H'. unfold tx_parse. fold (hdr_size (b ++ x)) (hdr_size b).
  rewrite H, H', E1, E2. destruct (negb _); [done|]. unfold sizeof_tx_hdr. rewrite submit_more by lia. done.
Qed.

(** An empty frame of the right protocol, which is taken for ever. *)
Lemma user_parse_zero c b :
  closed c = false -> hdr_ready b = true -> hdr_size b <= 0 ->
  user_parse c b = (if negb (of_le (slice 0 2 b) =? Bincode.PC_TPU_PROTO_ID)
                    then c ← user_teardown c; Some (took c 4) else None).
Proof.
  intros Hc H Hz. unfold user_parse, tx_parse. rewrite Hc. fold (hdr_size b). unfold hdr_ready in H.
  apply negb_true_iff in H. rewrite H. destruct (negb _).
  - unfold user_teardown. destruct (del_user (self c) (svr c)); done.
  - cbn [mbind option_bind]. replace (Z.to_nat (hdr_size b)) with 0%nat by lia. done.
Qed.

Lemma user_parse_more c b x :
  closed c = false -> hdr_ready b = true -> user_parse c (b ++ x) = user_parse c b.
Proof.
  intros Hc H. destruct (hdr_ready_le _ H) as [H1 H2]. destruct (hdr_more b x H1) as [E1 E2].
  destruct (Z_lt_dec 0 (hdr_size b)).
  - unfold user_parse. by rewrite Hc, tx_parse_more.
  - rewrite !user_parse_zero by (try apply hdr_ready_more; try rewrite E2; done || lia). by rewrite E1.
Qed.

Lemma user_parse_took c b c' n :
  user_parse c b = Some (took c' n) -> (0 < n <= length b)%nat /\ forall x, user_parse c (b ++ x) = Some (took c' n).
Proof.
  intros H. destruct (closed c) eqn:Hc; [unfold user_parse in H; rewrite Hc in H; done|].
  destruct (hdr_ready b) eqn:Hr.
  2: { unfold user_parse in H. rewrite Hc, tx_parse_ready in H by done. cbn in H. rewrite Hc in H. done. }
  split; [|intros x; by rewrite user_parse_more].
  destruct (hdr_ready_le _ Hr) as [H1 H2]. unfold user_parse, tx_parse in H. rewrite Hc in H. fold (hdr_size b) in H.
  unfold hdr_ready in Hr. apply negb_true_iff in Hr. rewrite Hr in H. destruct (negb _).
  - unfold user_teardown in H. destruct (del_user (self c) (svr c)); [|done]. cbn in H. injection H as _ <-. lia.
  - cbn [mbind option_bind] in H. destruct (Nat.eqb_spec (Z.to_nat (hdr_size b)) 0); [done|]. injection H as _ <-. lia.
Qed.

Lemma user_parse_need c b c' : user_parse c b = Some (need c') -> c' = c.
Proof.
  unfold user_parse. destruct (closed c) eqn:Hc; [by intros [= ->]|].
  destruct (hdr_ready b) eqn:Hr.
  2: { rewrite tx_parse_ready by done. cbn. rewrite Hc. by intros [= ->]. }
  unfold tx_parse. unfold hdr_ready in Hr. apply negb_true_iff in Hr. unfold hdr_size in Hr. rewrite Hr.
  destruct (negb _).
  - unfold user_teardown. destruct (del_user (self c) (svr c)); done.
  - cbn [mbind option_bind]. by destruct (_ =? 0)%nat.
Qed.

Lemma user_parse_undef c b : user_parse c b = None -> forall x, user_parse c (b ++ x) = None.
Proof.
  intros H x. destruct (closed c) eqn:Hc; [unfold user_parse in H; rewrite Hc in H; done|].
  destruct (hdr_ready b) eqn:Hr; [by rewrite user_parse_more|].
  unfold user_parse in H. rewrite Hc, tx_parse_ready in H by done. done.
Qed.

#[export] Instance user_net_parser : NetParser tx_user := {|
  parse := user_parse; perr := closed;
  parse_took := user_parse_took; parse_need := user_parse_need; parse_undef := user_parse_undef |}.

(** ** The leaders' addresses *)

Definition addr_ok (a : bytes) : Prop := is_bytes a /\ length a = 16%nat.
Definition key_ok (k : bytes) : Prop := is_bytes k /\ length k = hash_len.

(** What the responses establish: addresses and leader keys have their size. *)
Record svr_ok (s : tx_svr) : Prop := {
  ok_nmap : map_Forall (fun _ a => addr_ok a) (nmap_ s);
  ok_lvec : Forall key_ok (lvec_ (lreq_ s));
  ok_avec : Forall addr_ok (avec_ s) }.

Lemma ip_addr_ok ap a : ip_addr ap = Some a -> addr_ok a.
Proof.
  assert (forall p h, addr_ok (sockaddr_in p h)) as H.
  { intros p h. unfold sockaddr_in. split; [|by rewrite !length_app, length_rev, !length_le_bytes].
    apply Forall_app_2; [apply le_bytes_is_bytes|]. apply Forall_app_2; [apply Forall_rev, le_bytes_is_bytes|].
    apply Forall_app_2; [apply le_bytes_is_bytes|]. apply Forall_replicate. unfold is_byte, in_u. lia. }
  unfold ip_addr. destruct (until_colon ap) as [[h p]|]; [destruct (_ <? _)%nat | destruct (_ <=? _)%nat]; try done;
    intros [= <-]; apply H.
Qed.

Lemma ip_eqb_iff a b : addr_ok a -> addr_ok b -> ip_eqb a b = true <-> a = b.
Proof.
  intros [Ha Hla] [Hb Hlb]. unfold ip_eqb. split; [|intros ->; by rewrite !Z.eqb_refl].
  rewrite andb_true_iff, !Z.eqb_eq. intros [H1 H2].
  apply of_le_bytes_inj in H1; [|by apply slice_is_bytes.. | by rewrite !length_slice by lia].
  apply of_le_bytes_inj in H2; [|by apply slice_is_bytes.. | by rewrite !length_slice by lia].
  rewrite <- (take_drop 8 a), <- (take_drop 8 b). f_equal; [exact H1|].
  unfold slice in H2. rewrite !take_ge in H2 by (rewrite length_drop; lia). exact H2.
Qed.

Lemma read_nodes_ok fuel jt tok pkey m m' :
  read_nodes fuel jt tok pkey m = Some m' -> map_Forall (fun _ a => addr_ok a) m ->
  map_Forall (fun _ a => addr_ok a) m'.
Proof.
  revert tok pkey m. induction fuel as [|fuel IH]; intros tok pkey m; cbn [read_nodes];
    destruct (tok =? 0); try (by intros [= <-]).
  intros H Hm. unbind H. apply IH in H; [done|]. apply map_Forall_insert_2; [|done].
  eapply ip_addr_ok; eassumption.
Qed.

Lemma read_leaders_ok fuel jt tok pkey l :
  read_leaders fuel jt tok pkey = Some l -> key_ok pkey -> Forall key_ok l.
Proof.
  revert tok pkey l. induction fuel as [|fuel IH]; intros tok pkey l; cbn [read_leaders];
    destruct (tok =? 0); try (intros [= <-]; constructor); try done.
  intros H Hk. unbind H. injection H as <-.
  match goal with Ei : init_from_text _ pkey = Some ?b, Er : read_leaders fuel jt _ ?b = _ |- _ =>
    assert (key_ok b) as Hb by (destruct Hk; split; eapply init_from_text_ok; eassumption);
    constructor; [exact Hb | exact (IH _ _ _ Er Hb)] end.
Qed.

Lemma key_ok_zero : key_ok hash_zero.
Proof. split; [|done]. apply Forall_replicate. unfold is_byte, in_u. lia. Qed.

Lemma response_nodes_ok jt now s s' : response_nodes jt now s = Some s' -> svr_ok s -> svr_ok s'.
Proof.
  unfold response_nodes. intros H [H1 H2 H3]. destruct (error_of jt) as [err|]; [|done].
  cbn [mbind option_bind] in H.
  match type of H with mbind _ ?t = _ => destruct t as [m|] eqn:Em; [|done] end.
  cbn [mbind option_bind] in H. injection H as <-.
  assert (map_Forall (fun _ a => addr_ok a) m) as Hg.
  { destruct err as [[??]|]; [by injection Em as <-|]. unbind Em. eapply read_nodes_ok; eassumption. }
  unfold on_nodes. destruct (rerr_ _); split; done.
Qed.

Lemma response_leaders_ok jt now s s' : response_leaders jt now s = Some s' -> svr_ok s -> svr_ok s'.
Proof.
  unfold response_leaders. intros H [H1 H2 H3]. destruct (error_of jt) as [err|]; [|done].
  cbn [mbind option_bind] in H.
  match type of H with mbind _ ?t = _ => destruct t as [l|] eqn:El; [|done] end.
  cbn [mbind option_bind] in H. injection H as <-.
  assert (Forall key_ok l) as Hl.
  { destruct err as [[??]|]; [injection El as <-; constructor|]. unbind El.
    eapply read_leaders_ok; [eassumption | apply key_ok_zero]. }
  unfold on_leaders. destruct (rerr_ _); split; done.
Qed.

Lemma omap_length {A B} (f : A -> option B) l : (length (omap f l) <= length l)%nat.
Proof. induction l as [|x l IH]; [done|]. cbn. destruct (f x); cbn; lia. Qed.

(** What the loop leaves as it is: all but the list and the requests sent. *)
Definition same_tables (s s' : tx_svr) : Prop :=
  nmap_ s' = nmap_ s /\ lvec_ (lreq_ s') = lvec_ (lreq_ s) /\ lslot_ (lreq_ s') = lslot_ (lreq_ s)
  /\ limit_ (lreq_ s') = limit_ (lreq_ s) /\ slot_ s' = slot_ s.
#[local] Instance same_tables_preorder : PreOrder same_tables.
Proof. split; [done|]. intros s1 s2 s3 (A1 & A2 & A3 & A4 & A5) (B1 & B2 & B3 & B4 & B5). split_and!; congruence. Qed.

Lemma same_tables_leader s s' slot : same_tables s s' -> get_leader slot (lreq_ s') = get_leader slot (lreq_ s).
Proof. intros (_ & H1 & H2 & _). unfold get_leader. by rewrite H1, H2. Qed.

Lemma missing_leader_same now s : same_tables s (missing_leader now s) /\ avec_ (missing_leader now s) = avec_ s.
Proof. unfold missing_leader. destruct (get_is_recv (creq_ s)); destruct (get_is_recv _); done. Qed.

Lemma add_addr_in a s x : Forall addr_ok (avec_ s) -> addr_ok a ->
  x ∈ avec_ (add_addr a s) <-> x ∈ avec_ s \/ x = a.
Proof.
  intros Hs Ha. unfold add_addr. destruct (existsb _ (avec_ s)) eqn:E.
  - split; [by left|]. intros [?|Hx]; [done|]. subst x. apply existsb_exists in E as (y & Hy & Hya).
    apply list_elem_of_In in Hy. rewrite Forall_forall in Hs. specialize (Hs y Hy).
    apply (ip_eqb_iff y a Hs Ha) in Hya. by rewrite <- Hya.
  - cbn [avec_ set_avec]. rewrite elem_of_app, list_elem_of_singleton. done.
Qed.

Lemma add_addr_ok a s : Forall addr_ok (avec_ s) -> NoDup (avec_ s) -> addr_ok a ->
  Forall addr_ok (avec_ (add_addr a s)) /\ NoDup (avec_ (add_addr a s)) /\ same_tables s (add_addr a s).
Proof.
  intros Hs Hn Ha. unfold add_addr. destruct (existsb _ (avec_ s)) eqn:E; [done|]. cbn [avec_ set_avec].
  split; [apply Forall_app; split; [done | by constructor]|]. split; [|done]. apply NoDup_app. split; [done|].
  split; [|apply NoDup_singleton]. intros x Hx Hxa%list_elem_of_singleton. subst x.
  apply not_true_iff_false in E. apply E. apply existsb_exists. exists a. split; [by apply list_elem_of_In|].
  by apply ip_eqb_iff.
Qed.

(** The address a slot's leader has. *)
Definition leader_addr (s : tx_svr) (slot : Z) : option bytes := k ← get_leader slot (lreq_ s); nmap_ s !! k.

Lemma leader_addr_same s s' slot : same_tables s s' -> leader_addr s' slot = leader_addr s slot.
Proof. intros H. unfold leader_addr. rewrite (same_tables_leader _ _ _ H). destruct H as [-> _]. done. Qed.

Lemma get_leader_ok s slot k : svr_ok s -> get_leader slot (lreq_ s) = Some k -> key_ok k.
Proof.
  intros [_ H _]. unfold get_leader. destruct (_ <? _); [|done]. intros Hk. rewrite Forall_lookup in H. eauto.
Qed.

(** One turn of the loop takes in the address of its slot's leader. *)
Definition turn (now slot : Z) (pkey : option bytes) (s : tx_svr) : tx_svr :=
  match get_leader slot (lreq_ s) with
  | Some k =>
      if match pkey with None => true | Some p => negb (hash_eqb k p) end then
        match get_ip_addr k s with
        | Some a => add_addr a s
        | None => missing_leader now s
        end
      else s
  | None => s
  end.

Lemma turn_ok now slot pkey s :
  svr_ok s -> NoDup (avec_ s) ->
  (forall p a, pkey = Some p -> nmap_ s !! p = Some a -> a ∈ avec_ s) -> (forall p, pkey = Some p -> key_ok p) ->
  let s' := turn now slot pkey s in
  svr_ok s' /\ NoDup (avec_ s') /\ same_tables s s'
  /\ (forall x, x ∈ avec_ s' <-> x ∈ avec_ s \/ leader_addr s slot = Some x).
Proof.
  intros Hok Hnd Hp Hpk. unfold turn, leader_addr. pose proof (get_leader_ok s slot) as Hlk.
  destruct (get_leader slot (lreq_ s)) as [k|] eqn:El; cbn [mbind option_bind];
    [|split_and!; try done; intros x; split; [by left | by intros [?|?]]].
  specialize (Hlk k Hok eq_refl). unfold get_ip_addr.
  destruct (match pkey with None => true | Some p => negb (hash_eqb k p) end) eqn:Eq.
  - destruct (nmap_ s !! k) as [a|] eqn:Ea.
    + pose proof (ok_nmap s Hok k a Ea) as Ha. cbn beta in Ha.
      destruct (add_addr_ok a s (ok_avec s Hok) Hnd Ha) as (H1 & H2 & H3).
      split; [|split; [done | split; [done|]]].
      * destruct Hok as [N L A]. destruct H3 as (E1 & E2 & _). split; [by rewrite E1 | by rewrite E2 | done].
      * intros x. rewrite add_addr_in by (done || apply Hok). split; (intros [?|E]; [by left | right; congruence]).
    + destruct (missing_leader_same now s) as [H3 H4]. rewrite H4.
      split; [|split; [done | split; [done|]]].
      * destruct Hok as [N L A]. destruct H3 as (E1 & E2 & _). split; [by rewrite E1 | by rewrite E2 | by rewrite H4].
      * intros x. split; [by left | by intros [?|?]].
  - split_and!; try done. intros x. split; [by left|]. intros [?|Hx]; [done|].
    destruct pkey as [p|]; [|done]. apply negb_false_iff in Eq.
    pose proof (Hpk p eq_refl) as Hpk'. apply (hash_eqb_iff k p) in Eq; try apply Hlk; try apply Hpk'. subst p.
    by apply (Hp k x).
Qed.

Lemma slot_loop_ok fuel now slot max_slot pkey s :
  svr_ok s -> NoDup (avec_ s) ->
  (forall p a, pkey = Some p -> nmap_ s !! p = Some a -> a ∈ avec_ s) -> (forall p, pkey = Some p -> key_ok p) ->
  0 <= slot -> max_slot < 2 ^ 64 -> max_slot <= slot + Z.of_nat fuel ->
  let s' := slot_loop fuel now slot max_slot pkey s in
  svr_ok s' /\ NoDup (avec_ s') /\ same_tables s s'
  /\ (forall x, x ∈ avec_ s' <-> x ∈ avec_ s \/ exists n, slot <= n < max_slot /\ leader_addr s n = Some x).
Proof.
  revert slot pkey s. induction fuel as [|fuel IH]; intros slot pkey s Hok Hnd Hp Hpk H0 Hm Hf; cbn zeta; cbn [slot_loop].
  { split_and!; try done. intros x. split; [by left|]. intros [?|(n & ? & _)]; [done | lia]. }
  destruct (Z.ltb_spec slot max_slot).
  2: { split_and!; try done. intros x. split; [by left|]. intros [?|(n & ? & _)]; [done | lia]. }
  change (match get_leader slot (lreq_ s) with Some k => _ | None => s end) with (turn now slot pkey s).
  destruct (turn_ok now slot pkey s Hok Hnd Hp Hpk) as (H1 & H2 & H3 & H4).
  rewrite wrap_small by (unfold in_u; lia).
  destruct (IH (slot + 1) (get_leader slot (lreq_ s)) (turn now slot pkey s)) as (J1 & J2 & J3 & J4); try done; try lia.
  - intros p a Hl Ha. apply H4. right. unfold leader_addr. rewrite Hl. destruct H3 as [E _]. by rewrite <- E.
  - intros p Hl. by apply (get_leader_ok s slot).
  - split_and!; try done; [by etransitivity|]. intros x. rewrite J4, H4. split.
    + intros [[?|?]|(n & ? & Hn)]; [by left | right; exists slot; split; [lia | done]|].
      right. exists n. rewrite (leader_addr_same s) in Hn by done. split; [lia | done].
    + intros [?|(n & ? & Hn)]; [by left; left|]. destruct (decide (n = slot)) as [->|]; [by left; right|].
      right. exists n. rewrite (leader_addr_same s) by done. split; [lia | done].
Qed.

(** A new slot up to the loop. *)
Definition slot_head (now slot : Z) (s : tx_svr) : tx_svr :=
  let hbeat := slot_cnt_ s mod PC_HBEAT_INTERVAL =? 0 in
  let s := set_slots slot (u64 (slot_cnt_ s + 1)) s in
  let s := if hbeat then send_hreq now s else s in
  if get_is_recv (lbase (lreq_ s)) && (u64 (get_last_slot (lreq_ s) - PC_LEADER_MIN) <? slot)
  then send_lreq now (set_lreq (set_rslot (u64 (slot - PC_LEADER_MIN)) (lreq_ s)) s) else s.

Lemma slot_head_same now slot s :
  let s' := slot_head now slot s in
  nmap_ s' = nmap_ s /\ lvec_ (lreq_ s') = lvec_ (lreq_ s) /\ lslot_ (lreq_ s') = lslot_ (lreq_ s)
  /\ limit_ (lreq_ s') = limit_ (lreq_ s) /\ slot_ s' = slot.
Proof. unfold slot_head. by destruct (_ =? 0); destruct (get_is_recv _); destruct (_ <? _). Qed.

Lemma on_slot_loop now slot s :
  rerr_ (sreq_ s) = None -> slot_ s < slot ->
  on_slot now slot s
  = slot_loop num_slots now (u64 (slot - 1)) (Z.min (u64 (slot + 5)) (get_last_slot (lreq_ s))) None
      (set_avec [] (slot_head now slot s)).
Proof.
  intros He Hs. unfold on_slot. rewrite He. destruct (Z.leb_spec slot (slot_ s)); [lia|].
  replace (get_last_slot (lreq_ s)) with (get_last_slot (lreq_ (slot_head now slot s))); [reflexivity|].
  pose proof (slot_head_same now slot s) as (_ & _ & H1 & H2 & _). unfold get_last_slot. by rewrite H1, H2.
Qed.

Lemma slot_head_ok now slot s :
  svr_ok s -> svr_ok (set_avec [] (slot_head now slot s))
  /\ forall n, leader_addr (set_avec [] (slot_head now slot s)) n = leader_addr s n.
Proof.
  intros [H1 H2 H3]. pose proof (slot_head_same now slot s) as (E1 & E2 & E3 & E4 & E5). split.
  - split; cbn [set_avec nmap_ lreq_ avec_]; rewrite ?E1, ?E2; done.
  - intros n. unfold leader_addr, get_leader. cbn [set_avec nmap_ lreq_]. by rewrite E1, E2, E3.
Qed.

(** (C21) A new slot makes the list of addresses that of the leaders of the slot
    before it, itself and the four after it, as far as the schedule and the
    addresses are known: each of them, no other, and none twice. *)
Theorem leaders_addressed now slot s :
  svr_ok s -> rerr_ (sreq_ s) = None -> slot_ s < slot -> 0 < slot < 2 ^ 64 - 5 ->
  let s' := on_slot now slot s in
  slot_ s' = slot /\ svr_ok s' /\ NoDup (avec_ s') /\ (length (avec_ s') <= num_slots)%nat
  /\ forall a, a ∈ avec_ s' <->
       exists n k, slot - 1 <= n < Z.min (slot + 5) (get_last_slot (lreq_ s))
         /\ get_leader n (lreq_ s) = Some k /\ nmap_ s !! k = Some a.
Proof.
  intros Hok He Hs Hb. cbn zeta. rewrite on_slot_loop by done.
  destruct (slot_head_ok now slot s Hok) as (Hh & Hl). set (sh := set_avec [] (slot_head now slot s)) in *.
  assert (avec_ sh = [] /\ slot_ sh = slot) as [Ha Hsl] by (split; [done|]; apply slot_head_same).
  rewrite !wrap_small by (unfold in_u; lia).
  set (m := Z.min (slot + 5) (get_last_slot (lreq_ s))).
  destruct (slot_loop_ok num_slots now (slot - 1) m None sh) as (J1 & J2 & J3 & J4);
    try done; try (rewrite Ha; constructor); try (unfold m, num_slots; lia).
  assert (forall a, a ∈ avec_ (slot_loop num_slots now (slot - 1) m None sh) <->
            exists n, slot - 1 <= n < m /\ leader_addr s n = Some a) as Hin.
  { intros a. rewrite J4, Ha. setoid_rewrite Hl. split; [by intros [?%elem_of_nil|?] | by right]. }
  split_and!; [| exact J1 | exact J2 | |].
  - destruct J3 as (_ & _ & _ & _ & ->). exact Hsl.
  - transitivity (length (omap (leader_addr s) (seqZ (slot - 1) (m - (slot - 1))))).
    + apply submseteq_length, NoDup_submseteq; [exact J2|]. intros a Hx. apply Hin in Hx as (n & Hn & Hx).
      apply list_elem_of_omap. exists n. split; [apply elem_of_seqZ; lia | done].
    + etransitivity; [apply omap_length|]. rewrite length_seqZ. unfold m, num_slots. lia.
  - intros a. rewrite Hin. unfold leader_addr. split.
    + intros (n & Hn & Hk). destruct (get_leader n (lreq_ s)) as [k|] eqn:El; [|done]. exists n, k. done.
    + intros (n & k & Hn & Hk & Hx). exists n. split; [done|]. rewrite Hk. exact Hx.
Qed.

(** ** Requests *)

Definition asks_nodes (e : svr_event) : Prop := e = ev_rpc q_nodes.
Definition asks_leaders (e : svr_event) : Prop := match e with ev_rpc (q_leaders _ _) => True | _ => False end.
#[local] Instance asks_nodes_dec e : Decision (asks_nodes e).
Proof. unfold asks_nodes. apply _. Defined.
#[local] Instance asks_leaders_dec e : Decision (asks_leaders e).
Proof. unfold asks_leaders. destruct e as [| [] |]; apply _. Defined.
Definition nodes_asked (s : tx_svr) : nat := length (filter asks_nodes (events s)).
Definition leaders_asked (s : tx_svr) : nat := length (filter asks_leaders (events s)).
Definition may_ask (r : treq) : nat := if get_is_recv r then 1 else 0.

(** Requests that are sent use up the permission of their last response. *)
Definition asked (s s' : tx_svr) : Prop :=
  (nodes_asked s' + may_ask (creq_ s') <= nodes_asked s + may_ask (creq_ s))%nat
  /\ (leaders_asked s' + may_ask (lbase (lreq_ s')) <= leaders_asked s + may_ask (lbase (lreq_ s)))%nat
  /\ recv_ts_ (creq_ s') = recv_ts_ (creq_ s) /\ recv_ts_ (lbase (lreq_ s')) = recv_ts_ (lbase (lreq_ s)).
#[local] Instance asked_preorder : PreOrder asked.
Proof. split; [done|]. intros s1 s2 s3 (A1 & A2 & A3 & A4) (B1 & B2 & B3 & B4). split_and!; (congruence || lia). Qed.

Lemma asked_event (P : svr_event -> Prop) `{forall e, Decision (P e)} e (l : list svr_event) :
  length (filter P (l ++ [e])) = (length (filter P l) + if decide (P e) then 1 else 0)%nat.
Proof. rewrite filter_app, length_app. cbn [filter list_filter]. by destruct (decide (P e)). Qed.

Ltac count_events :=
  unfold asked, nodes_asked, leaders_asked, may_ask, get_is_recv in *;
  cbn [events send_creq send_lreq send_hreq add_events set_creq set_hreq set_lreq set_slots creq_ lreq_ set_rslot
       lbase set_lbase set_sent sent_ts_ recv_ts_];
  rewrite ?asked_event; repeat case_decide; unfold asks_nodes, asks_leaders in *; try done;
  repeat match goal with |- context [?a <=? ?b] => destruct (Z.leb_spec a b) end; split_and!; try done; lia.

Lemma send_creq_asked now s : recv_ts_ (creq_ s) < now -> get_is_recv (creq_ s) = true -> asked s (send_creq now s).
Proof. intros Hn Hr%Z.leb_le. count_events. Qed.

Lemma send_lreq_asked now r s :
  recv_ts_ (lbase (lreq_ s)) < now -> get_is_recv (lbase (lreq_ s)) = true ->
  asked s (send_lreq now (set_lreq (set_rslot r (lreq_ s)) s)).
Proof. intros Hn Hr%Z.leb_le. count_events. Qed.

Lemma missing_leader_asked now s :
  recv_ts_ (creq_ s) < now -> recv_ts_ (lbase (lreq_ s)) < now -> asked s (missing_leader now s).
Proof.
  intros Hc Hl. unfold missing_leader.
  assert (asked s (if get_is_recv (creq_ s) then send_creq now s else s)) as H1
    by (destruct (get_is_recv (creq_ s)) eqn:E; [by apply send_creq_asked | done]).
  set (s1 := if get_is_recv (creq_ s) then _ else _) in *.
  destruct (get_is_recv (lbase (lreq_ s1))) eqn:E; [|done]. etransitivity; [exact H1|].
  apply send_lreq_asked; [destruct H1 as (_ & _ & _ & ->) | ]; done.
Qed.

Lemma slot_loop_asked fuel now slot m pkey s :
  recv_ts_ (creq_ s) < now -> recv_ts_ (lbase (lreq_ s)) < now -> asked s (slot_loop fuel now slot m pkey s).
Proof.
  revert slot pkey s. induction fuel as [|fuel IH]; intros slot pkey s Hc Hl; cbn [slot_loop]; [done|].
  destruct (slot <? m); [|done].
  match goal with |- asked s (slot_loop _ _ _ _ _ ?t) => assert (asked s t) as H1 end.
  { destruct (get_leader slot _) as [k|]; [|done]. destruct (match pkey with None => true | Some p => _ end); [|done].
    unfold get_ip_addr. destruct (nmap_ s !! k); [|by apply missing_leader_asked].
    unfold add_addr. by destruct (existsb _ _). }
  etransitivity; [exact H1|]. destruct H1 as (_ & _ & E1 & E2). apply IH; [by rewrite E1 | by rewrite E2].
Qed.

(** A slot makes the proxy ask for the cluster nodes, and for the schedule, at
    most once, and not while it still waits for an answer. *)
Theorem one_request now slot s :
  recv_ts_ (creq_ s) < now -> recv_ts_ (lbase (lreq_ s)) < now ->
  let s' := on_slot now slot s in
  (nodes_asked s' <= nodes_asked s + may_ask (creq_ s))%nat
  /\ (leaders_asked s' <= leaders_asked s + may_ask (lbase (lreq_ s)))%nat.
Proof.
  intros Hc Hl. assert (asked s (on_slot now slot s)) as (H1 & H2 & _); [|cbn zeta; lia].
  destruct (rerr_ (sreq_ s)) eqn:He; [unfold on_slot; by rewrite He|].
  destruct (Z.leb_spec slot (slot_ s)) as [Hs|Hs].
  { unfold on_slot. rewrite He. destruct (Z.leb_spec slot (slot_ s)); [done | lia]. }
  rewrite on_slot_loop by done.
  assert (asked s (set_avec [] (slot_head now slot s))) as H1.
  { unfold slot_head. set (s1 := if _ =? 0 then _ else _).
    assert (asked s s1 /\ lreq_ s1 = lreq_ s) as [Ha E1].
    { subst s1. destruct (_ =? 0); [|done]. split; [|done]. count_events. }
    match goal with |- asked s (set_avec [] ?t) => change (asked s t) end.
    destruct (get_is_recv (lbase (lreq_ s1))) eqn:E; cbn [andb]; [|done]. destruct (_ <? _); [|done].
    etransitivity; [exact Ha|]. rewrite E1 in *.
    pose proof (send_lreq_asked now (u64 (slot - PC_LEADER_MIN)) s1) as H. rewrite E1 in H. by apply H. }
  etransitivity; [exact H1|]. destruct H1 as (_ & _ & E1 & E2).
  apply slot_loop_asked; [by rewrite E1 | by rewrite E2].
Qed.

(** ** Transactions *)

(** What [rpc::upd_price::build] puts on the connection for a transaction. *)
Definition frame (tx : bytes) : bytes :=
  le_bytes 2 Bincode.PC_TPU_PROTO_ID ++ le_bytes 2 (Z.of_nat (4 + length tx)) ++ tx.

(** One datagram for each leader. *)
Definition datagrams (s : tx_svr) (tx : bytes) : list svr_event := (fun a => ev_udp a tx) <$> avec_ s.

Lemma udp_sends buf len l :
  len <= max_datagram -> (l ≫= fun a => udp_send a buf len) = (fun a => ev_udp a (take (Z.to_nat len) buf)) <$> l.
Proof.
  intros H. unfold udp_send. destruct (Z.leb_spec len max_datagram); [|lia].
  induction l as [|a l IH]; [done|]. cbn. by f_equal.
Qed.

Lemma user_parse_frame s u tx rest :
  Z.of_nat (length tx) <= max_datagram ->
  user_parse (mk_tx_user s u false) (frame tx ++ rest)
  = Some (took (mk_tx_user (add_events (datagrams s tx) s) u false) (4 + length tx)).
Proof.
  intros Hl. unfold max_datagram in Hl.
  assert (length (frame tx) = (4 + length tx)%nat) as Hlen by (unfold frame; by rewrite !length_app, !length_le_bytes).
  assert (slice 0 2 (frame tx ++ rest) = le_bytes 2 Bincode.PC_TPU_PROTO_ID) as E1.
  { unfold frame. rewrite <- app_assoc. by apply (slice_at []). }
  assert (of_le (slice 2 2 (frame tx ++ rest)) = Z.of_nat (4 + length tx)) as E2.
  { unfold frame. rewrite <- !app_assoc, (slice_at _ (le_bytes 2 (Z.of_nat (4 + length tx)))) by done.
    apply (of_le_bytes_u 2 16); [done|]. unfold in_u. lia. }
  unfold user_parse, tx_parse. cbn [closed svr self]. rewrite E1, E2, length_app, Hlen.
  unfold sizeof_tx_hdr. destruct (Z.ltb_spec (Z.of_nat (4 + length tx + length rest)) 4); [lia|].
  destruct (Z.ltb_spec (Z.of_nat (4 + length tx + length rest)) (Z.of_nat (4 + length tx))); [lia|].
  change (of_le (le_bytes 2 Bincode.PC_TPU_PROTO_ID)) with Bincode.PC_TPU_PROTO_ID. rewrite Z.eqb_refl.
  cbn [orb negb mbind option_bind]. rewrite Nat2Z.id. cbn [Nat.eqb Nat.add]. do 3 f_equal. unfold submit. f_equal.
  rewrite wrap_small by (unfold in_u; lia). replace (Z.of_nat (S (S (S (S (length tx))))) - 4) with (Z.of_nat (length tx)) by lia.
  unfold frame, datagrams. rewrite <- !app_assoc. rewrite app_assoc.
  rewrite drop_app_length' by (by rewrite length_app, !length_le_bytes).
  rewrite udp_sends by done. by rewrite Nat2Z.id, take_app_length.
Qed.

Lemma drained_frames s u txs :
  Forall (fun tx => Z.of_nat (length tx) <= max_datagram) txs ->
  drained (mk_tx_user s u false) (concat (frame <$> txs))
  = Some (mk_tx_user (add_events (txs ≫= datagrams s) s) u false, []).
Proof.
  intros H. assert (forall l1 l2 s, add_events l2 (add_events l1 s) = add_events (l1 ++ l2) s) as Happ
    by (intros; unfold add_events; cbn; by rewrite app_assoc).
  revert s. induction H as [|tx txs Hl Hf IH]; intros s.
  { cbn. unfold drained. cbn. unfold add_events. rewrite app_nil_r. by destruct s. }
  cbn [fmap list_fmap concat]. erewrite drained_took; [| done | by apply user_parse_frame].
  rewrite drop_app_length' by (unfold frame; by rewrite !length_app, !length_le_bytes).
  etransitivity; [apply IH|]. do 2 f_equal. f_equal. rewrite Happ. done.
Qed.

(** A new connection reads the frames of a list of transactions. *)
Definition new_reader (s : tx_svr) (u : ptr) : reader := mk_reader [] 0 false (mk_tx_user s u false).

Section relay.
Context {key_cache : Type} (ed25519_sign : key_cache -> bytes -> bytes).
Context (sign_length : forall kp m, length (ed25519_sign kp m) = Bincode.sig_len).

(** A batch of price updates, with its first one. *)
Record batch := mk_batch { b_first : Bincode.upd_price (key_cache := key_cache); b_upds : list (Bincode.upd_price (key_cache := key_cache)) }.
Definition batch_ok (b : batch) : Prop :=
  head (b_upds b) = Some (b_first b) /\ Forall Bincode.upd_ok (b_upds b) /\ (length (b_upds b) <= 13)%nat.
Definition batch_tx (cu_units cu_price : Z) (b : batch) : bytes :=
  Bincode.tx_bytes ed25519_sign (b_first b) (b_upds b) cu_units cu_price.

(** (C19) The messages a client built for its batches, cut by the network in any way,
    reach every leader: each transaction once, whole and in order. *)
Theorem transactions_relayed cu_units cu_price bts msgs sigs ds s u :
  Forall batch_ok bts ->
  mapM (fun b => Bincode.build ed25519_sign (b_upds b) cu_units cu_price) bts = Some (Some <$> zip msgs sigs) ->
  length msgs = length sigs ->
  Forall (fun d => (length d <= buf_len)%nat) ds -> concat ds = concat msgs ->
  exists r, poll_recv (new_reader s u) ((recvd <$> ds) ++ [recv_again]) = Some r
    /\ svr (pst r) = add_events ((batch_tx cu_units cu_price <$> bts) ≫= datagrams s) s
    /\ closed (pst r) = false /\ pending r = [].
Proof.
  intros Hbs Hm Hlen Hds Hc.
  assert (msgs = frame <$> (batch_tx cu_units cu_price <$> bts)
          /\ Forall (fun tx => Z.of_nat (length tx) <= max_datagram) (batch_tx cu_units cu_price <$> bts)) as [-> Hl].
  { clear Hc. apply mapM_Some in Hm. revert msgs sigs Hm Hlen.
    induction Hbs as [|b bts (Hf & Hu & Hn) Hbs IH]; intros msgs sigs Hm Hlen.
    { apply Forall2_nil_inv_l in Hm. by destruct msgs, sigs. }
    apply Forall2_cons_inv_l in Hm as (y & ys & Hy & Hm & Heq).
    rewrite (Bincode.build_frame ed25519_sign sign_length _ _ _ _ Hf Hu Hn) in Hy. apply (inj Some) in Hy. subst y.
    destruct msgs as [|m msgs], sigs as [|g sigs]; try done.
    cbn [zip zip_with fmap list_fmap] in Heq. injection Heq as Ha Hb <-.
    destruct (IH msgs sigs Hm ltac:(simpl in Hlen; lia)) as [H1 H2]. split.
    - cbn [fmap list_fmap]. f_equal; [|exact H1]. rewrite Ha. reflexivity.
    - constructor; [|exact H2]. unfold batch_tx.
      rewrite (Bincode.length_tx_bytes ed25519_sign sign_length) by (done || lia).
      unfold Bincode.cu_size, max_datagram. destruct (0 <? cu_units), (0 <? cu_price); lia. }
  destruct (poll_recv_stream (new_reader s u) ds
              (mk_tx_user (add_events ((batch_tx cu_units cu_price <$> bts) ≫= datagrams s) s) u false) [])
    as (r & H1 & H2 & H3).
  - split; [done | cbn; lia | done].
  - exact Hds.
  - cbn [new_reader pst pending rdr_ rsz_ take app]. rewrite Hc. by apply drained_frames.
  - exists r. rewrite H2 in *. split_and!; try done. by apply H3.
Qed.
End relay.

(** ** The end of a connection *)

(** An event on the user's socket: the loop tears the connection down when it is
    in error, and reading from a socket that was closed is one. *)
Definition on_event (r : reader) (rcs : list recv_rc) : option reader :=
  r ← poll_recv r rcs;
  if closed (pst r) || rerr r then c ← user_teardown (pst r); Some (mk_reader [] 0 (rerr r) c) else Some r.
End addr.

(** Three users; the second sends a header of another protocol.  [parse] tears
    its connection down and the loop does so again: the list of open users is
    empty then, though two are connected, and deleting the user follows a link
    into the user just freed. *)
Definition three_users : option tx_svr :=
  s ← accept 1 true new_tx_svr; s ← accept 2 true s; accept 3 true s.
Definition after_bad_header : option tx_svr :=
  s ← three_users; r ← on_event (new_reader s 2) [recvd [171; 193; 4; 0]]; Some (svr (pst r)).
Example bad_header_frees_twice :
  (DblList.first ∘ olist_ <$> three_users) = Some (Some 1%positive)
  /\ (DblList.first ∘ olist_ <$> after_bad_header) = Some None
  /\ (s ← after_bad_header; teardown_users s) = None.
Proof. split_and!; vm_compute; reflexivity. Qed.

(** A user that just disconnects is removed from the open list alone. *)
Example disconnect_removes_one :
  (s ← three_users; r ← on_event (new_reader s 2) [recv_fail]; s ← teardown_users (svr (pst r));
   DblList.walk 3 (users s) (DblList.first (olist_ s))) = Some [1; 3]%positive.
Proof. vm_compute. reflexivity. Qed.

(** ** Witnesses *)

Definition test_key (n : Z) : bytes := replicate 32 n.
Definition test_addr (n : Z) : bytes := le_bytes 2 2 ++ [31; 64; 10; 0; 0; n] ++ replicate 8 0.
(** A schedule from slot 98: two slots of one leader, then of another, then of
    one whose address is not known. *)
Definition test_svr : tx_svr :=
  set_nmap (<[test_key 1 := test_addr 1]> (<[test_key 2 := test_addr 2]> ∅))
    (set_lreq (mk_slot_leaders (mk_treq 5 6 None 0) 98 256 98
                 [test_key 1; test_key 1; test_key 2; test_key 2; test_key 1; test_key 3; test_key 3]) new_tx_svr).

Lemma test_svr_ok : svr_ok test_svr.
Proof.
  split.
  - apply map_Forall_insert_2; [by_decide|]. apply map_Forall_insert_2; [by_decide|]. apply map_Forall_empty.
  - repeat (constructor; [by_decide|]). constructor.
  - constructor.
Qed.

Lemma leaders_addressed_witness :
  avec_ (on_slot 7 100 test_svr) = [test_addr 1; test_addr 2]
  /\ NoDup (avec_ (on_slot 7 100 test_svr))
  /\ (test_addr 2 ∈ avec_ (on_slot 7 100 test_svr) <->
       exists n k, 99 <= n < Z.min 105 (get_last_slot (lreq_ test_svr))
         /\ get_leader n (lreq_ test_svr) = Some k /\ nmap_ test_svr !! k = Some (test_addr 2)).
Proof.
  split; [vm_compute; reflexivity|].
  destruct (leaders_addressed 7 100 test_svr test_svr_ok eq_refl) as (_ & _ & H1 & _ & H2);
    [reflexivity | lia |]. split; [exact H1 | apply (H2 (test_addr 2))].
Defined.

Lemma one_request_witness :
  nodes_asked (on_slot 7 100 test_svr) = 1%nat
  /\ (nodes_asked (on_slot 7 100 test_svr) <= nodes_asked test_svr + may_ask (creq_ test_svr))%nat.
Proof.
  split; [vm_compute; reflexivity|]. apply (one_request 7 100 test_svr); vm_compute; reflexivity.
Defined.

(** Two transactions, received in two parts cut inside the second. *)
Definition test_batches : list (batch (key_cache := Z)) :=
  [mk_batch (Bincode.test_upd 5) [Bincode.test_upd 5]; mk_batch (Bincode.test_upd 6) [Bincode.test_upd 6]].
Definition test_msg (n : Z) : bytes :=
  match Bincode.build Bincode.test_sign [Bincode.test_upd n] 0 0 with Some (Some (m, _)) => m | _ => [] end.
Definition test_stream : bytes := test_msg 5 ++ test_msg 6.
Definition relay_svr : tx_svr := set_avec [test_addr 1; test_addr 2] new_tx_svr.
Definition relayed : option (reader (S := tx_user)) :=
  poll_recv (new_reader relay_svr 1) ((recvd <$> [take 300 test_stream; drop 300 test_stream]) ++ [recv_again]).

Lemma transactions_relayed_witness :
  exists r, relayed = Some r /\ pending r = [] /\ length (events (svr (pst r))) = 4%nat.
Proof.
  destruct (transactions_relayed Bincode.test_sign (fun _ _ => eq_refl) 0 0 test_batches
              [test_msg 5; test_msg 6] [replicate 64 7; replicate 64 7]
              [take 300 test_stream; drop 300 test_stream] relay_svr 1) as (r & H1 & H2 & _ & H3).
  - repeat constructor; try (cbn; lia).
  - vm_compute. reflexivity.
  - reflexivity.
  - by_decide.
  - cbn [concat]. rewrite !app_nil_r. apply take_drop.
  - exists r. split; [exact H1|]. split; [exact H3|]. rewrite H2. vm_compute. reflexivity.
Defined.
