(* ===== verification/RpcClient.v ===== *)
(** * JSON-RPC client ([pc/rpc_client.hpp], [pc/rpc_client.cpp])

    Requests are objects in a heap; the client keeps the multimap of waiting
    requests, the ids to use again and the map of subscriptions.  A response
    runs the subscriber's callback, which belongs to the application: it is a
    parameter that changes the application's state and asks for further requests
    to be sent, while the response is still being handled.  Invalid memory
    accesses have no result. *)

From S2P Require NetBuf Http WebSocket HashMap JTree Bincode.
From S2P Require Import Prelude Text Base64 Base58 JsonWtr KeyPair.
Import JTree (jtree, new_jtree, find_val, get_str, get_uint, get_int, get_bool, get_first, get_next).

(** ** Enumerations and their texts *)

(** The loops over a table of names; an unknown name is entry 0. *)
Fixpoint str_to_enum (i : Z) (names : list bytes) (s : bytes) : Z :=
  match names with
  | [] => 0
  | x :: names' => if str_eqb s x then i else str_to_enum (i + 1) names' s
  end.
Definition enum_to_str (names : list bytes) (i : Z) : bytes :=
  nth (Z.to_nat (if i <? Z.of_nat (length names) then i else 0)) names [].

Definition price_type_str : list bytes := [bs "unknown"; bs "price"; bs "twap"].
Definition symbol_status_str : list bytes := [bs "unknown"; bs "trading"; bs "halted"].
Definition commitment_str : list bytes := [bs "unknown"; bs "processed"; bs "confirmed"; bs "finalized"].

(** [e_last_price_type] is 2, one less than the table. *)
Definition price_types : list bytes := take 2 price_type_str.
Definition str_to_price_type (s : bytes) : Z := str_to_enum 0 price_types s.
Definition price_type_to_str (ptype : Z) : bytes := enum_to_str price_types (wrap 32 ptype).
Definition str_to_symbol_status (s : bytes) : Z := str_to_enum 0 symbol_status_str s.
Definition symbol_status_to_str (st : Z) : bytes := enum_to_str symbol_status_str (wrap 32 st).
Definition str_to_commitment (s : bytes) : Z := str_to_enum 0 commitment_str s.
Definition commitment_to_str (val : Z) : bytes := enum_to_str commitment_str (wrap 32 val).

Definition e_confirmed : Z := 2.

(** ** Requests *)

Definition ptr := positive.
Definition sub := positive.

Record account_update := mk_account_update {
  acc_ : bytes; cmt_ : Z; slot_ : Z; lamports_ : Z; data_ : bytes }.
Definition new_account_update : account_update := mk_account_update hash_zero e_confirmed 0 0 [].
Definition set_account (pkey : bytes) (u : account_update) : account_update :=
  mk_account_update pkey (cmt_ u) (slot_ u) (lamports_ u) (data_ u).
Definition set_commitment (val : Z) (u : account_update) : account_update :=
  mk_account_update (acc_ u) val (slot_ u) (lamports_ u) (data_ u).

(** ** Account data *)

Section data.
(** [ZSTD_decompressDCtx] with a buffer of [cap] bytes: an error code or the
    content; [ZSTD_compressBound]. *)
Context (zstd_decompress : bytes -> Z -> Z + bytes) (compress_bound : Z -> Z).

(** [decode dptr cap buf]: the [size_t] the library returns, which for an error
    is the negated code, and the buffer. *)
Definition decode (dptr : bytes) (cap : Z) (buf : bytes) : Z * bytes :=
  match zstd_decompress (dec_base64 dptr) cap with
  | inl code => (wrap 64 (- code), buf)
  | inr d => (Z.of_nat (length d), blit 0 d buf)
  end.

Definition resize (n : nat) (buf : bytes) : bytes := take n buf ++ replicate (n - length buf) 0.
(** [get_data_ref]: into the client's buffer [zbuf_]; [get_data_val]: into the
    caller's. *)
Definition get_data_ref (dptr : bytes) (tlen : Z) (zbuf : bytes) : Z * bytes :=
  let tlen := compress_bound tlen in
  decode dptr tlen (resize (Z.to_nat tlen) zbuf).
Definition get_data_val (dptr : bytes) (tlen : Z) (tgt : bytes) : Z * bytes :=
  decode dptr tlen tgt.
End data.

Section rpc.
Context {key_cache : Type} (ed25519_sign : key_cache -> bytes -> bytes).

Inductive rpc_body :=
  | get_recent_block_hash (slot : Z) (bhash : bytes) (fee_per_sig : Z)
  | get_slot (cmt cslot : Z)
  | get_account_info (u : account_update) (rent_epoch : Z) (owner : bytes) (is_exec : bool)
  | account_subscribe (u : account_update)
  | program_subscribe (u : account_update) (pgm : bytes)
  | get_program_accounts (u : account_update) (pgm : bytes) (acct_type : Z)
  | upd_price (u : Bincode.upd_price (key_cache := key_cache)) (sig ack_sig : bytes).

Record rpc_request := mk_rpc_request {
  cb_ : option sub; rid_ : Z; ec_ : Z; err_ : option bytes; sent_ts_ : Z; recv_ts_ : Z;
  body_ : rpc_body }.

Definition new_rpc_request (b : rpc_body) : rpc_request := mk_rpc_request None 0 0 None 0 0 b.
Definition set_id (id : Z) (r : rpc_request) : rpc_request :=
  mk_rpc_request (cb_ r) id (ec_ r) (err_ r) (sent_ts_ r) (recv_ts_ r) (body_ r).
Definition set_err_code (ec : Z) (r : rpc_request) : rpc_request :=
  mk_rpc_request (cb_ r) (rid_ r) (swrap 32 ec) (err_ r) (sent_ts_ r) (recv_ts_ r) (body_ r).
Definition set_err_msg (m : bytes) (r : rpc_request) : rpc_request :=
  mk_rpc_request (cb_ r) (rid_ r) (ec_ r) (Some m) (sent_ts_ r) (recv_ts_ r) (body_ r).
Definition set_sent_time (ts : Z) (r : rpc_request) : rpc_request :=
  mk_rpc_request (cb_ r) (rid_ r) (ec_ r) (err_ r) ts (recv_ts_ r) (body_ r).
Definition set_recv_time (ts : Z) (r : rpc_request) : rpc_request :=
  mk_rpc_request (cb_ r) (rid_ r) (ec_ r) (err_ r) (sent_ts_ r) ts (body_ r).
Definition set_body (b : rpc_body) (r : rpc_request) : rpc_request :=
  mk_rpc_request (cb_ r) (rid_ r) (ec_ r) (err_ r) (sent_ts_ r) (recv_ts_ r) b.
Definition set_sub (cb : option sub) (r : rpc_request) : rpc_request :=
  mk_rpc_request cb (rid_ r) (ec_ r) (err_ r) (sent_ts_ r) (recv_ts_ r) (body_ r).
Definition get_is_recv (r : rpc_request) : bool := sent_ts_ r <=? recv_ts_ r.

(** [get_is_http]: subscriptions go through the web socket. *)
Definition get_is_http (r : rpc_request) : bool :=
  match body_ r with
  | account_subscribe _ | program_subscribe _ _ => false
  | _ => true
  end.

(** *** Their JSON *)

(** The configuration object of the account requests. *)
Definition add_encoding (cmt : Z) (w : json_wtr) : json_wtr :=
  add_key_str (bs "commitment") (commitment_to_str cmt)
    (add_key_str (bs "encoding") (bs "base64+zstd") (add_val_type e_obj w)).

Definition request_account (method key : bytes) (cmt : Z) (w : json_wtr) : option json_wtr :=
  let w := add_key_str (bs "method") method w in
  let w := add_key_type (bs "params") e_arr w in
  w ← add_val_enc_base58 key w;
  w ← pop (add_encoding cmt w);
  pop w.

Definition request_account_info (u : account_update) : json_wtr -> option json_wtr :=
  request_account (bs "getAccountInfo") (acc_ u) (cmt_ u).
Definition request_account_subscribe (u : account_update) : json_wtr -> option json_wtr :=
  request_account (bs "accountSubscribe") (acc_ u) (cmt_ u).
Definition request_program_subscribe (u : account_update) (pgm : bytes) : json_wtr -> option json_wtr :=
  request_account (bs "programSubscribe") pgm (cmt_ u).

Definition acc_type_offset : Z := 8.
Definition add_filters (acct_type : Z) (w : json_wtr) : option json_wtr :=
  if acct_type =? 0 then Some w else
  let w := add_key_type (bs "filters") e_arr w in
  let w := add_val_type e_obj w in
  let w := add_key_type (bs "memcmp") e_obj w in
  let w := add_key_uint (bs "offset") acc_type_offset w in
  w ← add_key_enc_base58 (bs "bytes") (le_bytes 4 acct_type) w;
  w ← pop w;
  w ← pop w;
  pop w.

Definition request_program_accounts (pgm : bytes) (cmt acct_type : Z) (w : json_wtr) : option json_wtr :=
  let w := add_key_str (bs "method") (bs "getProgramAccounts") w in
  let w := add_key_type (bs "params") e_arr w in
  w ← add_val_enc_base58 pgm w;
  w ← add_filters acct_type (add_encoding cmt w);
  w ← pop (add_key_true (bs "withContext") w);
  pop w.

Definition request_block_hash (w : json_wtr) : json_wtr :=
  add_key_str (bs "method") (bs "getRecentBlockhash") w.
Definition request_slot (cmt : Z) (w : json_wtr) : option json_wtr :=
  let w := add_key_str (bs "method") (bs "getSlot") w in
  let w := add_key_type (bs "params") e_arr w in
  let w := add_val_type e_obj w in
  w ← pop (add_key_str (bs "commitment") (commitment_to_str cmt) w);
  pop w.

(** The virtual [request]; a price update also stores its signature. *)
Definition request (b : rpc_body) (w : json_wtr) : option (json_wtr * rpc_body) :=
  match b with
  | get_recent_block_hash _ _ _ =>
      Some (request_block_hash w, b)
  | get_slot cmt _ => w ← request_slot cmt w; Some (w, b)
  | get_account_info u _ _ _ => w ← request_account_info u w; Some (w, b)
  | account_subscribe u => w ← request_account_subscribe u w; Some (w, b)
  | program_subscribe u pgm => w ← request_program_subscribe u pgm w; Some (w, b)
  | get_program_accounts u pgm acct_type =>
      w ← request_program_accounts pgm (cmt_ u) acct_type w; Some (w, b)
  | upd_price u sig ack =>
      r ← Bincode.request ed25519_sign [u] 0 0 w;
      match r with
      | Some (w, sig) => Some (w, upd_price u sig ack)
      | None => Some (w, b)
      end
  end.

(** ** The client *)

(** [trait]. *)
Definition sub_hsize : Z := 8363.
Definition sub_hash (id : Z) : Z := wrap 32 id.

Record rpc_client := mk_rpc_client {
  rv_ : list (Z * ptr); reuse_ : list Z; smap_ : HashMap.hash_map Z ptr; id_ : Z; jp_ : jtree;
  has_ws : bool }.

Definition new_rpc_client : rpc_client :=
  mk_rpc_client [] [] (HashMap.new_hash_map sub_hsize) 0 new_jtree false.
Definition reset (c : rpc_client) : rpc_client :=
  mk_rpc_client [] [] (HashMap.clear (smap_ c)) 0 (jp_ c) (has_ws c).

(** The top of [reuse_] is the head of the list. *)
Definition get_id (c : rpc_client) : Z * rpc_client :=
  match reuse_ c with
  | id :: reuse => (id, mk_rpc_client (rv_ c) reuse (smap_ c) (id_ c) (jp_ c) (has_ws c))
  | [] => let id := wrap 64 (id_ c + 1) in
          (id, mk_rpc_client (rv_ c) [] (smap_ c) id (jp_ c) (has_ws c))
  end.

Definition set_rv (rv : list (Z * ptr)) (c : rpc_client) : rpc_client :=
  mk_rpc_client rv (reuse_ c) (smap_ c) (id_ c) (jp_ c) (has_ws c).
Definition set_reuse (reuse : list Z) (c : rpc_client) : rpc_client :=
  mk_rpc_client (rv_ c) reuse (smap_ c) (id_ c) (jp_ c) (has_ws c).
Definition set_smap (s : HashMap.hash_map Z ptr) (c : rpc_client) : rpc_client :=
  mk_rpc_client (rv_ c) (reuse_ c) s (id_ c) (jp_ c) (has_ws c).
Definition set_jp (j : jtree) (c : rpc_client) : rpc_client :=
  mk_rpc_client (rv_ c) (reuse_ c) (smap_ c) (id_ c) j (has_ws c).

(** [rv_.emplace]; it throws when the container is as large as memory. *)
Definition max_waiting : Z := 2 ^ 63.
Definition emplace (id : Z) (p : ptr) (c : rpc_client) : option rpc_client :=
  if Z.of_nat (length (rv_ c)) <? max_waiting then Some (set_rv (rv_ c ++ [(id, p)]) c) else None.
(** The requests of [equal_range( id )]. *)
Definition waiting (id : Z) (c : rpc_client) : list ptr :=
  omap (fun e => if decide (e.1 = id) then Some e.2 else None) (rv_ c).
Definition erase (id : Z) (c : rpc_client) : rpc_client :=
  set_rv (filter (fun e => e.1 <> id) (rv_ c)) c.

(** ** The world around it *)

(** The class of [rpc_sub_i<T>] a response is offered to. *)
Inductive topic := t_block_hash | t_slot | t_account_info | t_account_update | t_upd_price.

(** What has happened: messages queued for the connections, [response] and
    [notify] calls, and callbacks. *)
Inductive event :=
  | ev_http (msg : bytes) | ev_ws (frame : bytes) | ev_no_ws
  | ev_response (p : ptr) | ev_notify (p : ptr) | ev_call (p : ptr) (t : topic) (r : rpc_request).

(** What a callback does to the client: send a request, send a batch of price
    updates, or set a request's parameters. *)
Inductive action :=
  | act_send (p : ptr) | act_batch (ps : list ptr) (cu_units cu_price : Z)
  | act_param (p : ptr) (b : rpc_body).

Context {app_t : Type}.
(** The callback of a subscriber; whether it is one for a topic
    ([dynamic_cast]); the clock; [random()]; the host of the connection; the
    order in which a multimap visits the requests of one id. *)
Context (react : app_t -> sub -> topic -> rpc_request -> app_t * list action).
Context (casts : sub -> topic -> bool) (clock : nat -> Z) (random : nat -> Z) (host : bytes).
Context (visit : list ptr -> list ptr).

Record world := mk_world {
  clt : rpc_client; heap : gmap ptr rpc_request; log : list event; ticks : nat; nrand : nat;
  app_ : app_t }.

Definition set_clt (c : rpc_client) (w : world) : world :=
  mk_world c (heap w) (log w) (ticks w) (nrand w) (app_ w).
Definition set_app (a : app_t) (w : world) : world :=
  mk_world (clt w) (heap w) (log w) (ticks w) (nrand w) a.
Definition add_log (e : event) (w : world) : world :=
  mk_world (clt w) (heap w) (log w ++ [e]) (ticks w) (nrand w) (app_ w).
Definition get_now (w : world) : Z * world :=
  (clock (ticks w), mk_world (clt w) (heap w) (log w) (S (ticks w)) (nrand w) (app_ w)).
Definition get_random (w : world) : Z * world :=
  (random (nrand w), mk_world (clt w) (heap w) (log w) (ticks w) (S (nrand w)) (app_ w)).
Definition upd (p : ptr) (f : rpc_request -> rpc_request) (w : world) : option world :=
  r ← heap w !! p;
  Some (mk_world (clt w) (<[p := f r]> (heap w)) (log w) (ticks w) (nrand w) (app_ w)).

(** ** Sending *)

(** The object all messages share, around the method and parameters. *)
Definition open_call (id : Z) : json_wtr :=
  add_key_uint (bs "id") id (add_key_str (bs "jsonrpc") (bs "2.0") (add_val_type e_obj new_json_wtr)).

(** The end of both [send] functions. *)
Definition submit (is_http : bool) (jw : bytes) (w : world) : world :=
  if is_http then
    let msg := Http.request_init (bs "POST") (bs "/") ++ Http.add_hdr (bs "Host") host
               ++ Http.add_hdr (bs "Content-Type") (bs "application/json") in
    add_log (ev_http (Http.commit_body msg jw)) w
  else if has_ws (clt w) then
    let '(r, w) := get_random w in
    add_log (ev_ws (WebSocket.commit WebSocket.text_id jw (Some r))) w
  else add_log ev_no_ws w.

Definition emplace_w (id : Z) (p : ptr) (w : world) : option world :=
  c ← emplace id p (clt w); Some (set_clt c w).

Definition send (p : ptr) (w : world) : option world :=
  let '(id, c) := get_id (clt w) in
  let '(now, w) := get_now (set_clt c w) in
  w ← upd p (fun r => set_sent_time now (set_id id r)) w;
  w ← emplace_w id p w;
  r ← heap w !! p;
  '(jw, b) ← request (body_ r) (open_call id);
  w ← upd p (set_body b) w;
  jw ← pop jw;
  Some (submit (get_is_http r) (out jw) w).

Fixpoint enroll (id now : Z) (ps : list ptr) (w : world) : option world :=
  match ps with
  | [] => Some w
  | p :: ps' =>
      w ← upd p (fun r => set_sent_time now (set_id id r)) w;
      w ← emplace_w id p w;
      enroll id now ps' w
  end.

(** The updates of a batch. *)
Definition upd_of (w : world) (p : ptr) : option Bincode.upd_price :=
  r ← heap w !! p;
  match body_ r with upd_price u _ _ => Some u | _ => None end.
Definition set_sig (sig : bytes) (b : rpc_body) : rpc_body :=
  match b with upd_price u _ ack => upd_price u sig ack | _ => b end.

Definition send_batch (ps : list ptr) (cu_units cu_price : Z) (w : world) : option world :=
  match ps with
  | [] => Some w
  | p0 :: _ =>
      let '(id, c) := get_id (clt w) in
      let '(now, w) := get_now (set_clt c w) in
      w ← enroll id now ps w;
      us ← mapM (upd_of w) ps;
      r ← Bincode.request ed25519_sign us cu_units cu_price (open_call id);
      '(jw, sig) ← r;
      w ← upd p0 (fun r => set_body (set_sig sig (body_ r)) r) w;
      jw ← pop jw;
      Some (submit true (out jw) w)
  end.

(** ** Callbacks *)

Definition perform (w : option world) (a : action) : option world :=
  w ← w;
  match a with
  | act_send p => send p w
  | act_batch ps cu_units cu_price => send_batch ps cu_units cu_price w
  | act_param p b => upd p (set_body b) w
  end.

(** [rpc_request::on_response]. *)
Definition on_response (t : topic) (p : ptr) (w : world) : option world :=
  let '(now, w) := get_now w in
  w ← upd p (set_recv_time now) w;
  r ← heap w !! p;
  match cb_ r with
  | Some s =>
      if casts s t then
        let '(a, acts) := react (app_ w) s t r in
        foldl perform (Some (set_app a (add_log (ev_call p t r) w))) acts
      else Some w
  | None => Some w
  end.

(** [rpc_request::on_error]: whether the response was an error. *)
Definition on_error (t : topic) (jt : jtree) (p : ptr) (w : world) : option (bool * world) :=
  etok ← find_val jt 1 (bs "error");
  if etok =? 0 then Some (false, w) else
  mtok ← find_val jt etok (bs "message");
  txt ← get_str jt mtok;
  w ← upd p (set_err_msg txt) w;
  ctok ← find_val jt etok (bs "code");
  code ← get_int jt ctok;
  w ← upd p (set_err_code code) w;
  w ← on_response t p w;
  Some (true, w).

(** A field of an object, as a number or text. *)
Definition uint_at (jt : jtree) (obj : Z) (key : bytes) : option Z :=
  tok ← find_val jt obj key; get_uint jt tok.
Definition str_at (jt : jtree) (obj : Z) (key : bytes) : option bytes :=
  tok ← find_val jt obj key; get_str jt tok.
(** The first element of the array in field [data]. *)
Definition data_at (jt : jtree) (obj : Z) : option bytes :=
  dtok ← find_val jt obj (bs "data"); tok ← get_first jt dtok; get_str jt tok.

(** [add_notify] and [remove_notify] of the client, and of a subscription. *)
Definition add_notify (p : ptr) (w : world) : option world :=
  r ← heap w !! p;
  '(it, m) ← HashMap.add sub_hsize sub_hash (smap_ (clt w)) (rid_ r);
  m ← HashMap.set_ref m it p;
  Some (set_clt (set_smap m (clt w)) w).
Definition remove_notify (p : ptr) (w : world) : option world :=
  r ← heap w !! p;
  i ← HashMap.find sub_hsize sub_hash (smap_ (clt w)) (rid_ r);
  match i with
  | Some it => m ← HashMap.del (smap_ (clt w)) it; Some (set_clt (set_smap m (clt w)) w)
  | None => Some w
  end.
Definition sub_add_notify (jt : jtree) (p : ptr) (w : world) : option world :=
  rtok ← find_val jt 1 (bs "result");
  if rtok =? 0 then Some w else
  subid ← get_uint jt rtok;
  w ← upd p (set_id subid) w;
  add_notify p w.

(** ** Responses *)

Definition response_block_hash (bhash : bytes) (jt : jtree) (p : ptr) (w : world) : option world :=
  '(err, w) ← on_error t_block_hash jt p w;
  if (err : bool) then Some w else
  rtok ← find_val jt 1 (bs "result");
  ctok ← find_val jt rtok (bs "context");
  slot ← uint_at jt ctok (bs "slot");
  vtok ← find_val jt rtok (bs "value");
  txt ← str_at jt vtok (bs "blockhash");
  bhash ← init_from_text txt bhash;
  ftok ← find_val jt vtok (bs "feeCalculator");
  fee ← uint_at jt ftok (bs "lamportsPerSignature");
  w ← upd p (set_body (get_recent_block_hash slot bhash fee)) w;
  on_response t_block_hash p w.

Definition response_slot (cmt : Z) (jt : jtree) (p : ptr) (w : world) : option world :=
  '(err, w) ← on_error t_slot jt p w;
  if (err : bool) then Some w else
  rtok ← find_val jt 1 (bs "result");
  slot ← get_uint jt rtok;
  w ← upd p (set_body (get_slot cmt slot)) w;
  on_response t_slot p w.

Definition response_account_info (u : account_update) (jt : jtree) (p : ptr) (w : world) : option world :=
  '(err, w) ← on_error t_account_info jt p w;
  if (err : bool) then Some w else
  rtok ← find_val jt 1 (bs "result");
  ctok ← find_val jt rtok (bs "context");
  slot ← uint_at jt ctok (bs "slot");
  vtok ← find_val jt rtok (bs "value");
  xtok ← find_val jt vtok (bs "executable");
  is_exec ← get_bool jt xtok;
  lamports ← uint_at jt vtok (bs "lamports");
  data ← data_at jt vtok;
  owner ← str_at jt vtok (bs "owner");
  epoch ← uint_at jt vtok (bs "rentEpoch");
  w ← upd p (set_body (get_account_info (mk_account_update (acc_ u) (cmt_ u) slot lamports data)
                         epoch owner is_exec)) w;
  on_response t_account_info p w.

Definition response_account_subscribe (jt : jtree) (p : ptr) (w : world) : option world :=
  '(err, w) ← on_error t_account_update jt p w;
  if (err : bool) then Some w else sub_add_notify jt p w.

Definition response_program_subscribe (jt : jtree) (p : ptr) (w : world) : option world :=
  '(err, w) ← on_error t_account_update jt p w;
  if (err : bool) then Some w else sub_add_notify jt p w.

(** The body of the loop of [get_program_accounts::response], for one account. *)
Definition with_account (u : account_update) (b : rpc_body) : rpc_body :=
  match b with
  | get_program_accounts _ pgm ty => get_program_accounts u pgm ty
  | program_subscribe _ pgm => program_subscribe u pgm
  | account_subscribe _ => account_subscribe u
  | _ => b
  end.
Definition account_of (b : rpc_body) : option account_update :=
  match b with
  | get_account_info u _ _ _ | account_subscribe u | program_subscribe u _
  | get_program_accounts u _ _ => Some u
  | _ => None
  end.
Definition one_account (slot : Z) (jt : jtree) (tok : Z) (p : ptr) (w : world) : option world :=
  r ← heap w !! p;
  u ← account_of (body_ r);
  akey ← str_at jt tok (bs "pubkey");
  acc ← init_from_text akey (acc_ u);
  atok ← find_val jt tok (bs "account");
  lamports ← uint_at jt atok (bs "lamports");
  data ← data_at jt atok;
  w ← upd p (fun r => set_body (with_account (mk_account_update acc (cmt_ u) slot lamports data)
                                  (body_ r)) r) w;
  on_response t_account_update p w.
Fixpoint each_account (fuel : nat) (slot : Z) (jt : jtree) (tok : Z) (p : ptr) (w : world)
  : option world :=
  if tok =? 0 then Some w else
  match fuel with
  | O => None
  | S fuel' =>
      w ← one_account slot jt tok p w;
      tok ← get_next jt tok;
      each_account fuel' slot jt tok p w
  end.
Definition response_program_accounts (jt : jtree) (p : ptr) (w : world) : option world :=
  '(err, w) ← on_error t_account_update jt p w;
  if (err : bool) then Some w else
  rtok ← find_val jt 1 (bs "result");
  ctok ← find_val jt rtok (bs "context");
  slot ← uint_at jt ctok (bs "slot");
  vtok ← find_val jt rtok (bs "value");
  tok ← get_first jt vtok;
  each_account (length (JTree.nv_ jt)) slot jt tok p w.

Definition response_upd_price (jt : jtree) (p : ptr) (w : world) : option world :=
  '(err, w) ← on_error t_upd_price jt p w;
  if (err : bool) then Some w else
  rtok ← find_val jt 1 (bs "result");
  if rtok =? 0 then Some w else
  ack ← get_str jt rtok;
  w ← upd p (fun r => set_body (match body_ r with
                                | upd_price u sig _ => upd_price u sig ack
                                | b => b
                                end) r) w;
  on_response t_upd_price p w.

(** The virtual [response]. *)
Definition response (jt : jtree) (p : ptr) (w : world) : option world :=
  r ← heap w !! p;
  let w := add_log (ev_response p) w in
  match body_ r with
  | get_recent_block_hash _ bhash _ => response_block_hash bhash jt p w
  | get_slot cmt _ => response_slot cmt jt p w
  | get_account_info u _ _ _ => response_account_info u jt p w
  | account_subscribe _ => response_account_subscribe jt p w
  | program_subscribe _ _ => response_program_subscribe jt p w
  | get_program_accounts _ _ _ => response_program_accounts jt p w
  | upd_price _ _ _ => response_upd_price jt p w
  end.

(** ** Notifications *)

Definition notify_account (jt : jtree) (rtok : Z) (p : ptr) (w : world) : option world :=
  r ← heap w !! p;
  u ← account_of (body_ r);
  ctok ← find_val jt rtok (bs "context");
  slot ← uint_at jt ctok (bs "slot");
  vtok ← find_val jt rtok (bs "value");
  data ← data_at jt vtok;
  lamports ← uint_at jt vtok (bs "lamports");
  upd p (set_body (account_subscribe (mk_account_update (acc_ u) (cmt_ u) slot lamports data))) w.

Definition notify_program (jt : jtree) (rtok : Z) (p : ptr) (w : world) : option world :=
  r ← heap w !! p;
  u ← account_of (body_ r);
  ctok ← find_val jt rtok (bs "context");
  slot ← uint_at jt ctok (bs "slot");
  vtok ← find_val jt rtok (bs "value");
  akey ← str_at jt vtok (bs "pubkey");
  acc ← init_from_text akey (acc_ u);
  atok ← find_val jt vtok (bs "account");
  data ← data_at jt atok;
  lamports ← uint_at jt atok (bs "lamports");
  upd p (fun r => set_body (with_account (mk_account_update acc (cmt_ u) slot lamports data)
                              (body_ r)) r) w.

(** The virtual [notify]: true drops the subscription. *)
Definition notify (jt : jtree) (p : ptr) (w : world) : option (bool * world) :=
  r ← heap w !! p;
  let w := add_log (ev_notify p) w in
  let update (f : Z -> ptr -> world -> option world) :=
    '(err, w) ← on_error t_account_update jt p w;
    if (err : bool) then Some (true, w) else
    ptok ← find_val jt 1 (bs "params");
    rtok ← find_val jt ptok (bs "result");
    w ← f rtok p w;
    w ← on_response t_account_update p w;
    Some (false, w) in
  match body_ r with
  | account_subscribe _ => update (notify_account jt)
  | program_subscribe _ _ => update (notify_program jt)
  | _ => Some (true, w)
  end.

(** ** [parse_response] *)

Fixpoint respond_all (jt : jtree) (ps : list ptr) (w : world) : option world :=
  match ps with
  | [] => Some w
  | p :: ps' => w ← response jt p w; respond_all jt ps' w
  end.

Definition answer (id : Z) (jt : jtree) (w : world) : option world :=
  w ← respond_all jt (visit (waiting id (clt w))) w;
  let c := clt w in
  Some (set_clt (erase id (set_reuse (id :: reuse_ c) c)) w).

Definition notification (jt : jtree) (w : world) : option world :=
  ptok ← find_val jt 1 (bs "params");
  stok ← find_val jt ptok (bs "subscription");
  if stok =? 0 then Some w else
  id ← get_uint jt stok;
  i ← HashMap.find sub_hsize sub_hash (smap_ (clt w)) id;
  match i with
  | None => Some w
  | Some it =>
      p ← HashMap.obj (smap_ (clt w)) it;
      '(done, w) ← notify jt p w;
      if (done : bool) then
        m ← HashMap.del (smap_ (clt w)) it; Some (set_clt (set_smap m (clt w)) w)
      else Some w
  end.

Definition parse_response (txt : bytes) (w : world) : option world :=
  jt ← JTree.parse (jp_ (clt w)) txt;
  let w := set_clt (set_jp jt (clt w)) w in
  idtok ← find_val jt 1 (bs "id");
  if negb (idtok =? 0) then
    id ← get_uint jt idtok;
    answer id jt w
  else notification jt w.

(** ** Request ids

    Ids from 1 to [id_] are in use by waiting requests or in [reuse_], never
    both. *)

Record ids_ok (c : rpc_client) : Prop := {
  ids_nodup : NoDup (reuse_ c);
  ids_reuse id : id ∈ reuse_ c -> waiting id c = [];
  ids_range id : 1 <= id <= id_ c <-> id ∈ reuse_ c \/ waiting id c <> [];
  ids_pos : 0 <= id_ c;
  ids_mem : Z.of_nat (length (rv_ c)) <= max_waiting }.

(** The same while [id] is being given to requests. *)
Record taken (id : Z) (c : rpc_client) : Prop := {
  tk_nodup : NoDup (reuse_ c);
  tk_fresh : id ∉ reuse_ c;
  tk_reuse x : x ∈ reuse_ c -> waiting x c = [];
  tk_range x : 1 <= x <= id_ c <-> x ∈ reuse_ c \/ waiting x c <> [] \/ x = id;
  tk_pos : 0 <= id_ c;
  tk_mem : Z.of_nat (length (rv_ c)) <= max_waiting }.

Lemma waiting_in id c : waiting id c <> [] <-> id ∈ (rv_ c).*1.
Proof.
  unfold waiting. induction (rv_ c) as [|[k p] l IH]; cbn [omap list_omap fmap list_fmap fst snd].
  - split; [done | intros H; inversion H].
  - rewrite elem_of_cons. destruct (decide (k = id)) as [->|Hne]; [|intuition congruence].
    split; [by left | done].
Qed.

Lemma new_ids_ok : ids_ok new_rpc_client.
Proof.
  split; cbn [reuse_ rv_ id_ new_rpc_client]; try done.
  - by apply NoDup_nil.
  - intros id. split; [lia|]. intros [H|H]; [inversion H | done].
Qed.

(** Every id in use belongs to a waiting request: there is always another. *)
Lemma ids_count c : ids_ok c -> reuse_ c = [] -> id_ c <= Z.of_nat (length (rv_ c)).
Proof.
  intros [_ _ Hr Hp _] He. rewrite He in Hr.
  assert (length (Z.of_nat <$> seq 1 (Z.to_nat (id_ c))) <= length (rv_ c).*1)%nat as H.
  { apply submseteq_length, NoDup_submseteq.
    - apply NoDup_fmap_2; [intros ? ?; lia | apply NoDup_seq].
    - intros x (i & -> & Hi%elem_of_seq)%list_elem_of_fmap.
      apply waiting_in. destruct (proj1 (Hr (Z.of_nat i)) ltac:(lia)) as [H|H]; [inversion H | done]. }
  rewrite !length_fmap, length_seq in H. lia.
Qed.

Lemma get_id_taken c :
  ids_ok c ->
  let r := get_id c in
  waiting r.1 c = [] /\ taken r.1 r.2 /\ rv_ r.2 = rv_ c.
Proof.
  intros Hc. pose proof Hc as [Hn Hre Hr Hp Hm]. cbn zeta. unfold get_id.
  destruct (reuse_ c) as [|id l] eqn:E; cbn [fst snd].
  - pose proof (ids_count c Hc E) as Hlen. rewrite wrap_small by (unfold max_waiting in *; mach).
    assert (waiting (id_ c + 1) c = []) as Hw.
    { destruct (waiting (id_ c + 1) c) eqn:Ew; [done|].
      pose proof (proj2 (Hr (id_ c + 1))) as H. rewrite Ew in H. specialize (H ltac:(by right)). lia. }
    split_and!; [done | | done].
    split; cbn [reuse_ rv_ id_]; try done.
    + apply not_elem_of_nil.
    + intros x. specialize (Hr x). unfold waiting in *. cbn [rv_].
      split; [intros Hx | intros [H|[H|H]]; [inversion H | apply proj2 in Hr; specialize (Hr (or_intror H)); lia | lia]].
      destruct (decide (x = id_ c + 1)); [tauto|]. destruct (proj1 Hr ltac:(lia)) as [H|H]; [inversion H | tauto].
    + lia.
  - apply NoDup_cons in Hn as [Hnin Hn].
    assert (waiting id c = []) as Hw by (apply Hre; left).
    split_and!; [done | | done].
    split; cbn [reuse_ rv_ id_]; try done.
    + intros x Hx. apply (Hre x). by right.
    + intros x. rewrite Hr. rewrite elem_of_cons. unfold waiting. cbn [rv_]. naive_solver.
Qed.

Lemma waiting_emplace id p c x :
  waiting x (set_rv (rv_ c ++ [(id, p)]) c) = waiting x c ++ (if decide (id = x) then [p] else []).
Proof. unfold waiting. cbn [rv_ set_rv]. rewrite omap_app. cbn. destruct (decide (id = x)); done. Qed.

Lemma emplace_taken id p c c' :
  taken id c -> emplace id p c = Some c' ->
  taken id c' /\ forall x, waiting x c' = waiting x c ++ (if decide (id = x) then [p] else []).
Proof.
  unfold emplace. intros [Hn Hf Hre Hr Hp Hm]. destruct (Z.ltb_spec (Z.of_nat (length (rv_ c))) max_waiting);
    [|done].
  intros [= <-]. split; [|intros x; apply waiting_emplace].
  split; try done.
  - intros x Hx. rewrite waiting_emplace. cbn [reuse_ set_rv] in Hx. rewrite (Hre x Hx).
    destruct (decide (id = x)) as [->|]; [tauto | done].
  - intros x. rewrite waiting_emplace. cbn [reuse_ id_ set_rv]. rewrite Hr.
    destruct (decide (id = x)) as [->|]; [tauto | rewrite app_nil_r; tauto].
  - cbn [rv_ set_rv]. rewrite length_app. simpl. lia.
Qed.

Lemma taken_ok id c : taken id c -> waiting id c <> [] -> ids_ok c.
Proof.
  intros [Hn Hf Hre Hr Hp Hm] Hw. split; try done. intros x. rewrite Hr.
  split; [|tauto]. intros [H|[H| ->]]; tauto.
Qed.

(** ** What sending and handling leave alone *)

(** The requests whose [response] was called. *)
Definition called (evs : list event) : list ptr :=
  omap (fun e => match e with ev_response p => Some p | _ => None end) evs.
Definition logged (w w' : world) : Prop := exists evs, log w' = log w ++ evs /\ called evs = [].

#[local] Instance logged_preorder : PreOrder logged.
Proof.
  split.
  - intros w. exists []. rewrite app_nil_r. done.
  - intros w1 w2 w3 (e1 & L1 & C1) (e2 & L2 & C2). exists (e1 ++ e2).
    rewrite L2, L1, app_assoc. split; [done|]. unfold called in *. rewrite omap_app, C1, C2. done.
Qed.

(** [quiet]: requests and ids stay as they are. *)
Record quiet (w w' : world) : Prop := {
  qt_rv : rv_ (clt w') = rv_ (clt w); qt_reuse : reuse_ (clt w') = reuse_ (clt w);
  qt_id : id_ (clt w') = id_ (clt w); qt_log : logged w w' }.

#[local] Instance quiet_preorder : PreOrder quiet.
Proof.
  split.
  - intros w. by split.
  - intros w1 w2 w3 [A1 B1 C1 D1] [A2 B2 C2 D2]. split; try congruence. etransitivity; eauto.
Qed.

Lemma quiet_same c h l t n a c' h' t' n' a' :
  rv_ c' = rv_ c -> reuse_ c' = reuse_ c -> id_ c' = id_ c ->
  quiet (mk_world c h l t n a) (mk_world c' h' l t' n' a').
Proof. intros. split; try done. exists []. rewrite app_nil_r. done. Qed.

Lemma quiet_upd p f w w' : upd p f w = Some w' -> quiet w w'.
Proof. destruct w. unfold upd. cbn. destruct (_ !! p); [|done]. intros [= <-]. by apply quiet_same. Qed.
Lemma quiet_get_now w z w' : get_now w = (z, w') -> quiet w w'.
Proof. destruct w. intros [= _ <-]. by apply quiet_same. Qed.
Lemma quiet_set_app a w : quiet w (set_app a w).
Proof. destruct w. by apply quiet_same. Qed.
Lemma quiet_set_smap s w : quiet w (set_clt (set_smap s (clt w)) w).
Proof. destruct w. by apply quiet_same. Qed.
Lemma quiet_add_log e w : called [e] = [] -> quiet w (add_log e w).
Proof. intros He. split; try done. exists [e]. done. Qed.

Lemma quiet_submit is_http jw w : quiet w (submit is_http jw w).
Proof.
  unfold submit. destruct is_http; [by apply quiet_add_log|].
  destruct (has_ws (clt w)); [|by apply quiet_add_log].
  destruct w. cbn [get_random]. etransitivity; [|by apply quiet_add_log]. by apply quiet_same.
Qed.

(** [evolves]: requests are only added, under ids no request waits for. *)
Record evolves (w w' : world) : Prop := {
  ev_ids : ids_ok (clt w) -> ids_ok (clt w');
  ev_kept id : ids_ok (clt w) -> waiting id (clt w) <> [] -> waiting id (clt w') = waiting id (clt w);
  ev_logged : logged w w' }.

#[local] Instance evolves_preorder : PreOrder evolves.
Proof.
  split.
  - intros w. by split.
  - intros w1 w2 w3 [I1 K1 L1] [I2 K2 L2]. split; [auto | | etransitivity; eauto].
    intros id Hi Hw. rewrite <- (K1 id Hi Hw). apply K2; [auto|]. rewrite (K1 id Hi Hw). done.
Qed.

Lemma quiet_waiting w w' id : quiet w w' -> waiting id (clt w') = waiting id (clt w).
Proof. intros [H _ _ _]. unfold waiting. rewrite H. done. Qed.

Lemma quiet_evolves w w' : quiet w w' -> evolves w w'.
Proof.
  intros Hq. pose proof Hq as [E1 E2 E3 E4]. split; [|intros; by apply quiet_waiting | done].
  intros [H1 H2 H3 H4 H5]. unfold waiting in *.
  split; unfold waiting; rewrite ?E1, ?E2, ?E3; assumption.
Qed.

(** A send is an enrolment of requests under the next id. *)
Record sent_under (id : Z) (ps : list ptr) (w w' : world) : Prop := {
  su_fresh : waiting id (clt w) = [];
  su_ids : ids_ok (clt w');
  su_wait x : waiting x (clt w') = if decide (id = x) then ps else waiting x (clt w) }.

Lemma enroll_taken id now ps w w' :
  enroll id now ps w = Some w' -> taken id (clt w) ->
  taken id (clt w') /\ logged w w'
  /\ forall x, waiting x (clt w') = waiting x (clt w) ++ (if decide (id = x) then ps else []).
Proof.
  revert w; induction ps as [|p ps IH]; intros w; cbn [enroll].
  - intros [= <-] Ht. split_and!; [done | done |]. intros x. destruct (decide _); rewrite app_nil_r; done.
  - destruct (upd p _ w) as [w1|] eqn:E1; [|done]. cbn [mbind option_bind].
    unfold emplace_w at 1. destruct (emplace id p (clt w1)) as [c|] eqn:E2; [|done].
    cbn [mbind option_bind]. intros He Ht.
    assert (clt w1 = clt w /\ logged w w1) as [Ec El].
    { split; [|apply (quiet_upd _ _ _ _ E1)]. unfold upd in E1.
      destruct (heap w !! p); [|done]. injection E1 as <-. done. }
    rewrite Ec in E2. destruct (emplace_taken _ _ _ _ Ht E2) as [Ht2 Hw2].
    destruct (IH _ He Ht2) as (Ht3 & Hl3 & Hw3). cbn [clt set_clt] in *.
    split_and!; [done | etransitivity; [exact El | exact Hl3] |]. intros x. rewrite Hw3, Hw2.
    destruct (decide (id = x)); [by rewrite <- app_assoc | by rewrite !app_nil_r].
Qed.

Lemma enrolled id c now z ps w0 w w1 w' :
  ps <> [] -> get_id (clt w0) = (id, c) -> get_now (set_clt c w0) = (z, w) ->
  enroll id now ps w = Some w1 -> quiet w1 w' ->
  ids_ok (clt w0) -> sent_under id ps w0 w' /\ logged w0 w'.
Proof.
  intros Hne Hg Hn He Hq Hi. destruct (get_id_taken _ Hi) as (Hf & Ht & Hrv).
  rewrite Hg in *. cbn [fst snd] in *. injection Hn as _ <-.
  destruct (enroll_taken _ _ _ _ _ He Ht) as (Ht1 & Hl1 & Hw1). cbn [clt set_clt] in *.
  assert (forall x, waiting x (clt w1) = if decide (id = x) then ps else waiting x (clt w0)) as Hw.
  { intros x. rewrite Hw1. unfold waiting at 1. rewrite Hrv. fold (waiting x (clt w0)).
    destruct (decide (id = x)) as [<-|]; [rewrite Hf; done | apply app_nil_r]. }
  assert (ids_ok (clt w1)) as Hi1.
  { eapply taken_ok; [exact Ht1|]. rewrite Hw, decide_True by done. done. }
  split; [|etransitivity; [exact Hl1 | apply (qt_log _ _ Hq)]].
  split; [done | apply (ev_ids _ _ (quiet_evolves _ _ Hq)); done |].
  intros x. rewrite (quiet_waiting _ _ x Hq). done.
Qed.

Lemma send_under p w w' :
  send p w = Some w' -> ids_ok (clt w) -> exists id, sent_under id [p] w w' /\ logged w w'.
Proof.
  unfold send. intros H Hi. unbind H. injection H as <-. subst.
  eexists. eapply (enrolled _ _ _ _ [p]); [done | eassumption | eassumption | | | done].
  - cbn [enroll]. match goal with E : upd p _ _ = Some ?w1 |- _ => rewrite E end. cbn [mbind option_bind].
    match goal with E : emplace_w _ _ _ = Some ?w1 |- _ => rewrite E end. done.
  - etransitivity; [eapply quiet_upd; eassumption | apply quiet_submit].
Qed.

Lemma send_batch_under ps cu_units cu_price w w' :
  ps <> [] -> send_batch ps cu_units cu_price w = Some w' -> ids_ok (clt w) ->
  exists id, sent_under id ps w w' /\ logged w w'.
Proof.
  destruct ps as [|p0 ps]; [done|]. intros _. unfold send_batch. intros H Hi. unbind H.
  apply (inj Some) in H as <-. eexists.
  eapply (enrolled _ _ _ _ (p0 :: ps)); [done | eassumption | eassumption | eassumption | | done].
  etransitivity; [eapply quiet_upd; eassumption | apply quiet_submit].
Qed.

Lemma sent_under_evolves ps w w' :
  (ids_ok (clt w) -> exists id, sent_under id ps w w' /\ logged w w') -> logged w w' -> evolves w w'.
Proof.
  intros H Hl. split; [| |done].
  - intros Hi. destruct (H Hi) as (id & [_ Ho _] & _). done.
  - intros x Hi Hx. destruct (H Hi) as (id & [Hf _ Hw] & _). rewrite Hw.
    destruct (decide (id = x)) as [->|]; done.
Qed.

Lemma logged_enroll id now ps w w' : enroll id now ps w = Some w' -> logged w w'.
Proof.
  revert w; induction ps as [|p ps IH]; intros w H; cbn [enroll] in H; [by injection H as <-|].
  unbind H. apply IH in H. unfold emplace_w in *.
  match goal with E : mbind _ (emplace _ _ _) = _ |- _ => unbind E; injection E as <- end.
  etransitivity; [eapply qt_log, quiet_upd; eassumption | exact H].
Qed.

Lemma logged_start id c w z w1 : get_id (clt w) = (id, c) -> get_now (set_clt c w) = (z, w1) -> logged w w1.
Proof. intros _ [= _ <-]. exists []. rewrite app_nil_r. done. Qed.

Lemma evolves_send p w w' : send p w = Some w' -> evolves w w'.
Proof.
  intros H. eapply sent_under_evolves; [intros Hi; by eapply send_under|].
  unfold send in H. unbind H. apply (inj Some) in H as <-.
  etransitivity; [eapply logged_start; eassumption|].
  etransitivity; [eapply qt_log, quiet_upd; eassumption|].
  match goal with E : emplace_w _ _ _ = _ |- _ => unfold emplace_w in E; unbind E; injection E as <- end.
  etransitivity; [|apply qt_log, quiet_submit].
  match goal with E : upd p (set_body _) _ = _ |- _ => exact (qt_log _ _ (quiet_upd _ _ _ _ E)) end.
Qed.

Lemma evolves_send_batch ps cu_units cu_price w w' :
  send_batch ps cu_units cu_price w = Some w' -> evolves w w'.
Proof.
  intros H. destruct ps as [|p0 ps]; [by injection H as <-|].
  eapply sent_under_evolves; [intros Hi; eapply send_batch_under; [|done..]; done|].
  unfold send_batch in H. unbind H. apply (inj Some) in H as <-.
  etransitivity; [eapply logged_start; eassumption|].
  etransitivity; [eapply logged_enroll; eassumption|].
  etransitivity; [eapply qt_log, quiet_upd; eassumption | apply qt_log, quiet_submit].
Qed.

Lemma evolves_upd p f w w' : upd p f w = Some w' -> evolves w w'.
Proof. intros H. eapply quiet_evolves, quiet_upd, H. Qed.

Lemma evolves_perform acts w w' : foldl perform (Some w) acts = Some w' -> evolves w w'.
Proof.
  revert w; induction acts as [|a acts IH]; intros w; cbn [foldl]; [by intros [= <-]|].
  destruct (perform (Some w) a) as [w1|] eqn:E.
  - intros H%IH. etransitivity; [|exact H]. destruct a; cbn in E;
      eauto using evolves_send, evolves_send_batch, evolves_upd.
  - clear. intros H. exfalso. revert H. induction acts as [|a acts IH]; [done | exact IH].
Qed.

Lemma evolves_on_response t p w w' : on_response t p w = Some w' -> evolves w w'.
Proof.
  unfold on_response. intros H. unbind H.
  etransitivity; [eapply quiet_evolves, quiet_get_now; eassumption|].
  etransitivity; [eapply evolves_upd; eassumption|].
  destruct (cb_ _) as [s|]; [|by injection H as <-].
  destruct (casts s t); [|by injection H as <-].
  destruct (react _ _ _ _) as [a acts].
  etransitivity; [|eapply evolves_perform, H].
  etransitivity; [eapply quiet_evolves, quiet_add_log | apply quiet_evolves, quiet_set_app]. done.
Qed.

Lemma evolves_on_error t jt p w b w' : on_error t jt p w = Some (b, w') -> evolves w w'.
Proof.
  unfold on_error. intros H. unbind H. destruct (_ =? 0); [by injection H as _ <-|].
  unbind H. injection H as _ <-.
  etransitivity; [eapply evolves_upd; eassumption|].
  etransitivity; [eapply evolves_upd; eassumption|].
  eapply evolves_on_response; eassumption.
Qed.

Lemma evolves_add_notify p w w' : add_notify p w = Some w' -> evolves w w'.
Proof.
  unfold add_notify. intros H. unbind H. injection H as <-. apply quiet_evolves, quiet_set_smap.
Qed.

Lemma evolves_sub_add_notify jt p w w' : sub_add_notify jt p w = Some w' -> evolves w w'.
Proof.
  unfold sub_add_notify. intros H. unbind H. destruct (_ =? 0); [by injection H as <-|]. unbind H.
  etransitivity; [eapply evolves_upd; eassumption | eapply evolves_add_notify; eassumption].
Qed.

Create HintDb evolve.
#[local] Hint Resolve evolves_upd evolves_on_response evolves_on_error evolves_sub_add_notify : evolve.

(** Chains the steps of a handler. *)
Ltac evolve H :=
  unbind H;
  repeat match goal with
  | E : on_error _ _ _ ?w = Some (_, ?w1) |- evolves ?w _ =>
      etransitivity; [solve [eauto with evolve]|]; clear E
  | E : _ ?w = Some ?w1 |- evolves ?w _ =>
      etransitivity; [solve [eauto with evolve]|]; clear E
  end;
  try reflexivity.

Lemma evolves_one_account slot jt tok p w w' : one_account slot jt tok p w = Some w' -> evolves w w'.
Proof. unfold one_account. intros H. evolve H. Qed.

Lemma evolves_each_account fuel slot jt tok p w w' :
  each_account fuel slot jt tok p w = Some w' -> evolves w w'.
Proof.
  revert tok w; induction fuel as [|fuel IH]; intros tok w H; cbn [each_account] in H;
    destruct (tok =? 0); try (by injection H as <-); [done|].
  unbind H. etransitivity; [eapply evolves_one_account; eassumption | eapply IH; exact H].
Qed.

Lemma evolves_response jt p w w' :
  response jt p w = Some w' -> exists w1, w1 = add_log (ev_response p) w /\ evolves w1 w'.
Proof.
  unfold response. intros H. unbind H. eexists. split; [reflexivity|]. revert H.
  generalize (add_log (ev_response p) w). intros w0 H.
  destruct (body_ _);
    unfold response_block_hash, response_slot, response_account_info, response_account_subscribe, response_program_subscribe,
      response_program_accounts, response_upd_price in H; unbind H;
    (etransitivity; [eapply evolves_on_error; eassumption|]);
    (match type of H with (if ?b then _ else _) = _ => destruct b end);
    try (by injection H as <-); try (by evolve H).
  - unbind H. eapply evolves_each_account. exact H.
  - unbind H. destruct (_ =? 0); [by injection H as <-|]. evolve H.
Qed.

Lemma respond_all_evolves jt ps w w' :
  respond_all jt ps w = Some w' ->
  (ids_ok (clt w) -> ids_ok (clt w'))
  /\ (forall id, ids_ok (clt w) -> waiting id (clt w) <> [] -> waiting id (clt w') = waiting id (clt w))
  /\ exists evs, log w' = log w ++ evs /\ called evs = ps.
Proof.
  revert w; induction ps as [|p ps IH]; intros w H; cbn [respond_all] in H.
  - injection H as <-. split_and!; [done | done |]. exists []. rewrite app_nil_r. done.
  - unbind H. destruct (evolves_response _ _ _ _ E) as (w1 & -> & [I1 K1 (e1 & L1 & C1)]).
    destruct (IH _ H) as (I2 & K2 & e2 & L2 & C2). split_and!; [auto | |].
    + intros id Hi Hw. pose proof (K1 id Hi Hw) as Ek. cbn [clt add_log] in Ek.
      rewrite <- Ek. apply K2; [auto|]. rewrite Ek. done.
    + exists ((ev_response p :: e1) ++ e2). rewrite L2, L1. cbn [log add_log].
      rewrite <- !app_assoc. split; [done|]. unfold called in *. rewrite omap_app. cbn. rewrite C1, C2. done.
Qed.

Lemma waiting_erase id x c : waiting x (erase id c) = if decide (x = id) then [] else waiting x c.
Proof.
  unfold waiting, erase. cbn [rv_ set_rv]. induction (rv_ c) as [|[k p] l IH].
  - cbn. destruct (decide _); done.
  - rewrite filter_cons. cbn [fst]. destruct (decide (k <> id)) as [Hk|Hk]; cbn; rewrite IH.
    + destruct (decide (k = x)), (decide (x = id)); congruence.
    + destruct (decide (k = x)), (decide (x = id)); try done. exfalso. apply Hk. congruence.
Qed.

Lemma length_erase id c : (length (rv_ (erase id c)) <= length (rv_ c))%nat.
Proof. apply length_filter. Qed.

(** [id] becomes usable again when its requests are erased. *)
Lemma erase_ok id c :
  ids_ok c -> waiting id c <> [] -> ids_ok (erase id (set_reuse (id :: reuse_ c) c)).
Proof.
  intros [Hn Hre Hr Hp Hm] Hw.
  assert (forall x, waiting x (erase id (set_reuse (id :: reuse_ c) c))
                    = if decide (x = id) then [] else waiting x c) as He
    by (intros x; apply (waiting_erase id x (set_reuse (id :: reuse_ c) c))).
  split; cbn [reuse_ erase set_rv set_reuse id_]; try done.
  - apply NoDup_cons. split; [|done]. intros Hin. by apply Hre in Hin.
  - intros x Hx. rewrite He. apply elem_of_cons in Hx as [->|Hx]; [by rewrite decide_True|].
    destruct (decide _); auto.
  - intros x. rewrite He, Hr, elem_of_cons. destruct (decide (x = id)) as [->|]; [tauto|]. tauto.
  - etransitivity; [|exact Hm]. apply Nat2Z.inj_le, (length_erase id (set_reuse (id :: reuse_ c) c)).
Qed.

(** What answering an id whose requests are waiting does. *)
Record answered (id : Z) (w w' : world) : Prop := {
  an_ids : ids_ok (clt w');
  an_done : waiting id (clt w') = [];
  an_reuse : id ∈ reuse_ (clt w');
  an_kept x : x <> id -> waiting x (clt w) <> [] -> waiting x (clt w') = waiting x (clt w);
  an_called : exists evs, log w' = log w ++ evs /\ called evs = visit (waiting id (clt w)) }.

Lemma answer_answered id jt w w' :
  ids_ok (clt w) -> waiting id (clt w) <> [] -> answer id jt w = Some w' -> answered id w w'.
Proof.
  unfold answer. intros Hi Hw H. unbind H. injection H as <-.
  destruct (respond_all_evolves _ _ _ _ E) as (I & K & evs & L & C).
  assert (waiting id (clt w0) <> []) as Hw0 by (rewrite K; done).
  split; cbn [clt set_clt log].
  - apply erase_ok; auto.
  - rewrite (waiting_erase id id (set_reuse _ _)), decide_True by done. done.
  - cbn [reuse_ erase set_rv set_reuse]. left.
  - intros x Hx Hwx. rewrite (waiting_erase id x (set_reuse _ _)), decide_False by done.
    apply (K x Hi Hwx).
  - exists evs. done.
Qed.

(** ** Subscriptions *)

Definition same_smap (w w' : world) : Prop := smap_ (clt w') = smap_ (clt w).

#[local] Instance same_smap_preorder : PreOrder same_smap.
Proof. split; unfold same_smap; [by intros w | intros w1 w2 w3; congruence]. Qed.

Lemma smap_upd p f w w' : upd p f w = Some w' -> same_smap w w'.
Proof. unfold upd. destruct (_ !! p); [|done]. intros [= <-]. done. Qed.

Lemma smap_emplace id p w w' : emplace_w id p w = Some w' -> same_smap w w'.
Proof.
  unfold emplace_w, emplace. destruct (_ <? _); [|done]. intros [= <-]. done.
Qed.

Lemma smap_start id c w z w1 : get_id (clt w) = (id, c) -> get_now (set_clt c w) = (z, w1) -> same_smap w w1.
Proof. unfold get_id. intros Hg [= _ <-]. destruct (reuse_ _); injection Hg as _ <-; done. Qed.

Lemma smap_submit is_http jw w : same_smap w (submit is_http jw w).
Proof. unfold submit, same_smap. destruct is_http, (has_ws (clt w)) eqn:E; destruct w; cbn in *; try rewrite E; done. Qed.

Lemma smap_enroll id now ps w w' : enroll id now ps w = Some w' -> same_smap w w'.
Proof.
  revert w; induction ps as [|p ps IH]; intros w H; cbn [enroll] in H; [by injection H as <-|].
  unbind H. apply IH in H. etransitivity; [eapply smap_upd; eassumption|].
  etransitivity; [eapply smap_emplace; eassumption | exact H].
Qed.

Lemma smap_send p w w' : send p w = Some w' -> same_smap w w'.
Proof.
  unfold send. intros H. unbind H. apply (inj Some) in H as <-.
  etransitivity; [eapply smap_start; eassumption|]. etransitivity; [eapply smap_upd; eassumption|].
  etransitivity; [eapply smap_emplace; eassumption|].
  etransitivity; [|apply smap_submit].
  match goal with E : upd p (set_body _) _ = _ |- _ => exact (smap_upd _ _ _ _ E) end.
Qed.

Lemma smap_send_batch ps cu_units cu_price w w' :
  send_batch ps cu_units cu_price w = Some w' -> same_smap w w'.
Proof.
  destruct ps as [|p0 ps]; [by intros [= <-]|]. unfold send_batch. intros H. unbind H.
  apply (inj Some) in H as <-.
  etransitivity; [eapply smap_start; eassumption|]. etransitivity; [eapply smap_enroll; eassumption|].
  etransitivity; [eapply smap_upd; eassumption | apply smap_submit].
Qed.

Lemma smap_perform acts w w' : foldl perform (Some w) acts = Some w' -> same_smap w w'.
Proof.
  revert w; induction acts as [|a acts IH]; intros w; cbn [foldl]; [by intros [= <-]|].
  destruct (perform (Some w) a) as [w1|] eqn:E.
  - intros H%IH. etransitivity; [|exact H]. destruct a; cbn in E;
      eauto using smap_send, smap_send_batch, smap_upd.
  - clear. intros H. exfalso. revert H. induction acts as [|a acts IH]; [done | exact IH].
Qed.

Lemma smap_on_response t p w w' : on_response t p w = Some w' -> same_smap w w'.
Proof.
  unfold on_response. intros H. unbind H.
  transitivity w0; [by match goal with E : get_now w = _ |- _ => injection E as _ <- end|].
  etransitivity; [eapply smap_upd; eassumption|].
  destruct (cb_ _) as [s|]; [|by injection H as <-].
  destruct (casts s t); [|by injection H as <-].
  destruct (react _ _ _ _) as [a acts]. apply smap_perform in H. done.
Qed.

Lemma smap_on_error t jt p w b w' : on_error t jt p w = Some (b, w') -> same_smap w w'.
Proof.
  unfold on_error. intros H. unbind H. destruct (_ =? 0); [by injection H as _ <-|].
  unbind H. injection H as _ <-. etransitivity; [eapply smap_upd; eassumption|].
  etransitivity; [eapply smap_upd; eassumption | eapply smap_on_response; eassumption].
Qed.

Lemma smap_notify jt p w b w' : notify jt p w = Some (b, w') -> same_smap w w'.
Proof.
  unfold notify. intros H. unbind H. assert (same_smap w (add_log (ev_notify p) w)) as Hl by done.
  etransitivity; [exact Hl|]. revert H. generalize (add_log (ev_notify p) w). intros w0 H.
  assert (forall f, (forall rtok w w', f rtok p w = Some w' -> same_smap w w') ->
    ('(err, w) ← on_error t_account_update jt p w0;
     if (err : bool) then Some (true, w) else
     ptok ← find_val jt 1 (bs "params"); rtok ← find_val jt ptok (bs "result");
     w ← f rtok p w; w ← on_response t_account_update p w; Some (false, w)) = Some (b, w') ->
    same_smap w0 w') as Hup.
  { intros f Hf Hu. unbind Hu.
    etransitivity; [eapply smap_on_error; eassumption|].
    match type of Hu with (if ?b then _ else _) = _ => destruct b end; [by injection Hu as _ <-|].
    unbind Hu. injection Hu as _ <-.
    etransitivity; [eapply Hf; eassumption | eapply smap_on_response; eassumption]. }
  destruct (body_ r); try (by injection H as _ <-); (eapply Hup; [|exact H]); intros rtok w1 w2 Hn;
    [unfold notify_account in Hn | unfold notify_program in Hn]; unbind Hn; eapply smap_upd, Hn.
Qed.

(** ** The properties *)

Context (visit_perm : forall l, visit l ≡ₚ l).

(** The id a text answers, if it is a response. *)
Definition response_id (txt : bytes) (w : world) : option Z :=
  jt ← JTree.parse (jp_ (clt w)) txt;
  idtok ← find_val jt 1 (bs "id");
  if idtok =? 0 then None else get_uint jt idtok.

Lemma parse_response_cases txt w w' :
  parse_response txt w = Some w' ->
  exists jt, let w1 := set_clt (set_jp jt (clt w)) w in
    (exists id, response_id txt w = Some id /\ answer id jt w1 = Some w')
    \/ (response_id txt w = None /\ notification jt w1 = Some w').
Proof.
  unfold parse_response, response_id. intros H. unbind H. exists j. cbn zeta in *.
  cbn [mbind option_bind]. rewrite E0. cbn [mbind option_bind]. destruct (z =? 0); cbn [negb] in H; [by right|]. left. unbind H. eauto.
Qed.

Lemma notify_evolves jt p w b w' :
  notify jt p w = Some (b, w') -> evolves w w'.
Proof.
  unfold notify. intros H. unbind H.
  assert (evolves w (add_log (ev_notify p) w)) as Hl by (by apply quiet_evolves, quiet_add_log).
  etransitivity; [exact Hl|]. revert H. generalize (add_log (ev_notify p) w). intros w0 H.
  assert (forall f, (forall rtok w w', f rtok p w = Some w' -> evolves w w') ->
    ('(err, w) ← on_error t_account_update jt p w0;
     if (err : bool) then Some (true, w) else
     ptok ← find_val jt 1 (bs "params"); rtok ← find_val jt ptok (bs "result");
     w ← f rtok p w; w ← on_response t_account_update p w; Some (false, w)) = Some (b, w') ->
    evolves w0 w') as Hup.
  { intros f Hf Hu. unbind Hu.
    etransitivity; [eapply evolves_on_error; eassumption|].
    match type of Hu with (if ?b then _ else _) = _ => destruct b end; [by injection Hu as _ <-|].
    unbind Hu. injection Hu as _ <-.
    etransitivity; [eapply Hf; eassumption | eapply evolves_on_response; eassumption]. }
  destruct (body_ r); try (by injection H as _ <-); (eapply Hup; [|exact H]); intros rtok w1 w2 Hn;
    [unfold notify_account in Hn | unfold notify_program in Hn]; unbind Hn; eapply evolves_upd, Hn.
Qed.

Lemma notification_evolves jt w w' : notification jt w = Some w' -> evolves w w'.
Proof.
  unfold notification. intros H. unbind H. destruct (_ =? 0); [by injection H as <-|]. unbind H.
  match type of H with match ?o with _ => _ end = _ => destruct o as [it|] end; [|by injection H as <-].
  unbind H. etransitivity; [eapply notify_evolves; eassumption|].
  match type of H with (if ?b then _ else _) = _ => destruct b end; [|by injection H as <-].
  unbind H. injection H as <-. apply quiet_evolves, quiet_set_smap.
Qed.

(** What is asked of the node: a response is to an id some request waits for, as
    JSON-RPC has it.  A text without an id, a notification, is always allowed. *)
Definition answers_waiting (txt : bytes) (w : world) : Prop :=
  forall id, response_id txt w = Some id -> waiting id (clt w) <> [].

(** The steps of a client: the application sends, changes its requests or
    unsubscribes; a text arrives, from a node that does what is asked of it; the
    connection is reset. *)
Inductive step (w w' : world) : Prop :=
  | step_send p : send p w = Some w' -> step w w'
  | step_batch ps cu_units cu_price : send_batch ps cu_units cu_price w = Some w' -> step w w'
  | step_app h t n a : w' = mk_world (clt w) h (log w) t n a -> step w w'
  | step_remove p : remove_notify p w = Some w' -> step w w'
  | step_recv txt : answers_waiting txt w -> parse_response txt w = Some w' -> step w w'
  | step_reset : w' = set_clt (reset (clt w)) w -> step w w'.

Lemma step_ids w w' : step w w' -> ids_ok (clt w) -> ids_ok (clt w').
Proof.
  intros [p H|ps cu_units cu_price H|h t n a ->|p H|txt Hid H| ->] Hi; cbn [clt set_clt].
  - eapply ev_ids; [eapply evolves_send, H | done].
  - eapply ev_ids; [eapply evolves_send_batch, H | done].
  - done.
  - unfold remove_notify in H. unbind H.
    match type of H with match ?o with _ => _ end = _ => destruct o as [it|] end; [|by injection H as <-].
    unbind H. injection H as <-. eapply ev_ids; [apply quiet_evolves, quiet_set_smap | done].
  - destruct (parse_response_cases _ _ _ H) as (jt & [(id & E & Ha)|(E & Hn)]).
    + eapply an_ids, answer_answered, Ha; [by destruct Hi | exact (Hid id E)].
    + eapply ev_ids; [eapply notification_evolves, Hn | by destruct Hi].
  - destruct new_ids_ok. by split.
Qed.

Lemma reachable_ids w0 w : clt w0 = new_rpc_client -> rtc step w0 w -> ids_ok (clt w).
Proof.
  intros H0 Hr. assert (ids_ok (clt w0)) as Hi by (rewrite H0; apply new_ids_ok).
  clear H0. induction Hr as [|w1 w2 w3 Hs _ IH]; [done|]. apply IH. eapply step_ids; eauto.
Qed.

Lemma upd_at p f w w' :
  upd p f w = Some w' -> exists r, heap w !! p = Some r /\ heap w' !! p = Some (f r).
Proof.
  unfold upd. destruct (heap w !! p) as [r|]; [|done]. intros [= <-]. exists r. cbn [heap].
  by rewrite lookup_insert_eq.
Qed.

Lemma heap_emplace id p w w' : emplace_w id p w = Some w' -> heap w' = heap w.
Proof. unfold emplace_w. intros H. unbind H. by injection H as <-. Qed.

Lemma heap_submit is_http jw w : heap (submit is_http jw w) = heap w.
Proof. unfold submit. destruct is_http, (has_ws (clt w)); destruct w; done. Qed.

(** The request remembers the id it was sent under. *)
Lemma send_record p w w' :
  send p w = Some w' -> ids_ok (clt w) ->
  exists id r, rid_ r = id /\ heap w' !! p = Some r /\ sent_under id [p] w w'.
Proof.
  unfold send. destruct (get_id (clt w)) as [id c] eqn:Eid. intros Hs Hi. unbind Hs.
  apply (inj Some) in Hs as <-. subst.
  match goal with E1 : upd p _ _ = Some ?w2, E2 : emplace_w _ _ ?w2 = Some ?w3,
                  E3 : upd p (set_body _) ?w3 = Some ?w4 |- _ =>
    rename E1 into Hu1, E2 into Hem, E3 into Hu2 end.
  destruct (upd_at _ _ _ _ Hu1) as (ra & _ & Hr1). destruct (upd_at _ _ _ _ Hu2) as (rb & Hr2 & Hr3).
  rewrite (heap_emplace _ _ _ _ Hem), Hr1 in Hr2. injection Hr2 as <-.
  eexists id, _. rewrite heap_submit. split; [|split; [exact Hr3|]]; [done|].
  eapply (enrolled id c _ _ [p] w); [done | eassumption | eassumption | | | done].
  - cbn [enroll]. rewrite Hu1. cbn [mbind option_bind]. rewrite Hem. done.
  - etransitivity; [eapply quiet_upd; eassumption | apply quiet_submit].
Qed.

(** (C17) In every history of a client in which the node's responses are to ids
    some request waits for ([answers_waiting], in [step_recv]), a request is sent
    under an id that no waiting request has, and is the only one to wait for it;
    the others wait as before.  The condition is needed: the id of every response
    is used again, so after a repeated or unsolicited response two requests share
    an id ([duplicate_answer]). *)
Theorem send_fresh w0 w p w' :
  clt w0 = new_rpc_client -> rtc step w0 w -> send p w = Some w' ->
  exists id r, heap w' !! p = Some r /\ rid_ r = id /\ waiting id (clt w) = []
    /\ waiting id (clt w') = [p]
    /\ forall x, x <> id -> waiting x (clt w') = waiting x (clt w).
Proof.
  intros H0 Hr Hs. pose proof (reachable_ids _ _ H0 Hr) as Hi.
  destruct (send_record _ _ _ Hs Hi) as (id & r & Hrid & Hp & [Hf _ Hw]).
  exists id, r. split_and!; try done.
  - rewrite Hw, decide_True; done.
  - intros x Hx. rewrite Hw, decide_False; done.
Qed.

(** (C18) A response to a waiting id calls [response] of every request sent
    under it, once, and of no other; the requests are then forgotten, the id can
    be used again, and what waits for other ids stays. *)
Theorem parse_response_routes w0 w txt id w' :
  clt w0 = new_rpc_client -> rtc step w0 w ->
  response_id txt w = Some id -> waiting id (clt w) <> [] -> parse_response txt w = Some w' ->
  (exists evs, log w' = log w ++ evs /\ called evs ≡ₚ waiting id (clt w))
  /\ waiting id (clt w') = [] /\ id ∈ reuse_ (clt w')
  /\ forall x, x <> id -> waiting x (clt w) <> [] -> waiting x (clt w') = waiting x (clt w).
Proof.
  intros H0 Hr Hid Hw Hp. pose proof (reachable_ids _ _ H0 Hr) as Hi.
  destruct (parse_response_cases _ _ _ Hp) as (jt & [(id' & E & Ha)|(E & _)]); [|congruence].
  assert (id' = id) as -> by congruence.
  destruct (answer_answered id jt (set_clt (set_jp jt (clt w)) w) w')
    as [_ Hd Hre Hk (evs & Hl & Hc)]; [by destruct Hi | exact Hw | exact Ha |].
  split_and!; [|done|done|exact Hk]. exists evs. split; [done|]. rewrite Hc. apply visit_perm.
Qed.

(** (C20) A notification reaches exactly the request subscribed under its id; an
    error ends the subscription, and a notification for no one is ignored. *)
Theorem notification_routed m jt ptok stok id w w' :
  HashMap.repr sub_hsize sub_hash (smap_ (clt w)) m ->
  find_val jt 1 (bs "params") = Some ptok -> find_val jt ptok (bs "subscription") = Some stok ->
  stok <> 0 -> get_uint jt stok = Some id -> notification jt w = Some w' ->
  match m !! id with
  | Some p => exists done w1, notify jt p w = Some (done, w1) /\ log w' = log w1
      /\ HashMap.repr sub_hsize sub_hash (smap_ (clt w')) (if done : bool then delete id m else m)
  | None => w' = w
  end.
Proof.
  intros Hm Hp Hs Hne Hid H. unfold notification in H. rewrite Hp in H. cbn [mbind option_bind] in H.
  rewrite Hs in H. cbn [mbind option_bind] in H. rewrite (proj2 (Z.eqb_neq _ _) Hne), Hid in H.
  cbn [mbind option_bind] in H. assert (0 < sub_hsize) as Hh by done.
  destruct (HashMap.find_ok _ _ Hh (smap_ (clt w)) m id Hm) as [[E ->]|(it & v & E & Ho & ->)];
    rewrite E in H; cbn [mbind option_bind] in H; [congruence|].
  rewrite Ho in H. cbn [mbind option_bind] in H. unbind H. subst.
  pose proof (smap_notify _ _ _ _ _ E0) as Es. unfold same_smap in Es.
  eexists _, _. split; [reflexivity|]. destruct b; [|by injection H as <-; rewrite Es].
  destruct (HashMap.del_ok _ _ Hh _ _ _ _ Hm E) as (m' & Ed & Hm'). rewrite Es, Ed in H.
  injection H as <-. done.
Qed.

(** The response to a subscription registers the request under the id the
    node gave it. *)
Theorem subscription_registered m jt rtok subid p w r :
  HashMap.repr sub_hsize sub_hash (smap_ (clt w)) m -> m !! subid = None ->
  Z.of_nat (length (HashMap.nvec_ (smap_ (clt w)))) < 2 ^ 32 - 1 ->
  heap w !! p = Some r -> find_val jt 1 (bs "error") = Some 0 ->
  find_val jt 1 (bs "result") = Some rtok -> rtok <> 0 -> get_uint jt rtok = Some subid ->
  exists w', response_account_subscribe jt p w = Some w' /\ log w' = log w
    /\ HashMap.repr sub_hsize sub_hash (smap_ (clt w')) (<[subid := p]> m)
    /\ heap w' !! p = Some (set_id subid r).
Proof.
  intros Hm Hfresh Hlen Hr He Hrt Hne Hid. unfold response_account_subscribe, on_error. rewrite He.
  cbn [mbind option_bind Z.eqb]. unfold sub_add_notify. rewrite Hrt. cbn [mbind option_bind].
  rewrite (proj2 (Z.eqb_neq _ _) Hne), Hid. cbn [mbind option_bind]. unfold upd. rewrite Hr.
  cbn [mbind option_bind]. unfold add_notify. cbn [heap clt]. rewrite lookup_insert_eq.
  cbn [mbind option_bind rid_ set_id]. assert (0 < sub_hsize) as Hh by done.
  destruct (HashMap.add_ok _ _ Hh _ _ subid p Hm Hfresh Hlen) as (it & m1 & m2 & -> & E2 & Hm2).
  cbn [mbind option_bind]. rewrite E2. cbn [mbind option_bind]. eexists. split; [done|].
  split_and!; [done | exact Hm2 |]. cbn [heap set_clt]. by rewrite lookup_insert_eq.
Qed.

(** ** The messages *)

(** The method and parameters of a call, as JSON. *)
Definition key_json (k : bytes) : json := j_str (enc_base58 k (2 * Z.of_nat (length k))).
Definition config_json (cmt : Z) : list (bytes * json) :=
  [(bs "encoding", j_str (bs "base64+zstd")); (bs "commitment", j_str (commitment_to_str cmt))].
Definition filters_json (acct_type : Z) : list (bytes * json) :=
  if acct_type =? 0 then [] else
  [(bs "filters", j_arr [j_obj [(bs "memcmp",
      j_obj [(bs "offset", j_uint 8); (bs "bytes", key_json (le_bytes 4 acct_type))])]])].
Definition call_json (b : rpc_body) : list (bytes * json) :=
  let account method key cmt :=
    [(bs "method", j_str (bs method)); (bs "params", j_arr [key_json key; j_obj (config_json cmt)])] in
  match b with
  | get_recent_block_hash _ _ _ => [(bs "method", j_str (bs "getRecentBlockhash"))]
  | get_slot cmt _ =>
      [(bs "method", j_str (bs "getSlot"));
       (bs "params", j_arr [j_obj [(bs "commitment", j_str (commitment_to_str cmt))]])]
  | get_account_info u _ _ _ => account "getAccountInfo"%string (acc_ u) (cmt_ u)
  | account_subscribe u => account "accountSubscribe"%string (acc_ u) (cmt_ u)
  | program_subscribe u pgm => account "programSubscribe"%string pgm (cmt_ u)
  | get_program_accounts u pgm ty =>
      [(bs "method", j_str (bs "getProgramAccounts"));
       (bs "params", j_arr [key_json pgm;
          j_obj (config_json (cmt_ u) ++ filters_json ty ++ [(bs "withContext", j_true)])])]
  | upd_price _ _ _ => []
  end.
Definition call_text (id : Z) (b : rpc_body) : bytes :=
  text (j_obj ([(bs "jsonrpc", j_str (bs "2.0")); (bs "id", j_uint id)] ++ call_json b)).

(** The key a request encodes has 32 bytes. *)
Definition key_ok (b : rpc_body) : Prop :=
  match b with
  | get_account_info u _ _ _ | account_subscribe u => length (acc_ u) = hash_len
  | program_subscribe _ pgm | get_program_accounts _ pgm _ => length pgm = hash_len
  | upd_price _ _ _ => False
  | _ => True
  end.

Lemma encodes k w :
  (length k <= 32)%nat ->
  add_enc_base58 k w = Some (add (quote ++ enc_base58 k (2 * Z.of_nat (length k)) ++ quote) w).
Proof.
  intros Hk. unfold add_enc_base58, NetBuf.buf_max.
  destruct (Z.ltb_spec 1270 (2 * Z.of_nat (length k))); [lia | done].
Qed.

Lemma val_base58_out k o fi st :
  (length k <= 32)%nat ->
  add_val_enc_base58 k (mk_json_wtr o fi st)
  = Some (mk_json_wtr (o ++ sep fi ++ text (key_json k)) false st).
Proof.
  intros Hk. unfold add_val_enc_base58. rewrite encodes by done. unfold add, add_first, key_json.
  cbn [out first_ st_ text]. rewrite <- !app_assoc. reflexivity.
Qed.
Lemma key_base58_out key k o fi st :
  (length k <= 32)%nat ->
  add_key_enc_base58 key k (mk_json_wtr o fi st)
  = Some (mk_json_wtr (o ++ sep fi ++ kv_text (key, key_json k)) false st).
Proof.
  intros Hk. unfold add_key_enc_base58. rewrite encodes by done.
  unfold add_key_only, add_text, add, add_first, key_json, kv_text.
  cbn [out first_ st_ fst snd text]. rewrite <- !app_assoc. reflexivity.
Qed.
Ltac outs :=
  repeat first
  [ progress JsonWtr.outs
  | rewrite val_base58_out by (rewrite ?length_le_bytes; lia)
  | rewrite key_base58_out by (rewrite ?length_le_bytes; lia) ].

Lemma open_call_out id :
  open_call id
  = mk_json_wtr (bs "{" ++ kv_text (bs "jsonrpc", j_str (bs "2.0")) ++ bs "," ++ kv_text (bs "id", j_uint id))
      false [e_obj].
Proof. unfold open_call, new_json_wtr. outs. reflexivity. Qed.

Lemma request_account_out method key cmt o :
  length key = 32%nat ->
  request_account method key cmt (mk_json_wtr o false [e_obj])
  = Some (mk_json_wtr (o ++ bs "," ++ kv_text (bs "method", j_str method) ++ bs ","
                       ++ kv_text (bs "params", j_arr [key_json key; j_obj (config_json cmt)])) false [e_obj]).
Proof.
  intros Hk. unfold request_account, add_encoding. outs. do 2 f_equal.
  unfold config_json. pieces.
Qed.

(** Further fields, each after a comma. *)
Definition kvs_text (kvs : list (bytes * json)) : bytes := kvs ≫= fun kv => bs "," ++ kv_text kv.
Lemma kvs_cons kv kvs : kvs_text (kv :: kvs) = bs "," ++ kv_text kv ++ kvs_text kvs.
Proof. unfold kvs_text. rewrite bind_cons, <- app_assoc. reflexivity. Qed.
Lemma kvs_nil : kvs_text [] = [].
Proof. reflexivity. Qed.
Lemma kvs_app l k : kvs_text (l ++ k) = kvs_text l ++ kvs_text k.
Proof. apply bind_app. Qed.

Lemma add_filters_out ty o st :
  add_filters ty (mk_json_wtr o false st)
  = Some (mk_json_wtr (o ++ kvs_text (filters_json ty)) false st).
Proof.
  unfold add_filters, filters_json. destruct (ty =? 0).
  - rewrite kvs_nil, app_nil_r. reflexivity.
  - rewrite kvs_cons, kvs_nil. outs. do 2 f_equal. unfold acc_type_offset. pieces.
Qed.

Lemma text_obj_cons kv kvs :
  text (j_obj (kv :: kvs)) = bs "{" ++ kv_text kv ++ kvs_text kvs ++ bs "}".
Proof.
  rewrite text_obj, fmap_cons, comma_cons, <- app_assoc. do 3 f_equal.
  induction kvs as [|x l IH]; [reflexivity|].
  rewrite fmap_cons, kvs_cons, bind_cons, <- app_assoc. do 2 f_equal. exact IH.
Qed.

Lemma request_program_accounts_out pgm cmt ty o :
  length pgm = 32%nat ->
  request_program_accounts pgm cmt ty (mk_json_wtr o false [e_obj])
  = Some (mk_json_wtr (o ++ bs "," ++ kv_text (bs "method", j_str (bs "getProgramAccounts")) ++ bs ","
       ++ kv_text (bs "params", j_arr [key_json pgm;
            j_obj (config_json cmt ++ filters_json ty ++ [(bs "withContext", j_true)])])) false [e_obj]).
Proof.
  intros Hk. unfold request_program_accounts, add_encoding. outs. rewrite add_filters_out. outs.
  do 2 f_equal. unfold config_json. rewrite kv_text_arr, text_arr, !fmap_cons, fmap_nil, comma_more, comma_one.
  rewrite <- !app_comm_cons, text_obj_cons.
  rewrite !app_nil_l, kvs_cons, kvs_app, kvs_cons, kvs_nil. pieces.
Qed.

Lemma request_slot_out cmt o :
  request_slot cmt (mk_json_wtr o false [e_obj])
  = Some (mk_json_wtr (o ++ bs "," ++ kv_text (bs "method", j_str (bs "getSlot")) ++ bs ","
       ++ kv_text (bs "params", j_arr [j_obj [(bs "commitment", j_str (commitment_to_str cmt))]])) false [e_obj]).
Proof. unfold request_slot. outs. do 2 f_equal. pieces. Qed.

Lemma request_call id b :
  key_ok b ->
  exists o, request b (open_call id) = Some (mk_json_wtr o false [e_obj], b) /\ o ++ bs "}" = call_text id b.
Proof.
  intros Hk. rewrite open_call_out. unfold call_text.
  rewrite <- !app_comm_cons, text_obj_cons, app_nil_l, kvs_cons. destruct b; cbn [key_ok request call_json] in *; try done;
    unfold request_block_hash, request_account_info, request_account_subscribe, request_program_subscribe;
    rewrite ?request_slot_out, ?request_account_out, ?request_program_accounts_out by exact Hk;
    cbn [mbind option_bind]; rewrite ?key_str_out; eexists; (split; [reflexivity|]);
    rewrite ?kvs_cons, ?kvs_nil, ?app_nil_r, <- ?app_assoc; reflexivity.
Qed.

(** The message [submit] queues. *)
Definition message (is_http : bool) (jw : bytes) (w : world) : event :=
  if is_http then
    ev_http (Http.commit_body (Http.request_init (bs "POST") (bs "/") ++ Http.add_hdr (bs "Host") host
                               ++ Http.add_hdr (bs "Content-Type") (bs "application/json")) jw)
  else if has_ws (clt w) then
    ev_ws (WebSocket.commit WebSocket.text_id jw (Some (random (nrand w))))
  else ev_no_ws.

Lemma send_queues p w w' r :
  heap w !! p = Some r -> key_ok (body_ r) -> send p w = Some w' ->
  exists r', heap w' !! p = Some r' /\ body_ r' = body_ r
    /\ log w' = log w ++ [message (get_is_http r) (call_text (rid_ r') (body_ r)) w].
Proof.
  intros Hr Hk H. unfold send in H. destruct (get_id (clt w)) as [id c] eqn:Eid.
  unfold get_now, upd, emplace_w in H. cbn [heap set_clt clt log ticks nrand app_] in H. rewrite Hr in H.
  cbn [mbind option_bind heap clt] in H. destruct (emplace id p c) as [c'|] eqn:Ec; [|done].
  cbn [mbind option_bind heap set_clt clt log ticks nrand app_] in H. rewrite lookup_insert_eq in H.
  cbn [mbind option_bind body_ set_sent_time set_id] in H.
  destruct (request_call id (body_ r) Hk) as (o & Eq & Eo). rewrite Eq in H.
  cbn [mbind option_bind] in H.
  rewrite pop_out, decide_True in H by reflexivity. cbn [mbind option_bind out] in H. rewrite Eo in H.
  apply (inj Some) in H as <-. eexists. rewrite heap_submit. cbn [heap]. rewrite lookup_insert_eq.
  split; [reflexivity|]. split; [reflexivity|]. cbn [rid_ set_body set_sent_time set_id].
  assert (has_ws c' = has_ws (clt w)) as Ews.
  { unfold emplace in Ec. destruct (_ <? _); [|done]. injection Ec as <-. cbn [has_ws set_rv].
    unfold get_id in Eid. destruct (reuse_ (clt w)); injection Eid as _ <-; done. }
  unfold submit, message. change (get_is_http (set_sent_time _ (set_id id r))) with (get_is_http r).
  destruct (get_is_http r); [reflexivity|]. cbn [clt]. rewrite Ews. destruct (has_ws (clt w)); reflexivity.
Qed.

(** (C22) A request other than a price update becomes one message, on the
    connection for its kind: the JSON-RPC object with its id, method and
    parameters. *)
Theorem send_message p w w' r :
  heap w !! p = Some r -> key_ok (body_ r) -> send p w = Some w' ->
  exists r', heap w' !! p = Some r' /\ body_ r' = body_ r
    /\ log w' = log w ++ [message (get_is_http r) (call_text (rid_ r') (body_ r)) w].
Proof. apply send_queues. Qed.

(** *** A price update *)

(** The call that sends a single update: its transaction, signed. *)
Definition upd_tx (u : Bincode.upd_price) : bytes := Bincode.tx_bytes ed25519_sign u [u] 0 0.
Definition upd_signature (u : Bincode.upd_price) : bytes := Bincode.tx_signature ed25519_sign u [u] 0 0.
Definition upd_text (id : Z) (u : Bincode.upd_price) : bytes :=
  text (j_obj ([(bs "jsonrpc", j_str (bs "2.0")); (bs "id", j_uint id)] ++ Bincode.send_json (upd_tx u))).

Lemma request_upd id u sig ack :
  (forall kp m, length (ed25519_sign kp m) = Bincode.sig_len) -> Bincode.upd_ok u ->
  exists o, request (upd_price u sig ack) (open_call id) = Some (mk_json_wtr o false [e_obj], upd_price u (upd_signature u) ack)
    /\ o ++ bs "}" = upd_text id u.
Proof.
  intros Hsign Hu. cbn [request]. rewrite open_call_out.
  rewrite (Bincode.request_text ed25519_sign Hsign u [u] 0 0) by (done || (cbn; lia) || by constructor).
  eexists. split; [reflexivity|]. unfold upd_text, Bincode.send_json. cbn [app].
  rewrite text_obj_cons. rewrite (kvs_cons (bs "id", j_uint id)). unfold kvs_text. rewrite <- !app_assoc. reflexivity.
Qed.

(** Sending it queues one message on the HTTP connection, under the request's new
    id, and keeps the signature and the time. *)
Lemma send_update p w w' r u sig ack :
  (forall kp m, length (ed25519_sign kp m) = Bincode.sig_len) -> Bincode.upd_ok u ->
  heap w !! p = Some r -> body_ r = upd_price u sig ack -> send p w = Some w' ->
  exists r', heap w' !! p = Some r' /\ body_ r' = upd_price u (upd_signature u) ack /\ sent_ts_ r' = clock (ticks w)
    /\ log w' = log w ++ [message true (upd_text (rid_ r') u) w] /\ (rid_ r', p) ∈ rv_ (clt w').
Proof.
  intros Hsign Hu Hr Hb H. unfold send in H. destruct (get_id (clt w)) as [id c] eqn:Eid.
  unfold get_now, upd, emplace_w in H. cbn [heap set_clt clt log ticks nrand app_] in H. rewrite Hr in H.
  cbn [mbind option_bind heap clt] in H. destruct (emplace id p c) as [c'|] eqn:Ec; [|done].
  cbn [mbind option_bind heap set_clt clt log ticks nrand app_] in H. rewrite lookup_insert_eq in H.
  cbn [mbind option_bind body_ set_sent_time set_id] in H. rewrite Hb in H.
  destruct (request_upd id u sig ack Hsign Hu) as (o & Eq & Eo). rewrite Eq in H. cbn [mbind option_bind] in H.
  rewrite pop_out, decide_True in H by reflexivity. cbn [mbind option_bind out] in H. rewrite Eo in H.
  unfold submit, get_is_http in H. cbn [body_ set_sent_time set_id] in H. rewrite Hb in H. injection H as <-.
  cbn [heap log add_log clt]. rewrite lookup_insert_eq. eexists. split_and!; try done.
  unfold emplace in Ec. destruct (_ <? _); [|done]. injection Ec as <-. cbn [rv_ set_rv]. apply elem_of_app. right. by left.
Qed.

End rpc.

(** ** Account data *)

Section data_properties.
Context (zstd_decompress : bytes -> Z -> Z + bytes) (compress_bound : Z -> Z).

(** Account data that was compressed and encoded is put in the caller's
    buffer as it was. *)
Theorem get_data_val_roundtrip compress d tlen tgt :
  (forall d cap, Z.of_nat (length d) <= cap -> zstd_decompress (compress d) cap = inr d) ->
  is_bytes (compress d) -> Z.of_nat (length d) <= tlen ->
  get_data_val zstd_decompress (enc_base64 (compress d)) tlen tgt = (Z.of_nat (length d), blit 0 d tgt).
Proof.
  intros Hz Hb Hl. unfold get_data_val, decode. rewrite dec_enc by done. rewrite Hz by done. reflexivity.
Qed.

(** When decompression fails, the size reported is the negated error code, a
    size no structure exceeds: the callers' check that enough data arrived
    passes, and they read what the buffer held before. *)
Theorem get_data_ref_error dptr tlen zbuf code sz :
  zstd_decompress (dec_base64 dptr) (compress_bound tlen) = inl code ->
  0 < code < 2 ^ 31 -> sz < 2 ^ 63 ->
  exists n, get_data_ref zstd_decompress compress_bound dptr tlen zbuf = (n, resize (Z.to_nat (compress_bound tlen)) zbuf) /\ sz < n.
Proof.
  intros Hz Hc Hs. unfold get_data_ref, decode. rewrite Hz. eexists. split; [reflexivity|].
  unfold wrap. rewrite <- (Z_mod_plus_full (- code) 1), Z.mod_small; lia.
Qed.
End data_properties.

(** ** Witnesses *)

(** An application without callbacks, and four requests. *)
Definition no_sign (_ : unit) (_ : bytes) : bytes := [].
Definition no_react (a : unit) (_ : sub) (_ : topic) (_ : rpc_request (key_cache := unit))
  : unit * list (action (key_cache := unit)) := (a, []).
Definition no_cast (_ : sub) (_ : topic) : bool := false.
Definition test_clock (n : nat) : Z := Z.of_nat n.
Definition test_random (n : nat) : Z := 77.
Definition test_host : bytes := bs "localhost".

Definition test_sub : account_update := mk_account_update (replicate 32 3) e_confirmed 0 0 [].
Definition test_heap : gmap ptr (rpc_request (key_cache := unit)) :=
  {[ 1%positive := new_rpc_request (get_slot 2 0); 2%positive := new_rpc_request (get_slot 2 0);
     3%positive := new_rpc_request (get_slot 2 0); 4%positive := new_rpc_request (get_slot 2 0);
     5%positive := new_rpc_request (account_subscribe test_sub) ]}.
Definition test_world : world := mk_world new_rpc_client test_heap [] 0 0 tt.

Abbreviation tsend := (send no_sign test_clock test_random test_host).
Abbreviation tstep := (step no_sign no_react no_cast test_clock test_random test_host id).
Abbreviation trecv := (parse_response no_sign no_react no_cast test_clock test_random test_host id).

Lemma some_default {A} (o : option A) d : bool_decide (is_Some o) = true -> o = Some (default d o).
Proof. destruct o; [done | discriminate]. Qed.

Definition sent_world : world := default test_world (tsend 1%positive test_world).
Lemma sent_world_eq : tsend 1%positive test_world = Some sent_world.
Proof. apply some_default. vm_compute. reflexivity. Qed.

Lemma send_fresh_witness :
  exists id r, heap sent_world !! 1%positive = Some r /\ rid_ r = id /\ waiting id (clt test_world) = []
    /\ waiting id (clt sent_world) = [1%positive]
    /\ forall x, x <> id -> waiting x (clt sent_world) = waiting x (clt test_world).
Proof.
  apply (send_fresh no_sign no_react no_cast test_clock test_random test_host id
           test_world test_world 1%positive sent_world eq_refl (rtc_refl _ _) sent_world_eq).
Defined.

(** The node answers request 1. *)
Definition slot_text : bytes := bs "{" ++ [34] ++ bs "id" ++ [34] ++ bs ":1," ++ [34] ++ bs "result"
                                ++ [34] ++ bs ":99}".
Definition answered_world : world := default test_world (trecv slot_text sent_world).

Lemma parse_response_routes_witness :
  (exists evs, log answered_world = log sent_world ++ evs /\ called evs ≡ₚ waiting 1 (clt sent_world))
  /\ waiting 1 (clt answered_world) = [] /\ 1 ∈ reuse_ (clt answered_world)
  /\ forall x, x <> 1 -> waiting x (clt sent_world) <> [] ->
     waiting x (clt answered_world) = waiting x (clt sent_world).
Proof.
  apply (parse_response_routes no_sign no_react no_cast test_clock test_random test_host id
           (fun l => Permutation_refl l) test_world sent_world slot_text 1 answered_world).
  - reflexivity.
  - apply rtc_once. eapply step_send, sent_world_eq.
  - vm_compute. reflexivity.
  - vm_compute. discriminate.
  - apply some_default. vm_compute. reflexivity.
Defined.

(** An id answered twice is put in [reuse_] twice: two later requests then share
    it, and the response to either is given to both. *)
Example duplicate_answer :
  (w ← tsend 1%positive test_world; w ← tsend 2%positive w; w ← trecv slot_text w; w ← trecv slot_text w;
   w ← tsend 3%positive w; w ← tsend 4%positive w; Some (waiting 1 (clt w))) = Some [3%positive; 4%positive].
Proof. vm_compute. reflexivity. Qed.

(** Request 5 subscribed under id 7. *)
Definition one_sub : HashMap.hash_map Z ptr :=
  default (HashMap.new_hash_map sub_hsize)
    ('(it, m) ← HashMap.add sub_hsize sub_hash (HashMap.new_hash_map sub_hsize) 7;
     HashMap.set_ref m it 5%positive).

Definition one_sub_map : gmap Z ptr := {[ 7 := 5%positive ]}.
Lemma one_sub_repr : HashMap.repr sub_hsize sub_hash one_sub one_sub_map.
Proof.
  assert (0 < sub_hsize) as Hh by done.
  destruct (HashMap.add_ok sub_hsize sub_hash Hh _ _ 7 5%positive (HashMap.new_repr sub_hsize sub_hash Hh))
    as (it & m1 & m2 & E1 & E2 & Hr); [done | vm_compute; done |].
  unfold one_sub. rewrite E1. cbn [mbind option_bind]. rewrite E2. exact Hr.
Qed.

Definition q (s : string) : bytes := [34] ++ bs s ++ [34].
Definition notify_text : bytes :=
  bs "{" ++ q "params" ++ bs ":{" ++ q "result" ++ bs ":{" ++ q "context" ++ bs ":{" ++ q "slot" ++ bs ":9},"
  ++ q "value" ++ bs ":{" ++ q "data" ++ bs ":[" ++ q "QQ==" ++ bs "]," ++ q "lamports" ++ bs ":4}},"
  ++ q "subscription" ++ bs ":7}}".
Definition notify_tree : jtree := default new_jtree (JTree.parse new_jtree notify_text).
Definition sub_world : world :=
  mk_world (set_smap one_sub new_rpc_client) test_heap [] 0 0 tt.
Abbreviation tnotification := (notification no_sign no_react no_cast test_clock test_random test_host).
Definition notified_world : world := default test_world (tnotification notify_tree sub_world).

Lemma notification_routed_witness :
  exists done w1, notify no_sign no_react no_cast test_clock test_random test_host notify_tree 5%positive sub_world
                  = Some (done, w1)
    /\ log notified_world = log w1
    /\ HashMap.repr sub_hsize sub_hash (smap_ (clt notified_world))
         (if done : bool then delete 7 one_sub_map else one_sub_map).
Proof.
  pose proof (notification_routed no_sign no_react no_cast test_clock test_random test_host
           one_sub_map notify_tree 3 25 7 sub_world notified_world) as H.
  change (one_sub_map !! 7) with (Some 5%positive) in H. apply H.
  - apply one_sub_repr.
  - vm_compute. reflexivity.
  - vm_compute. reflexivity.
  - discriminate.
  - vm_compute. reflexivity.
  - apply some_default. vm_compute. reflexivity.
Defined.

Definition sub_result_text : bytes := bs "{" ++ q "id" ++ bs ":1," ++ q "result" ++ bs ":7}".
Definition sub_result_tree : jtree := default new_jtree (JTree.parse new_jtree sub_result_text).

Lemma subscription_registered_witness :
  exists w', response_account_subscribe no_sign no_react no_cast test_clock test_random test_host
               sub_result_tree 5%positive test_world = Some w'
    /\ log w' = log test_world
    /\ HashMap.repr sub_hsize sub_hash (smap_ (clt w')) (<[7 := 5%positive]> ∅)
    /\ heap w' !! 5%positive = Some (set_id 7 (new_rpc_request (account_subscribe test_sub))).
Proof.
  apply (subscription_registered no_sign no_react no_cast test_clock test_random test_host
           ∅ sub_result_tree 6 7 5%positive test_world).
  - apply HashMap.new_repr. done.
  - reflexivity.
  - vm_compute. reflexivity.
  - vm_compute. reflexivity.
  - vm_compute. reflexivity.
  - vm_compute. reflexivity.
  - discriminate.
  - vm_compute. reflexivity.
Defined.

Definition slot_body : rpc_body (key_cache := unit) := get_slot 2 0.
Lemma send_message_witness :
  exists r', heap sent_world !! 1%positive = Some r' /\ body_ r' = slot_body
    /\ log sent_world = [message test_random test_host true (call_text (rid_ r') slot_body) test_world].
Proof.
  apply (send_message no_sign test_clock test_random test_host 1%positive test_world sent_world
           (new_rpc_request slot_body) eq_refl I sent_world_eq).
Defined.

Lemma get_data_val_roundtrip_witness :
  get_data_val (fun d _ => inr d) (enc_base64 (bs "pyth")) 10 (replicate 10 0)
  = (4, bs "pyth" ++ replicate 6 0).
Proof.
  rewrite (get_data_val_roundtrip (fun d _ => inr d) (fun d => d) (bs "pyth") 10 (replicate 10 0)).
  - vm_compute. reflexivity.
  - intros d cap _. reflexivity.
  - apply bs_is_bytes.
  - vm_compute. discriminate.
Defined.

Lemma get_data_ref_error_witness :
  exists n, get_data_ref (fun _ _ => inl 20) (fun n => n + 64) (bs "????") 16 (replicate 80 7)
            = (n, resize 80 (replicate 80 7)) /\ 160056 < n.
Proof.
  apply (get_data_ref_error (fun _ _ => inl 20) (fun n => n + 64) (bs "????") 16 (replicate 80 7) 20 160056);
    [reflexivity | lia | lia].
Defined.
