(* ===== verification/RpcFrame.v ===== *)
(** * What a response does to the application ([RpcClient])

    Sending leaves the application's state as it is; handling a text changes it
    by its own callbacks only.  A relation that every callback respects holds
    between the states before and after any text. *)

From S2P Require Bincode JTree Http WebSocket.
From S2P Require Import Prelude RpcClient.
Import JTree (jtree, find_val).

Section frame.
Context {key_cache : Type} (ed25519_sign : key_cache -> bytes -> bytes).
Context {app_t : Type} (react : app_t -> sub -> topic -> rpc_request (key_cache := key_cache) -> app_t * list (action (key_cache := key_cache))).
Context (casts : sub -> topic -> bool) (clock random : nat -> Z) (host : bytes) (visit : list ptr -> list ptr).
Context (R : relation app_t) `{!PreOrder R} (R_react : forall a s t r, R a (react a s t r).1).

Abbreviation rworld := (world (key_cache := key_cache) (app_t := app_t)).
Definition moved (w w' : rworld) : Prop := R (app_ w) (app_ w').
#[local] Instance moved_preorder : PreOrder moved.
Proof. unfold moved. split; [by intros w | intros w1 w2 w3; by etransitivity]. Qed.
Lemma moved_same w w' : app_ w' = app_ w -> moved w w'.
Proof. unfold moved. by intros ->. Qed.

(** ** Sending *)

Lemma app_upd p f (w w' : rworld) : upd p f w = Some w' -> app_ w' = app_ w.
Proof. unfold upd. destruct (heap w !! p); [|done]. by intros [= <-]. Qed.
Lemma app_emplace id p (w w' : rworld) : emplace_w id p w = Some w' -> app_ w' = app_ w.
Proof. unfold emplace_w. intros H. unbind H. by injection H as <-. Qed.
Lemma app_submit b jw (w : rworld) : app_ (submit random host b jw w) = app_ w.
Proof. unfold submit, get_random. destruct b; [done|]. by destruct (has_ws _). Qed.
Lemma app_send p (w w' : rworld) : send ed25519_sign clock random host p w = Some w' -> app_ w' = app_ w.
Proof.
  unfold send, get_now. destruct (get_id _). intros H. unbind H. injection H as <-.
  apply app_upd in E, E4. apply app_emplace in E0. rewrite app_submit. cbn in E. congruence.
Qed.
(** The request waits under the next id; ids to use again are left as [get_id]
    leaves them. *)
Lemma send_client p (w w' : rworld) :
  send ed25519_sign clock random host p w = Some w' ->
  let '(id, c) := get_id (clt w) in clt w' = set_rv (rv_ c ++ [(id, p)]) c.
Proof.
  unfold send, get_now. destruct (get_id _) as [id c]. intros H. unbind H. injection H as <-.
  unfold upd in E. destruct (_ !! p); [|done]. injection E as <-.
  unfold emplace_w, emplace in E0. cbn [clt set_clt] in E0. destruct (_ <? _); [|done]. cbn [mbind option_bind] in E0. injection E0 as <-.
  unfold upd in E4. destruct (_ !! p); [|done]. injection E4 as <-.
  unfold submit, get_random. cbn. destruct (get_is_http _); [done|]. by destruct (has_ws c).
Qed.
Lemma app_enroll id now ps (w w' : rworld) : enroll id now ps w = Some w' -> app_ w' = app_ w.
Proof.
  revert w; induction ps as [|p ps IH]; intros w H; cbn [enroll] in H; [by injection H as <-|].
  unbind H. apply IH in H. apply app_upd in E. apply app_emplace in E0. congruence.
Qed.
Lemma app_send_batch ps cu_units cu_price (w w' : rworld) :
  send_batch ed25519_sign clock random host ps cu_units cu_price w = Some w' -> app_ w' = app_ w.
Proof.
  unfold send_batch, get_now. destruct ps as [|p0 ps]; [by intros [= <-]|].
  destruct (get_id _). intros H. unbind H. injection H as <-. cbn [app_ add_log].
  match goal with E : enroll _ _ _ _ = Some _ |- _ => apply app_enroll in E; cbn in E; rename E into Ha end.
  match goal with E : upd _ _ _ = Some _ |- _ => apply app_upd in E; rename E into Hb end. congruence.
Qed.

(** ** Handling *)

Lemma app_perform acts (w w' : rworld) :
  foldl (perform ed25519_sign clock random host) (Some w) acts = Some w' -> app_ w' = app_ w.
Proof.
  revert w; induction acts as [|a acts IH]; intros w; cbn [foldl]; [by intros [= <-]|].
  destruct (perform _ _ _ _ (Some w) a) as [w1|] eqn:E.
  - intros H%IH. rewrite H. destruct a; cbn in E;
      [eapply app_send, E | eapply app_send_batch, E | eapply app_upd, E].
  - clear. intros H. exfalso. revert H. induction acts as [|a acts IH]; [done | exact IH].
Qed.

Abbreviation on_response := (on_response ed25519_sign react casts clock random host).
Abbreviation on_error := (on_error ed25519_sign react casts clock random host).

Lemma moved_on_response t p w w' : on_response t p w = Some w' -> moved w w'.
Proof.
  unfold RpcClient.on_response, get_now. intros H. unbind H. apply app_upd in E. cbn in E.
  destruct (cb_ _) as [s|]; [|injection H as <-; by apply moved_same].
  destruct (casts s t); [|injection H as <-; by apply moved_same].
  pose proof (R_react (app_ w0) s t r) as Hr. destruct (react _ _ _ _) as [a acts]. apply app_perform in H.
  unfold moved. rewrite H, <- E. exact Hr.
Qed.
Lemma moved_on_error t jt p w b w' : on_error t jt p w = Some (b, w') -> moved w w'.
Proof.
  unfold RpcClient.on_error. intros H. unbind H. destruct (_ =? 0); [by injection H as _ <-|].
  unbind H. injection H as _ <-.
  repeat match goal with E : upd _ _ _ = Some _ |- _ => apply app_upd, moved_same in E end.
  etransitivity; [eassumption|]. etransitivity; [eassumption|]. eapply moved_on_response. eassumption.
Qed.
Lemma moved_sub_add_notify jt p w w' : sub_add_notify jt p w = Some w' -> moved w w'.
Proof.
  unfold sub_add_notify, add_notify. intros H. unbind H. destruct (_ =? 0); [by injection H as <-|]. unbind H.
  injection H as <-. apply moved_same. match goal with E : upd _ _ _ = Some _ |- _ => exact (app_upd _ _ _ _ E) end.
Qed.
Lemma moved_upd p f (w w' : rworld) : upd p f w = Some w' -> moved w w'.
Proof. intros H. eapply moved_same, app_upd, H. Qed.

Create HintDb move.
#[local] Hint Resolve moved_upd moved_on_response moved_on_error moved_sub_add_notify : move.
Ltac move_on H :=
  unbind H;
  repeat match goal with
  | E : RpcClient.on_error _ _ _ _ _ _ _ _ _ ?w = Some (_, ?w1) |- moved ?w _ =>
      etransitivity; [solve [eauto with move]|]; clear E
  | E : _ ?w = Some ?w1 |- moved ?w _ =>
      etransitivity; [solve [eauto with move]|]; clear E
  end;
  try reflexivity.

Lemma moved_one_account slot jt tok p w w' :
  one_account ed25519_sign react casts clock random host slot jt tok p w = Some w' -> moved w w'.
Proof. unfold one_account. intros H. move_on H. Qed.
Lemma moved_each_account fuel slot jt tok p w w' :
  each_account ed25519_sign react casts clock random host fuel slot jt tok p w = Some w' -> moved w w'.
Proof.
  revert tok w; induction fuel as [|fuel IH]; intros tok w H; cbn [each_account] in H;
    destruct (tok =? 0); try (by injection H as <-); [done|].
  unbind H. etransitivity; [eapply moved_one_account; eassumption | eapply IH; exact H].
Qed.
Lemma moved_response jt p w w' :
  response ed25519_sign react casts clock random host jt p w = Some w' -> moved w w'.
Proof.
  unfold response. intros H. unbind H. transitivity (add_log (ev_response p) w); [by apply moved_same|].
  revert H. generalize (add_log (ev_response p) w). intros w0 H.
  destruct (body_ _);
    unfold response_block_hash, response_slot, response_account_info, response_account_subscribe, response_program_subscribe,
      response_program_accounts, response_upd_price in H; unbind H;
    (etransitivity; [eapply moved_on_error; eassumption|]);
    (match type of H with (if ?b then _ else _) = _ => destruct b end);
    try (by injection H as <-); try (by move_on H).
  - unbind H. eapply moved_each_account. exact H.
  - unbind H. destruct (_ =? 0); [by injection H as <-|]. move_on H.
Qed.
Lemma moved_respond_all jt ps w w' :
  respond_all ed25519_sign react casts clock random host jt ps w = Some w' -> moved w w'.
Proof.
  revert w; induction ps as [|p ps IH]; intros w H; cbn [respond_all] in H; [by injection H as <-|].
  unbind H. etransitivity; [eapply moved_response; eassumption | by apply IH].
Qed.
Lemma moved_notify jt p w b w' :
  notify ed25519_sign react casts clock random host jt p w = Some (b, w') -> moved w w'.
Proof.
  unfold notify. intros H. unbind H. transitivity (add_log (ev_notify p) w); [by apply moved_same|].
  revert H. generalize (add_log (ev_notify p) w). intros w0 H.
  assert (forall f, (forall rtok w w', f rtok p w = Some w' -> moved w w') ->
    ('(err, w) ← on_error t_account_update jt p w0;
     if (err : bool) then Some (true, w) else
     ptok ← find_val jt 1 (bs "params"); rtok ← find_val jt ptok (bs "result");
     w ← f rtok p w; w ← on_response t_account_update p w; Some (false, w)) = Some (b, w') ->
    moved w0 w') as Hup.
  { intros f Hf Hu. unbind Hu.
    etransitivity; [eapply moved_on_error; eassumption|].
    match type of Hu with (if ?b then _ else _) = _ => destruct b end; [by injection Hu as _ <-|].
    unbind Hu. injection Hu as _ <-.
    etransitivity; [eapply Hf; eassumption | eapply moved_on_response; eassumption]. }
  destruct (body_ r); try (by injection H as _ <-); (eapply Hup; [|exact H]); intros rtok w1 w2 Hn;
    [unfold notify_account in Hn | unfold notify_program in Hn]; unbind Hn; eapply moved_upd, Hn.
Qed.

(** Any text moves the application by its callbacks. *)
Lemma moved_parse_response txt w w' :
  parse_response ed25519_sign react casts clock random host visit txt w = Some w' -> moved w w'.
Proof.
  unfold parse_response. intros H. unbind H. destruct (negb _); unbind H.
  - unfold answer in H. unbind H. injection H as <-.
    match goal with E : respond_all _ _ _ _ _ _ _ _ ?w0 = Some ?w1 |- _ =>
      apply moved_respond_all in E; transitivity w0; [by apply moved_same|]; transitivity w1; [exact E | by apply moved_same] end.
  - unfold notification in H. unbind H.
    match type of H with (if ?b then _ else _) = _ => destruct b end; [injection H as <-; by apply moved_same|].
    unbind H. match type of H with match ?o with _ => _ end = _ => destruct o end; [|injection H as <-; by apply moved_same].
    unbind H.
    match goal with E : notify _ _ _ _ _ _ _ _ ?w0 = Some (_, ?w1) |- _ =>
      apply moved_notify in E; transitivity w0; [by apply moved_same|]; transitivity w1; [exact E|] end.
    match type of H with (if ?b then _ else _) = _ => destruct b end; [unbind H|]; injection H as <-; by apply moved_same.
Qed.
End frame.
