(* ===== verification/AttrDict.v ===== *)
(** * Product attributes ([pc/attr_id.hpp], [pc/attr_id.cpp])

    [attr_id_set] numbers attribute names from 1; [attr_dict] holds the values of
    one product by number.  The map of names is its finite map, which [HashMap]
    justifies.  Account data is memory read by position: a read outside it has
    no result, nor has a scan that does not end. *)

From S2P Require NetBuf JTree.
From S2P Require Import Prelude JsonWtr.
Import JTree (jtree).

(** ** [attr_id_set] *)

Record attr_id_set := mk_attr_id_set { amap_ : gmap bytes Z; names_ : list bytes; aid_ : Z }.
Definition new_attr_id_set : attr_id_set := mk_attr_id_set ∅ [] 0.

Definition resize {A} (x : A) (n : nat) (l : list A) : list A := take n l ++ replicate (n - length l) x.

(** [add_attr]: the name is copied into space from [reserve], null for more than
    a block. *)
Definition add_attr_id (v : bytes) (s : attr_id_set) : option (Z * attr_id_set) :=
  match amap_ s !! v with
  | Some id => Some (id, s)
  | None =>
      if NetBuf.buf_max <? Z.of_nat (length v) then None else
      let id := wrap 32 (aid_ s + 1) in
      let names := <[Z.to_nat id := v]> (resize [] (Z.to_nat (1 + id)) (names_ s)) in
      Some (id, mk_attr_id_set (<[v := id]> (amap_ s)) names id)
  end.
Definition get_attr_id (v : bytes) (s : attr_id_set) : Z := default 0 (amap_ s !! v).
Definition id_str (id : Z) (s : attr_id_set) : bytes := default [] (names_ s !! Z.to_nat id).
Definition is_valid (id : Z) (s : attr_id_set) : bool :=
  negb (id =? 0) && (id <? Z.of_nat (length (names_ s))).
Definition get_num_attr_id (s : attr_id_set) : Z := aid_ s.

(** ** [attr_dict] *)

Record attr_dict := mk_attr_dict { abuf_ : bytes; avec_ : list (Z * Z); num_ : Z }.
Definition clear : attr_dict := mk_attr_dict [] [] 0.
Definition get_num_attr (d : attr_dict) : Z := num_ d.

(** [get_attr]: an empty value counts as none. *)
Definition get_attr (d : attr_dict) (id : Z) : option bytes :=
  match avec_ d !! Z.to_nat id with
  | Some (idx, len) => if len =? 0 then None else Some (slice (Z.to_nat idx) (Z.to_nat len) (abuf_ d))
  | None => None
  end.

(** The loop of [get_next_attr]; [ids] are the numbers after the given one. *)
Fixpoint first_attr (d : attr_dict) (ids : list nat) : option (Z * bytes) :=
  match ids with
  | [] => None
  | i :: ids' =>
      match get_attr d (Z.of_nat i) with
      | Some v => Some (Z.of_nat i, v)
      | None => first_attr d ids'
      end
  end.
Definition get_next_attr (d : attr_dict) (id : Z) : option (Z * bytes) :=
  first_attr d (seq (Z.to_nat (1 + id)) (length (avec_ d) - Z.to_nat (1 + id))).

Definition add_ref (id : Z) (val : bytes) (d : attr_dict) : attr_dict :=
  let avec := if Z.of_nat (length (avec_ d)) <=? id then resize (0, 0) (Z.to_nat (1 + id)) (avec_ d)
              else avec_ d in
  let len := wrap 16 (Z.of_nat (length val)) in
  let idx := wrap 16 (Z.of_nat (length (abuf_ d))) in
  let p := (idx, len) in
  let abuf := abuf_ d ++ replicate (Z.to_nat len) 0 in
  mk_attr_dict (blit (Z.to_nat idx) (take (Z.to_nat len) val) abuf) (<[Z.to_nat id := p]> avec) (wrap 32 (num_ d + 1)).

(** *** Account format *)

Definition prod_size : Z := 48.

(** [( size_t )ptr[0]] of a [char]: a byte from 128 on is a size near [2^64]. *)
Definition char_size (c : Z) : Z := wrap 64 (schar c).

Definition mem_at (m : bytes) (p : Z) : option Z := if p <? 0 then None else m !! Z.to_nat p.
(** A string of [len] bytes at [p]. *)
Definition mem_str (m : bytes) (p len : Z) : option bytes :=
  if (0 <=? p) && (p + len <=? Z.of_nat (length m)) then Some (slice (Z.to_nat p) (Z.to_nat len) m)
  else None.
(** Pointer arithmetic wraps; positions are relative to the account. *)
Definition ptr_add (p len : Z) : Z := swrap 64 (p + len).

(** The loop of [init_from_account], which may return false. *)
Fixpoint read_attrs (fuel : nat) (m : bytes) (p fin : Z) (d : attr_dict) (s : attr_id_set)
  : option (bool * attr_dict * attr_id_set) :=
  if p =? fin then Some (true, d, s) else
  match fuel with
  | O => None
  | S fuel' =>
      c ← mem_at m p;
      let klen := char_size c in
      let kp := p + 1 in
      let p := ptr_add p (1 + klen) in
      if fin <? p then Some (false, d, s) else
      c ← mem_at m p;
      let vlen := char_size c in
      let vp := p + 1 in
      let p := ptr_add p (1 + vlen) in
      if fin <? p then Some (false, d, s) else
      key ← mem_str m kp klen;
      val ← mem_str m vp vlen;
      '(id, s) ← add_attr_id key s;
      read_attrs fuel' m p fin (add_ref id val d) s
  end.

(** [size_] is the fourth word of the account. *)
Definition account_size (m : bytes) : Z := of_le (slice 12 4 m).
Definition init_from_account (m : bytes) (s : attr_id_set) : option (bool * attr_dict * attr_id_set) :=
  read_attrs (length m) m prod_size (account_size m) clear s.

(** *** JSON *)

(** The loop over the fields of an object. *)
Fixpoint read_fields (fuel : nat) (pt : jtree) (it : Z) (d : attr_dict) (s : attr_id_set)
  : option (bool * attr_dict * attr_id_set) :=
  if it =? 0 then Some (true, d, s) else
  match fuel with
  | O => None
  | S fuel' =>
      kt ← JTree.get_key pt it;
      if kt =? 0 then Some (false, d, s) else
      key ← JTree.get_str pt kt;
      '(id, s) ← add_attr_id key s;
      vt ← JTree.get_val pt it;
      val ← JTree.get_str pt vt;
      it ← JTree.get_next pt it;
      read_fields fuel' pt it (add_ref id val d) s
  end.
Definition init_from_json (pt : jtree) (hd : Z) (d : attr_dict) (s : attr_id_set)
  : option (bool * attr_dict * attr_id_set) :=
  ty ← JTree.get_type pt hd;
  if hd =? 0 then Some (false, d, s) else
  match ty with
  | JTree.e_obj =>
      it ← JTree.get_first pt hd; read_fields (length (JTree.nv_ pt)) pt it clear s
  | _ => Some (false, d, s)
  end.

(** ** Writing: the ids with a value, in order *)

Definition ids (d : attr_dict) : list Z := Z.of_nat <$> seq 1 (length (avec_ d) - 1).
Definition attr_of (d : attr_dict) (s : attr_id_set) (id : Z) : option (Z * bytes * bytes) :=
  v ← get_attr d id; Some (id, id_str id s, v).
Definition attrs (d : attr_dict) (s : attr_id_set) : list (Z * bytes * bytes) :=
  omap (attr_of d s) (ids d).

Definition attr_bytes (a : Z * bytes * bytes) : bytes :=
  [wrap 8 (Z.of_nat (length a.1.2))] ++ a.1.2 ++ [wrap 8 (Z.of_nat (length a.2))] ++ a.2.
(** [write_account] as the bytes added to the message. *)
Definition write_account (d : attr_dict) (s : attr_id_set) : bytes := attrs d s ≫= attr_bytes.
Definition write_json (d : attr_dict) (s : attr_id_set) (w : json_wtr) : json_wtr :=
  foldl (fun w a => add_key_str a.1.2 a.2 w) w (attrs d s).

(** ** The set of names *)

(** Names and numbers determine each other. *)
Record set_ok (s : attr_id_set) : Prop := {
  so_name k id : amap_ s !! k = Some id -> 0 < id <= aid_ s /\ names_ s !! Z.to_nat id = Some k;
  so_id k id : 0 < id -> names_ s !! Z.to_nat id = Some k -> amap_ s !! k = Some id;
  so_len : length (names_ s) = (if aid_ s =? 0 then O else Z.to_nat (1 + aid_ s));
  so_pos : 0 <= aid_ s < 2 ^ 32 }.

Lemma new_set_ok : set_ok new_attr_id_set.
Proof. split; cbn; done || lia. Qed.

Lemma id_str_of s k id : set_ok s -> amap_ s !! k = Some id -> id_str id s = k.
Proof. intros Hs H. unfold id_str. destruct (so_name _ Hs _ _ H) as [_ ->]. done. Qed.

Lemma add_attr_id_known s k id : amap_ s !! k = Some id -> add_attr_id k s = Some (id, s).
Proof. intros H. unfold add_attr_id. rewrite H. done. Qed.

Lemma lookup_resize {A} (x : A) n (l : list A) i :
  (length l <= n)%nat -> (i < n)%nat -> resize x n l !! i = Some (default x (l !! i)).
Proof.
  intros Hl Hi. unfold resize. rewrite take_ge by lia. destruct (decide (i < length l)%nat) as [H|H].
  - rewrite lookup_app_l by lia. destruct (l !! i) eqn:E; [done|]. apply lookup_ge_None in E. lia.
  - rewrite lookup_app_r by lia. rewrite lookup_replicate_2 by lia. rewrite (lookup_ge_None_2 l) by lia. done.
Qed.

Lemma length_resize {A} (x : A) n (l : list A) : length (resize x n l) = n.
Proof. unfold resize. rewrite length_app, length_take, length_replicate. lia. Qed.

(** Adding a name gives it a number of its own, keeps every number given
    before, and finds a known name again. *)
Theorem add_attr_id_ok s v :
  set_ok s -> (length v <= 1270)%nat -> aid_ s + 1 < 2 ^ 32 ->
  exists id s', add_attr_id v s = Some (id, s') /\ set_ok s'
    /\ get_attr_id v s' = id /\ id_str id s' = v /\ 0 < id
    /\ (forall k id', amap_ s !! k = Some id' -> amap_ s' !! k = Some id' /\ id_str id' s' = k).
Proof.
  intros Hs Hv Ha. unfold add_attr_id, get_attr_id. destruct (amap_ s !! v) as [id|] eqn:E.
  { exists id, s. split_and!; try done; [by rewrite E | by apply id_str_of | by apply (so_name _ Hs v id) |].
    intros k id' Hk. split; [done | by apply id_str_of]. }
  unfold NetBuf.buf_max. destruct (Z.ltb_spec 1270 (Z.of_nat (length v))); [lia|].
  pose proof Hs as [Hn Hi Hlen Hpos]. rewrite wrap_small by (unfold in_u; lia).
  set (id := aid_ s + 1). set (names := <[Z.to_nat id := v]> (resize [] (Z.to_nat (1 + id)) (names_ s))).
  assert (length (names_ s) <= Z.to_nat id)%nat as Hle
    by (rewrite Hlen; unfold id; destruct (Z.eqb_spec (aid_ s) 0); lia).
  assert (names !! Z.to_nat id = Some v) as Hid
    by (apply list_lookup_insert_eq; rewrite length_resize; unfold id; lia).
  assert (forall i, (i < Z.to_nat id)%nat -> names !! i = Some (default [] (names_ s !! i))) as Hold.
  { intros i Hlt. unfold names. rewrite list_lookup_insert_ne by lia. apply lookup_resize; unfold id in *; lia. }
  assert (set_ok (mk_attr_id_set (<[v := id]> (amap_ s)) names id)) as Hs'.
  { split; cbn [amap_ names_ aid_].
    - intros k i. destruct (decide (k = v)) as [->|Hk].
      + rewrite lookup_insert_eq. intros [= <-]. unfold id. split; [lia | exact Hid].
      + rewrite lookup_insert_ne by done. intros Hki. destruct (Hn _ _ Hki) as [Hr Hki'].
        unfold id. split; [lia|]. rewrite Hold by (unfold id; lia). rewrite Hki'. done.
    - intros k i Hp Hki. assert (Z.to_nat i < length names)%nat as Hlt by (by eapply lookup_lt_Some).
      unfold names in Hlt. rewrite length_insert, length_resize in Hlt.
      destruct (decide (i = id)) as [->|Hne].
      + rewrite Hid in Hki. injection Hki as <-. apply lookup_insert_eq.
      + rewrite Hold in Hki by (unfold id in *; lia). injection Hki as <-.
        destruct (names_ s !! Z.to_nat i) as [k|] eqn:Ek.
        * change (default [] (Some k)) with k. rewrite lookup_insert_ne by (intros <-; apply Hi in Ek; [congruence | done]).
          apply Hi; done.
        * exfalso. apply lookup_ge_None in Ek. rewrite Hlen in Ek. unfold id in *.
          destruct (Z.eqb_spec (aid_ s) 0); lia.
    - unfold names. rewrite length_insert, length_resize. destruct (Z.eqb_spec id 0); unfold id in *; lia.
    - unfold id. lia. }
  eexists id, _. split; [reflexivity|]. split_and!; [done | | | unfold id; lia |].
  - cbn [amap_]. rewrite lookup_insert_eq. done.
  - apply id_str_of; [done|]. cbn [amap_]. apply lookup_insert_eq.
  - intros k id' Hk. assert (amap_ (mk_attr_id_set (<[v:=id]> (amap_ s)) names id) !! k = Some id') as Hk'.
    { cbn [amap_]. rewrite lookup_insert_ne; [done | congruence]. }
    split; [done | by apply id_str_of].
Qed.

(** ** The dictionary *)

(** Every value lies in the text buffer, whose positions have 16 bits. *)
Record dict_ok (d : attr_dict) : Prop := {
  do_pos i idx len : avec_ d !! i = Some (idx, len) -> 0 <= idx /\ 0 <= len /\ idx + len <= Z.of_nat (length (abuf_ d));
  do_len : Z.of_nat (length (abuf_ d)) < 2 ^ 16 }.

Lemma attrs_clear_ok : dict_ok clear.
Proof. split; cbn; [intros i ? ? H; discriminate | lia]. Qed.

Lemma get_attr_ok d id v : dict_ok d -> get_attr d id = Some v -> v <> [] /\ Z.of_nat (length v) < 2 ^ 16.
Proof.
  unfold get_attr. intros [Hp Hl]. destruct (avec_ d !! Z.to_nat id) as [[idx len]|] eqn:E; [|done].
  destruct (Z.eqb_spec len 0); [done|]. intros [= <-]. destruct (Hp _ _ _ E) as (H1 & H2 & H3).
  assert (length (slice (Z.to_nat idx) (Z.to_nat len) (abuf_ d)) = Z.to_nat len) as Hs
    by (apply length_slice; lia).
  split; [intros Hv; rewrite Hv in Hs; simpl in Hs; lia | lia].
Qed.

(** Storing a value changes what is found under its own number only. *)
Lemma get_attr_add_ref d id v id' :
  dict_ok d -> 0 <= id -> 0 <= id' -> v <> [] -> Z.of_nat (length (abuf_ d) + length v) < 2 ^ 16 ->
  dict_ok (add_ref id v d)
  /\ get_attr (add_ref id v d) id' = (if decide (id' = id) then Some v else get_attr d id')
  /\ length (abuf_ (add_ref id v d)) = (length (abuf_ d) + length v)%nat.
Proof.
  intros [Hp Hl] Hid Hid' Hv Hlen. unfold add_ref. rewrite !wrap_small by (unfold in_u; lia).
  rewrite !Nat2Z.id, take_ge by lia.
  set (avec := if Z.of_nat (length (avec_ d)) <=? id then _ else _).
  assert (forall i, avec !! i = if decide (i < length (avec_ d))%nat then avec_ d !! i
                                else if decide (i < length avec)%nat then Some (0, 0) else None) as Ha.
  { intros i. unfold avec at 1. destruct (Z.leb_spec (Z.of_nat (length (avec_ d))) id) as [Hle|Hle].
    - assert (length avec = Z.to_nat (1 + id)) as Hla
        by (unfold avec; destruct (Z.leb_spec (Z.of_nat (length (avec_ d))) id); [apply length_resize | lia]).
      rewrite Hla. destruct (decide (i < length (avec_ d))%nat) as [H|H].
      + rewrite lookup_resize by lia. destruct (avec_ d !! i) eqn:E; [done|]. apply lookup_ge_None in E. lia.
      + destruct (decide (i < Z.to_nat (1 + id))%nat).
        * rewrite lookup_resize by lia. rewrite (lookup_ge_None_2 (avec_ d)) by lia. done.
        * apply lookup_ge_None_2. rewrite length_resize. lia.
    - assert (length avec = length (avec_ d)) as Hla
        by (unfold avec; destruct (Z.leb_spec (Z.of_nat (length (avec_ d))) id); [lia | done]).
      rewrite Hla. destruct (decide (i < length (avec_ d))%nat); [done|]. apply lookup_ge_None_2. lia. }
  assert (Z.to_nat id < length avec)%nat as Hlt.
  { unfold avec. destruct (Z.leb_spec (Z.of_nat (length (avec_ d))) id); [rewrite length_resize|]; lia. }
  assert (blit (length (abuf_ d)) v (abuf_ d ++ replicate (length v) 0) = abuf_ d ++ v) as Hb.
  { pose proof (blit_app (abuf_ d) (replicate (length v) 0) [] v) as H. rewrite !app_nil_r in H. apply H.
    rewrite length_replicate. done. }
  rewrite Hb. split_and!.
  - split; cbn [avec_ abuf_]; rewrite length_app; [|lia]. intros i idx len Hi.
    destruct (decide (i = Z.to_nat id)) as [->|Hne].
    + rewrite list_lookup_insert_eq in Hi by done. injection Hi as <- <-. lia.
    + rewrite list_lookup_insert_ne in Hi by done. rewrite Ha in Hi.
      destruct (decide _); [apply Hp in Hi; lia|]. destruct (decide _); [injection Hi as <- <-; lia | done].
  - unfold get_attr. cbn [avec_ abuf_]. destruct (decide (id' = id)) as [->|Hne].
    + rewrite list_lookup_insert_eq by done. destruct (Z.eqb_spec (Z.of_nat (length v)) 0) as [E|_];
        [destruct v; [done | simpl in E; lia]|].
      rewrite !Nat2Z.id. f_equal. rewrite <- (app_nil_r (_ ++ v)), <- app_assoc. apply slice_at; done.
    + rewrite list_lookup_insert_ne by lia. rewrite Ha.
      destruct (decide _) as [H|H].
      * destruct (avec_ d !! Z.to_nat id') as [[idx len]|] eqn:E; [|done].
        destruct (len =? 0); [done|]. f_equal. destruct (Hp _ _ _ E) as (H1 & H2 & H3).
        unfold slice. rewrite drop_app_le by lia. rewrite take_app_le by (rewrite length_drop; lia). done.
      * rewrite (lookup_ge_None_2 (avec_ d)) by lia. destruct (decide _); done.
  - cbn [abuf_]. apply length_app.
Qed.

Definition store_all (l : list (Z * bytes * bytes)) (d : attr_dict) : attr_dict :=
  foldl (fun d a => add_ref a.1.1 a.2 d) d l.

Definition values_len (l : list (Z * bytes * bytes)) : nat := sum_list_with (fun a => length a.2) l.

Lemma get_attr_store l d id :
  dict_ok d -> Forall (fun a => 0 <= a.1.1 /\ a.2 <> []) l -> NoDup (fst ∘ fst <$> l) -> 0 <= id ->
  Z.of_nat (length (abuf_ d) + values_len l) < 2 ^ 16 ->
  (forall a, a ∈ l -> get_attr (store_all l d) a.1.1 = Some a.2)
  /\ (id ∉ (fst ∘ fst <$> l) -> get_attr (store_all l d) id = get_attr d id).
Proof.
  intros Hd Hl; revert d id Hd; induction Hl as [|[[i k] v] l [Hi Hv] Hl IH]; intros d id Hd Hn Hid Hlen.
  - split; [intros a Ha; inversion Ha | done].
  - change (store_all ((i, k, v) :: l) d) with (store_all l (add_ref i v d)). cbn [fst snd] in *.
    cbn [values_len sum_list_with snd] in Hlen.
    rewrite fmap_cons in *. cbn [compose fst] in *. apply NoDup_cons in Hn as [Hni Hn].
    destruct (get_attr_add_ref d i v id Hd Hi Hid Hv) as (Hd' & He & Hlen'); [unfold values_len in *; lia|].
    assert (Z.of_nat (length (abuf_ (add_ref i v d)) + values_len l) < 2 ^ 16) as Hlen2
      by (rewrite Hlen'; unfold values_len in *; lia).
    destruct (IH _ id Hd' Hn Hid Hlen2) as [H1 H2]. split.
    + intros a [->|Ha]%elem_of_cons; [|by apply H1]. cbn [fst snd].
      destruct (IH _ i Hd' Hn Hi Hlen2) as [_ H3]. rewrite H3 by done.
      destruct (get_attr_add_ref d i v i Hd Hi Hi Hv) as (_ & Hei & _); [unfold values_len in *; lia|].
      rewrite Hei, decide_True by done. done.
    + intros Hni'. apply not_elem_of_cons in Hni' as [Hne Hni']. rewrite H2 by done.
      rewrite He, decide_False by done. done.
Qed.

(** ** Reading what was written *)

(** An attribute as the account format can hold it: the lengths fit a positive
    [char]. *)
Definition attr_ok (s : attr_id_set) (a : Z * bytes * bytes) : Prop :=
  amap_ s !! a.1.2 = Some a.1.1 /\ (length a.1.2 < 128)%nat /\ (length a.2 < 128)%nat.

Lemma char_size_small n : (n < 128)%nat -> char_size (wrap 8 (Z.of_nat n)) = Z.of_nat n.
Proof.
  intros Hn. unfold char_size, schar. rewrite (wrap_small 8) by (unfold in_u; change (2 ^ 8) with 256; lia).
  rewrite swrap_small by (unfold in_s; change (2 ^ (8 - 1)) with 128; lia).
  apply wrap_small. unfold in_u. lia.
Qed.

Lemma mem_at_app m1 c m2 : mem_at (m1 ++ c :: m2) (Z.of_nat (length m1)) = Some c.
Proof.
  unfold mem_at. destruct (Z.ltb_spec (Z.of_nat (length m1)) 0); [lia|]. rewrite Nat2Z.id.
  rewrite lookup_app_r by lia. rewrite Nat.sub_diag. done.
Qed.

Lemma mem_str_app m1 x m2 :
  mem_str (m1 ++ x ++ m2) (Z.of_nat (length m1)) (Z.of_nat (length x)) = Some x.
Proof.
  unfold mem_str. rewrite !length_app.
  destruct (Z.leb_spec 0 (Z.of_nat (length m1))), (Z.leb_spec (Z.of_nat (length m1) + Z.of_nat (length x))
    (Z.of_nat (length m1 + (length x + length m2)))); cbn [andb]; try lia.
  rewrite !Nat2Z.id. f_equal. apply slice_at; done.
Qed.

Lemma ptr_add_small p n : 0 <= p -> 0 <= n -> p + n < 2 ^ 62 -> ptr_add p n = p + n.
Proof. intros. apply swrap_small; [lia|]. unfold in_s. change (2 ^ (64 - 1)) with (2 ^ 63). lia. Qed.

(** Reading one attribute. *)
Lemma read_attrs_one fuel m1 a m2 d s :
  attr_ok s a -> Z.of_nat (length (m1 ++ attr_bytes a ++ m2)) < 2 ^ 62 ->
  let m := m1 ++ attr_bytes a ++ m2 in
  read_attrs (S fuel) m (Z.of_nat (length m1)) (Z.of_nat (length m)) d s
  = read_attrs fuel m (Z.of_nat (length (m1 ++ attr_bytes a))) (Z.of_nat (length m)) (add_ref a.1.1 a.2 d) s.
Proof.
  destruct a as [[id k] v]. intros (Hk & Hkl & Hvl) Hlen. cbn [fst snd] in *. cbn zeta.
  set (ck := wrap 8 (Z.of_nat (length k))) in *. set (cv := wrap 8 (Z.of_nat (length v))) in *.
  assert (char_size ck = Z.of_nat (length k)) as Hck by (by apply char_size_small).
  assert (char_size cv = Z.of_nat (length v)) as Hcv by (by apply char_size_small).
  set (m := m1 ++ attr_bytes (id, k, v) ++ m2) in *.
  assert (m = m1 ++ ck :: (k ++ cv :: (v ++ m2))) as E1
    by (unfold m, attr_bytes; cbn [fst snd app]; rewrite <- !app_assoc; done).
  assert (m = (m1 ++ ck :: k) ++ cv :: (v ++ m2)) as E2 by (rewrite E1, <- app_assoc; done).
  assert (m = (m1 ++ [ck]) ++ k ++ (cv :: (v ++ m2))) as E3 by (rewrite E1, <- app_assoc; done).
  assert (m = (m1 ++ ck :: k ++ [cv]) ++ v ++ m2) as E4
    by (rewrite E1, <- app_assoc; cbn [app]; rewrite <- app_assoc; done).
  assert (length m = length m1 + (1 + (length k + (1 + (length v + length m2)))))%nat as El
    by (rewrite E1, !length_app; cbn [length]; rewrite !length_app; cbn [length]; rewrite length_app; lia).
  cbn [read_attrs]. destruct (Z.eqb_spec (Z.of_nat (length m1)) (Z.of_nat (length m))); [lia|].
  rewrite E1 at 1. rewrite mem_at_app. cbn [mbind option_bind].
  rewrite Hck, ptr_add_small by lia.
  destruct (Z.ltb_spec (Z.of_nat (length m)) (Z.of_nat (length m1) + (1 + Z.of_nat (length k)))); [lia|].
  replace (Z.of_nat (length m1) + (1 + Z.of_nat (length k))) with (Z.of_nat (length (m1 ++ ck :: k)))
    by (rewrite length_app; cbn [length]; lia).
  rewrite E2 at 1. rewrite mem_at_app. cbn [mbind option_bind].
  rewrite Hcv, ptr_add_small by (rewrite ?length_app; cbn [length]; lia).
  destruct (Z.ltb_spec (Z.of_nat (length m)) (Z.of_nat (length (m1 ++ ck :: k)) + (1 + Z.of_nat (length v))));
    [rewrite length_app in *; cbn [length] in *; lia|].
  replace (Z.of_nat (length m1) + 1) with (Z.of_nat (length (m1 ++ [ck])))
    by (rewrite length_app; cbn [length]; lia).
  rewrite E3 at 1. rewrite mem_str_app. cbn [mbind option_bind].
  replace (Z.of_nat (length (m1 ++ ck :: k)) + 1) with (Z.of_nat (length (m1 ++ ck :: k ++ [cv])))
    by (rewrite !length_app; cbn [length]; rewrite length_app; cbn [length]; lia).
  rewrite E4 at 1. rewrite mem_str_app. cbn [mbind option_bind].
  rewrite (add_attr_id_known _ _ _ Hk). cbn [mbind option_bind]. f_equal.
  unfold attr_bytes. cbn [fst snd]. rewrite !length_app. cbn [length]. lia.
Qed.

Lemma read_attrs_all l fuel m1 d s :
  Forall (attr_ok s) l -> Z.of_nat (length (m1 ++ (l ≫= attr_bytes))) < 2 ^ 62 -> (length l <= fuel)%nat ->
  read_attrs fuel (m1 ++ (l ≫= attr_bytes)) (Z.of_nat (length m1))
    (Z.of_nat (length (m1 ++ (l ≫= attr_bytes)))) d s
  = Some (true, store_all l d, s).
Proof.
  intros Hl; revert fuel m1 d; induction Hl as [|a l Ha Hl IH]; intros fuel m1 d Hlen Hf.
  - cbn [mbind list_bind]. rewrite app_nil_r. destruct fuel; cbn [read_attrs]; rewrite Z.eqb_refl; done.
  - destruct fuel as [|fuel]; [simpl in Hf; lia|]. rewrite bind_cons in *.
    rewrite (read_attrs_one fuel m1 a (l ≫= attr_bytes) d s Ha Hlen).
    rewrite app_assoc in *. rewrite IH by (done || simpl in Hf; lia). done.
Qed.

Lemma attrs_spec d s a :
  a ∈ attrs d s <-> exists id v, a = (id, id_str id s, v) /\ 0 < id < Z.of_nat (length (avec_ d))
                                 /\ get_attr d id = Some v.
Proof.
  unfold attrs, ids, attr_of. rewrite list_elem_of_omap. split.
  - intros (id & (i & -> & Hi%elem_of_seq)%list_elem_of_fmap & Ha).
    destruct (get_attr d (Z.of_nat i)) as [v|] eqn:E; [|done]. injection Ha as <-.
    exists (Z.of_nat i), v. split_and!; [done | lia | lia | done].
  - intros (id & v & -> & Hid & Hv). exists id. split.
    + apply list_elem_of_fmap. exists (Z.to_nat id). split; [lia|]. apply elem_of_seq. lia.
    + rewrite Hv. done.
Qed.

Lemma attrs_nodup d s : NoDup (fst ∘ fst <$> attrs d s).
Proof.
  unfold attrs. assert (NoDup (ids d)) as Hn
    by (unfold ids; apply NoDup_fmap_2; [intros ? ?; lia | apply NoDup_seq]).
  induction Hn as [|id l Hni Hn IH]; [apply NoDup_nil_2|]. cbn [omap list_omap]. unfold attr_of at 1.
  destruct (get_attr d id) as [v|]; cbn [mbind option_bind]; [|exact IH].
  rewrite fmap_cons. apply NoDup_cons. split; [|exact IH]. cbn [compose fst].
  intros (a & E & (id' & Hid' & Ha)%list_elem_of_omap)%list_elem_of_fmap. apply Hni.
  unfold attr_of in Ha. destruct (get_attr d id'); [|done]. injection Ha as <-. cbn [compose fst] in E. congruence.
Qed.

(** A product account written from a dictionary reads back to the same
    attributes, when names and values have at most 127 bytes. *)
Theorem account_roundtrip d s hdr :
  set_ok s -> dict_ok d -> (length (avec_ d) <= length (names_ s))%nat ->
  Forall (fun a => (length a.1.2 < 128)%nat /\ (length a.2 < 128)%nat) (attrs d s) ->
  Z.of_nat (values_len (attrs d s)) < 2 ^ 16 ->
  length hdr = Z.to_nat prod_size -> of_le (slice 12 4 hdr) = prod_size + Z.of_nat (length (write_account d s)) ->
  Z.of_nat (length (write_account d s)) < 2 ^ 32 ->
  exists d', init_from_account (hdr ++ write_account d s) s = Some (true, d', s)
    /\ forall id, 0 < id -> get_attr d' id = get_attr d id.
Proof.
  intros Hs Hd Hnames Hlens Hvals Hhdr Hsize Hmax. unfold init_from_account, account_size.
  change (Z.to_nat prod_size) with 48%nat in Hhdr. unfold prod_size in *.
  assert (slice 12 4 (hdr ++ write_account d s) = slice 12 4 hdr) as ->
    by (unfold slice; rewrite drop_app_le by lia; apply take_app_le; rewrite length_drop; lia).
  rewrite Hsize. replace (48 + Z.of_nat (length (write_account d s))) with (Z.of_nat (length (hdr ++ write_account d s)))
    by (rewrite length_app, Hhdr; lia).
  assert (Forall (attr_ok s) (attrs d s)) as Hok.
  { apply Forall_forall. intros a Ha. rewrite Forall_forall in Hlens. destruct (Hlens a Ha) as [H1 H2].
    apply attrs_spec in Ha as (id & v & -> & Hid & Hv). split_and!; [|done|done]. cbn [fst snd].
    apply (so_id _ Hs); [lia|]. unfold id_str.
    destruct (lookup_lt_is_Some_2 (names_ s) (Z.to_nat id) ltac:(lia)) as [k ->]. done. }
  assert (length (attrs d s) <= length (write_account d s))%nat as Hfuel.
  { unfold write_account. generalize (attrs d s). intros l. induction l as [|a l IH]; [done|].
    rewrite bind_cons, length_app. unfold attr_bytes at 1. cbn [app length]. lia. }
  exists (store_all (attrs d s) clear). split.
  - pose proof (read_attrs_all (attrs d s) (length (hdr ++ write_account d s)) hdr clear s Hok) as R.
    fold (write_account d s) in R. rewrite Hhdr in R. apply R; rewrite length_app; lia.
  - intros id Hid. destruct (get_attr_store (attrs d s) clear id attrs_clear_ok) as [H1 H2].
    + apply Forall_forall. intros a (id' & v & -> & Hid' & Hv)%attrs_spec. cbn [fst snd].
      split; [lia|]. apply (get_attr_ok d id' v Hd Hv).
    + apply attrs_nodup.
    + lia.
    + exact Hvals.
    + destruct (decide (id ∈ (fst ∘ fst <$> attrs d s))) as [Hin|Hni].
      * apply list_elem_of_fmap in Hin as (a & -> & Ha). unfold compose. rewrite (H1 a Ha).
        apply attrs_spec in Ha as (id' & v & -> & _ & Hv). done.
      * rewrite H2 by done. destruct (get_attr d id) as [v|] eqn:Ev; [|done]. exfalso. apply Hni.
        apply list_elem_of_fmap. exists (id, id_str id s, v). split; [done|]. apply attrs_spec.
        exists id, v. split_and!; try done. unfold get_attr in Ev.
        destruct (avec_ d !! Z.to_nat id) eqn:E; [|done]. apply lookup_lt_Some in E. lia.
Qed.

(** ** Witnesses *)

Definition two_names : attr_id_set :=
  mk_attr_id_set (<[bs "base" := 2]> (<[bs "symbol" := 1]> ∅)) [[]; bs "symbol"; bs "base"] 2.
Lemma two_names_ok : set_ok two_names.
Proof.
  split; cbn [two_names amap_ names_ aid_].
  - intros k id. rewrite !lookup_insert_Some, lookup_empty. naive_solver lia.
  - intros k id Hid Hk. assert (id = 1 \/ id = 2) as [-> | ->].
    { apply lookup_lt_Some in Hk. simpl in Hk. lia. }
    + injection Hk as <-. vm_compute. reflexivity.
    + injection Hk as <-. vm_compute. reflexivity.
  - reflexivity.
  - lia.
Qed.
Definition two_attrs : attr_dict := add_ref 2 (bs "BTC") (add_ref 1 (bs "Crypto.BTC/USD") clear).
Definition prod_header : bytes := replicate 12 7 ++ le_bytes 4 79 ++ replicate 32 0.

Lemma add_attr_id_ok_witness :
  exists id s', add_attr_id (bs "quote") two_names = Some (id, s') /\ set_ok s'
    /\ get_attr_id (bs "quote") s' = id /\ id_str id s' = bs "quote" /\ 0 < id
    /\ (forall k id', amap_ two_names !! k = Some id' -> amap_ s' !! k = Some id' /\ id_str id' s' = k).
Proof. apply (add_attr_id_ok two_names (bs "quote") two_names_ok); simpl; lia. Defined.

Lemma account_roundtrip_witness :
  exists d', init_from_account (prod_header ++ write_account two_attrs two_names) two_names
             = Some (true, d', two_names)
    /\ forall id, 0 < id -> get_attr d' id = get_attr two_attrs id.
Proof.
  apply (account_roundtrip two_attrs two_names prod_header two_names_ok).
  - split; [|vm_compute; reflexivity]. intros i idx len Hi.
    assert (length (abuf_ two_attrs) = 17%nat) as -> by reflexivity.
    destruct i as [|[|[|i]]]; vm_compute in Hi; try discriminate; injection Hi as <- <-; lia.
  - vm_compute. lia.
  - by_decide.
  - vm_compute. reflexivity.
  - reflexivity.
  - vm_compute. reflexivity.
  - vm_compute. reflexivity.
Defined.

(** A value of 128 bytes is written with the length byte 128, which [char] reads
    as -128: the scan continues 127 bytes before, outside the account. *)
Definition long_attr : attr_dict := add_ref 1 (replicate 128 65) clear.
Definition long_header : bytes :=
  replicate 12 7 ++ le_bytes 4 (48 + Z.of_nat (length (write_account long_attr two_names))) ++ replicate 32 0.
Example long_value_unreadable :
  init_from_account (long_header ++ write_account long_attr two_names) two_names = None.
Proof. vm_compute. reflexivity. Qed.
