(* ===== verification/AdminTx.v ===== *)
(** * The transactions of [pyth_admin] ([pcapps/admin_rpc_client.cpp])

    Ten requests write a transaction with one instruction and sign it with two or
    three key pairs.  [parse_tx] reads a transaction in Solana's wire format, and
    [call] says what each request is to make the program do; the theorems put
    them together: what is sent is that call, signed by the right keys. *)

From S2P Require Import Prelude NetBuf Base64 JsonWtr KeyPair Bincode.
From S2P Require AttrDict RpcClient.

Section admin.
(** OpenSSL's Ed25519: the signature of a message with a private key, the first
    half of a key pair. *)
Context (ed25519_sign : bytes -> bytes -> bytes).

Definition sign_kp (kp m : bytes) : bytes := ed25519_sign (take hash_len kp) m.

(** ** The requests and their parameters *)

Inductive admin_tx :=
  | create_account (bhash snd account owner : bytes) (lamports space : Z)
  | init_mapping (bhash pkey mkey gkey : bytes)
  | add_mapping (bhash pkey mkey akey gkey : bytes)
  | add_product (bhash pkey gkey akey mkey : bytes)
  | upd_product (bhash pkey gkey akey : bytes) (attrs : AttrDict.attr_dict) (ids : AttrDict.attr_id_set)
  | add_price (expo ptype : Z) (bhash pkey gkey akey skey : bytes)
  | init_price (expo ptype : Z) (bhash pkey gkey akey : bytes)
  | set_min_pub_rpc (min_pub : Z) (bhash pkey gkey akey : bytes)
  | add_publisher (nkey bhash pkey gkey akey : bytes)
  | del_publisher (nkey bhash pkey gkey akey : bytes).

Definition e_create_account : Z := 0.
Definition sys_id : bytes := hash_zero.

Definition e_cmd_init_mapping : Z := 0.
Definition e_cmd_add_mapping : Z := 1.
Definition e_cmd_add_product : Z := 2.
Definition e_cmd_upd_product : Z := 3.
Definition e_cmd_add_price : Z := 4.
Definition e_cmd_add_publisher : Z := 5.
Definition e_cmd_del_publisher : Z := 6.
Definition e_cmd_init_price : Z := 9.
Definition e_cmd_set_min_pub : Z := 12.

(** ** Messages

    [add( *kp )]: the public key of a key pair. *)
Definition add_pub (kp : bytes) : bincode -> option bincode := add_hash (get_pub_key kp).

Definition message_create_account (bhash snd account owner : bytes) (lamports space : Z) (t : bincode) : option bincode :=
  t ← add_u8 2 t;
  t ← add_u8 0 t;
  t ← add_u8 1 t;
  t ← add_len 3 t;
  t ← add_pub snd t;
  t ← add_pub account t;
  t ← add_hash sys_id t;
  t ← add_hash bhash t;
  t ← add_len 1 t;
  t ← add_u8 2 t;
  t ← add_len 2 t;
  t ← add_u8 0 t;
  t ← add_u8 1 t;
  t ← add_len 52 t;
  t ← add_u32 e_create_account t;
  t ← add_u64 lamports t;
  t ← add_u64 space t;
  add_hash owner t.

Definition message_init_mapping (bhash pkey mkey gkey : bytes) (t : bincode) : option bincode :=
  t ← add_u8 2 t;
  t ← add_u8 0 t;
  t ← add_u8 1 t;
  t ← add_len 3 t;
  t ← add_pub pkey t;
  t ← add_pub mkey t;
  t ← add_hash gkey t;
  t ← add_hash bhash t;
  t ← add_len 1 t;
  t ← add_u8 2 t;
  t ← add_len 2 t;
  t ← add_u8 0 t;
  t ← add_u8 1 t;
  t ← add_len 8 t;
  t ← add_u32 PC_VERSION t;
  add_u32 e_cmd_init_mapping t.

Definition message_add_mapping (bhash pkey mkey akey gkey : bytes) (t : bincode) : option bincode :=
  t ← add_u8 3 t;
  t ← add_u8 0 t;
  t ← add_u8 1 t;
  t ← add_len 4 t;
  t ← add_pub pkey t;
  t ← add_pub mkey t;
  t ← add_pub akey t;
  t ← add_hash gkey t;
  t ← add_hash bhash t;
  t ← add_len 1 t;
  t ← add_u8 3 t;
  t ← add_len 3 t;
  t ← add_u8 0 t;
  t ← add_u8 1 t;
  t ← add_u8 2 t;
  t ← add_len 8 t;
  t ← add_u32 PC_VERSION t;
  add_u32 e_cmd_add_mapping t.

Definition message_add_product (bhash pkey gkey akey mkey : bytes) (t : bincode) : option bincode :=
  t ← add_u8 3 t;
  t ← add_u8 0 t;
  t ← add_u8 1 t;
  t ← add_len 4 t;
  t ← add_pub pkey t;
  t ← add_pub mkey t;
  t ← add_pub akey t;
  t ← add_hash gkey t;
  t ← add_hash bhash t;
  t ← add_len 1 t;
  t ← add_u8 3 t;
  t ← add_len 3 t;
  t ← add_u8 0 t;
  t ← add_u8 1 t;
  t ← add_u8 2 t;
  t ← add_len 8 t;
  t ← add_u32 PC_VERSION t;
  add_i32 e_cmd_add_product t.

(** The attributes in the first block of a writer: [hd->buf_], [hd->size_]. *)
Definition attr_block (attrs : AttrDict.attr_dict) (ids : AttrDict.attr_id_set) : bytes :=
  take (Z.to_nat buf_max) (AttrDict.write_account attrs ids).
Definition message_upd_product (bhash pkey gkey akey : bytes) (attrs : AttrDict.attr_dict)
    (ids : AttrDict.attr_id_set) (t : bincode) : option bincode :=
  t ← add_u8 2 t;
  t ← add_u8 0 t;
  t ← add_u8 1 t;
  t ← add_len 3 t;
  t ← add_pub pkey t;
  t ← add_pub akey t;
  t ← add_hash gkey t;
  t ← add_hash bhash t;
  t ← add_len 1 t;
  t ← add_u8 2 t;
  t ← add_len 2 t;
  t ← add_u8 0 t;
  t ← add_u8 1 t;
  let ahd := attr_block attrs ids in
  t ← add_len (8 + Z.of_nat (length ahd)) t;
  t ← add_u32 PC_VERSION t;
  t ← add_i32 e_cmd_upd_product t;
  add_bytes ahd t.

Definition message_add_price (expo ptype : Z) (bhash pkey gkey akey skey : bytes) (t : bincode) : option bincode :=
  t ← add_u8 3 t;
  t ← add_u8 0 t;
  t ← add_u8 1 t;
  t ← add_len 4 t;
  t ← add_pub pkey t;
  t ← add_pub skey t;
  t ← add_pub akey t;
  t ← add_hash gkey t;
  t ← add_hash bhash t;
  t ← add_len 1 t;
  t ← add_u8 3 t;
  t ← add_len 3 t;
  t ← add_u8 0 t;
  t ← add_u8 1 t;
  t ← add_u8 2 t;
  t ← add_len 16 t;
  t ← add_u32 PC_VERSION t;
  t ← add_i32 e_cmd_add_price t;
  t ← add_i32 expo t;
  add_u32 ptype t.

Definition message_init_price (expo ptype : Z) (bhash pkey gkey akey : bytes) (t : bincode) : option bincode :=
  t ← add_u8 2 t;
  t ← add_u8 0 t;
  t ← add_u8 1 t;
  t ← add_len 3 t;
  t ← add_pub pkey t;
  t ← add_pub akey t;
  t ← add_hash gkey t;
  t ← add_hash bhash t;
  t ← add_len 1 t;
  t ← add_u8 2 t;
  t ← add_len 2 t;
  t ← add_u8 0 t;
  t ← add_u8 1 t;
  t ← add_len 16 t;
  t ← add_u32 PC_VERSION t;
  t ← add_i32 e_cmd_init_price t;
  t ← add_i32 expo t;
  add_u32 ptype t.

Definition message_set_min_pub (min_pub : Z) (bhash pkey gkey akey : bytes) (t : bincode) : option bincode :=
  t ← add_u8 2 t;
  t ← add_u8 0 t;
  t ← add_u8 1 t;
  t ← add_len 3 t;
  t ← add_pub pkey t;
  t ← add_pub akey t;
  t ← add_hash gkey t;
  t ← add_hash bhash t;
  t ← add_len 1 t;
  t ← add_u8 2 t;
  t ← add_len 2 t;
  t ← add_u8 0 t;
  t ← add_u8 1 t;
  t ← add_len 12 t;
  t ← add_u32 PC_VERSION t;
  t ← add_i32 e_cmd_set_min_pub t;
  t ← add_u8 min_pub t;
  t ← add_u8 0 t;
  add_u16 0 t.

Definition message_add_publisher (nkey bhash pkey gkey akey : bytes) (t : bincode) : option bincode :=
  t ← add_u8 2 t;
  t ← add_u8 0 t;
  t ← add_u8 1 t;
  t ← add_len 3 t;
  t ← add_pub pkey t;
  t ← add_pub akey t;
  t ← add_hash gkey t;
  t ← add_hash bhash t;
  t ← add_len 1 t;
  t ← add_u8 2 t;
  t ← add_len 2 t;
  t ← add_u8 0 t;
  t ← add_u8 1 t;
  t ← add_len 40 t;
  t ← add_u32 PC_VERSION t;
  t ← add_i32 e_cmd_add_publisher t;
  add_hash nkey t.

Definition message_del_publisher (nkey bhash pkey gkey akey : bytes) (t : bincode) : option bincode :=
  t ← add_u8 2 t;
  t ← add_u8 0 t;
  t ← add_u8 1 t;
  t ← add_len 3 t;
  t ← add_pub pkey t;
  t ← add_pub akey t;
  t ← add_hash gkey t;
  t ← add_hash bhash t;
  t ← add_len 1 t;
  t ← add_u8 2 t;
  t ← add_len 2 t;
  t ← add_u8 0 t;
  t ← add_u8 1 t;
  t ← add_len 40 t;
  t ← add_u32 PC_VERSION t;
  t ← add_i32 e_cmd_del_publisher t;
  add_hash nkey t.

(** ** Signatures

    The [request] functions reserve the signatures, write the message, and sign
    it in order; the first signature is kept in [sig_]. *)

Definition signed_by_two (k1 k2 : bytes) (message : bincode -> option bincode) (t : bincode)
  : option (bincode * bytes) :=
  t ← add_len 2 t;
  let '(idx1, t) := reserve_sign t in
  let '(idx2, t) := reserve_sign t in
  let tx_idx := get_pos t in
  t ← message t;
  t ← sign sign_kp idx1 tx_idx k1 t;
  let sig := slice idx1 sig_len (bbuf t) in
  t ← sign sign_kp idx2 tx_idx k2 t;
  Some (t, sig).

Definition signed_by_three (k1 k2 k3 : bytes) (message : bincode -> option bincode) (t : bincode)
  : option (bincode * bytes) :=
  t ← add_len 3 t;
  let '(idx1, t) := reserve_sign t in
  let '(idx2, t) := reserve_sign t in
  let '(idx3, t) := reserve_sign t in
  let tx_idx := get_pos t in
  t ← message t;
  t ← sign sign_kp idx1 tx_idx k1 t;
  let sig := slice idx1 sig_len (bbuf t) in
  t ← sign sign_kp idx2 tx_idx k2 t;
  t ← sign sign_kp idx3 tx_idx k3 t;
  Some (t, sig).

Definition build (r : admin_tx) : bincode -> option (bincode * bytes) :=
  match r with
  | create_account bhash snd account owner lamports space =>
      signed_by_two snd account (message_create_account bhash snd account owner lamports space)
  | init_mapping bhash pkey mkey gkey => signed_by_two pkey mkey (message_init_mapping bhash pkey mkey gkey)
  | add_mapping bhash pkey mkey akey gkey =>
      signed_by_three pkey mkey akey (message_add_mapping bhash pkey mkey akey gkey)
  | add_product bhash pkey gkey akey mkey =>
      signed_by_three pkey mkey akey (message_add_product bhash pkey gkey akey mkey)
  | upd_product bhash pkey gkey akey attrs ids =>
      signed_by_two pkey akey (message_upd_product bhash pkey gkey akey attrs ids)
  | add_price expo ptype bhash pkey gkey akey skey =>
      signed_by_three pkey skey akey (message_add_price expo ptype bhash pkey gkey akey skey)
  | init_price expo ptype bhash pkey gkey akey =>
      signed_by_two pkey akey (message_init_price expo ptype bhash pkey gkey akey)
  | set_min_pub_rpc min_pub bhash pkey gkey akey =>
      signed_by_two pkey akey (message_set_min_pub min_pub bhash pkey gkey akey)
  | add_publisher nkey bhash pkey gkey akey =>
      signed_by_two pkey akey (message_add_publisher nkey bhash pkey gkey akey)
  | del_publisher nkey bhash pkey gkey akey =>
      signed_by_two pkey akey (message_del_publisher nkey bhash pkey gkey akey)
  end.

(** [send_transaction]: the method and parameters of the call. *)
Definition send_transaction (tx : bytes) (w : json_wtr) : option json_wtr :=
  let w := add_key_str (bs "method") (bs "sendTransaction") w in
  let w := add_key_type (bs "params") e_arr w in
  w ← add_val_enc_base64 tx w;
  let w := add_val_type e_obj w in
  w ← pop (add_key_str (bs "encoding") (bs "base64") w);
  pop w.

(** The virtual [request], with the signature it stores; [block] is what the
    message block held. *)
Definition request (block : bytes) (r : admin_tx) (w : json_wtr) : option (json_wtr * bytes) :=
  '(t, sig) ← build r (attach block);
  w ← send_transaction (take (idx_ t) (bbuf t)) w;
  Some (w, sig).

(** ** Reading a transaction

    Solana's wire format: lengths in seven-bit groups, signatures, and the
    message they sign — a header, the accounts, a block hash and instructions. *)

Record tx_message := mk_tx_message {
  n_signed : Z; n_ro_signed : Z; n_ro_unsigned : Z; accounts : list bytes; recent : bytes;
  instrs : list (Z * list Z * bytes) }.

Definition parse_exact (n : nat) (l : bytes) : option (bytes * bytes) :=
  if bool_decide (n <= length l)%nat then Some (take n l, drop n l) else None.
Definition parse_u8 (l : bytes) : option (Z * bytes) :=
  match l with b :: l => Some (b, l) | [] => None end.
Definition parse_len (l : bytes) : option (nat * bytes) :=
  '(b0, l) ← parse_u8 l;
  if b0 <? 128 then Some (Z.to_nat b0, l) else
  '(b1, l) ← parse_u8 l;
  if b1 <? 128 then Some (Z.to_nat (b0 - 128 + 128 * b1), l) else
  '(b2, l) ← parse_u8 l;
  if b2 <? 4 then Some (Z.to_nat (b0 - 128 + 128 * (b1 - 128) + 16384 * b2), l) else None.
Fixpoint parse_many {A} (p : bytes -> option (A * bytes)) (n : nat) (l : bytes) : option (list A * bytes) :=
  match n with
  | O => Some ([], l)
  | S n' => '(x, l) ← p l; '(xs, l) ← parse_many p n' l; Some (x :: xs, l)
  end.
Definition parse_list {A} (p : bytes -> option (A * bytes)) (l : bytes) : option (list A * bytes) :=
  '(n, l) ← parse_len l; parse_many p n l.
Definition parse_instr (l : bytes) : option (Z * list Z * bytes * bytes) :=
  '(prog, l) ← parse_u8 l;
  '(accs, l) ← parse_list parse_u8 l;
  '(data, l) ← parse_list parse_u8 l;
  Some (prog, accs, data, l).
Definition parse_message (l : bytes) : option (tx_message * bytes) :=
  '(a, l) ← parse_u8 l;
  '(b, l) ← parse_u8 l;
  '(c, l) ← parse_u8 l;
  '(accs, l) ← parse_list (parse_exact hash_len) l;
  '(hash, l) ← parse_exact hash_len l;
  '(ins, l) ← parse_list parse_instr l;
  Some (mk_tx_message a b c accs hash ins, l).
(** The signatures, the bytes they sign, and the message; nothing follows. *)
Definition parse_tx (l : bytes) : option (list bytes * bytes * tx_message) :=
  '(sigs, l) ← parse_list (parse_exact sig_len) l;
  match parse_message l with
  | Some (m, []) => Some (sigs, l, m)
  | _ => None
  end.

(** The account of an index: its key, whether it must sign and whether it may
    be written. *)
Record meta := mk_meta { m_key : bytes; m_signer : bool; m_writable : bool }.
Definition meta_at (m : tx_message) (i : Z) : option meta :=
  key ← accounts m !! Z.to_nat i;
  Some (mk_meta key (i <? n_signed m)
          (if i <? n_signed m then i <? n_signed m - n_ro_signed m
           else i <? Z.of_nat (length (accounts m)) - n_ro_unsigned m)).
(** What an instruction calls: a program, with accounts and data. *)
Definition resolve (m : tx_message) (i : Z * list Z * bytes) : option (bytes * list meta * bytes) :=
  let '(prog, accs, data) := i in
  key ← accounts m !! Z.to_nat prog;
  metas ← mapM (meta_at m) accs;
  Some (key, metas, data).

(** *** Writing one *)

Definition write_list {A} (f : A -> bytes) (l : list A) : bytes := len_bytes (Z.of_nat (length l)) ++ (l ≫= f).
Definition write_u8 (z : Z) : bytes := [z].
Definition write_instr (i : Z * list Z * bytes) : bytes :=
  let '(prog, accs, data) := i in write_u8 prog ++ write_list write_u8 accs ++ write_list write_u8 data.
Definition write_message (m : tx_message) : bytes :=
  write_u8 (n_signed m) ++ write_u8 (n_ro_signed m) ++ write_u8 (n_ro_unsigned m)
  ++ write_list id (accounts m) ++ recent m ++ write_list write_instr (instrs m).
Definition write_tx (sigs : list bytes) (m : tx_message) : bytes := write_list id sigs ++ write_message m.

(** A parser reads back what a writer wrote, for the values of [P]. *)
Definition reads {A} (p : bytes -> option (A * bytes)) (f : A -> bytes) (P : A -> Prop) : Prop :=
  forall x l, P x -> p (f x ++ l) = Some (x, l).

Lemma reads_u8 P : reads parse_u8 write_u8 P.
Proof. done. Qed.

Lemma reads_exact n : reads (parse_exact n) id (fun x => length x = n).
Proof.
  intros x l <-. unfold parse_exact. cbn. rewrite bool_decide_true by (rewrite length_app; lia).
  by rewrite take_app_length, drop_app_length.
Qed.

Lemma or_high x : 0 <= x < 128 -> Z.lor 128 x = 128 + x.
Proof.
  intros Hx. assert (Forall (fun n => Z.lor 128 (Z.of_nat n) = 128 + Z.of_nat n) (seq 0 128)) as Ha by by_decide.
  rewrite Forall_forall in Ha. rewrite <- (Z2Nat.id x) by lia. apply Ha, elem_of_seq. lia.
Qed.

Lemma parse_len_bytes (n : nat) l : Z.of_nat n < 16384 -> parse_len (len_bytes (Z.of_nat n) ++ l) = Some (n, l).
Proof.
  intros Hn. unfold len_bytes, parse_len. change 127 with (Z.ones 7).
  rewrite Z.shiftr_div_pow2, !Z.land_ones by lia. change (2 ^ 7) with 128.
  pose proof (Z.mod_pos_bound (Z.of_nat n) 128 ltac:(lia)). pose proof (Z.div_mod (Z.of_nat n) 128 ltac:(lia)).
  destruct (Z.ltb_spec (Z.of_nat n) 128) as [H1|H1]; cbn [app parse_u8 mbind option_bind].
  - rewrite Z.mod_small by lia. destruct (Z.ltb_spec (Z.of_nat n) 128); [|lia]. by rewrite Nat2Z.id.
  - rewrite or_high by lia. destruct (Z.ltb_spec (128 + Z.of_nat n mod 128) 128); [lia|].
    rewrite Z.mod_small by (split; [apply Z.div_pos|apply Z.div_lt_upper_bound]; lia).
    destruct (Z.ltb_spec (Z.of_nat n / 128) 128) as [|Hd]; [do 2 f_equal; lia|].
    assert (Z.of_nat n / 128 < 128) by (apply Z.div_lt_upper_bound; lia). lia.
Qed.

Lemma reads_many {A} (p : bytes -> option (A * bytes)) f P :
  reads p f P -> forall xs l, Forall P xs -> parse_many p (length xs) ((xs ≫= f) ++ l) = Some (xs, l).
Proof.
  intros Hp xs l Hx. induction Hx as [|x xs Hx _ IH]; [done|].
  cbn [length parse_many]. rewrite bind_cons, <- app_assoc, Hp by done. cbn [mbind option_bind]. rewrite IH. done.
Qed.

Lemma reads_list {A} (p : bytes -> option (A * bytes)) f P :
  reads p f P -> reads (parse_list p) (write_list f) (fun xs => Forall P xs /\ Z.of_nat (length xs) < 16384).
Proof.
  intros Hp xs l [Hx Hn]. unfold parse_list, write_list. rewrite <- app_assoc, parse_len_bytes by done.
  cbn [mbind option_bind]. by apply (reads_many p f P).
Qed.

Definition instr_ok (i : Z * list Z * bytes) : Prop :=
  Z.of_nat (length i.1.2) < 16384 /\ Z.of_nat (length i.2) < 16384.
Record message_ok (m : tx_message) : Prop := {
  mo_accounts : Forall (fun a => length a = hash_len) (accounts m);
  mo_count : Z.of_nat (length (accounts m)) < 16384;
  mo_recent : length (recent m) = hash_len;
  mo_instrs : Forall instr_ok (instrs m);
  mo_icount : Z.of_nat (length (instrs m)) < 16384 }.

Lemma reads_instr : reads parse_instr write_instr instr_ok.
Proof.
  intros [[prog accs] data] l [Ha Hd]. unfold parse_instr, write_instr. cbn [write_u8 app parse_u8 mbind option_bind].
  rewrite <- app_assoc. rewrite (reads_list _ _ (fun _ => True) (reads_u8 _)) by (split; [by apply Forall_true|done]).
  cbn [mbind option_bind]. rewrite (reads_list _ _ (fun _ => True) (reads_u8 _)) by (split; [by apply Forall_true|done]). done.
Qed.

Lemma reads_message : reads parse_message write_message message_ok.
Proof.
  intros m l [Ha Hc Hr Hi Hn]. unfold parse_message, write_message. rewrite <- !app_assoc.
  cbn [write_u8 app parse_u8 mbind option_bind].
  rewrite (reads_list _ _ _ (reads_exact hash_len)) by done. cbn [mbind option_bind].
  change (recent m ++ ?x) with (id (recent m) ++ x). rewrite reads_exact by done. cbn [mbind option_bind].
  rewrite (reads_list _ _ _ reads_instr) by done. by destruct m.
Qed.

(** Reading back what [write_tx] writes. *)
Lemma parse_write_tx sigs m :
  Forall (fun s => length s = sig_len) sigs -> Z.of_nat (length sigs) < 16384 -> message_ok m ->
  parse_tx (write_tx sigs m) = Some (sigs, write_message m, m).
Proof.
  intros Hs Hn Hm. unfold parse_tx, write_tx. rewrite (reads_list _ _ _ (reads_exact sig_len)) by done.
  cbn [mbind option_bind]. rewrite <- (app_nil_r (write_message m)) at 1. by rewrite reads_message.
Qed.

(** ** What is sent

    The keys a request signs with, in order; what it makes the program do: the
    program called and the data. *)
Definition keys (r : admin_tx) : list bytes :=
  match r with
  | create_account _ snd account _ _ _ => [snd; account]
  | init_mapping _ pkey mkey _ => [pkey; mkey]
  | add_mapping _ pkey mkey akey _ | add_product _ pkey _ akey mkey => [pkey; mkey; akey]
  | add_price _ _ _ pkey _ akey skey => [pkey; skey; akey]
  | upd_product _ pkey _ akey _ _ | init_price _ _ _ pkey _ akey | set_min_pub_rpc _ _ pkey _ akey
  | add_publisher _ _ pkey _ akey | del_publisher _ _ pkey _ akey => [pkey; akey]
  end.
Definition block_hash (r : admin_tx) : bytes :=
  match r with
  | create_account h _ _ _ _ _ | init_mapping h _ _ _ | add_mapping h _ _ _ _ | add_product h _ _ _ _
  | upd_product h _ _ _ _ _ | add_price _ _ h _ _ _ _ | init_price _ _ h _ _ _ | set_min_pub_rpc _ h _ _ _
  | add_publisher _ h _ _ _ | del_publisher _ h _ _ _ => h
  end.
Definition program (r : admin_tx) : bytes :=
  match r with
  | create_account _ _ _ _ _ _ => sys_id
  | init_mapping _ _ _ g | add_mapping _ _ _ _ g | add_product _ _ g _ _ | upd_product _ _ g _ _ _
  | add_price _ _ _ _ g _ _ | init_price _ _ _ _ g _ | set_min_pub_rpc _ _ _ g _
  | add_publisher _ _ _ g _ | del_publisher _ _ _ g _ => g
  end.
(** The structures of [oracle.h], and the system program's. *)
Definition cmd (c : Z) : bytes := le_bytes 4 PC_VERSION ++ le_bytes 4 c.
Definition data (r : admin_tx) : bytes :=
  match r with
  | create_account _ _ _ owner lamports space => le_bytes 4 0 ++ le_bytes 8 (wrap 64 lamports) ++ le_bytes 8 (wrap 64 space) ++ owner
  | init_mapping _ _ _ _ => cmd 0
  | add_mapping _ _ _ _ _ => cmd 1
  | add_product _ _ _ _ _ => cmd 2
  | upd_product _ _ _ _ attrs ids => cmd 3 ++ attr_block attrs ids
  | add_price expo ptype _ _ _ _ _ => cmd 4 ++ le_bytes 4 (wrap 32 expo) ++ le_bytes 4 (wrap 32 ptype)
  | init_price expo ptype _ _ _ _ => cmd 9 ++ le_bytes 4 (wrap 32 expo) ++ le_bytes 4 (wrap 32 ptype)
  | set_min_pub_rpc min_pub _ _ _ _ => cmd 12 ++ le_bytes 1 (wrap 8 min_pub) ++ [0; 0; 0]
  | add_publisher nkey _ _ _ _ => cmd 5 ++ nkey
  | del_publisher nkey _ _ _ _ => cmd 6 ++ nkey
  end.

(** The lengths of the keys; [oracle.h]'s keys have 32 bytes. *)
Definition owner_ok (r : admin_tx) : Prop :=
  match r with
  | create_account _ _ _ owner _ _ => length owner = hash_len
  | add_publisher nkey _ _ _ _ | del_publisher nkey _ _ _ _ => length nkey = hash_len
  | _ => True
  end.
Record tx_ok (r : admin_tx) : Prop := {
  to_keys : Forall (fun kp => length kp = key_pair_len) (keys r);
  to_hash : length (block_hash r) = hash_len;
  to_program : length (program r) = hash_len;
  to_owner : owner_ok r }.

(** The message of a request. *)
Definition message_of (r : admin_tx) : tx_message :=
  let n := Z.of_nat (length (keys r)) in
  mk_tx_message n 0 1 ((get_pub_key <$> keys r) ++ [program r]) (block_hash r)
    [(n, Z.of_nat <$> seq 0 (length (keys r)), data r)].

(** The definition that writes it. *)
Definition message (r : admin_tx) : bincode -> option bincode :=
  match r with
  | create_account bhash snd account owner lamports space => message_create_account bhash snd account owner lamports space
  | init_mapping bhash pkey mkey gkey => message_init_mapping bhash pkey mkey gkey
  | add_mapping bhash pkey mkey akey gkey => message_add_mapping bhash pkey mkey akey gkey
  | add_product bhash pkey gkey akey mkey => message_add_product bhash pkey gkey akey mkey
  | upd_product bhash pkey gkey akey attrs ids => message_upd_product bhash pkey gkey akey attrs ids
  | add_price expo ptype bhash pkey gkey akey skey => message_add_price expo ptype bhash pkey gkey akey skey
  | init_price expo ptype bhash pkey gkey akey => message_init_price expo ptype bhash pkey gkey akey
  | set_min_pub_rpc min_pub bhash pkey gkey akey => message_set_min_pub min_pub bhash pkey gkey akey
  | add_publisher nkey bhash pkey gkey akey => message_add_publisher nkey bhash pkey gkey akey
  | del_publisher nkey bhash pkey gkey akey => message_del_publisher nkey bhash pkey gkey akey
  end.

Lemma writes_nil_r f s : writes f (s ++ []) -> writes f s.
Proof. by rewrite app_nil_r. Qed.

Lemma writes_eq f s s' : s = s' -> writes f s -> writes f s'.
Proof. by intros <-. Qed.

Lemma write_u8_bytes l : (l ≫= write_u8) = l.
Proof. induction l as [|x l IH]; [done|]. rewrite bind_cons, IH. done. Qed.

Definition data_size (r : admin_tx) : Z :=
  match r with
  | create_account _ _ _ _ _ _ => 52
  | init_mapping _ _ _ _ | add_mapping _ _ _ _ _ | add_product _ _ _ _ _ => 8
  | upd_product _ _ _ _ attrs ids => 8 + Z.of_nat (length (attr_block attrs ids))
  | add_price _ _ _ _ _ _ _ | init_price _ _ _ _ _ _ => 16
  | set_min_pub_rpc _ _ _ _ _ => 12
  | add_publisher _ _ _ _ _ | del_publisher _ _ _ _ _ => 40
  end.

Lemma length_data r : tx_ok r -> Z.of_nat (length (data r)) = data_size r.
Proof.
  intros [_ _ _ Ho]. destruct r; cbn [data data_size owner_ok] in *; unfold cmd;
    rewrite ?length_app, ?length_le_bytes, ?Ho; cbn [length]; unfold hash_len; lia.
Qed.

Lemma write_message_of r :
  write_message (message_of r)
  = write_u8 (Z.of_nat (length (keys r))) ++ write_u8 0 ++ write_u8 1
    ++ len_bytes (Z.of_nat (S (length (keys r)))) ++ (keys r ≫= get_pub_key) ++ program r ++ block_hash r
    ++ len_bytes 1 ++ write_u8 (Z.of_nat (length (keys r))) ++ len_bytes (Z.of_nat (length (keys r)))
    ++ (Z.of_nat <$> seq 0 (length (keys r))) ++ len_bytes (Z.of_nat (length (data r))) ++ data r.
Proof.
  unfold write_message, message_of, write_list. cbn [n_signed n_ro_signed n_ro_unsigned accounts recent instrs].
  rewrite length_app, length_fmap, bind_app, list_fmap_bind, !bind_singleton. cbn [length id].
  rewrite Nat.add_1_r. unfold write_instr, write_list. rewrite !write_u8_bytes, length_fmap, length_seq.
  by rewrite <- !app_assoc.
Qed.

(** The bytes each definition writes. *)
Lemma writes_message r : tx_ok r -> writes (message r) (write_message (message_of r)).
Proof.
  intros Hr. rewrite write_message_of, length_data by done. clear Hr.
  destruct r; cbn [message]; (eapply writes_eq;
    [|unfold message_create_account, message_init_mapping, message_add_mapping, message_add_product,
        message_upd_product, message_add_price, message_init_price, message_set_min_pub,
        message_add_publisher, message_del_publisher;
      repeat (apply writes_bind; [apply writes_bytes|]); apply writes_bytes]);
    cbn [keys program block_hash data data_size length mbind list_bind];
    unfold cmd; rewrite ?app_nil_r, <- ?app_assoc; reflexivity.
Qed.

(** *** Signing *)

Context (sign_length : forall k m, length (ed25519_sign k m) = sig_len).

Lemma sign_kp_length kp m : length (sign_kp kp m) = sig_len.
Proof. apply sign_length. Qed.

(** Signing in the bytes [g], with [b] between them and the message. *)
Lemma sign_at t size a g b m kp p q :
  wrote t size (a ++ g ++ b ++ m) -> length g = sig_len -> p = length a -> q = (length a + sig_len + length b)%nat ->
  exists t', sign sign_kp p q kp t = Some t' /\ wrote t' size (a ++ sign_kp kp m ++ b ++ m)
    /\ slice p sig_len (bbuf t') = sign_kp kp m.
Proof.
  intros W Hg -> ->. replace (length a + sig_len + length b)%nat with (length (a ++ g ++ b))
    by (rewrite !length_app, Hg; lia).
  apply (sign_gap sign_kp t size a g b m kp); auto using sign_kp_length.
Qed.

Lemma reserve_two t size c :
  wrote t size c -> (length c + 128 <= size)%nat ->
  exists g1 g2, length g1 = sig_len /\ length g2 = sig_len /\ idx_ t = length c
    /\ wrote (mk_bincode (bbuf t) (idx_ t + sig_len + sig_len)) size (c ++ g1 ++ g2).
Proof.
  intros H Hs. destruct (reserve_wrote t size c H) as (g1 & H1 & Hi & W1); [unfold sig_len; lia|].
  destruct (reserve_wrote _ size _ W1) as (g2 & H2 & _ & W2); [rewrite length_app, H1; unfold sig_len; lia|].
  exists g1, g2. rewrite <- app_assoc in W2. split_and!; done.
Qed.

Lemma signed_two k1 k2 msg m t size :
  wrote t size [] -> writes msg m -> (129 + length m <= size)%nat ->
  exists t', signed_by_two k1 k2 msg t = Some (t', sign_kp k1 m)
    /\ wrote t' size (len_bytes 2 ++ sign_kp k1 m ++ sign_kp k2 m ++ m).
Proof.
  intros W Hm Hs. unfold signed_by_two.
  destruct (add_bytes_wrote t size [] (len_bytes 2) W) as (t1 & E1 & W1); [cbn; lia|]. cbn [app] in W1.
  unfold add_len. rewrite E1. cbn [mbind option_bind reserve_sign get_pos idx_ bbuf].
  destruct (reserve_two t1 size _ W1) as (g1 & g2 & H1 & H2 & Hi & W2); [cbn; lia|].
  destruct (Hm _ size _ W2) as (t2 & E2 & W3); [rewrite !length_app, H1, H2; cbn; unfold sig_len; lia|].
  rewrite E2. cbn [mbind option_bind]. rewrite <- !app_assoc in W3.
  destruct (sign_at t2 size (len_bytes 2) g1 g2 m k1 (idx_ t1) (idx_ t1 + sig_len + sig_len) W3) as (t3 & E3 & W4 & S1);
    [done | done | by rewrite Hi, H2 |].
  rewrite E3. cbn [mbind option_bind]. rewrite S1.
  destruct (sign_at t3 size (len_bytes 2 ++ sign_kp k1 m) g2 [] m k2 (idx_ t1 + sig_len) (idx_ t1 + sig_len + sig_len))
    as (t4 & -> & W5 & _); [by rewrite <- app_assoc | done | rewrite length_app, sign_kp_length; lia
      | rewrite length_app, sign_kp_length, Hi; cbn [length]; lia |].
  exists t4. cbn [mbind option_bind]. by rewrite <- app_assoc in W5.
Qed.

Lemma signed_three k1 k2 k3 msg m t size :
  wrote t size [] -> writes msg m -> (193 + length m <= size)%nat ->
  exists t', signed_by_three k1 k2 k3 msg t = Some (t', sign_kp k1 m)
    /\ wrote t' size (len_bytes 3 ++ sign_kp k1 m ++ sign_kp k2 m ++ sign_kp k3 m ++ m).
Proof.
  intros W Hm Hs. unfold signed_by_three.
  destruct (add_bytes_wrote t size [] (len_bytes 3) W) as (t1 & E1 & W1); [cbn; lia|]. cbn [app] in W1.
  unfold add_len. rewrite E1. cbn [mbind option_bind reserve_sign get_pos idx_ bbuf].
  destruct (reserve_two t1 size _ W1) as (g1 & g2 & H1 & H2 & Hi & W2); [cbn; lia|].
  destruct (reserve_wrote _ size _ W2) as (g3 & H3 & _ & W3); [rewrite !length_app, H1, H2; cbn; unfold sig_len; lia|].
  cbn [bbuf idx_] in W3. destruct (Hm _ size _ W3) as (t2 & E2 & W4); [rewrite !length_app, H1, H2, H3; cbn; unfold sig_len; lia|].
  rewrite E2. cbn [mbind option_bind]. rewrite <- !app_assoc in W4.
  remember (idx_ t1) as p eqn:Ep. remember (p + sig_len + sig_len + sig_len)%nat as q eqn:Eq.
  destruct (sign_at t2 size (len_bytes 3) g1 (g2 ++ g3) m k1 p q) as (t3 & E3 & W5 & S1);
    [by rewrite <- app_assoc | done | done | rewrite length_app, H2, H3; lia |].
  rewrite E3. cbn [mbind option_bind]. rewrite S1.
  destruct (sign_at t3 size (len_bytes 3 ++ sign_kp k1 m) g2 g3 m k2 (p + sig_len) q) as (t4 & E4 & W6 & _);
    [by rewrite <- !app_assoc in * | done | rewrite length_app, sign_kp_length; lia
      | rewrite length_app, sign_kp_length, H3; lia |].
  rewrite E4. cbn [mbind option_bind].
  destruct (sign_at t4 size (len_bytes 3 ++ sign_kp k1 m ++ sign_kp k2 m) g3 [] m k3 (p + sig_len + sig_len) q)
    as (t5 & -> & W7 & _); [by rewrite <- !app_assoc in * | done | rewrite !length_app, !sign_kp_length; lia
      | rewrite !length_app, !sign_kp_length; cbn [length]; lia |].
  exists t5. cbn [mbind option_bind]. by rewrite <- !app_assoc in W7.
Qed.

(** The transaction of a request. *)
Definition msg_bytes (r : admin_tx) : bytes := write_message (message_of r).
Definition sigs_of (r : admin_tx) : list bytes := (fun kp => sign_kp kp (msg_bytes r)) <$> keys r.
Definition tx_of (r : admin_tx) : bytes := write_tx (sigs_of r) (message_of r).
Definition first_sig (r : admin_tx) : bytes := default [] (head (sigs_of r)).

(** How much it takes. *)
Definition tx_size_of (r : admin_tx) : Z :=
  72 + 97 * Z.of_nat (length (keys r)) + (if data_size r <? 128 then 1 else 2) + data_size r.

Lemma length_len_bytes n : length (len_bytes n) = if n <? 128 then 1%nat else 2%nat.
Proof. unfold len_bytes. by destruct (n <? 128). Qed.

Lemma length_concat_same {A} (f : A -> bytes) k l : Forall (fun x => length (f x) = k) l -> length (l ≫= f) = (k * length l)%nat.
Proof. induction 1 as [|x l Hx _ IH]; [cbn; lia|]. rewrite bind_cons, length_app, Hx, IH. cbn [length]. lia. Qed.

Lemma length_keys r : length (keys r) = 2%nat \/ length (keys r) = 3%nat.
Proof. destruct r; auto. Qed.

Lemma keys_pub r : tx_ok r -> Forall (fun kp => length (get_pub_key kp) = hash_len) (keys r).
Proof.
  intros [H _ _ _]. eapply Forall_impl; [exact H|]. intros kp Hk. cbn in *.
  unfold get_pub_key, init_from_buf. rewrite length_take, length_drop, Hk. done.
Qed.

(** Whether a small length takes one byte. *)
Ltac small_lengths := repeat match goal with
  | |- context [?z <? 128] => let b := eval vm_compute in (z <? 128) in
      lazymatch b with true => change (z <? 128) with true; cbv iota end
  end.

Lemma length_tx r : tx_ok r -> Z.of_nat (length (tx_of r)) = tx_size_of r
  /\ Z.of_nat (length (msg_bytes r)) = tx_size_of r - 1 - 64 * Z.of_nat (length (keys r)).
Proof.
  intros Hr. assert (Z.of_nat (length (msg_bytes r)) = tx_size_of r - 1 - 64 * Z.of_nat (length (keys r))) as Hm.
  { unfold msg_bytes, tx_size_of. rewrite write_message_of, !length_app, !length_len_bytes.
    rewrite (length_concat_same _ hash_len) by (by apply keys_pub). rewrite length_fmap, length_seq.
    rewrite (to_hash r Hr), (to_program r Hr). pose proof (length_data r Hr) as Hd. rewrite Hd. unfold hash_len. destruct (length_keys r) as [-> | ->];
      cbn [length write_u8]; small_lengths; destruct (data_size r <? 128); lia. }
  split; [|done]. unfold tx_of, write_tx. fold (msg_bytes r). rewrite length_app. unfold write_list, sigs_of.
  rewrite length_app, length_len_bytes, list_fmap_bind, length_fmap.
  rewrite (length_concat_same _ sig_len) by (apply Forall_true; intros; apply sign_kp_length).
  unfold sig_len. destruct (length_keys r) as [Hk|Hk]; rewrite Hk in *; small_lengths; lia.
Qed.

Lemma build_keys r :
  build r = match keys r with
            | [k1; k2] => signed_by_two k1 k2 (message r)
            | [k1; k2; k3] => signed_by_three k1 k2 k3 (message r)
            | _ => fun _ => None
            end.
Proof. by destruct r. Qed.

(** What is written, when there is room. *)
Lemma build_wrote r t size :
  tx_ok r -> wrote t size [] -> tx_size_of r <= Z.of_nat size ->
  exists t', build r t = Some (t', first_sig r) /\ wrote t' size (tx_of r).
Proof.
  intros Hr W Hs. pose proof (writes_message r Hr) as Hm. fold (msg_bytes r) in Hm.
  destruct (length_tx r Hr) as [_ Hl]. rewrite build_keys. unfold first_sig, tx_of, write_tx, sigs_of, write_list.
  fold (msg_bytes r). destruct (length_keys r) as [Hk|Hk]; destruct (keys r) as [|k1 [|k2 [|k3 [|]]]]; try done.
  - destruct (signed_two k1 k2 _ _ t size W Hm) as (t' & E & W'); [cbn [length] in Hl; lia|]. exists t'. split; [done|].
    cbn [fmap list_fmap mbind list_bind id length]. rewrite <- !app_assoc. exact W'.
  - destruct (signed_three k1 k2 k3 _ _ t size W Hm) as (t' & E & W'); [cbn [length] in Hl; lia|]. exists t'. split; [done|].
    cbn [fmap list_fmap mbind list_bind id length]. rewrite <- !app_assoc. exact W'.
Qed.

Lemma parse_tx_of r : tx_ok r -> data_size r < 16384 -> parse_tx (tx_of r) = Some (sigs_of r, msg_bytes r, message_of r).
Proof.
  intros Hr Hd. apply parse_write_tx.
  - unfold sigs_of. rewrite Forall_fmap. apply Forall_true. intros k. apply sign_kp_length.
  - unfold sigs_of. rewrite length_fmap. destruct (length_keys r) as [-> | ->]; done.
  - split; cbn [accounts recent instrs message_of].
    + apply Forall_app. split; [rewrite Forall_fmap; by apply keys_pub|]. constructor; [apply Hr|done].
    + rewrite length_app, length_fmap. destruct (length_keys r) as [-> | ->]; done.
    + apply Hr.
    + constructor; [|done]. split; cbn [fst snd].
      * rewrite length_fmap, length_seq. destruct (length_keys r) as [-> | ->]; done.
      * by rewrite length_data.
    + done.
Qed.

(** The instruction, with its accounts: every signer may be written. *)
Lemma resolve_message_of r :
  mapM (resolve (message_of r)) (instrs (message_of r))
  = Some [(program r, (fun kp => mk_meta (get_pub_key kp) true true) <$> keys r, data r)].
Proof.
  unfold message_of. cbn [instrs]. unfold resolve.
  destruct (length_keys r) as [Hk|Hk]; destruct (keys r) as [|k1 [|k2 [|k3 [|]]]]; try done.
Qed.

(** The call that carries a transaction. *)
Definition call_of (id : Z) (tx : bytes) : json :=
  j_obj [(bs "jsonrpc", j_str (bs "2.0")); (bs "id", j_uint id); (bs "method", j_str (bs "sendTransaction"));
         (bs "params", j_arr [j_str (enc_base64 tx); j_obj [(bs "encoding", j_str (bs "base64"))]])].

Lemma send_transaction_text id tx : Z.of_nat (length tx) <= 951 ->
  (w ← send_transaction tx (RpcClient.open_call id); w ← pop w; Some (out w)) = Some (text (call_of id tx)).
Proof.
  intros Hl. unfold send_transaction. rewrite RpcClient.open_call_out. outs.
  unfold add_val_enc_base64, add_enc_base64. rewrite enc_base64_len_block by lia.
  destruct (Z.ltb_spec 951 (Z.of_nat (length tx))); [lia|].
  unfold add_first, add. cbn [out first_ st_]. outs. f_equal. cbn [out]. unfold call_of. pieces.
  change (text (j_str (enc_base64 tx))) with (quote ++ enc_base64 tx ++ quote). by rewrite <- !app_assoc.
Qed.

(** The call can be written. *)
Lemma request_result block r id :
  tx_ok r -> length block = Z.to_nat buf_max -> tx_size_of r <= 951 ->
  exists w, request block r (RpcClient.open_call id) = Some (w, first_sig r)
    /\ (w ← pop w; Some (out w)) = Some (text (call_of id (tx_of r))).
Proof.
  intros Hr Hb Hs.
  assert (wrote (attach block) (Z.to_nat buf_max) []) as W by (split; try done; unfold attach; cbn [length]; lia).
  destruct (build_wrote r (attach block) _ Hr W) as (t & E & [Hi _ _ Hd]);
    [change (Z.to_nat buf_max) with 1270%nat; lia|].
  destruct (length_tx r Hr) as [Hl _]. unfold request. rewrite E. cbn [mbind option_bind]. rewrite Hi, Hd.
  pose proof (send_transaction_text id (tx_of r) ltac:(lia)) as Ht.
  destruct (send_transaction (tx_of r) (RpcClient.open_call id)) as [w|]; [|done]. by exists w.
Qed.

(** The signature kept is 64 bytes of the block. *)
Lemma request_sig_length block r w w' sig : request block r w = Some (w', sig) -> (length sig <= sig_len)%nat.
Proof.
  unfold request. destruct (build r (attach block)) as [[t s]|] eqn:E; [|done]. cbn [mbind option_bind].
  destruct (send_transaction _ w); [|done]. cbn [mbind option_bind]. intros [=]; subst. revert E. rewrite build_keys.
  assert (forall i (b : bytes), length (slice i sig_len b) <= sig_len)%nat as Hsl
    by (intros i b; unfold slice; rewrite length_take; lia).
  destruct (keys r) as [|k1 [|k2 [|k3 [|]]]]; try done; unfold signed_by_two, signed_by_three;
    repeat (match goal with |- context [mbind _ ?x] => destruct x as [?|]; [|done]; cbn [mbind option_bind reserve_sign] end);
    intros [=]; subst; apply Hsl.
Qed.

(** (C12) An administration request is sent as one JSON-RPC call whose transaction,
    in base64, reads as: signatures by exactly the request's key pairs, the
    payer first, of exactly the message that follows; and in it one call of the
    right program, with the command's data, every signing account marked as
    signing and writable, under the block hash that was set. *)
Theorem transaction_sent block r id :
  tx_ok r -> length block = Z.to_nat buf_max -> tx_size_of r <= 951 ->
  exists sig tx msg m,
    ('(w, sig) ← request block r (RpcClient.open_call id); w ← pop w; Some (out w, sig)) = Some (text (call_of id tx), sig)
    /\ Z.of_nat (length tx) = tx_size_of r
    /\ parse_tx tx = Some ((fun kp => sign_kp kp msg) <$> keys r, msg, m)
    /\ Some sig = head ((fun kp => sign_kp kp msg) <$> keys r)
    /\ take (Z.to_nat (n_signed m)) (accounts m) = get_pub_key <$> keys r
    /\ recent m = block_hash r
    /\ mapM (resolve m) (instrs m)
       = Some [(program r, (fun kp => mk_meta (get_pub_key kp) true true) <$> keys r, data r)].
Proof.
  intros Hr Hb Hs. exists (first_sig r), (tx_of r), (msg_bytes r), (message_of r).
  destruct (length_tx r Hr) as [Hl _]. destruct (request_result block r id Hr Hb Hs) as (w & E & Ht). split_and!.
  - rewrite E. cbn [mbind option_bind] in *. destruct (pop w) as [w'|]; [|done]. cbn in *. congruence.
  - done.
  - apply parse_tx_of; [done|]. unfold tx_size_of in Hs. destruct (data_size r <? 128); lia.
  - unfold first_sig, sigs_of, msg_bytes. destruct (length_keys r) as [Hk|Hk]; by destruct (keys r).
  - unfold message_of. cbn [n_signed accounts]. rewrite Nat2Z.id. apply take_app_length'. by rewrite length_fmap.
  - done.
  - apply resolve_message_of.
Qed.

(** A product's attributes can be sent when their text has at most 675 bytes;
    a longer one, up to the 994 for which the block has room, asks the encoder
    for more than a block, and it writes through a null pointer. *)
Theorem attributes_fit block bhash pkey gkey akey attrs ids id :
  let r := upd_product bhash pkey gkey akey attrs ids in
  tx_ok r -> length block = Z.to_nat buf_max -> (length (AttrDict.write_account attrs ids) <= 994)%nat ->
  is_Some (request block r (RpcClient.open_call id)) <-> (length (AttrDict.write_account attrs ids) <= 675)%nat.
Proof.
  intros r Hr Hb Hs.
  assert (wrote (attach block) (Z.to_nat buf_max) []) as W by (split; try done; unfold attach; cbn [length]; lia).
  assert (Z.of_nat (length (attr_block attrs ids)) = Z.of_nat (length (AttrDict.write_account attrs ids))) as Ha
    by (unfold attr_block; rewrite take_ge by (change (Z.to_nat buf_max) with 1270%nat; lia); done).
  assert (tx_size_of r = 274 + (if 8 + Z.of_nat (length (AttrDict.write_account attrs ids)) <? 128 then 1 else 2)
            + Z.of_nat (length (AttrDict.write_account attrs ids))) as Hz.
  { unfold tx_size_of, r. cbn [keys length data_size]. rewrite Ha. lia. }
  destruct (build_wrote r (attach block) _ Hr W) as (t & E & [Hi _ _ Hd]);
    [change (Z.of_nat (Z.to_nat buf_max)) with 1270; destruct (_ <? 128); lia|].
  destruct (length_tx r Hr) as [Hl _]. unfold request. rewrite E. cbn [mbind option_bind]. rewrite Hi, Hd.
  unfold send_transaction, add_val_enc_base64, add_enc_base64. rewrite enc_base64_len_block, Hl by lia.
  rewrite RpcClient.open_call_out. outs. unfold add_first. cbn [out first_ st_]. 
  destruct (Z.ltb_spec 951 (tx_size_of r)); cbn [mbind option_bind].
  - split; [by intros [? [=]]|]. destruct (_ <? 128) eqn:?; lia.
  - unfold add. cbn [out first_ st_]. outs. split; [|by eexists]. intros _.
    destruct (Z.ltb_spec (8 + Z.of_nat (length (AttrDict.write_account attrs ids))) 128); lia.
Qed.
End admin.

(** ** Witnesses *)

Definition test_sign (k m : bytes) : bytes := replicate 64 (default 0 (head k)).
Definition test_kp (k : Z) : bytes := replicate 64 k.
Definition test_key (k : Z) : bytes := replicate 32 k.

Definition test_price : admin_tx := add_price (-5) 1 (test_key 9) (test_kp 1) (test_key 2) (test_kp 3) (test_kp 4).

Lemma transaction_sent_witness :
  exists sig tx msg m,
    ('(w, sig) ← request test_sign zero_block test_price (RpcClient.open_call 7); w ← pop w; Some (out w, sig))
      = Some (text (call_of 7 tx), sig)
    /\ Z.of_nat (length tx) = 380
    /\ parse_tx tx = Some ([replicate 64 1; replicate 64 4; replicate 64 3], msg, m)
    /\ Some sig = Some (replicate 64 1)
    /\ take (Z.to_nat (n_signed m)) (accounts m) = [test_key 1; test_key 4; test_key 3]
    /\ recent m = test_key 9
    /\ mapM (resolve m) (instrs m)
       = Some [(test_key 2, [mk_meta (test_key 1) true true; mk_meta (test_key 4) true true; mk_meta (test_key 3) true true],
                le_bytes 4 2 ++ le_bytes 4 4 ++ le_bytes 4 (2 ^ 32 - 5) ++ le_bytes 4 1)].
Proof.
  apply (transaction_sent test_sign (fun _ _ => eq_refl) zero_block test_price 7);
    [split; [by_decide | done | done | done] | by_decide | by_decide].
Defined.

Definition name_attrs : AttrDict.attr_dict := AttrDict.add_ref 1 (bs "Crypto.BTC/USD") AttrDict.clear.
Definition name_ids : AttrDict.attr_id_set := AttrDict.mk_attr_id_set {[ bs "symbol" := 1 ]} [[]; bs "symbol"] 1.

Lemma attributes_fit_witness :
  is_Some (request test_sign zero_block (upd_product (test_key 9) (test_kp 1) (test_key 2) (test_kp 3) name_attrs name_ids)
             (RpcClient.open_call 7))
  <-> (length (AttrDict.write_account name_attrs name_ids) <= 675)%nat.
Proof.
  apply (attributes_fit test_sign (fun _ _ => eq_refl) zero_block);
    [split; [by_decide | done | done | done] | by_decide | by_decide].
Defined.
