(* ===== verification/Publish.v ===== *)
(** * Publishing price updates ([price] of [pc/request.cpp], [manager] of [pc/manager.cpp])

    Part of the state of the managers and price objects: what publishing reads
    and writes.  The requests are those of the manager's RPC client, the
    transactions those of [Bincode].  Messages to the transaction proxy and the
    callbacks of a price's subscribers are recorded in order. *)

From S2P Require Bincode PubStats.
From S2P Require Import Prelude KeyPair RpcClient.

(** ** State *)

Definition PC_PYTH_RPC_CONNECTED : Z := 1.
Definition PC_PYTH_HAS_BLOCK_HASH : Z := 2.
Definition PC_PYTH_HAS_MAPPING : Z := 4.
Definition PC_FLUSH_INTERVAL : Z := 400000000.

Inductive price_state := e_subscribe | e_sent_subscribe | e_publish | e_error.
#[export] Instance price_state_eq_dec : EqDecision price_state.
Proof. solve_decision. Defined.

(** [( unsigned )-1]: not a publisher. *)
Definition no_pub : Z := 2 ^ 32 - 1.

Record price := mk_price {
  mgr_ : ptr; preq_ : ptr; init_ : bool; st_ : price_state; pub_idx_ : Z;
  last_slot_ : Z; tvec_ : list (bytes * Z); stats_ : PubStats.pub_stats; perr_ : option bytes }.

Section publish.
Context {key_cache : Type} (ed25519_sign : key_cache -> bytes -> bytes).
Context {app_t : Type} (clock random : nat -> Z) (host : bytes).
(** The names of the key files, for messages. *)
Context (key_pair_file program_file : bytes).

Record manager := mk_manager {
  rpc_ : world (key_cache := key_cache) (app_t := app_t); tx_out : list bytes; status_ : Z; do_tx_ : bool;
  tx_conn : bool; mslot_ : Z; max_batch_ : Z; cu_units_ : Z; cu_price_ : Z; block_hash : bytes;
  pkey_pair : option (bytes * key_cache); gpub_ : option bytes;
  pending_upds_ : list ptr; last_upd_ts_ : Z }.

Record pub_world := mk_pub_world {
  mgrs : gmap ptr manager; prices : gmap ptr price; batches : list (list ptr); calls : list ptr }.

Definition set_rpc (r : world) (m : manager) : manager :=
  mk_manager r (tx_out m) (status_ m) (do_tx_ m) (tx_conn m) (mslot_ m) (max_batch_ m) (cu_units_ m)
    (cu_price_ m) (block_hash m) (pkey_pair m) (gpub_ m) (pending_upds_ m) (last_upd_ts_ m).
(** [manager::submit( net_wtr& )]. *)
Definition submit_tx (msg : bytes) (m : manager) : manager :=
  mk_manager (rpc_ m) (tx_out m ++ [msg]) (status_ m) (do_tx_ m) (tx_conn m) (mslot_ m) (max_batch_ m)
    (cu_units_ m) (cu_price_ m) (block_hash m) (pkey_pair m) (gpub_ m) (pending_upds_ m) (last_upd_ts_ m).
Definition set_pending (l : list ptr) (ts : Z) (m : manager) : manager :=
  mk_manager (rpc_ m) (tx_out m) (status_ m) (do_tx_ m) (tx_conn m) (mslot_ m) (max_batch_ m) (cu_units_ m)
    (cu_price_ m) (block_hash m) (pkey_pair m) (gpub_ m) l ts.

Definition has_status (status : Z) (m : manager) : bool := status =? Z.land (status_ m) status.

Definition set_init (pr : price) : price :=
  mk_price (mgr_ pr) (preq_ pr) true (st_ pr) (pub_idx_ pr) (last_slot_ pr) (tvec_ pr) (stats_ pr) (perr_ pr).
Definition set_last_attempted_update_slot (slot : Z) (pr : price) : price :=
  mk_price (mgr_ pr) (preq_ pr) (init_ pr) (st_ pr) (pub_idx_ pr) slot (tvec_ pr) (stats_ pr) (perr_ pr).
Definition set_tvec (t : list (bytes * Z)) (pr : price) : price :=
  mk_price (mgr_ pr) (preq_ pr) (init_ pr) (st_ pr) (pub_idx_ pr) (last_slot_ pr) t (stats_ pr) (perr_ pr).
Definition inc_sent (pr : price) : price :=
  mk_price (mgr_ pr) (preq_ pr) (init_ pr) (st_ pr) (pub_idx_ pr) (last_slot_ pr) (tvec_ pr)
    (PubStats.inc_sent (stats_ pr)) (perr_ pr).
Definition set_perr (e : bytes) (pr : price) : price :=
  mk_price (mgr_ pr) (preq_ pr) (init_ pr) (st_ pr) (pub_idx_ pr) (last_slot_ pr) (tvec_ pr) (stats_ pr) (Some e).

Definition upd_price_at (p : ptr) (f : price -> price) (w : pub_world) : option pub_world :=
  pr ← prices w !! p;
  Some (mk_pub_world (mgrs w) (<[p := f pr]> (prices w)) (batches w) (calls w)).
Definition upd_mgr_at (g : ptr) (f : manager -> option manager) (w : pub_world) : option pub_world :=
  m ← mgrs w !! g;
  m ← f m;
  Some (mk_pub_world (<[g := m]> (mgrs w)) (prices w) (batches w) (calls w)).
Definition get_mgr (p : ptr) (w : pub_world) : option (price * manager) :=
  pr ← prices w !! p; m ← mgrs w !! mgr_ pr; Some (pr, m).

(** The parameters of a price's update request. *)
Definition upd_params (q : ptr) (f : Bincode.upd_price -> Bincode.upd_price) (m : manager) : option manager :=
  r ← upd q (fun r => set_body (match body_ r with
                                | upd_price u sig ack => upd_price (f u) sig ack
                                | b => b
                                end) r) (rpc_ m);
  Some (set_rpc r m).

(** ** Conditions *)

Definition on_error_sub (p : ptr) (msg : bytes) (w : pub_world) : option pub_world :=
  w ← upd_price_at p (set_perr msg) w;
  Some (mk_pub_world (mgrs w) (prices w) (batches w) (calls w ++ [p])).

Definition init_publish (p : ptr) (w : pub_world) : option (bool * pub_world) :=
  '(pr, m) ← get_mgr p w;
  match pkey_pair m with
  | None =>
      w ← on_error_sub p (bs "missing or invalid publish key [" ++ key_pair_file ++ bs "]") w;
      Some (false, w)
  | Some (pk, kc) =>
      match gpub_ m with
      | None =>
          w ← on_error_sub p (bs "missing or invalid program public key [" ++ program_file ++ bs "]") w;
          Some (false, w)
      | Some g =>
          w ← upd_mgr_at (mgr_ pr)
                (upd_params (preq_ pr) (fun u => Bincode.set_program g (Bincode.set_pubcache kc
                                                   (Bincode.set_publish pk u)))) w;
          w ← upd_price_at p set_init w;
          Some (true, w)
      end
  end.

Definition has_publisher (pr : price) : bool := negb (pub_idx_ pr =? no_pub).
Definition get_is_ready_publish (pr : price) (m : manager) : bool :=
  bool_decide (st_ pr = e_publish) &&
  (if do_tx_ m then tx_conn m else has_status (Z.lor PC_PYTH_RPC_CONNECTED PC_PYTH_HAS_BLOCK_HASH) m).

(** The guards [update] and [send] share; [init_publish] runs when needed. *)
Definition guards (p : ptr) (w : pub_world) : option (bool * pub_world) :=
  pr ← prices w !! p;
  '(ok, w) ← (if init_ pr then Some (true, w) else init_publish p w);
  if negb ok then Some (false, w) else
  '(pr, m) ← get_mgr p w;
  Some (has_publisher pr && get_is_ready_publish pr m, w).

(** ** Sending one update *)

(** The signature and send time kept in a request. *)
Definition sig_of (q : ptr) (m : manager) : option (bytes * Z) :=
  r ← heap (rpc_ m) !! q;
  match body_ r with
  | upd_price _ sig _ => Some (sig_to_text sig, sent_ts_ r)
  | _ => None
  end.

(** An unacknowledged transaction is added; at 100 the oldest 50 are given up. *)
Definition max_unacked : nat := 100.
Definition trim (t : list (bytes * Z)) : list (bytes * Z) :=
  if bool_decide (max_unacked <= length t)%nat then drop 50 t else t.

Definition all_upds (qs : list ptr) (m : manager) : option (list Bincode.upd_price) :=
  mapM (upd_of (rpc_ m)) qs.

(** [upd_price::build] and [manager::submit]: the signature is kept by the first
    request. *)
Definition send_tx (qs : list ptr) (cu_units cu_price : Z) (m : manager) : option manager :=
  us ← all_upds qs m;
  r ← Bincode.build ed25519_sign us cu_units cu_price;
  match r, qs with
  | Some (msg, sig), q :: _ =>
      r ← upd q (fun r => set_body (set_sig sig (body_ r)) r) (rpc_ m);
      Some (submit_tx msg (set_rpc r m))
  | _, _ => Some m
  end.

(** [update( price, conf, st, is_agg )]. *)
Definition update (px conf st : Z) (is_agg : bool) (p : ptr) (w : pub_world) : option (bool * pub_world) :=
  '(ok, w) ← guards p w;
  if negb (ok : bool) then Some (false, w) else
  '(pr, m) ← get_mgr p w;
  let q := preq_ pr in
  let g := mgr_ pr in
  w ← upd_mgr_at g (upd_params q (fun u => Bincode.set_block_hash (block_hash m)
                     (Bincode.set_slot (mslot_ m) (Bincode.set_price px conf st is_agg u)))) w;
  w ← (if do_tx_ m then upd_mgr_at g (send_tx [q] 0 0) w
       else
         w ← upd_mgr_at g (fun m => r ← RpcClient.send ed25519_sign clock random host q (rpc_ m);
                                    Some (set_rpc r m)) w;
         m ← mgrs w !! g;
         s ← sig_of q m;
         upd_price_at p (fun pr => set_tvec (trim (tvec_ pr ++ [s])) pr) w);
  w ← upd_price_at p inc_sent w;
  Some (true, w).

(** [update_no_send]. *)
Definition update_no_send (px conf st : Z) (is_agg : bool) (p : ptr) (w : pub_world) : option pub_world :=
  '(pr, m) ← get_mgr p w;
  upd_mgr_at (mgr_ pr) (upd_params (preq_ pr) (fun u =>
    Bincode.set_price px conf st is_agg (Bincode.set_slot (mslot_ m) u))) w.

(** ** Sending batches *)

Fixpoint upd_prices_at (ps : list ptr) (f : price -> price) (w : pub_world) : option pub_world :=
  match ps with
  | [] => Some w
  | p :: ps' => w ← upd_price_at p f w; upd_prices_at ps' f w
  end.

(** A full or final batch of the requests [qs]: [p] is the last price added,
    [covered] the prices from the last batch to it.  The proxy gets the compute
    units also as their price. *)
Definition flush (p : ptr) (qs covered : list ptr) (w : pub_world) : option pub_world :=
  '(pr, m) ← get_mgr p w;
  let g := mgr_ pr in
  w ← (if do_tx_ m then upd_mgr_at g (send_tx qs (cu_units_ m) (cu_units_ m)) w
       else
         w ← upd_mgr_at g (fun m =>
               r ← send_batch ed25519_sign clock random host qs (cu_units_ m) (cu_price_ m) (rpc_ m);
               Some (set_rpc r m)) w;
         m ← mgrs w !! g;
         s ← sig_of (preq_ pr) m;
         w ← upd_price_at p (fun pr => set_tvec (tvec_ pr ++ [s]) pr) w;
         upd_prices_at covered (fun pr => set_tvec (trim (tvec_ pr)) pr) w);
  w ← upd_prices_at covered inc_sent w;
  Some (mk_pub_world (mgrs w) (prices w) (batches w ++ [qs]) (calls w)).

(** The loop of [price::send] at index [i] of [all]; [j] is the first price of
    the batch [qs], [mgr1] the first manager. *)
Fixpoint send_loop (all : list ptr) (i j : nat) (mgr1 : option ptr) (qs rest : list ptr) (w : pub_world)
  : option pub_world :=
  match rest with
  | [] => Some w
  | p :: rest' =>
      '(_, m) ← get_mgr p w;
      w ← upd_price_at p (set_last_attempted_update_slot (mslot_ m)) w;
      '(ok, w) ← guards p w;
      '(pr, m) ← get_mgr p w;
      let g1 := default (mgr_ pr) mgr1 in
      if (ok : bool) && bool_decide (mgr_ pr = g1) then
        w ← upd_mgr_at (mgr_ pr) (upd_params (preq_ pr) (Bincode.set_block_hash (block_hash m))) w;
        let qs := qs ++ [preq_ pr] in
        if (max_batch_ m <=? Z.of_nat (length qs)) || bool_decide (S i = length all) then
          w ← flush p qs (slice j (S i - j) all) w;
          send_loop all (S i) (S i) (Some g1) [] rest' w
        else send_loop all (S i) j (Some g1) qs rest' w
      else send_loop all (S i) j (if (ok : bool) then Some g1 else mgr1) qs rest' w
  end.
Definition send (all : list ptr) (w : pub_world) : option pub_world :=
  send_loop all 0 0 None [] all w.

(** ** The manager's buffer of updates *)

(** [manager::add_dirty_price]. *)
Definition add_dirty_price (p g : ptr) (w : pub_world) : option pub_world :=
  pr ← prices w !! p;
  upd_mgr_at g (fun m =>
    if last_slot_ pr =? mslot_ m then Some m
    else if bool_decide (p ∈ pending_upds_ m) then Some m
    else Some (set_pending (pending_upds_ m ++ [p]) (last_upd_ts_ m) m)) w.

(** [manager::send_pending_ups] at time [curr_ts]. *)
Definition n_to_send (curr_ts : Z) (m : manager) : nat :=
  if PC_FLUSH_INTERVAL <? curr_ts - last_upd_ts_ m then length (pending_upds_ m)
  else if max_batch_ m <=? Z.of_nat (length (pending_upds_ m)) then Z.to_nat (max_batch_ m)
  else O.
Definition send_pending_ups (g : ptr) (curr_ts : Z) (w : pub_world) : option pub_world :=
  m ← mgrs w !! g;
  let n := n_to_send curr_ts m in
  if bool_decide (n = 0%nat) then Some w else
  w ← send (take n (pending_upds_ m)) w;
  upd_mgr_at g (fun m => Some (set_pending (drop n (pending_upds_ m)) curr_ts m)) w.

(** ** Acknowledgements *)

(** [find_if] and [erase]. *)
Fixpoint remove_tx (txid : bytes) (t : list (bytes * Z)) : list (bytes * Z) :=
  match t with
  | [] => []
  | x :: t' => if decide (x.1 = txid) then t' else x :: remove_tx txid t'
  end.
(** [price::on_response( rpc::upd_price * )]. *)
Definition on_ack (txid : bytes) (p : ptr) (w : pub_world) : option pub_world :=
  upd_price_at p (fun pr => set_tvec (remove_tx txid (tvec_ pr)) pr) w.
Definition has_unacked_updates (pr : price) : bool := negb (bool_decide (tvec_ pr = [])).

(** ** What publishing leaves alone *)

(** The facts the guards and the batching depend on. *)
Record core := mk_core {
  c_mgr : ptr; c_req : ptr; c_keys : bool; c_ready : bool; c_max : Z }.
Definition c_ok (c : core) : bool := c_keys c && c_ready c.
Definition keys_present (m : manager) : bool :=
  match pkey_pair m, gpub_ m with Some _, Some _ => true | _, _ => false end.
Definition core_of (pr : price) (m : manager) : core :=
  mk_core (mgr_ pr) (preq_ pr)
    (init_ pr || keys_present m) (has_publisher pr && get_is_ready_publish pr m) (max_batch_ m).
Definition core_at (w : pub_world) (p : ptr) : option core :=
  '(pr, m) ← get_mgr p w; Some (core_of pr m).

(** The price was tried in the current slot of its manager. *)
Definition attempted (w : pub_world) (p : ptr) : Prop :=
  exists pr m, get_mgr p w = Some (pr, m) /\ last_slot_ pr = mslot_ m.
Definition pending (w : pub_world) (g : ptr) : option (list ptr) := pending_upds_ <$> mgrs w !! g.

(** Same cores, same buffers; the prices tried stay so. *)
Record same_core (w w' : pub_world) : Prop := {
  sc_core p : core_at w' p = core_at w p;
  sc_pending g : pending w' g = pending w g;
  sc_attempted p : attempted w p -> attempted w' p }.
#[local] Instance same_core_preorder : PreOrder same_core.
Proof.
  split; [by intros w|]. intros w1 w2 w3 [A1 B1 C1] [A2 B2 C2]. split; [congruence | congruence | auto].
Qed.
(** And the same batches so far. *)
Record kept (w w' : pub_world) : Prop := {
  kp_same : same_core w w';
  kp_batches : batches w' = batches w }.
#[local] Instance kept_preorder : PreOrder kept.
Proof. split; [by intros w | intros w1 w2 w3 [A1 B1] [A2 B2]; split; [etransitivity; eassumption | congruence]]. Qed.
Lemma kp_core w w' : kept w w' -> forall p, core_at w' p = core_at w p.
Proof. intros [H _]. apply H. Qed.
Lemma kept_calls w c : kept w (mk_pub_world (mgrs w) (prices w) (batches w) c).
Proof. done. Qed.

Lemma get_mgr_some p w pr m : get_mgr p w = Some (pr, m) -> prices w !! p = Some pr /\ mgrs w !! mgr_ pr = Some m.
Proof.
  unfold get_mgr. destruct (prices w !! p) as [pr'|]; [|done]. cbn [mbind option_bind].
  destruct (mgrs w !! mgr_ pr') as [m'|] eqn:E; [|done]. by intros [= <- <-].
Qed.

(** The fields of a price that matter. *)
Definition good_upd (f : price -> price) (pr : price) (m : manager) : Prop :=
  core_of (f pr) m = core_of pr m /\ (last_slot_ pr = mslot_ m -> last_slot_ (f pr) = mslot_ m).

Lemma kept_price p f w w' :
  (forall pr m, get_mgr p w = Some (pr, m) -> good_upd f pr m) -> (forall pr, mgr_ (f pr) = mgr_ pr) ->
  upd_price_at p f w = Some w' -> kept w w'.
Proof.
  unfold upd_price_at. intros Hf Hf' H. destruct (prices w !! p) as [pr|] eqn:Hp; [|done]. injection H as <-.
  assert (forall q, q <> p -> get_mgr q (mk_pub_world (mgrs w) (<[p := f pr]> (prices w)) (batches w) (calls w))
            = get_mgr q w) as Hne.
  { intros q Hq. unfold get_mgr. cbn [prices mgrs]. by rewrite lookup_insert_ne. }
  assert (get_mgr p (mk_pub_world (mgrs w) (<[p := f pr]> (prices w)) (batches w) (calls w))
            = '(pr, m) ← get_mgr p w; Some (f pr, m)) as Heq.
  { unfold get_mgr. cbn [prices mgrs]. rewrite lookup_insert_eq, Hp. cbn [mbind option_bind].
    rewrite Hf'. by destruct (mgrs w !! mgr_ pr). }
  split; [|done]. split; [|done|].
  - intros q. unfold core_at. destruct (decide (q = p)) as [->|Hq]; [|by rewrite Hne].
    rewrite Heq. destruct (get_mgr p w) as [[pr' m]|] eqn:Hg; [|done]. cbn [mbind option_bind].
    destruct (Hf _ _ eq_refl) as (-> & _). done.
  - intros q (pr' & m & Hg & Hs). unfold attempted. destruct (decide (q = p)) as [->|Hq].
    + rewrite Heq, Hg. cbn [mbind option_bind]. exists (f pr'), m. split; [done|]. by apply (Hf _ _ Hg).
    + rewrite Hne by done. eauto.
Qed.

Lemma kept_price_any p f w w' :
  (forall pr, mgr_ (f pr) = mgr_ pr) -> (forall pr m, good_upd f pr m) ->
  upd_price_at p f w = Some w' -> kept w w'.
Proof. intros Hm Hf. apply kept_price; auto. Qed.

Lemma kept_prices_at ps f w w' :
  (forall pr, mgr_ (f pr) = mgr_ pr) -> (forall pr m, good_upd f pr m) ->
  upd_prices_at ps f w = Some w' -> kept w w'.
Proof.
  intros Hf Hc. revert w; induction ps as [|p ps IH]; intros w H; cbn [upd_prices_at] in H; [by injection H as <-|].
  unbind H. etransitivity; [eapply kept_price_any; eassumption | apply IH; exact H].
Qed.

(** The requests and messages of a manager are outside the core. *)
Definition same_cfg (m m' : manager) : Prop :=
  status_ m' = status_ m /\ do_tx_ m' = do_tx_ m /\ tx_conn m' = tx_conn m /\ max_batch_ m' = max_batch_ m
  /\ pkey_pair m' = pkey_pair m /\ gpub_ m' = gpub_ m /\ mslot_ m' = mslot_ m /\ pending_upds_ m' = pending_upds_ m.

Lemma core_of_cfg pr m m' : same_cfg m m' -> core_of pr m' = core_of pr m.
Proof.
  intros (H1 & H2 & H3 & H4 & H5 & H6 & _).
  unfold core_of, get_is_ready_publish, has_status, keys_present. rewrite H1, H2, H3, H4, H5, H6. done.
Qed.

Lemma same_cfg_refl m : same_cfg m m.
Proof. by split_and!. Qed.

Lemma get_mgr_upd (R : relation manager) p g f w w' pr m :
  (forall m, R m m) ->
  (forall m m', f m = Some m' -> R m m') -> upd_mgr_at g f w = Some w' ->
  get_mgr p w = Some (pr, m) -> exists m', get_mgr p w' = Some (pr, m') /\ R m m'.
Proof.
  unfold upd_mgr_at, get_mgr. intros Hr Hf H Hg. unbind H. injection H as <-. cbn [prices mgrs].
  destruct (prices w !! p) as [pr'|]; [|done]. cbn [mbind option_bind] in *.
  destruct (decide (mgr_ pr' = g)) as [Eq|Hne].
  - rewrite Eq in *. rewrite E in Hg. injection Hg as -> ->. rewrite lookup_insert_eq. eauto.
  - rewrite lookup_insert_ne by done. exists m. split; [exact Hg | done].
Qed.

Lemma kept_mgr g f w w' :
  (forall m m', f m = Some m' -> same_cfg m m') -> upd_mgr_at g f w = Some w' -> kept w w'.
Proof.
  intros Hf H. split; [split|].
  - intros p. unfold core_at. destruct (get_mgr p w) as [[pr m]|] eqn:Hg.
    + destruct (get_mgr_upd same_cfg _ _ _ _ _ _ _ same_cfg_refl Hf H Hg) as (m' & -> & Hc). cbn [mbind option_bind].
      by rewrite (core_of_cfg _ _ _ Hc).
    + unfold upd_mgr_at in H. unbind H. injection H as <-. unfold get_mgr in *. cbn [prices mgrs].
      destruct (prices w !! p) as [pr|]; [|done]. cbn [mbind option_bind] in *.
      destruct (decide (mgr_ pr = g)) as [Eq|Hne]; [by rewrite Eq, E in Hg|].
      rewrite lookup_insert_ne by done. by destruct (mgrs w !! mgr_ pr).
  - intros h. unfold upd_mgr_at in H. unbind H. injection H as <-. unfold pending. cbn [mgrs].
    destruct (decide (h = g)) as [->|Hne]; [|by rewrite lookup_insert_ne].
    rewrite lookup_insert_eq, E. cbn. f_equal. by apply (Hf _ _ E0).
  - intros p (pr & m & Hg & Hs). destruct (get_mgr_upd same_cfg _ _ _ _ _ _ _ same_cfg_refl Hf H Hg) as (m' & Hg' & Hc).
    exists pr, m'. split; [done|]. destruct Hc as (_ & _ & _ & _ & _ & _ & -> & _). done.
  - unfold upd_mgr_at in H. unbind H. by injection H as <-.
Qed.

Lemma same_cfg_set_rpc r m : same_cfg m (set_rpc r m).
Proof. by split_and!. Qed.
Lemma same_cfg_params q f m m' : upd_params q f m = Some m' -> same_cfg m m'.
Proof. unfold upd_params. intros H. unbind H. injection H as <-. apply same_cfg_set_rpc. Qed.
Lemma same_cfg_tx qs a b m m' : send_tx qs a b m = Some m' -> same_cfg m m'.
Proof.
  unfold send_tx. intros H. unbind H. destruct o as [[msg sig]|], qs as [|q qs]; try (injection H as <-; by split_and!).
  unbind H. injection H as <-. by split_and!.
Qed.

Lemma core_at_same w b c p : core_at (mk_pub_world (mgrs w) (prices w) b c) p = core_at w p.
Proof. reflexivity. Qed.

Lemma kept_flush p qs covered w w' :
  flush p qs covered w = Some w' ->
  same_core w w' /\ batches w' = batches w ++ [qs].
Proof.
  unfold flush. intros H. unbind H. subst. injection H as <-.
  match goal with E : upd_prices_at covered inc_sent ?v = Some ?v' |- _ =>
    assert (kept w v) as Hk; [|pose proof (kept_prices_at covered inc_sent v v' ltac:(done) ltac:(done) E) as Hk2] end.
  - destruct (do_tx_ m).
    + eapply kept_mgr; [|eassumption]. intros m1 m2. apply same_cfg_tx.
    + match goal with E : mbind _ _ = Some _ |- _ => unbind E; revert E end. intros Hc.
      etransitivity; [|eapply kept_prices_at; [| | exact Hc]; done].
      etransitivity; [eapply kept_mgr; [|eassumption] | eapply kept_price_any; [| | eassumption]; done].
      intros m1 m2 Hm. cbn beta in Hm. unbind Hm. injection Hm as <-. apply same_cfg_set_rpc.
  - destruct (kp_same _ _ Hk) as [A1 B1 C1], (kp_same _ _ Hk2) as [A2 B2 C2]. split.
    + split; [intros q; rewrite core_at_same; congruence | intros h; by rewrite <- B1, <- B2 | intros q Hq; by apply C2, C1].
    + cbn [batches]. rewrite (kp_batches _ _ Hk2), (kp_batches _ _ Hk). done.
Qed.

Lemma get_mgr_core p w pr m : get_mgr p w = Some (pr, m) -> core_at w p = Some (core_of pr m).
Proof. intros H. unfold core_at. rewrite H. done. Qed.

Lemma kept_init_publish p w b w' pr m :
  get_mgr p w = Some (pr, m) -> init_publish p w = Some (b, w') -> kept w w' /\ b = keys_present m.
Proof.
  unfold init_publish, keys_present. intros Hg H. rewrite Hg in H. cbn [mbind option_bind] in H.
  assert (forall msg w1, on_error_sub p msg w = Some w1 -> kept w w1) as Herr.
  { unfold on_error_sub. intros msg w1 He. unbind He. injection He as <-.
    etransitivity; [eapply kept_price_any; [| | eassumption]; done | apply kept_calls]. }
  destruct (pkey_pair m) as [[pk kc]|] eqn:Ek; [destruct (gpub_ m) as [g|] eqn:Eg|];
    unbind H; injection H as <- <-; (split; [|done]); try (eapply Herr; eassumption).
  pose proof (fun m1 m2 => same_cfg_params (preq_ pr) (fun u => Bincode.set_program g
    (Bincode.set_pubcache kc (Bincode.set_publish pk u))) m1 m2) as Hf.
  destruct (get_mgr_upd same_cfg p _ _ _ _ _ _ same_cfg_refl Hf E Hg) as (m' & Hg' & Hcfg).
  etransitivity; [eapply kept_mgr; [exact Hf | exact E]|].
  eapply kept_price; [| | eassumption]; [|done]. intros pr1 m1 Hg1. rewrite Hg' in Hg1. injection Hg1 as <- <-.
  split; [|done]. unfold core_of, keys_present. destruct Hcfg as (_ & _ & _ & _ & -> & -> & _). rewrite Ek, Eg.
  cbn [init_ set_init orb]. rewrite orb_true_r. done.
Qed.

(** The guards tell whether the core is good, and leave it. *)
Lemma kept_guards p w ok w' c :
  guards p w = Some (ok, w') -> core_at w p = Some c -> kept w w' /\ ok = c_ok c.
Proof.
  unfold guards. intros H Hc. unfold core_at in Hc. destruct (get_mgr p w) as [[pr m]|] eqn:Hg; [|done].
  injection Hc as <-. assert (prices w !! p = Some pr) as Hp.
  { unfold get_mgr in Hg. unbind Hg. by injection Hg as -> _. }
  rewrite Hp in H. cbn [mbind option_bind] in H. cbn [c_ok core_of].
  assert (exists b w1, (if init_ pr then Some (true, w) else init_publish p w) = Some (b, w1)
            /\ kept w w1 /\ b = (init_ pr || keys_present m)) as (b & w1 & Ei & Hk & ->).
  { destruct (init_ pr); [by exists true, w|]. destruct (init_publish p w) as [[b w1]|] eqn:E; [|done].
    exists b, w1. destruct (kept_init_publish p w b w1 pr m Hg E) as [Hk ->]. done. }
  rewrite Ei in H. cbn [mbind option_bind] in H.
  destruct (init_ pr || keys_present m) eqn:Ek; cbn [negb] in H; [|injection H as <- <-; unfold c_ok, core_of; cbn [c_keys c_ready]; rewrite Ek; done].
  destruct (get_mgr p w1) as [[pr1 m1]|] eqn:Hg1; [|done]. injection H as <- <-. split; [done|].
  pose proof (kp_core _ _ Hk p) as Hc. rewrite (get_mgr_core _ _ _ _ Hg1), (get_mgr_core _ _ _ _ Hg) in Hc.
  injection Hc as _ _ _ Hc _. unfold c_ok, core_of. cbn [c_keys c_ready]. rewrite Ek, Hc. done.
Qed.

(** ** Batches *)

(** The requests of the prices that pass the guards and belong to the first
    such price's manager. *)
Definition passes (w : pub_world) (g : ptr) (p : ptr) : option ptr :=
  match core_at w p with
  | Some c => if c_ok c && bool_decide (c_mgr c = g) then Some (c_req c) else None
  | None => None
  end.

(** The manager that decides is the first one whose price passes. *)
Definition first_mgr (w : pub_world) (ps : list ptr) : option ptr :=
  head (omap (fun p => match core_at w p with
                       | Some c => if c_ok c then Some (c_mgr c) else None
                       | None => None
                       end) ps).
Definition passing (w : pub_world) (ps : list ptr) : list ptr :=
  match first_mgr w ps with
  | Some g => omap (passes w g) ps
  | None => []
  end.

Lemma kept_passes w w' g p : (forall p, core_at w' p = core_at w p) -> passes w' g p = passes w g p.
Proof. intros H. unfold passes. rewrite H. done. Qed.

(** One price of the loop: the world after the guards, and whether it passes. *)
Lemma send_loop_step all rest i j mgr1 p qs w w' c :
  core_at w p = Some c -> send_loop all i j mgr1 qs (p :: rest) w = Some w' ->
  let g1 := default (c_mgr c) mgr1 in
  exists w1, kept w w1 /\ attempted w1 p /\
    if c_ok c && bool_decide (c_mgr c = g1) then
      let qs' := qs ++ [c_req c] in
      if (c_max c <=? Z.of_nat (length qs')) || bool_decide (S i = length all) then
        exists w2, flush p qs' (slice j (S i - j) all) w1 = Some w2
          /\ send_loop all (S i) (S i) (Some g1) [] rest w2 = Some w'
      else send_loop all (S i) j (Some g1) qs' rest w1 = Some w'
    else send_loop all (S i) j (if c_ok c then Some g1 else mgr1) qs rest w1 = Some w'.
Proof.
  intros Hc H. cbn [send_loop] in H. cbn zeta. unbind H. subst.
  rename p2 into wa, p4 into wb, p6 into pr, m0 into m1. rename E1 into G2, E2 into G3, E4 into G4.
  assert (kept w wa) as K1.
  { eapply kept_price; [| | exact G2]; [|done]. intros pr0 m0 Hg. rewrite E in Hg. by injection Hg as <- <-. }
  assert (attempted wa p) as A1.
  { destruct (get_mgr_some _ _ _ _ E) as [Ep Eg]. unfold upd_price_at in G2. rewrite Ep in G2. injection G2 as <-.
    exists (set_last_attempted_update_slot (mslot_ m) p1), m. split; [|done]. unfold get_mgr. cbn [prices mgrs].
    rewrite lookup_insert_eq. cbn [mbind option_bind]. change (mgr_ (set_last_attempted_update_slot _ p1)) with (mgr_ p1).
    by rewrite Eg. }
  destruct (kept_guards _ _ _ _ c G3) as [K2 ->]; [rewrite (kp_core _ _ K1); done|].
  assert (core_of pr m1 = c) as Ec.
  { pose proof (get_mgr_core _ _ _ _ G4) as E0. rewrite (kp_core _ _ K2), (kp_core _ _ K1), Hc in E0. congruence. }
  assert (mgr_ pr = c_mgr c /\ preq_ pr = c_req c /\ max_batch_ m1 = c_max c) as (Em & Er & Ex) by (by subst c).
  rewrite Em, Er, Ex in H.
  destruct (c_ok c && bool_decide (c_mgr c = default (c_mgr c) mgr1)).
  - destruct (upd_mgr_at _ _ wb) as [wc|] eqn:G5; [|done]. cbn [mbind option_bind] in H.
    assert (kept wb wc) as K3 by (eapply kept_mgr; [|exact G5]; intros m2 m3; apply same_cfg_params).
    exists wc. split; [etransitivity; [exact K1|]; etransitivity; [exact K2 | exact K3]|].
    split; [apply (sc_attempted _ _ (kp_same _ _ K3)), (sc_attempted _ _ (kp_same _ _ K2)), A1|].
    destruct ((c_max c <=? _) || _); [|exact H].
    destruct (flush _ _ _ wc) as [w2|] eqn:G6; [|done]. cbn [mbind option_bind] in H. eauto.
  - exists wb. split; [etransitivity; [exact K1 | exact K2]|].
    split; [apply (sc_attempted _ _ (kp_same _ _ K2)), A1 | exact H].
Qed.

(** The first manager, when it is known and when it is not. *)
Definition first_is (w : pub_world) (rest : list ptr) (mgr1 : option ptr) (g : ptr) : Prop :=
  match mgr1 with Some h => h = g | None => first_mgr w rest = Some g end.

Lemma kept_first_mgr w w' ps : (forall p, core_at w' p = core_at w p) -> first_mgr w' ps = first_mgr w ps.
Proof.
  intros H. unfold first_mgr. f_equal. apply list_omap_ext, Forall_Forall2_diag, Forall_forall. intros q _. by rewrite H.
Qed.
Lemma first_mgr_cons w p c rest :
  core_at w p = Some c -> first_mgr w (p :: rest) = if c_ok c then Some (c_mgr c) else first_mgr w rest.
Proof. intros Hc. unfold first_mgr. cbn [omap list_omap]. rewrite Hc. by destruct (c_ok c). Qed.
Lemma kept_passing w w' g (ps : list ptr) :
  (forall p, core_at w' p = core_at w p) -> omap (passes w' g) ps = omap (passes w g) ps.
Proof. intros H. apply list_omap_ext, Forall_Forall2_diag, Forall_forall. intros q _. by apply kept_passes. Qed.

(** The batches sent have at most [mx] requests and hold those of the passing
    prices in order; less than a batch is left behind, and nothing if the last
    price passes. *)
Lemma send_loop_batches all rest i j mgr1 g qs w w' mx :
  1 <= mx -> length all = (i + length rest)%nat -> Z.of_nat (length qs) < mx ->
  (forall p, p ∈ rest -> exists c, core_at w p = Some c /\ c_max c = mx) -> first_is w rest mgr1 g ->
  send_loop all i j mgr1 qs rest w = Some w' ->
  exists bs left, batches w' = batches w ++ bs
    /\ qs ++ omap (passes w g) rest = concat bs ++ left
    /\ Forall (fun b => 1 <= Z.of_nat (length b) <= mx) bs
    /\ Z.of_nat (length left) < mx
    /\ (forall p, last rest = Some p -> is_Some (passes w g p) -> left = []).
Proof.
  intros Hmx. revert i j mgr1 qs w; induction rest as [|p rest IH]; intros i j mgr1 qs w Hlen Hqs Hmax Hg H.
  { injection H as <-. exists [], qs. rewrite !app_nil_r. by split_and!. }
  destruct (Hmax p ltac:(left)) as (c & Hc & Hcm).
  destruct (send_loop_step _ _ _ _ _ _ _ _ _ _ Hc H) as (w1 & K & _ & Hs). clear H. cbn zeta in Hs. rewrite Hcm in Hs.
  assert (c_ok c = true -> default (c_mgr c) mgr1 = g) as Hd.
  { intros Eok. destruct mgr1; [exact Hg|]. cbn in Hg. rewrite (first_mgr_cons _ _ _ _ Hc), Eok in Hg. by injection Hg. }
  assert (c_ok c = false -> first_is w rest mgr1 g) as Hd'.
  { intros Eok. destruct mgr1; [exact Hg|]. cbn in Hg. rewrite (first_mgr_cons _ _ _ _ Hc), Eok in Hg. exact Hg. }
  assert (c_ok c && bool_decide (c_mgr c = default (c_mgr c) mgr1) = c_ok c && bool_decide (c_mgr c = g)) as Ed
    by (destruct (c_ok c); [by rewrite Hd | done]). rewrite Ed in Hs.
  assert (forall w2, (forall p, core_at w2 p = core_at w p) ->
    forall p, p ∈ rest -> exists c, core_at w2 p = Some c /\ c_max c = mx) as Hmax'.
  { intros w2 Hw2 q Hq. rewrite Hw2. apply Hmax. by right. }
  assert (forall w2 bs left, (forall p, core_at w2 p = core_at w p) -> rest <> [] ->
    (forall p, last rest = Some p -> is_Some (passes w2 g p) -> left = bs) ->
    forall p0, last (p :: rest) = Some p0 -> is_Some (passes w g p0) -> left = bs :> list ptr) as Hlast'.
  { intros w2 bs left Hw2 Hr Hl q Hq Hqp. apply (Hl q); [|by rewrite (kept_passes w w2)].
    destruct rest; [done | by rewrite last_cons_cons in Hq]. }
  cbn [length] in Hlen. cbn [omap list_omap].
  assert (passes w g p = if c_ok c && bool_decide (c_mgr c = g) then Some (c_req c) else None) as Hp
    by (unfold passes; rewrite Hc; done).
  rewrite Hp. destruct (c_ok c && bool_decide (c_mgr c = g)) eqn:Eok.
  - apply andb_true_iff in Eok as [Eok _]. rewrite (Hd Eok) in Hs. rewrite cons_middle, app_assoc.
    destruct ((mx <=? Z.of_nat (length (qs ++ [c_req c]))) || bool_decide (S i = length all)) eqn:Ef.
    + destruct Hs as (w2 & Hfl & Hs). destruct (kept_flush _ _ _ _ _ Hfl) as [Kf Bf].
      assert (forall q, core_at w2 q = core_at w q) as Hw2 by (intros q; by rewrite (sc_core _ _ Kf), (kp_core _ _ K)).
      destruct (IH (S i) (S i) (Some g) [] w2 ltac:(lia) ltac:(simpl; lia) (Hmax' _ Hw2) eq_refl Hs)
        as (bs & left & Hb & Hcat & Hbs & Hl & Hlast).
      exists ((qs ++ [c_req c]) :: bs), left. rewrite Hb, Bf, (kp_batches _ _ K), <- app_assoc. cbn [concat].
      rewrite (kept_passing w w2) in Hcat by done. cbn [app] in Hcat. rewrite Hcat, <- !app_assoc. split_and!; [done.. | | done |].
      * constructor; [rewrite length_app in *; simpl in *; lia | done].
      * destruct rest as [|r rest]; [|by eapply Hlast'].
        cbn in Hcat. symmetry in Hcat. apply app_nil in Hcat. tauto.
    + apply orb_false_iff in Ef as [Ef1 Ef2]. apply Z.leb_gt in Ef1. apply bool_decide_eq_false in Ef2.
      pose proof (kp_core _ _ K) as Hw1.
      destruct (IH (S i) j (Some g) (qs ++ [c_req c]) w1 ltac:(lia) Ef1 (Hmax' _ Hw1) eq_refl Hs)
        as (bs & left & Hb & Hcat & Hbs & Hl & Hlast).
      exists bs, left. rewrite Hb, (kp_batches _ _ K). rewrite (kept_passing w w1) in Hcat by done. split_and!; try done.
      eapply Hlast'; [exact Hw1 | | exact Hlast]. intros ->. simpl in Hlen. lia.
  - pose proof (kp_core _ _ K) as Hw1.
    destruct (IH (S i) j (if c_ok c then Some (default (c_mgr c) mgr1) else mgr1) qs w1 ltac:(lia) Hqs (Hmax' _ Hw1))
        as (bs & left & Hb & Hcat & Hbs & Hl & Hlast); [|exact Hs|].
    { destruct (c_ok c); [by rewrite Hd|]. specialize (Hd' eq_refl). destruct mgr1; [done|].
      cbn in *. by rewrite (kept_first_mgr w w1). }
    exists bs, left. rewrite Hb, (kp_batches _ _ K). rewrite (kept_passing w w1) in Hcat by done. split_and!; try done.
    destruct rest as [|r rest]; [|by eapply Hlast'].
    intros q Hq Hqp. injection Hq as <-. rewrite Hp in Hqp. by destruct Hqp.
Qed.

Lemma send_loop_none all rest i j w w' :
  (forall p, p ∈ rest -> is_Some (core_at w p)) -> first_mgr w rest = None ->
  send_loop all i j None [] rest w = Some w' -> batches w' = batches w.
Proof.
  revert i j w; induction rest as [|p rest IH]; intros i j w Hall Hf H; [by injection H as <-|].
  destruct (Hall p ltac:(left)) as [c Hc].
  destruct (send_loop_step _ _ _ _ _ _ _ _ _ _ Hc H) as (w1 & K & _ & Hs).
  rewrite (first_mgr_cons _ _ _ _ Hc) in Hf. destruct (c_ok c); [done|]. cbn [andb] in Hs.
  pose proof (kp_core _ _ K) as Hw1. rewrite <- (kp_batches _ _ K). eapply IH; [| |exact Hs].
  - intros q Hq. rewrite Hw1. apply Hall. by right.
  - by rewrite (kept_first_mgr w w1).
Qed.

(** The effect of a send: the batches, and what is left out of them. *)
Definition batched (w w' : pub_world) (ps : list ptr) (mx : Z) : Prop :=
  exists bs left, batches w' = batches w ++ bs
    /\ passing w ps = concat bs ++ left
    /\ Forall (fun b => 1 <= Z.of_nat (length b) <= mx) bs
    /\ Z.of_nat (length left) < mx
    /\ (forall p, last ps = Some p -> match core_at w p with
                                     | Some c => c_ok c = true /\ first_mgr w ps = Some (c_mgr c)
                                     | None => False
                                     end -> left = []).

Lemma send_ok ps w w' mx :
  1 <= mx -> (forall p, p ∈ ps -> exists c, core_at w p = Some c /\ c_max c = mx) ->
  send ps w = Some w' -> batched w w' ps mx.
Proof.
  intros Hmx Hall H. unfold batched, passing. destruct (first_mgr w ps) as [g|] eqn:Eg.
  - destruct (send_loop_batches ps ps 0 0 None g [] w w' mx Hmx eq_refl ltac:(simpl; lia) Hall Eg H)
      as (bs & left & Hb & Hcat & Hbs & Hl & Hlast).
    exists bs, left. split_and!; try done. intros p Hp Hc. apply (Hlast p Hp). unfold passes.
    destruct (core_at w p) as [c|]; [|done]. destruct Hc as [-> [= ->]]. rewrite bool_decide_true by done. done.
  - exists [], []. rewrite app_nil_r. split_and!; [|done..|simpl; lia|done].
    eapply send_loop_none; [|exact Eg | exact H]. intros p Hp. destruct (Hall p Hp) as (c & -> & _). done.
Qed.

(** A send leaves the buffers and marks every price as tried. *)
Lemma send_loop_same all rest i j mgr1 qs w w' :
  (forall p, p ∈ rest -> is_Some (core_at w p)) ->
  send_loop all i j mgr1 qs rest w = Some w' -> same_core w w' /\ forall p, p ∈ rest -> attempted w' p.
Proof.
  revert i j mgr1 qs w; induction rest as [|p rest IH]; intros i j mgr1 qs w Hall H.
  { injection H as <-. split; [done | intros p Hp; by apply elem_of_nil in Hp]. }
  destruct (Hall p ltac:(left)) as [c Hc].
  destruct (send_loop_step _ _ _ _ _ _ _ _ _ _ Hc H) as (w1 & K & Ha & Hs). cbn zeta in Hs.
  assert (exists w2 i' j' mgr1' qs', same_core w1 w2 /\ send_loop all i' j' mgr1' qs' rest w2 = Some w')
    as (w2 & i' & j' & mgr1' & qs' & K2 & Hs').
  { destruct (_ && _); [destruct (_ || _)|].
    - destruct Hs as (w2 & Hfl & Hs). destruct (kept_flush _ _ _ _ _ Hfl) as [Kf _]. do 5 eexists. split; [exact Kf | exact Hs].
    - do 5 eexists. split; [reflexivity | exact Hs].
    - do 5 eexists. split; [reflexivity | exact Hs]. }
  assert (same_core w w2) as K3 by (etransitivity; [apply (kp_same _ _ K) | exact K2]).
  destruct (IH _ _ _ _ _ ltac:(intros q Hq; rewrite (sc_core _ _ K3); apply Hall; by right) Hs') as [K4 Hat].
  split; [by etransitivity|]. intros q [->|Hq]%elem_of_cons; [|by apply Hat].
  apply (sc_attempted _ _ K4), (sc_attempted _ _ K2), Ha.
Qed.

(** (C24) Sending the buffer of a manager, as [send_pending_ups] of [manager.cpp]
    does it: after 400 ms everything goes, in as many batches as it takes,
    otherwise a full batch or nothing.  What goes is cut into batches in order,
    leaves the buffer, and counts as tried in this slot.  The comment at the
    declaration ([manager.hpp]) has it that at most one complete batch is sent
    and the rest stays queued, which is so within the 400 ms only
    ([all_batches_sent]). *)
Theorem send_pending_ups_ok g ts w w' m mx :
  mgrs w !! g = Some m -> 1 <= mx -> max_batch_ m = mx ->
  (forall p, p ∈ pending_upds_ m -> exists c, core_at w p = Some c /\ c_max c = mx) ->
  send_pending_ups g ts w = Some w' ->
  exists m' sent, mgrs w' !! g = Some m' /\ pending_upds_ m = sent ++ pending_upds_ m'
    /\ batched w w' sent mx
    /\ (forall p, p ∈ sent -> attempted w' p)
    /\ (PC_FLUSH_INTERVAL < ts - last_upd_ts_ m -> pending_upds_ m' = [])
    /\ (ts - last_upd_ts_ m <= PC_FLUSH_INTERVAL ->
          Z.of_nat (length sent) = if mx <=? Z.of_nat (length (pending_upds_ m)) then mx else 0)
    /\ (sent = [] -> w' = w) /\ (sent <> [] -> last_upd_ts_ m' = ts).
Proof.
  intros Hm Hmx Emx Hall H. unfold send_pending_ups in H. rewrite Hm in H. cbn [mbind option_bind] in H.
  set (n := n_to_send ts m) in *.
  assert ((PC_FLUSH_INTERVAL < ts - last_upd_ts_ m -> n = length (pending_upds_ m))
    /\ (ts - last_upd_ts_ m <= PC_FLUSH_INTERVAL ->
         n = Z.to_nat (if mx <=? Z.of_nat (length (pending_upds_ m)) then mx else 0))) as [Hn1 Hn2].
  { unfold n, n_to_send. rewrite Emx. destruct (Z.ltb_spec PC_FLUSH_INTERVAL (ts - last_upd_ts_ m)); split; try lia.
    by destruct (mx <=? _). }
  case_bool_decide as En.
  - injection H as <-. exists m, []. rewrite En in *. split_and!; try done.
    + exists [], []. rewrite app_nil_r. split_and!; try done. simpl; lia.
    + intros p Hp. by apply elem_of_nil in Hp.
    + intros Ht. apply nil_length_inv. by rewrite <- Hn1.
    + intros Ht. specialize (Hn2 Ht). simpl. destruct (mx <=? _); lia.
  - destruct (send (take n (pending_upds_ m)) w) as [w1|] eqn:Es; [|done]. cbn [mbind option_bind] in H.
    assert (forall p, p ∈ take n (pending_upds_ m) -> exists c, core_at w p = Some c /\ c_max c = mx) as Hall'
      by (intros p Hp; apply Hall; by apply (subseteq_take n)).
    destruct (send_loop_same _ _ _ _ _ _ _ _ ltac:(intros p Hp; destruct (Hall' p Hp) as (c & -> & _); done) Es) as [K Hat].
    pose proof (sc_pending _ _ K g) as Ep. unfold pending in Ep. rewrite Hm in Ep.
    destruct (mgrs w1 !! g) as [m1|] eqn:Em1; [|done]. injection Ep as Ep.
    assert (forall p, attempted w1 p -> attempted w' p) as Hat'.
    { intros p (pr & m2 & Hg & Hs). edestruct (get_mgr_upd (fun m m' => mslot_ m' = mslot_ m)) as (m3 & Hg' & E);
        [| |exact H | exact Hg|]; [done | intros m3 m4 E0; by apply (inj Some) in E0 as <-|].
      exists pr, m3. split; [done | congruence]. }
    pose proof (send_ok _ _ _ mx Hmx Hall' Es) as Hb.
    unfold upd_mgr_at in H. rewrite Em1 in H. injection H as <-.
    eexists _, (take n (pending_upds_ m)). cbn [mgrs]. rewrite lookup_insert_eq. split; [done|].
    cbn [pending_upds_ set_pending last_upd_ts_]. rewrite Ep in Hat' |- *. split_and!; try done.
    + symmetry. apply take_drop.
    + intros p Hp. apply Hat', Hat, Hp.
    + intros Ht. apply drop_ge. by rewrite Hn1.
    + intros Ht. rewrite length_take, Hn2 by done. destruct (Z.leb_spec mx (Z.of_nat (length (pending_upds_ m)))); lia.
    + intros E. exfalso. apply (f_equal length) in E. rewrite length_take in E. simpl in E.
      destruct (decide (PC_FLUSH_INTERVAL < ts - last_upd_ts_ m)); [lia|].
      destruct (Z.leb_spec mx (Z.of_nat (length (pending_upds_ m)))); lia.
Qed.

(** *** At most once in a slot *)

(** A price's manager, the slot of its last attempt and its manager's slot. *)
Definition slot_info (w : pub_world) (p : ptr) : option (ptr * Z * Z) :=
  '(pr, m) ← get_mgr p w; Some (mgr_ pr, last_slot_ pr, mslot_ m).
Definition same_slots (w w' : pub_world) : Prop := forall p, slot_info w' p = slot_info w p.
#[local] Instance same_slots_preorder : PreOrder same_slots.
Proof. split; [done | intros w1 w2 w3 H1 H2 p; by rewrite H2, H1]. Qed.

Lemma slots_price p f w w' :
  (forall pr, mgr_ (f pr) = mgr_ pr) -> (forall pr, last_slot_ (f pr) = last_slot_ pr) ->
  upd_price_at p f w = Some w' -> same_slots w w'.
Proof.
  unfold upd_price_at. intros Hm Hl H q. destruct (prices w !! p) as [pr|] eqn:Hp; [|done]. injection H as <-.
  unfold slot_info, get_mgr. cbn [prices mgrs]. destruct (decide (q = p)) as [->|Hq]; [|by rewrite lookup_insert_ne].
  rewrite lookup_insert_eq, Hp. cbn [mbind option_bind]. rewrite Hm. destruct (mgrs w !! mgr_ pr); [|done].
  cbn [mbind option_bind]. by rewrite Hm, Hl.
Qed.

Lemma slots_mgr g f w w' :
  (forall m m', f m = Some m' -> mslot_ m' = mslot_ m) -> upd_mgr_at g f w = Some w' -> same_slots w w'.
Proof.
  unfold upd_mgr_at. intros Hf H q. destruct (mgrs w !! g) as [m|] eqn:Hm; [|done]. cbn [mbind option_bind] in H.
  destruct (f m) as [m'|] eqn:E; [|done]. injection H as <-. unfold slot_info, get_mgr. cbn [prices mgrs].
  destruct (prices w !! q) as [pr|]; [|done]. cbn [mbind option_bind]. destruct (decide (mgr_ pr = g)) as [->|Hne].
  - rewrite lookup_insert_eq, Hm. cbn [mbind option_bind]. by rewrite (Hf _ _ E).
  - by rewrite lookup_insert_ne.
Qed.

Lemma slots_prices_at ps f w w' :
  (forall pr, mgr_ (f pr) = mgr_ pr) -> (forall pr, last_slot_ (f pr) = last_slot_ pr) ->
  upd_prices_at ps f w = Some w' -> same_slots w w'.
Proof.
  intros Hm Hl. revert w. induction ps as [|p ps IH]; intros w H; cbn [upd_prices_at] in H; [by injection H as <-|].
  unbind H. etransitivity; [eapply slots_price; eassumption | by apply IH].
Qed.

Lemma slot_params q f m m' : upd_params q f m = Some m' -> mslot_ m' = mslot_ m.
Proof. intros H. apply (same_cfg_params _ _ _ _ H). Qed.
Lemma slot_tx qs a b m m' : send_tx qs a b m = Some m' -> mslot_ m' = mslot_ m.
Proof. intros H. apply (same_cfg_tx _ _ _ _ _ H). Qed.
#[local] Hint Resolve slot_params slot_tx : core.

Lemma slots_init p w b w' : init_publish p w = Some (b, w') -> same_slots w w'.
Proof.
  assert (forall msg w1, on_error_sub p msg w = Some w1 -> same_slots w w1) as Herr.
  { unfold on_error_sub. intros msg w1 He. unbind He. injection He as <-.
    match goal with E : upd_price_at _ _ w = Some ?v |- _ => exact (slots_price p (set_perr msg) w v ltac:(done) ltac:(done) E) end. }
  unfold init_publish. intros H. unbind H. subst.
  destruct (pkey_pair m) as [[pk kc]|]; [destruct (gpub_ m) as [g|]|]; unbind H; injection H as _ <-; try (eapply Herr; eassumption).
  etransitivity; [eapply slots_mgr; [|eassumption]; eauto|].
  eapply (slots_price p set_init); [done | done | eassumption].
Qed.

Lemma slots_guards p w ok w' : guards p w = Some (ok, w') -> same_slots w w'.
Proof.
  unfold guards. intros H. destruct (prices w !! p) as [pr|]; [|done]. cbn [mbind option_bind] in H.
  destruct (init_ pr); [|destruct (init_publish p w) as [[b w1]|] eqn:Ei; [|done]]; cbn [mbind option_bind] in H.
  - cbn [negb] in H. unbind H. by injection H as _ <-.
  - destruct b; cbn [negb] in H; [unbind H|]; injection H as _ <-; by eapply slots_init.
Qed.

Lemma slots_flush p qs covered w w' : flush p qs covered w = Some w' -> same_slots w w'.
Proof.
  unfold flush. intros H. unbind H. subst. injection H as <-.
  match goal with E : upd_prices_at covered inc_sent ?v = Some _ |- _ =>
    transitivity v; [|exact (slots_prices_at covered inc_sent v _ ltac:(done) ltac:(done) E)] end.
  destruct (do_tx_ m); [eapply slots_mgr; [|eassumption]; eauto|].
  match goal with E : mbind _ _ = Some _ |- _ => unbind E; revert E end. intros Hc.
  etransitivity; [|eapply slots_prices_at; [| | exact Hc]; done].
  etransitivity; [eapply slots_mgr; [|eassumption] | eapply slots_price; [| | eassumption]; done].
  intros m1 m2 Hm. cbn beta in Hm. unbind Hm. by injection Hm as <-.
Qed.

(** What [send] does to the slots of last attempts. *)
Definition tried_now (x : ptr * Z * Z) : ptr * Z * Z := (x.1.1, x.2, x.2).
Definition slots_after (ps : list ptr) (w w' : pub_world) : Prop :=
  forall q, slot_info w' q = if decide (q ∈ ps) then tried_now <$> slot_info w q else slot_info w q.

Lemma slots_after_same ps w w1 w' : same_slots w w1 -> slots_after ps w1 w' -> slots_after ps w w'.
Proof. intros H1 H2 q. by rewrite H2, H1. Qed.

Lemma slots_attempt p w w1 pr m :
  get_mgr p w = Some (pr, m) -> upd_price_at p (set_last_attempted_update_slot (mslot_ m)) w = Some w1 -> slots_after [p] w w1.
Proof.
  intros Hg H q. destruct (get_mgr_some _ _ _ _ Hg) as [Hp Hm]. unfold upd_price_at in H. rewrite Hp in H.
  injection H as <-. unfold slot_info. destruct (decide (q ∈ [p])) as [->%list_elem_of_singleton|Hq].
  - rewrite Hg. unfold get_mgr. cbn [prices mgrs]. rewrite lookup_insert_eq. cbn [mbind option_bind].
    change (mgr_ (set_last_attempted_update_slot _ pr)) with (mgr_ pr). by rewrite Hm.
  - unfold get_mgr. cbn [prices mgrs]. rewrite lookup_insert_ne; [done|]. intros ->. by apply Hq, list_elem_of_singleton.
Qed.

Lemma slots_after_cons p ps w w1 w' : slots_after [p] w w1 -> slots_after ps w1 w' -> slots_after (p :: ps) w w'.
Proof.
  intros H1 H2 q. rewrite H2, H1. assert (forall o : option (ptr * Z * Z), tried_now <$> (tried_now <$> o) = tried_now <$> o) as Ht by (by intros [[[? ?] ?]|]).
  repeat case_decide; rewrite ?elem_of_cons, ?elem_of_nil in *; rewrite ?Ht; naive_solver.
Qed.

Lemma slots_send_loop all rest i j mgr1 qs w w' :
  send_loop all i j mgr1 qs rest w = Some w' -> slots_after rest w w'.
Proof.
  revert i j mgr1 qs w; induction rest as [|p rest IH]; intros i j mgr1 qs w H; cbn [send_loop] in H.
  { injection H as <-. intros q. by rewrite decide_False by apply not_elem_of_nil. }
  unbind H. subst.
  match goal with Eg : get_mgr p w = _, E : upd_price_at p _ w = Some ?v, G : guards p ?v = Some (_, ?v') |- _ =>
    eapply slots_after_cons; [exact (slots_attempt _ _ _ _ _ Eg E)|]; pose proof (slots_guards _ _ _ _ G) as K end.
  eapply slots_after_same; [exact K|]. destruct (_ && _); [|by eapply IH].
  match type of H with mbind _ ?o = _ => destruct o as [w2|] eqn:Em; [|done] end. cbn [mbind option_bind] in H.
  eapply slots_after_same; [eapply slots_mgr; [|exact Em]; eauto|].
  destruct (_ || _); [|by eapply IH]. destruct (flush _ _ _ w2) as [w3|] eqn:Ef; [|done]. cbn [mbind option_bind] in H.
  eapply slots_after_same; [by eapply slots_flush|]. by eapply IH.
Qed.

(** Buffering a price: it is there once, at the end if it is new; nothing
    changes if the slot's update was already tried. *)
Theorem add_dirty_price_ok p g w w' m pr :
  mgrs w !! g = Some m -> prices w !! p = Some pr -> NoDup (pending_upds_ m) -> add_dirty_price p g w = Some w' ->
  exists m', mgrs w' !! g = Some m' /\ NoDup (pending_upds_ m')
    /\ pending_upds_ m' = pending_upds_ m ++
         (if (last_slot_ pr =? mslot_ m) || bool_decide (p ∈ pending_upds_ m) then [] else [p])
    /\ prices w' = prices w /\ batches w' = batches w.
Proof.
  intros Hm Hp Hnd H. unfold add_dirty_price in H. rewrite Hp in H. cbn [mbind option_bind] in H.
  unfold upd_mgr_at in H. rewrite Hm in H. cbn [mbind option_bind] in H.
  destruct (last_slot_ pr =? mslot_ m); cbn [orb].
  { cbn [mbind option_bind] in H. injection H as <-. exists m. cbn [mgrs]. rewrite lookup_insert_eq, app_nil_r. by split_and!. }
  case_bool_decide as Hin; cbn [mbind option_bind] in H; injection H as <-; cbn [mgrs]; rewrite lookup_insert_eq.
  - exists m. rewrite app_nil_r. by split_and!.
  - eexists. split; [done|]. cbn [pending_upds_ set_pending]. split_and!; try done.
    apply NoDup_app. split_and!; [done | | apply NoDup_singleton]. intros q Hq ->%list_elem_of_singleton. done.
Qed.

(** The slot rises: what [manager::on_response( rpc::get_slot * )] lets through. *)
Definition set_mslot (slot : Z) (m : manager) : manager :=
  mk_manager (rpc_ m) (tx_out m) (status_ m) (do_tx_ m) (tx_conn m) slot (max_batch_ m) (cu_units_ m)
    (cu_price_ m) (block_hash m) (pkey_pair m) (gpub_ m) (pending_upds_ m) (last_upd_ts_ m).

(** The life of a manager's buffer, with the prices tried so far, each with the
    slot it was tried in: what leaves the buffer is what [send] was given.  A
    client's update is [update_no_send] and [add_dirty_price], on the manager's
    own price objects. *)
Inductive buffer_step (g : ptr) : pub_world * list (Z * ptr) -> pub_world * list (Z * ptr) -> Prop :=
  | bs_store px conf st is_agg p w w' t : update_no_send px conf st is_agg p w = Some w' -> buffer_step g (w, t) (w', t)
  | bs_dirty p w w' t : c_mgr <$> core_at w p = Some g -> add_dirty_price p g w = Some w' -> buffer_step g (w, t) (w', t)
  | bs_send ts w w' t sent ps ps' m : mgrs w !! g = Some m -> send_pending_ups g ts w = Some w' ->
      pending w g = Some ps -> pending w' g = Some ps' -> ps = sent ++ ps' ->
      buffer_step g (w, t) (w', t ++ (pair (mslot_ m) <$> sent))
  | bs_slot slot m w w' t : mgrs w !! g = Some m -> mslot_ m < slot ->
      upd_mgr_at g (fun m => Some (set_mslot slot m)) w = Some w' -> buffer_step g (w, t) (w', t).

(** Where a history starts: no price twice in the buffer, and none tried in a
    slot after the current one, nor in the current one if it is in the buffer. *)
Record buffer_ok (g : ptr) (w : pub_world) (ps : list ptr) : Prop := {
  bo_pending : pending w g = Some ps;
  bo_nodup : NoDup ps;
  bo_past p l s : slot_info w p = Some (g, l, s) -> l <= s;
  bo_waits p : p ∈ ps -> exists l s, slot_info w p = Some (g, l, s) /\ l < s }.

(** What [tried] says of the prices. *)
Definition tried_ok (g : ptr) (w : pub_world) (t : list (Z * ptr)) : Prop :=
  NoDup t /\ forall s0 p, (s0, p) ∈ t -> exists l s, slot_info w p = Some (g, l, s) /\ s0 <= l.

Lemma slot_info_mgr w p g l s m : slot_info w p = Some (g, l, s) -> mgrs w !! g = Some m -> s = mslot_ m.
Proof.
  unfold slot_info. destruct (get_mgr p w) as [[pr m']|] eqn:E; [|done]. intros [= <- <- <-] Hm.
  apply get_mgr_some in E as [_ E]. congruence.
Qed.
Lemma slot_info_core w p x : slot_info w p = Some x -> is_Some (core_at w p).
Proof. unfold slot_info, core_at. by destruct (get_mgr p w) as [[pr m]|]. Qed.

Lemma buffer_same g w w' ps t :
  same_slots w w' -> pending w' g = pending w g -> buffer_ok g w ps -> tried_ok g w t -> buffer_ok g w' ps /\ tried_ok g w' t.
Proof.
  intros Hs Hp [H1 H2 H3 H4] [T1 T2]. split; [split|split]; try done; [congruence | | |];
    intros *; rewrite Hs; eauto.
Qed.

Lemma pending_mgr g f w w' : (forall m m', f m = Some m' -> pending_upds_ m' = pending_upds_ m) ->
  upd_mgr_at g f w = Some w' -> forall h, pending w' h = pending w h.
Proof.
  intros Hf H h. unfold upd_mgr_at in H. unfold pending. destruct (mgrs w !! g) as [m|] eqn:E; [|done]. cbn [mbind option_bind] in H.
  destruct (f m) as [m'|] eqn:Ef; [|done]. injection H as <-. cbn [mgrs]. destruct (decide (h = g)) as [->|Hne].
  - rewrite lookup_insert_eq, E. cbn. by rewrite (Hf _ _ Ef).
  - by rewrite lookup_insert_ne.
Qed.

Lemma buffer_store g px conf st is_agg p w w' ps t :
  update_no_send px conf st is_agg p w = Some w' -> buffer_ok g w ps -> tried_ok g w t -> buffer_ok g w' ps /\ tried_ok g w' t.
Proof.
  unfold update_no_send. intros H. destruct (get_mgr p w) as [[pr m]|]; [|done]. cbn [mbind option_bind] in H.
  apply buffer_same; [eapply slots_mgr; [|exact H]; eauto|]. eapply pending_mgr; [|exact H].
  intros m1 m2 Hm. apply (same_cfg_params _ _ _ _ Hm).
Qed.

Lemma buffer_dirty g p w w' ps t :
  c_mgr <$> core_at w p = Some g -> add_dirty_price p g w = Some w' -> buffer_ok g w ps -> tried_ok g w t ->
  exists ps', buffer_ok g w' ps' /\ tried_ok g w' t.
Proof.
  intros Hc H Hb Ht. pose proof Hb as [Hps Hnd Hpast Hw]. unfold core_at in Hc.
  destruct (get_mgr p w) as [[pr m]|] eqn:Hg; [|done]. cbn in Hc. injection Hc as Hc.
  destruct (get_mgr_some _ _ _ _ Hg) as [Hp Hm]. rewrite Hc in Hm. unfold pending in Hps. rewrite Hm in Hps. injection Hps as Hps.
  rewrite <- Hps in Hnd. destruct (add_dirty_price_ok p g w w' m pr Hm Hp Hnd H) as (m' & Hm' & Hnd' & Hps' & _ & _).
  assert (same_slots w w') as Hs.
  { unfold add_dirty_price in H. rewrite Hp in H. cbn [mbind option_bind] in H. eapply slots_mgr; [|exact H]. intros m1 m2 Hf. cbn beta in Hf. revert Hf.
    destruct (last_slot_ pr =? mslot_ m1); [|destruct (bool_decide (p ∈ pending_upds_ m1))]; by intros [= <-]. }
  exists (pending_upds_ m'). split; [split|].
  - unfold pending. by rewrite Hm'.
  - done.
  - intros q l s. rewrite Hs. apply Hpast.
  - intros q Hq. rewrite Hs, Hps' in *. apply elem_of_app in Hq as [Hq|Hq]; [rewrite Hps in Hq; by apply Hw|].
    destruct (Z.eqb_spec (last_slot_ pr) (mslot_ m)) as [|Hne]; [by apply elem_of_nil in Hq|]. cbn [orb] in Hq.
    case_bool_decide; [by apply elem_of_nil in Hq|]. apply list_elem_of_singleton in Hq as ->.
    assert (slot_info w p = Some (g, last_slot_ pr, mslot_ m)) as Hi by (unfold slot_info; rewrite Hg; cbn; by rewrite Hc).
    exists (last_slot_ pr), (mslot_ m). split; [done|]. specialize (Hpast _ _ _ Hi). lia.
  - destruct Ht as [T1 T2]. split; [done|]. intros *. rewrite Hs. apply T2.
Qed.

Lemma buffer_send g ts w w' t sent ps ps' m :
  mgrs w !! g = Some m -> send_pending_ups g ts w = Some w' -> pending w' g = Some ps' -> ps = sent ++ ps' ->
  buffer_ok g w ps -> tried_ok g w t ->
  buffer_ok g w' ps' /\ tried_ok g w' (t ++ (pair (mslot_ m) <$> sent)) /\ slots_after sent w w'.
Proof.
  intros Hm H Hps' Heq Hb Ht. pose proof Hb as [Hps Hnd Hpast Hw].
  enough (slots_after sent w w') as Ha.
  { subst ps. apply NoDup_app in Hnd as (Hn1 & Hn2 & Hn3). destruct Ht as [T1 T2].
    assert (forall q, q ∈ sent -> exists l, slot_info w q = Some (g, l, mslot_ m) /\ l < mslot_ m) as Hs.
    { intros q Hq. destruct (Hw q) as (l & s & Hi & Hl); [apply elem_of_app; by left|].
      rewrite <- (slot_info_mgr _ _ _ _ _ _ Hi Hm). eauto. }
    split; [|split; [split|done]].
    - split; [done | done | |].
      + intros q l s. rewrite (Ha q). case_decide as Hq; [|apply Hpast].
        destruct (Hs q Hq) as (l' & -> & _). cbn. intros [= <- <-]. lia.
      + intros q Hq. rewrite (Ha q). rewrite decide_False by (intros Hq'; by apply (Hn2 q)). apply Hw, elem_of_app. by right.
    - apply NoDup_app. split_and!; [done | | by apply (NoDup_fmap _)]. intros [s0 q] Hq Hq'.
      apply list_elem_of_fmap in Hq' as (q' & [= -> ->] & Hq'). destruct (T2 _ _ Hq) as (l & s & Hi & Hl).
      destruct (Hs q' Hq') as (l' & Hi' & Hl'). rewrite Hi in Hi'. injection Hi' as -> _. lia.
    - intros s0 q Hq. rewrite (Ha q). apply elem_of_app in Hq as [Hq|Hq].
      + destruct (T2 _ _ Hq) as (l & s & Hi & Hl). rewrite Hi. case_decide; [|eauto]. exists s, s. split; [done|].
        specialize (Hpast _ _ _ Hi). lia.
      + apply list_elem_of_fmap in Hq as (q' & [= -> ->] & Hq). rewrite decide_True by done.
        destruct (Hs q' Hq) as (l & -> & _). eexists _, _. split; [done|]. cbn. lia. }
  unfold send_pending_ups in H. rewrite Hm in H. cbn [mbind option_bind] in H. unfold pending in Hps, Hps'.
  rewrite Hm in Hps. injection Hps as Hps. case_bool_decide as En.
  { injection H as <-. rewrite Hm in Hps'. injection Hps' as Hps'. assert (sent = []) as ->.
    { apply (f_equal length) in Heq. rewrite length_app, <- Hps', Hps in Heq. apply length_zero_iff_nil. lia. }
    intros q. by rewrite decide_False by apply not_elem_of_nil. }
  destruct (send (take _ (pending_upds_ m)) w) as [w1|] eqn:Es; [|done]. cbn [mbind option_bind] in H.
  pose proof (slots_send_loop _ _ _ _ _ _ _ _ Es) as Ha.
  assert (sent = take (n_to_send ts m) (pending_upds_ m)) as ->.
  { unfold upd_mgr_at in H. destruct (mgrs w1 !! g) as [m1|] eqn:Em1; [|done]. injection H as <-. cbn [mgrs] in Hps'.
    rewrite lookup_insert_eq in Hps'. injection Hps' as Hps'. cbn [pending_upds_ set_pending] in Hps'.
    assert (forall q, q ∈ take (n_to_send ts m) (pending_upds_ m) -> is_Some (core_at w q)) as Hcore.
    { intros q Hq. destruct (Hw q) as (l & s & Hi & _); [rewrite <- Hps; by apply (subseteq_take (n_to_send ts m))|].
      by eapply slot_info_core. }
    destruct (send_loop_same _ _ _ _ _ _ _ _ Hcore Es) as [K _].
    pose proof (sc_pending _ _ K g) as Ep. unfold pending in Ep. rewrite Em1, Hm in Ep. injection Ep as Ep.
    rewrite Ep in Hps'. rewrite <- Hps, <- (take_drop (n_to_send ts m) (pending_upds_ m)), <- Hps' in Heq at 1.
    by apply app_inv_tail in Heq. }
  assert (same_slots w1 w') as Hss by (eapply slots_mgr; [|exact H]; by intros m1 m2 [= <-]).
  intros q. rewrite (Hss q). apply Ha.
Qed.

Lemma buffer_slot g slot m w w' ps t :
  mgrs w !! g = Some m -> mslot_ m < slot -> upd_mgr_at g (fun m => Some (set_mslot slot m)) w = Some w' ->
  buffer_ok g w ps -> tried_ok g w t -> buffer_ok g w' ps /\ tried_ok g w' t.
Proof.
  intros Hm Hslot H [Hps Hnd Hpast Hw] [T1 T2].
  assert (forall q l s, slot_info w q = Some (g, l, s) -> s = mslot_ m /\ slot_info w' q = Some (g, l, slot)) as Hi.
  { intros q l s Hq. split; [by eapply slot_info_mgr|]. unfold upd_mgr_at in H. rewrite Hm in H. injection H as <-.
    unfold slot_info, get_mgr in *. cbn [prices mgrs]. destruct (prices w !! q) as [pr|]; [|done]. cbn [mbind option_bind] in *.
    destruct (mgrs w !! mgr_ pr); [|done]. injection Hq as Eg <- _. rewrite Eg, lookup_insert_eq. cbn. by rewrite Eg. }
  assert (forall q l s, slot_info w' q = Some (g, l, s) -> exists s0, slot_info w q = Some (g, l, s0) /\ s = slot) as Hi'.
  { intros q l s Hq. unfold upd_mgr_at in H. rewrite Hm in H. injection H as <-. unfold slot_info, get_mgr in *.
    cbn [prices mgrs] in Hq. destruct (prices w !! q) as [pr|]; [|done]. cbn [mbind option_bind] in *.
    destruct (decide (mgr_ pr = g)) as [Eg|Hne].
    - rewrite Eg, lookup_insert_eq in Hq. cbn in Hq. injection Hq as _ <- <-. exists (mslot_ m). split; [|done].
      rewrite Eg, Hm. cbn. by rewrite Eg.
    - rewrite lookup_insert_ne in Hq by done. destruct (mgrs w !! mgr_ pr); [|done]. by injection Hq as ? _ _. }
  split; [split|split]; try done.
  - rewrite <- Hps. eapply pending_mgr; [|exact H]. by intros m1 m2 [= <-].
  - intros q l s (s0 & Hq & ->)%Hi'. destruct (Hi _ _ _ Hq) as [-> _]. specialize (Hpast _ _ _ Hq). lia.
  - intros q Hq. destruct (Hw q Hq) as (l & s & Hq' & Hl). destruct (Hi _ _ _ Hq') as [-> ->]. eexists _, _. split; [done|]. lia.
  - intros s0 q Hq. destruct (T2 _ _ Hq) as (l & s & Hq' & Hl). destruct (Hi _ _ _ Hq') as [_ ->]. eauto.
Qed.

(** (C27) At most once in a slot: in every history of clients' updates, sends and
    rising slots, whatever they are and whether an update could be published or
    not, no price is given to [send] twice in the same slot.  Nothing is said of
    histories in which the slot goes back, as it does for a new connection. *)
Theorem no_retry_in_slot g w ps w' t :
  buffer_ok g w ps -> rtc (buffer_step g) (w, []) (w', t) -> NoDup t.
Proof.
  intros Hb Hr. assert (tried_ok g w []) as Ht by (split; [constructor | intros ? ? []%elem_of_nil]).
  enough (forall x y, rtc (buffer_step g) x y -> forall ps, buffer_ok g x.1 ps -> tried_ok g x.1 x.2 -> tried_ok g y.1 y.2) as H
    by apply (H _ _ Hr ps Hb Ht).
  clear. induction 1 as [x|x y z Hs _ IH]; [done|]. intros ps Hb Ht.
  destruct Hs as [px conf st is_agg p w w' t Hu|p w w' t Hc Ha|ts w w' t sent ps0 ps' m Hm Hs Hp Hp' He|slot m w w' t Hm Hl Hu]; cbn [fst snd] in *.
  - destruct (buffer_store _ _ _ _ _ _ _ _ _ _ Hu Hb Ht). by eapply IH.
  - destruct (buffer_dirty _ _ _ _ _ _ Hc Ha Hb Ht) as (ps' & ? & ?). by eapply IH.
  - assert (ps0 = ps) as -> by (pose proof (bo_pending _ _ _ Hb); congruence).
    destruct (buffer_send _ _ _ _ _ _ _ _ _ Hm Hs Hp' He Hb Ht) as (? & ? & _). by eapply IH.
  - destruct (buffer_slot _ _ _ _ _ _ _ Hm Hl Hu Hb Ht). by eapply IH.
Qed.


(** ** Unacknowledged transactions *)

(** Every price has less than 100, but [p] may have 100. *)
Definition small_but (x : option ptr) (w : pub_world) : Prop :=
  forall q pr, prices w !! q = Some pr ->
    (length (tvec_ pr) <= max_unacked)%nat /\ (x <> Some q -> (length (tvec_ pr) < max_unacked)%nat).

Lemma length_trim t : (length t <= max_unacked)%nat -> (length (trim t) < max_unacked)%nat.
Proof. unfold trim, max_unacked. case_bool_decide; rewrite ?length_drop; lia. Qed.

Lemma small_price x y p f w w' :
  upd_price_at p f w = Some w' -> small_but x w -> (x = y \/ x = Some p \/ x = None) ->
  (forall pr, prices w !! p = Some pr -> (length (tvec_ (f pr)) <= max_unacked)%nat
     /\ (y <> Some p -> (length (tvec_ (f pr)) < max_unacked)%nat)) -> small_but y w'.
Proof.
  unfold upd_price_at. intros H Hs Hxy Hf. unbind H. injection H as <-. intros q pr. cbn [prices].
  destruct (decide (q = p)) as [->|Hne].
  - rewrite lookup_insert_eq. intros H. apply (inj Some) in H as <-. apply (Hf _ eq_refl).
  - rewrite lookup_insert_ne by done. intros Hq. destruct (Hs q pr Hq) as [H1 H2]. split; [done|].
    intros Hy. apply H2. destruct Hxy as [->|[->| ->]]; congruence.
Qed.
Lemma small_mgr x g f w w' : upd_mgr_at g f w = Some w' -> small_but x w -> small_but x w'.
Proof. unfold upd_mgr_at. intros H Hs. unbind H. by injection H as <-. Qed.
Lemma small_same p f w w' :
  (forall pr, tvec_ (f pr) = tvec_ pr) -> upd_price_at p f w = Some w' -> small_but None w -> small_but None w'.
Proof. intros Hf H Hs. eapply small_price; [exact H | exact Hs | by left |]. intros pr Hp. rewrite Hf. by apply (Hs p). Qed.

Lemma small_inc_sent ps w w' : upd_prices_at ps inc_sent w = Some w' -> small_but None w -> small_but None w'.
Proof.
  revert w; induction ps as [|p ps IH]; intros w H Hs; cbn [upd_prices_at] in H; [by injection H as <-|].
  unbind H. eapply IH; [exact H|]. by eapply small_same; [| eassumption | exact Hs].
Qed.

(** Trimming every price of a list that has [x]. *)
Lemma small_trim x ps w w' :
  upd_prices_at ps (fun pr => set_tvec (trim (tvec_ pr)) pr) w = Some w' -> small_but x w ->
  match x with Some p => p ∈ ps | None => True end -> small_but None w'.
Proof.
  revert x w; induction ps as [|p ps IH]; intros x w H Hs Hx; cbn [upd_prices_at] in H.
  { injection H as <-. destruct x; [by apply elem_of_nil in Hx | done]. }
  unbind H. assert (forall pr, prices w !! p = Some pr -> (length (trim (tvec_ pr)) < max_unacked)%nat) as Ht
    by (intros pr Hp; apply length_trim; by apply (Hs p)).
  destruct (decide (x = Some p)) as [->|Hne].
  - eapply (IH None); [exact H | | done]. eapply small_price; [eassumption | exact Hs | by right; left|].
    intros pr Hp. cbn [tvec_ set_tvec]. specialize (Ht pr Hp). lia.
  - eapply (IH x); [exact H | |].
    + eapply small_price; [eassumption | exact Hs | by left|].
      intros pr Hp. cbn [tvec_ set_tvec]. specialize (Ht pr Hp). lia.
    + destruct x as [q|]; [|done]. apply elem_of_cons in Hx as [->|Hx]; [congruence | exact Hx].
Qed.

Lemma small_flush p qs covered w w' :
  flush p qs covered w = Some w' -> p ∈ covered -> small_but None w -> small_but None w'.
Proof.
  unfold flush. intros H Hp Hs. unbind H. subst. injection H as <-.
  match goal with E : upd_prices_at covered inc_sent ?v = Some ?v' |- _ =>
    assert (small_but None v) as Hk; [|exact (small_inc_sent covered v v' E Hk)] end.
  destruct (do_tx_ m); [by eapply small_mgr|].
  match goal with E : mbind _ _ = Some _ |- _ => unbind E; revert E end. intros Hc.
  eapply (small_trim (Some p)); [exact Hc | | exact Hp].
  match goal with E : upd_price_at _ _ ?v = Some _ |- _ =>
    assert (small_but None v) as Hk by (by eapply small_mgr); eapply small_price; [exact E | exact Hk | by right; right|] end.
  intros pr Hpr. cbn [tvec_ set_tvec]. rewrite length_app. simpl. destruct (Hk p pr Hpr) as [_ Hl].
  specialize (Hl ltac:(done)). split; [lia | done].
Qed.


Lemma small_guards p w ok w' : guards p w = Some (ok, w') -> small_but None w -> small_but None w'.
Proof.
  intros H Hs. assert (forall msg w1, on_error_sub p msg w = Some w1 -> small_but None w1) as Herr.
  { unfold on_error_sub. intros msg w1 He. unbind He. injection He as <-.
    by match goal with E : upd_price_at _ _ w = Some ?v |- _ => apply (small_same p (set_perr msg) w v) end. }
  assert (forall b w1, init_publish p w = Some (b, w1) -> small_but None w1) as Hi.
  { intros b w1 Hi. unfold init_publish in Hi. unbind Hi.
    destruct (pkey_pair _) as [[pk kc]|]; [destruct (gpub_ _) as [g|]|]; unbind Hi; injection Hi as <- <-; try (eapply Herr; eassumption).
    eapply small_same; [| eassumption | by eapply small_mgr]. done. }
  unfold guards in H. destruct (prices w !! p) as [pr|]; [|done]. cbn [mbind option_bind] in H.
  destruct (init_ pr); [|destruct (init_publish p w) as [[b w1]|] eqn:Ei; [|done]]; cbn [mbind option_bind] in H.
  - cbn [negb] in H. unbind H. by injection H as <- <-.
  - destruct b; cbn [negb] in H; [|by injection H as <- <-; eapply Hi]. unbind H. injection H as <- <-. by eapply Hi.
Qed.

Lemma small_send_loop all i j mgr1 qs rest w w' :
  drop i all = rest -> (j <= i)%nat -> small_but None w ->
  send_loop all i j mgr1 qs rest w = Some w' -> small_but None w'.
Proof.
  revert i j mgr1 qs w; induction rest as [|p rest IH]; intros i j mgr1 qs w Hd Hj Hs H; [by injection H as <-|].
  assert (drop (S i) all = rest) as Hd' by (rewrite <- Nat.add_1_r, <- drop_drop, Hd; done).
  assert (all !! i = Some p) as Hp by (rewrite <- (Nat.add_0_r i), <- lookup_drop, Hd; done).
  cbn [send_loop] in H. unbind H. subst.
  match goal with E : guards p ?v = Some (_, ?v') |- _ => assert (small_but None v') as Hs1 end.
  { eapply small_guards; [eassumption|]. by eapply small_same; [| eassumption | exact Hs]. }
  destruct (_ && _); [|by eapply IH; [| | exact Hs1 | exact H]; [done | lia]].
  match type of H with mbind _ ?o = _ => destruct o as [w2|] eqn:Em; [|done] end. cbn [mbind option_bind] in H.
  pose proof (small_mgr None _ _ _ _ Em Hs1) as Hs2.
  destruct (_ || _); [|by eapply IH; [| | exact Hs2 | exact H]; [done | lia]].
  destruct (flush _ _ _ w2) as [w3|] eqn:Ef; [|done]. cbn [mbind option_bind] in H.
  eapply IH; [done | | | exact H]; [lia|]. eapply small_flush; [exact Ef | | exact Hs2].
  apply list_elem_of_lookup. exists (i - j)%nat.
  unfold slice. rewrite lookup_take_lt, lookup_drop by lia. rewrite <- Hp. f_equal. lia.
Qed.

(** (C28) No price ever has 100 unacknowledged transactions: single updates,
    batches, acknowledgements and new prices in the buffer keep the bound. *)
Theorem unacked_bounded w w' :
  (exists px conf st is_agg p b, update px conf st is_agg p w = Some (b, w')) \/ (exists ps, send ps w = Some w')
  \/ (exists txid p, on_ack txid p w = Some w') ->
  (forall p pr, prices w !! p = Some pr -> (length (tvec_ pr) < 100)%nat) ->
  forall p pr, prices w' !! p = Some pr -> (length (tvec_ pr) < 100)%nat.
Proof.
  intros H Hs. assert (small_but None w) as Hs0.
  { intros q pr Hq. specialize (Hs q pr Hq). unfold max_unacked. lia. }
  enough (small_but None w') as Hs1 by (intros q pr Hq; by apply (Hs1 q pr Hq)).
  destruct H as [(px & conf & st & is_agg & p & b & H) | [(ps & H) | (txid & p & H)]].
  - unfold update in H. unbind H. pose proof (small_guards _ _ _ _ E Hs0) as Hs1.
    destruct b0; cbn [negb] in H; [|by injection H as _ <-]. unbind H. injection H as _ <-.
    eapply small_same; [| eassumption |]; [done|].
    match goal with E : upd_mgr_at _ _ _ = Some ?v |- _ => assert (small_but None v) as Hs2 by (by eapply small_mgr) end.
    destruct (do_tx_ _); [by eapply small_mgr|].
    match goal with E : mbind _ _ = Some _ |- _ => unbind E; rename E into Ht end.
    match type of Ht with upd_price_at _ _ ?v = _ => assert (small_but None v) as Hs3 by (by eapply small_mgr) end.
    eapply small_price; [exact Ht | exact Hs3 | by left|]. intros pr0 Hp. cbn [tvec_ set_tvec].
    destruct (Hs3 _ _ Hp) as [_ Hl]. specialize (Hl ltac:(done)).
    match goal with |- context [trim ?l] => pose proof (length_trim l) as Htr end. rewrite length_app in Htr. simpl in Htr. lia.
  - by eapply small_send_loop; [| | exact Hs0 | exact H]; [done | lia].
  - unfold on_ack in H. eapply small_price; [exact H | exact Hs0 | by left|]. intros pr Hp. cbn [tvec_ set_tvec].
    destruct (Hs0 _ _ Hp) as [_ Hl]. specialize (Hl ltac:(done)).
    assert (length (remove_tx txid (tvec_ pr)) <= length (tvec_ pr))%nat; [|lia].
    clear. induction (tvec_ pr) as [|x t IH]; simpl; [lia|]. destruct (decide _); simpl; lia.
Qed.

(** ** One update *)

(** What the guards leave of a manager. *)
Record same_tx (m m' : manager) : Prop := {
  st_out : tx_out m' = tx_out m;
  st_hash : block_hash m' = block_hash m;
  st_slot : mslot_ m' = mslot_ m;
  st_do_tx : do_tx_ m' = do_tx_ m;
  st_log : RpcClient.log (rpc_ m') = RpcClient.log (rpc_ m) }.
#[local] Instance same_tx_preorder : PreOrder same_tx.
Proof. split; [done | intros ??? [] []; split; congruence]. Qed.

Lemma same_tx_params q f m m' : upd_params q f m = Some m' -> same_tx m m'.
Proof.
  unfold upd_params, upd. intros H. destruct (heap (rpc_ m) !! q); [|done]. cbn [mbind option_bind] in H.
  by injection H as <-.
Qed.

Lemma price_mgr p f w w' pr m :
  (forall pr, mgr_ (f pr) = mgr_ pr) -> upd_price_at p f w = Some w' -> get_mgr p w = Some (pr, m) ->
  get_mgr p w' = Some (f pr, m).
Proof.
  unfold upd_price_at. intros Hf H Hg. destruct (get_mgr_some _ _ _ _ Hg) as [Hp Hm]. rewrite Hp in H.
  injection H as <-. unfold get_mgr. cbn [prices mgrs]. rewrite lookup_insert_eq. cbn [mbind option_bind].
  by rewrite Hf, Hm.
Qed.

Lemma guards_mgr p w ok w' pr m :
  guards p w = Some (ok, w') -> get_mgr p w = Some (pr, m) ->
  exists pr' m', get_mgr p w' = Some (pr', m') /\ mgr_ pr' = mgr_ pr /\ preq_ pr' = preq_ pr
    /\ tvec_ pr' = tvec_ pr /\ same_tx m m'.
Proof.
  intros H Hg. assert (forall b w1, init_publish p w = Some (b, w1) ->
    exists pr' m', get_mgr p w1 = Some (pr', m') /\ mgr_ pr' = mgr_ pr /\ preq_ pr' = preq_ pr
      /\ tvec_ pr' = tvec_ pr /\ same_tx m m') as Hi.
  { assert (forall msg w1, on_error_sub p msg w = Some w1 -> get_mgr p w1 = Some (set_perr msg pr, m)) as Herr.
    { unfold on_error_sub. intros msg w1 He. unbind He. injection He as <-.
      by match goal with E : upd_price_at _ _ w = Some ?v |- _ => apply (price_mgr p (set_perr msg) w v) end. }
    intros b w1 Hi. unfold init_publish in Hi. rewrite Hg in Hi. cbn [mbind option_bind] in Hi.
    destruct (pkey_pair m) as [[pk kc]|]; [destruct (gpub_ m) as [g|]|]; unbind Hi; injection Hi as <- <-;
      try (eexists _, m; split; [eapply Herr; eassumption | done]).
    match goal with E : upd_mgr_at _ _ w = Some _ |- _ =>
      edestruct (get_mgr_upd same_tx) as (m' & Hg' & Hs); [| | exact E | exact Hg |];
      [done | intros m1 m2; apply same_tx_params |] end.
    exists (set_init pr), m'. split; [|done]. by eapply price_mgr; [| eassumption |]. }
  unfold guards in H. destruct (get_mgr_some _ _ _ _ Hg) as [Hp _]. rewrite Hp in H. cbn [mbind option_bind] in H.
  destruct (init_ pr); cbn [mbind option_bind negb] in H.
  - rewrite Hg in H. cbn [mbind option_bind] in H. injection H as _ <-. by exists pr, m.
  - destruct (init_publish p w) as [[b w1]|] eqn:Ei; [|done]. cbn [mbind option_bind] in H.
    destruct b; cbn [negb] in H; [|injection H as _ <-; by eapply Hi]. unbind H. injection H as _ <-. by eapply Hi.
Qed.

Lemma upd_mgr_self g f w w' m : upd_mgr_at g f w = Some w' -> mgrs w !! g = Some m ->
  exists m', f m = Some m' /\ mgrs w' !! g = Some m' /\ prices w' = prices w /\ batches w' = batches w.
Proof.
  unfold upd_mgr_at. intros H Hm. rewrite Hm in H. cbn [mbind option_bind] in H.
  destruct (f m) as [m'|]; [|done]. cbn [mbind option_bind] in H. injection H as <-. exists m'.
  cbn [mgrs prices batches]. by rewrite lookup_insert_eq.
Qed.

(** The update request of a price. *)
Definition req_holds (q : ptr) (u : Bincode.upd_price) (m : manager) : Prop :=
  exists r sig ack, heap (rpc_ m) !! q = Some r /\ body_ r = upd_price u sig ack.

Lemma params_req q f m m' u : upd_params q f m = Some m' -> req_holds q u m -> req_holds q (f u) m'.
Proof.
  unfold upd_params, upd. intros H (r & sig & ack & Hr & Hb). rewrite Hr in H. cbn [mbind option_bind] in H.
  injection H as <-. exists (set_body (upd_price (f u) sig ack) r), sig, ack. cbn [rpc_ set_rpc heap].
  by rewrite lookup_insert_eq, Hb.
Qed.

(** The keys [init_publish] puts in the request the first time. *)
Definition with_keys (pr : price) (m : manager) (u : Bincode.upd_price) : Bincode.upd_price :=
  match pkey_pair m, gpub_ m with
  | Some (pk, kc), Some g =>
      if init_ pr then u else Bincode.set_program g (Bincode.set_pubcache kc (Bincode.set_publish pk u))
  | _, _ => u
  end.

Lemma guards_req p w w' pr m u pr' m' :
  guards p w = Some (true, w') -> get_mgr p w = Some (pr, m) -> req_holds (preq_ pr) u m ->
  get_mgr p w' = Some (pr', m') -> req_holds (preq_ pr) (with_keys pr m u) m'.
Proof.
  intros H Hg Hu Hg'. unfold guards in H. destruct (get_mgr_some _ _ _ _ Hg) as [Hp Hm]. rewrite Hp in H.
  cbn [mbind option_bind] in H. unfold with_keys. destruct (init_ pr).
  - cbn [mbind option_bind negb] in H. rewrite Hg in H. cbn [mbind option_bind] in H. injection H as _ <-.
    rewrite Hg in Hg'. injection Hg' as _ <-. by destruct (pkey_pair m) as [[pk kc]|], (gpub_ m).
  - destruct (init_publish p w) as [[b w1]|] eqn:Ei; [|done]. cbn [mbind option_bind] in H.
    destruct b; cbn [negb] in H; [|done]. unbind H. injection H as _ ->.
    unfold init_publish in Ei. rewrite Hg in Ei. cbn [mbind option_bind] in Ei.
    destruct (pkey_pair m) as [[pk kc]|]; [destruct (gpub_ m) as [g|]|]; unbind Ei; try discriminate Ei.
    injection Ei as <-.
    match goal with E : upd_mgr_at _ _ w = Some ?v, E' : upd_price_at p _ ?v = Some ?w2 |- _ =>
      destruct (upd_mgr_self _ _ _ _ _ E Hm) as (m1 & Hf & Hm1 & Hp1 & _);
      assert (get_mgr p v = Some (pr, m1)) as Hv by (unfold get_mgr; rewrite Hp1, Hp; cbn [mbind option_bind]; by rewrite Hm1);
      pose proof (price_mgr p set_init v w2 pr m1 ltac:(done) E' Hv) as Hg1 end.
    rewrite Hg1 in Hg'. injection Hg' as _ <-. apply (params_req _ _ _ _ _ Hf Hu).
Qed.

Lemma send_tx_one q u m m' : send_tx [q] 0 0 m = Some m' -> req_holds q u m ->
  exists r, Bincode.build ed25519_sign [u] 0 0 = Some r /\ RpcClient.log (rpc_ m') = RpcClient.log (rpc_ m)
    /\ tx_out m' = tx_out m ++ match r with Some (msg, _) => [msg] | None => [] end.
Proof.
  unfold send_tx, all_upds. cbn [mapM]. intros H (r0 & sig0 & ack0 & Hr & Hbody).
  assert (upd_of (rpc_ m) q = Some u) as Hu by (unfold upd_of; rewrite Hr; cbn [mbind option_bind]; by rewrite Hbody).
  rewrite Hu in H. cbn [mbind option_bind mret option_ret] in H.
  destruct (Bincode.build _ [u] 0 0) as [r|] eqn:Eb; [|done]. cbn [mbind option_bind] in H.
  exists r. destruct r as [[msg sig]|]; [|injection H as <-; by rewrite app_nil_r].
  unfold upd in H. rewrite Hr in H. by injection H as <-.
Qed.

(** The instruction of an update: the price's own, with its new values, the
    manager's current slot and its recent block hash; and its message to the
    proxy. *)
Definition next_upd (px conf st : Z) (is_agg : bool) (pr : price) (m : manager) (u : Bincode.upd_price) : Bincode.upd_price :=
  Bincode.set_block_hash (block_hash m) (Bincode.set_slot (mslot_ m)
    (Bincode.set_price px conf st is_agg (with_keys pr m u))).
Definition proxy_message (u : Bincode.upd_price) : bytes :=
  le_bytes 2 Bincode.PC_TPU_PROTO_ID ++ le_bytes 2 (Z.of_nat (4 + length (upd_tx ed25519_sign u))) ++ upd_tx ed25519_sign u.

(** What [update] did: to the proxy, or to the node, where the request waits for
    its answer and the signature for its acknowledgement; or nothing. *)
Definition update_done (b : bool) (u : Bincode.upd_price) (pr pr' : price) (m m' : manager) : Prop :=
  if b then
    if do_tx_ m then
      tx_out m' = tx_out m ++ [proxy_message u] /\ RpcClient.log (rpc_ m') = RpcClient.log (rpc_ m) /\ tvec_ pr' = tvec_ pr
    else exists r, heap (rpc_ m') !! preq_ pr = Some r /\ tx_out m' = tx_out m
      /\ RpcClient.log (rpc_ m') = RpcClient.log (rpc_ m) ++ [message random host true (upd_text ed25519_sign (rid_ r) u) (rpc_ m)]
      /\ (rid_ r, preq_ pr) ∈ rv_ (clt (rpc_ m'))
      /\ tvec_ pr' = trim (tvec_ pr ++ [(sig_to_text (upd_signature ed25519_sign u), sent_ts_ r)])
  else tx_out m' = tx_out m /\ RpcClient.log (rpc_ m') = RpcClient.log (rpc_ m) /\ tvec_ pr' = tvec_ pr.

(** (C26) [update] succeeds exactly when the price has keys, a publisher slot and
    a connection that is ready; otherwise nothing is sent or recorded.  It sends
    the price's own instruction with the new price, confidence and status, the
    manager's current slot and recent block hash and, the first time, its keys:
    to the proxy as one signed transaction in its frame, or to the node as one
    [sendTransaction] call of that transaction, under an id the price's request
    waits for, with the signature and time put on the list of unacknowledged
    transactions. *)
Theorem update_sends px conf st is_agg p w b w' pr m u0 :
  (forall kp d, length (ed25519_sign kp d) = Bincode.sig_len) ->
  get_mgr p w = Some (pr, m) -> req_holds (preq_ pr) u0 m -> Bincode.upd_ok (next_upd px conf st is_agg pr m u0) ->
  update px conf st is_agg p w = Some (b, w') ->
  b = c_ok (core_of pr m) /\ batches w' = batches w
  /\ exists pr' m', prices w' !! p = Some pr' /\ mgrs w' !! mgr_ pr = Some m'
    /\ update_done b (next_upd px conf st is_agg pr m u0) pr pr' m m'.
Proof.
  intros Hsign Hg Hu Hok H. unfold update in H. destruct (guards p w) as [[ok w1]|] eqn:G; [|done]. cbn [mbind option_bind] in H.
  destruct (kept_guards _ _ _ _ _ G (get_mgr_core _ _ _ _ Hg)) as [K ->].
  destruct (guards_mgr _ _ _ _ _ _ G Hg) as (pr1 & m1 & Hg1 & Emg & Erq & Etv & [Eo Eh Es Ed El]).
  destruct (get_mgr_some _ _ _ _ Hg1) as [Hp1 Hm1]. rewrite Emg in Hm1. pose proof (kp_batches _ _ K) as Eb.
  destruct (c_ok (core_of pr m)); cbn [negb] in H.
  2:{ injection H as <- <-. split_and!; [done | done |]. exists pr1, m1. by split_and!. }
  pose proof (guards_req _ _ _ _ _ _ _ _ G Hg Hu Hg1) as Hu1.
  rewrite Hg1 in H. cbn [mbind option_bind] in H. rewrite Emg, Erq, Ed in H.
  destruct (upd_mgr_at (mgr_ pr) _ w1) as [w2|] eqn:Ep; [|done]. cbn [mbind option_bind] in H.
  destruct (upd_mgr_self _ _ _ _ _ Ep Hm1) as (m2 & Hf2 & Hm2 & Hp2 & Eb2).
  pose proof (same_tx_params _ _ _ _ Hf2) as [Eo2 _ _ _ El2].
  pose proof (params_req _ _ _ _ _ Hf2 Hu1) as Hu2. cbv beta in Hu2. rewrite Eh, Es in Hu2.
  fold (next_upd px conf st is_agg pr m u0) in Hu2. set (u := next_upd px conf st is_agg pr m u0) in *.
  unfold update_done. destruct (do_tx_ m).
  - destruct (upd_mgr_at _ (send_tx _ 0 0) w2) as [w3|] eqn:Et; [|done]. cbn [mbind option_bind] in H.
    destruct (upd_mgr_self _ _ _ _ _ Et Hm2) as (m3 & Hf3 & Hm3 & Hp3 & Eb3).
    destruct (send_tx_one _ _ _ _ Hf3 Hu2) as (r & Hb & El3 & Ho3).
    rewrite (Bincode.build_frame ed25519_sign Hsign u [u] 0 0) in Hb by (done || (cbn; lia) || by constructor).
    injection Hb as <-. unfold upd_price_at in H. rewrite Hp3, Hp2, Hp1 in H. injection H as <- <-.
    cbn [prices mgrs batches]. rewrite lookup_insert_eq. split_and!; [done | congruence |].
    exists (inc_sent pr1), m3. split_and!; [done | done | by rewrite Ho3, Eo2, Eo | congruence | done].
  - destruct (upd_mgr_at _ _ w2) as [w3|] eqn:Et; [|done]. cbn [mbind option_bind] in H.
    destruct (upd_mgr_self _ _ _ _ _ Et Hm2) as (m3 & Hf3 & Hm3 & Hp3 & Eb3).
    destruct (RpcClient.send _ _ _ _ _ _) as [rw|] eqn:Esend; [|done]. cbn [mbind option_bind] in Hf3. injection Hf3 as <-.
    destruct Hu2 as (r2 & sig2 & ack2 & Hr2 & Hb2).
    destruct (send_update _ _ _ _ _ _ _ _ _ _ _ Hsign Hok Hr2 Hb2 Esend) as (r3 & Hr3 & Hb3 & Ht3 & Hl3 & Hrv).
    rewrite Hm3 in H. cbn [mbind option_bind] in H. unfold sig_of in H. cbn [rpc_ set_rpc] in H. rewrite Hr3 in H.
    cbn [mbind option_bind] in H. rewrite Hb3 in H. unfold upd_price_at in H. rewrite Hp3, Hp2, Hp1 in H.
    cbn [mbind option_bind prices] in H. rewrite lookup_insert_eq in H. injection H as <- <-.
    cbn [prices mgrs batches]. rewrite lookup_insert_eq. split_and!; [done | congruence |].
    eexists _, _. split; [done|]. split; [exact Hm3|]. exists r3. cbn [rpc_ set_rpc tx_out tvec_ inc_sent set_tvec].
    split_and!; [done | by rewrite Eo2 | by rewrite Hl3, El2, El | done | by rewrite Etv].
Qed.

(** The acknowledgement of a transaction takes it, and only it, off the
    list its signature was added to. *)
Theorem ack_clears txid p w w' pr t1 t2 ts :
  prices w !! p = Some pr -> tvec_ pr = t1 ++ (txid, ts) :: t2 -> txid ∉ t1.*1 -> on_ack txid p w = Some w' ->
  exists pr', prices w' !! p = Some pr' /\ tvec_ pr' = t1 ++ t2
    /\ (has_unacked_updates pr' = false <-> tvec_ pr = [(txid, ts)])
    /\ mgrs w' = mgrs w /\ batches w' = batches w.
Proof.
  unfold on_ack, upd_price_at. intros Hp Ht Hn H. rewrite Hp in H. injection H as <-. cbn [prices mgrs batches].
  rewrite lookup_insert_eq. eexists. split; [done|]. cbn [tvec_ set_tvec]. rewrite Ht.
  assert (remove_tx txid (t1 ++ (txid, ts) :: t2) = t1 ++ t2) as Hr.
  { clear -Hn. induction t1 as [|x t1 IH]; simpl; [by rewrite decide_True|].
    rewrite fmap_cons, not_elem_of_cons in Hn. destruct Hn. rewrite decide_False by congruence. by rewrite IH. }
  rewrite Hr. split_and!; try done. unfold has_unacked_updates. cbn [tvec_ set_tvec].
  rewrite negb_false_iff, bool_decide_eq_true. split.
  - intros [-> ->]%app_nil. done.
  - destruct t1 as [|x [|y t1]]; simpl; [intros [= ->]; done | intros [= ?]; done | intros [= ?]; done].
Qed.
End publish.

(** ** Witnesses *)

(** One manager with a proxy or without, three prices, at most two per batch. *)
Definition test_prices : gmap ptr price :=
  let pr (q : ptr) := mk_price 10%positive q false e_publish 0 0 [] PubStats.clear_stats None in
  {[ 1%positive := pr 1%positive; 2%positive := pr 2%positive; 3%positive := pr 3%positive ]}.
Definition test_reqs : gmap ptr (rpc_request (key_cache := Z)) :=
  let q k := new_rpc_request (upd_price (Bincode.test_upd k) [] []) in
  {[ 1%positive := q 4; 2%positive := q 5; 3%positive := q 6 ]}.
Definition test_mgr (do_tx : bool) : manager :=
  mk_manager (mk_world new_rpc_client test_reqs [] 0 0 tt) [] 3 do_tx do_tx 77 2 20000 0 (replicate 32 8)
    (Some (replicate 32 1, 7)) (Some (replicate 32 2)) [1%positive; 2%positive; 3%positive] 0.
Definition test_pub (do_tx : bool) : pub_world :=
  mk_pub_world {[ 10%positive := test_mgr do_tx ]} test_prices [] [].

Abbreviation tsend_prices := (send Bincode.test_sign test_clock test_random test_host [] []).
Abbreviation tupdate := (update Bincode.test_sign test_clock test_random test_host [] []).
Abbreviation tpending := (send_pending_ups Bincode.test_sign test_clock test_random test_host [] []).

Definition res {A} (d : A) (o : option A) : A := match o with Some x => x | None => d end.

Lemma test_cores b p : p ∈ [1; 2; 3]%positive -> exists c, core_at (test_pub b) p = Some c /\ c_max c = 2.
Proof.
  intros H. repeat (apply elem_of_cons in H as [->|H]; [eexists; split; reflexivity|]). by apply elem_of_nil in H.
Qed.

Definition sent_pub : pub_world := res (test_pub true) (tpending 10%positive 5 (test_pub true)).
Lemma send_pending_ups_ok_witness :
  exists m' sent, mgrs sent_pub !! 10%positive = Some m' /\ [1; 2; 3]%positive = sent ++ pending_upds_ m'
    /\ batched (test_pub true) sent_pub sent 2.
Proof.
  destruct (send_pending_ups_ok Bincode.test_sign test_clock test_random test_host [] [] 10%positive 5 (test_pub true)
              sent_pub (test_mgr true) 2) as (m' & sent & H1 & H2 & H3 & _).
  - reflexivity.
  - lia.
  - reflexivity.
  - apply test_cores.
  - vm_compute. reflexivity.
  - exists m', sent. split_and!; [exact H1 | exact H2 | exact H3].
Defined.

(** Three updates of two prices in slot 77, a send, an update too many, and one in
    slot 78. *)
Abbreviation tdirty := (fun p w => res w (add_dirty_price (key_cache := Z) (app_t := unit) p 10%positive w)).
Definition idle_pub : pub_world := mk_pub_world {[ 10%positive := set_pending [] 0 (test_mgr true) ]} test_prices [] [].
Definition full_pub : pub_world := tdirty 2%positive (tdirty 1%positive (tdirty 1%positive idle_pub)).
Definition slot_pub : pub_world :=
  let w := tdirty 1%positive (res full_pub (tpending 10%positive 5 full_pub)) in
  res w (upd_mgr_at 10%positive (fun m => Some (set_mslot 78 m)) w).
Definition late_pub : pub_world := let w := tdirty 1%positive slot_pub in res w (tpending 10%positive 500000000 w).

Lemma idle_buffer_ok : buffer_ok 10%positive idle_pub [].
Proof.
  split; [reflexivity | constructor | | by intros p ?%elem_of_nil].
  intros p l s. unfold slot_info, get_mgr. cbn [prices mgrs idle_pub]. destruct (test_prices !! p) as [pr|] eqn:Ep; [|done].
  assert (map_Forall (fun _ pr => mgr_ pr = 10%positive /\ last_slot_ pr = 0) test_prices) as Hall by by_decide.
  destruct (Hall p pr Ep) as [Em El]. cbn [mbind option_bind]. rewrite Em, lookup_singleton_eq. cbn. rewrite Em, El. intros [= <- <-]. done.
Qed.

Lemma no_retry_in_slot_witness :
  exists t, rtc (buffer_step Bincode.test_sign test_clock test_random test_host [] [] 10%positive) (idle_pub, []) (late_pub, t)
    /\ t = [(77, 1%positive); (77, 2%positive); (78, 1%positive)] /\ NoDup t.
Proof.
  assert (rtc (buffer_step Bincode.test_sign test_clock test_random test_host [] [] 10%positive) (idle_pub, [])
            (late_pub, ([] ++ (pair 77 <$> [1; 2]%positive)) ++ (pair 78 <$> [1%positive]))) as Hr.
  { eapply rtc_l; [apply (bs_dirty _ _ _ _ _ _ _ 1%positive); vm_compute; reflexivity|].
    eapply rtc_l; [apply (bs_dirty _ _ _ _ _ _ _ 1%positive); vm_compute; reflexivity|].
    eapply rtc_l; [apply (bs_dirty _ _ _ _ _ _ _ 2%positive); vm_compute; reflexivity|].
    eapply rtc_l; [eapply (bs_send _ _ _ _ _ _ _ 5 full_pub (res full_pub (tpending 10%positive 5 full_pub)) _ [1; 2]%positive); vm_compute; reflexivity|].
    eapply rtc_l; [apply (bs_dirty _ _ _ _ _ _ _ 1%positive); vm_compute; reflexivity|].
    eapply rtc_l; [eapply (bs_slot _ _ _ _ _ _ _ 78 _ _ slot_pub); vm_compute; reflexivity|].
    eapply rtc_l; [apply (bs_dirty _ _ _ _ _ _ _ 1%positive); vm_compute; reflexivity|].
    eapply rtc_l; [eapply (bs_send _ _ _ _ _ _ _ 500000000 (tdirty 1%positive slot_pub) late_pub _ [1%positive]); vm_compute; reflexivity|].
    apply rtc_refl. }
  eexists. split; [exact Hr|]. split; [reflexivity|].
  exact (no_retry_in_slot Bincode.test_sign test_clock test_random test_host [] [] 10%positive idle_pub [] late_pub _ idle_buffer_ok Hr).
Defined.

Definition empty_pub : pub_world := 
  mk_pub_world {[ 10%positive := set_pending [3%positive] 0 (test_mgr true) ]} test_prices [] [].
Lemma add_dirty_price_ok_witness :
  exists w' m', add_dirty_price 1%positive 10%positive empty_pub = Some w' /\ mgrs w' !! 10%positive = Some m'
    /\ NoDup (pending_upds_ m') /\ pending_upds_ m' = [3; 1]%positive.
Proof.
  destruct (add_dirty_price 1%positive 10%positive empty_pub) as [w'|] eqn:E.
  - destruct (add_dirty_price_ok 1%positive 10%positive empty_pub w' (set_pending [3%positive] 0 (test_mgr true))
                (mk_price 10%positive 1%positive false e_publish 0 0 [] PubStats.clear_stats None)) as (m' & H1 & H2 & H3 & _).
    + reflexivity.
    + reflexivity.
    + apply NoDup_singleton.
    + exact E.
    + exists w', m'. split_and!; [reflexivity | exact H1 | exact H2 | rewrite H3; reflexivity].
  - discriminate E.
Defined.

Definition batch_pub : pub_world := res (test_pub false) (tsend_prices [1; 2; 3]%positive (test_pub false)).
Lemma unacked_bounded_witness :
  exists pr, prices batch_pub !! 2%positive = Some pr /\ (length (tvec_ pr) < 100)%nat.
Proof.
  destruct (prices batch_pub !! 2%positive) as [pr|] eqn:E.
  - exists pr. split; [reflexivity|].
    apply (unacked_bounded Bincode.test_sign test_clock test_random test_host [] [] (test_pub false) batch_pub) with (p := 2%positive).
    + right. left. exists [1; 2; 3]%positive. vm_compute. reflexivity.
    + apply (bool_decide_unpack (map_Forall (fun _ qr => (length (tvec_ qr) < 100)%nat) test_prices)). vm_compute. exact I.
    + exact E.
  - exfalso. revert E. vm_compute. discriminate.
Defined.

Definition test_price : price := mk_price 10%positive 1%positive false e_publish 0 0 [] PubStats.clear_stats None.
Definition next_test (b : bool) : Bincode.upd_price := next_upd 43 2 1 false test_price (test_mgr b) (Bincode.test_upd 4).

(** With the proxy and without. *)
Lemma update_sends_witness :
  (exists w' m', tupdate 43 2 1 false 1%positive (test_pub true) = Some (true, w') /\ mgrs w' !! 10%positive = Some m'
     /\ tx_out m' = [proxy_message Bincode.test_sign (next_test true)])
  /\ exists w' m' pr' id, tupdate 43 2 1 false 1%positive (test_pub false) = Some (true, w') /\ mgrs w' !! 10%positive = Some m'
     /\ RpcClient.log (rpc_ m') = [message test_random test_host true (upd_text Bincode.test_sign id (next_test false)) (rpc_ (test_mgr false))]
     /\ prices w' !! 1%positive = Some pr' /\ length (tvec_ pr') = 1%nat.
Proof.
  assert (forall b, req_holds 1%positive (Bincode.test_upd 4) (test_mgr b)) as Hreq by (intros b; by do 3 eexists).
  split.
  - destruct (tupdate 43 2 1 false 1%positive (test_pub true)) as [[b w']|] eqn:E; [|exfalso; revert E; vm_compute; discriminate].
    destruct (update_sends Bincode.test_sign test_clock test_random test_host [] [] 43 2 1 false 1%positive (test_pub true) b w'
                test_price (test_mgr true) (Bincode.test_upd 4) (fun _ _ => eq_refl) eq_refl (Hreq true) ltac:(by split_and!) E)
      as (Hb & _ & pr' & m' & _ & Hm & Hd). rewrite Hb in Hd |- *. exists w', m'. split; [reflexivity|]. split; [exact Hm|]. apply Hd.
  - destruct (tupdate 43 2 1 false 1%positive (test_pub false)) as [[b w']|] eqn:E; [|exfalso; revert E; vm_compute; discriminate].
    destruct (update_sends Bincode.test_sign test_clock test_random test_host [] [] 43 2 1 false 1%positive (test_pub false) b w'
                test_price (test_mgr false) (Bincode.test_upd 4) (fun _ _ => eq_refl) eq_refl (Hreq false) ltac:(by split_and!) E)
      as (Hb & _ & pr' & m' & Hp & Hm & Hd). rewrite Hb in Hd |- *.
    destruct Hd as (r & _ & _ & Hl & _ & Ht). exists w', m', pr', (rid_ r). split; [reflexivity|]. split; [exact Hm|].
    split; [exact Hl|]. split; [exact Hp|]. rewrite Ht. reflexivity.
Defined.

Lemma ack_clears_witness :
  let w := mk_pub_world (mgrs (test_pub false)) {[ 1%positive := mk_price 10%positive 1%positive true e_publish 0 0
             [([97], 1); ([98], 2)] PubStats.clear_stats None ]} [] [] in
  exists w' pr', on_ack ([98]) 1%positive w = Some w' /\ prices w' !! 1%positive = Some pr' /\ tvec_ pr' = [([97], 1)].
Proof.
  intros w. destruct (on_ack ([98]) 1%positive w) as [w'|] eqn:E; [|discriminate E].
  destruct (ack_clears ([98]) 1%positive w w' _ [([97], 1)] [] 2 eq_refl eq_refl ltac:(intros H; apply list_elem_of_singleton in H; discriminate H) E) as (pr' & H1 & H2 & _).
  exists w', pr'. split_and!; [reflexivity | exact H1 | exact H2].
Defined.

(** Without the proxy, a batch of two records with its last price the signature
    kept in that price's own request, which the batch did not set: here the text
    of an empty signature, and no acknowledgement will match it. *)
Example batch_signature_stale :
  (w ← tsend_prices [1; 2; 3]%positive (test_pub false);
   p ← prices w !! 2%positive; m ← mgrs w !! 10%positive; r ← heap (rpc_ m) !! 1%positive;
   Some (batches w, tvec_ p, match body_ r with upd_price _ sig _ => sig | _ => [] end))
  = Some ([[1; 2]; [3]]%positive, [(sig_to_text [], 0)], replicate 64 7).
Proof. vm_compute. reflexivity. Qed.

(** A batch that is not full is lost when the last price cannot be published. *)
Example partial_batch_lost :
  (w ← upd_price_at 2%positive (fun pr => mk_price (mgr_ pr) (preq_ pr) (init_ pr) (st_ pr) no_pub (last_slot_ pr)
         (tvec_ pr) (stats_ pr) (perr_ pr)) (test_pub true);
   w ← tsend_prices [1; 2]%positive w; p ← prices w !! 1%positive; Some (batches w, last_slot_ p)) = Some ([], 77).
Proof. vm_compute. reflexivity. Qed.

(** After the interval three full batches of one price go in one call. *)
Example all_batches_sent :
  let m := test_mgr true in
  let one := mk_manager (rpc_ m) (tx_out m) (status_ m) (do_tx_ m) (tx_conn m) (mslot_ m) 1 (cu_units_ m)
    (cu_price_ m) (block_hash m) (pkey_pair m) (gpub_ m) (pending_upds_ m) (last_upd_ts_ m) in
  (w ← tpending 10%positive 400000001 (mk_pub_world {[ 10%positive := one ]} test_prices [] []);
   m ← mgrs w !! 10%positive; Some (batches w, length (tx_out m), pending_upds_ m))
  = Some ([[1]; [2]; [3]]%positive, 3%nat, []).
Proof. vm_compute. reflexivity. Qed.
