(* ===== verification/Schedule.v ===== *)
(** * The publishing schedule ([manager::schedule] and [manager::poll_schedule]
    of [pc/manager.cpp], [price_sched] of [pc/request.cpp])

    The manager keeps its price schedules in a vector ordered by hash and fires
    them, in rounds, at offsets into the publish interval that their hashes
    spread evenly. *)

From S2P Require Import Prelude.
From Stdlib Require Import Sorted Permutation.

(** ** Entries *)

Definition fraction : Z := 997.
Definition PC_PUB_INTERVAL : Z := 1000000000.

(** An entry: the price account, and its hash. *)
Record price_sched := mk_price_sched { sk_ : bytes; shash_ : Z }.
#[export] Instance price_sched_eq_dec : EqDecision price_sched.
Proof. solve_decision. Defined.

(** [price_sched::submit]: from the first and third words of the account. *)
Definition sched_hash (acc : bytes) : Z :=
  Z.lxor (of_le (slice 0 8 acc)) (of_le (slice 16 8 acc)) mod fraction.

(** ** [manager::schedule] *)

(** The loop from index [i] down: neighbours out of order are swapped. *)
Fixpoint sift (i : nat) (l : list price_sched) : list price_sched :=
  match i with
  | O => l
  | S i' =>
      match l !! i, l !! i' with
      | Some a, Some b => sift i' (if shash_ a <? shash_ b then <[i := b]> (<[i' := a]> l) else l)
      | _, _ => l
      end
  end.
Definition schedule (k : price_sched) (kvec : list price_sched) : list price_sched :=
  sift (length kvec) (kvec ++ [k]).

(** ** [manager::poll_schedule] *)

Record sched := mk_sched { kvec_ : list price_sched; kidx_ : Z; is_pub_ : bool; pub_ts_ : Z; pub_int_ : Z }.
Definition new_sched : sched := mk_sched [] (2 ^ 32 - 1) false 0 PC_PUB_INTERVAL.
Definition set_kvec (l : list price_sched) (s : sched) : sched :=
  mk_sched l (kidx_ s) (is_pub_ s) (pub_ts_ s) (pub_int_ s).

(** When an entry is due; the product is that of [uint64_t], the sum that of
    [int64_t]. *)
Definition due (s : sched) (k : price_sched) : Z :=
  i64 (pub_ts_ s + i64 (u64 (u64 (pub_int_ s) * shash_ k) / fraction)).

(** The loop: entries fired in order, until one is not due. *)
Fixpoint fire (fuel : nat) (now : Z) (s : sched) : list price_sched * sched :=
  match fuel with
  | O => ([], s)
  | S fuel' =>
      if is_pub_ s then
        match (if kidx_ s <? Z.of_nat (length (kvec_ s)) then kvec_ s !! Z.to_nat (kidx_ s) else None) with
        | Some k =>
            if due s k <? now then
              let i := u32 (kidx_ s + 1) in
              let '(l, s) := fire fuel' now
                (mk_sched (kvec_ s) i (negb (Z.of_nat (length (kvec_ s)) <=? i)) (pub_ts_ s) (pub_int_ s)) in
              (k :: l, s)
            else ([], s)
        | None => ([], s)
        end
      else ([], s)
  end.

Definition start_round (now : Z) (s : sched) : sched :=
  if negb (is_pub_ s) && (pub_int_ s <? now - pub_ts_ s)
  then mk_sched (kvec_ s) 0 true now (pub_int_ s) else s.
(** The entries that fire, and the state; [kvec_] bounds the loop. *)
Definition poll_schedule (now : Z) (s : sched) : list price_sched * sched :=
  fire (length (kvec_ s)) now (start_round now s).

(** [set_publish_interval], in milliseconds. *)
Definition set_publish_interval (ms : Z) (s : sched) : sched :=
  mk_sched (kvec_ s) (kidx_ s) (is_pub_ s) (pub_ts_ s) (i64 (ms * 1000000)).
Definition get_publish_interval (s : sched) : Z := Z.quot (pub_int_ s) 1000000.

(** ** The order *)

Definition hash_le (a b : price_sched) : Prop := shash_ a <= shash_ b.
#[export] Instance hash_le_preorder : PreOrder hash_le.
Proof. split; [intros a; unfold hash_le; lia | intros a b c; unfold hash_le; lia]. Qed.

(** What [schedule] is meant to do: insert behind all entries not greater. *)
Fixpoint insert_sorted (k : price_sched) (l : list price_sched) : list price_sched :=
  match l with
  | [] => [k]
  | x :: l' => if shash_ k <? shash_ x then k :: l else x :: insert_sorted k l'
  end.

Lemma insert_sorted_perm k l : insert_sorted k l ≡ₚ k :: l.
Proof.
  induction l as [|x l IH]; simpl; [done|]. destruct (_ <? _); [done|].
  rewrite IH. apply perm_swap.
Qed.

Lemma insert_sorted_sorted k l : StronglySorted hash_le l -> StronglySorted hash_le (insert_sorted k l).
Proof.
  induction 1 as [|x l Hl IH Hx]; simpl; [repeat constructor|]. destruct (Z.ltb_spec (shash_ k) (shash_ x)).
  - constructor; [by constructor|]. constructor; [unfold hash_le; lia|].
    eapply Forall_impl; [exact Hx|]. unfold hash_le. lia.
  - constructor; [exact IH|]. rewrite insert_sorted_perm. constructor; [unfold hash_le; lia | exact Hx].
Qed.

(** On entries in order, moving [k] down past [l2] and the rest of the loop is
    the insertion. *)
Lemma sift_sorted l1 k l2 :
  StronglySorted hash_le l1 -> sift (length l1) (l1 ++ k :: l2) = insert_sorted k l1 ++ l2.
Proof.
  revert k l2. induction l1 as [|x l1 IH] using rev_ind; intros k l2 Hs; [done|].
  assert (StronglySorted hash_le l1 /\ Forall (fun y => hash_le y x) l1) as [Hs1 Hx].
  { clear IH. induction l1 as [|y l1 IH]; [split; constructor|]. apply StronglySorted_inv in Hs as [Hs Hy].
    destruct (IH Hs) as [H1 H2]. rewrite Forall_app, Forall_cons in Hy. destruct Hy as (Hy & Hyx & _).
    by repeat constructor. }
  rewrite length_app. cbn [length]. rewrite Nat.add_1_r, <- app_assoc. cbn [app sift].
  rewrite lookup_app_r, Nat.sub_succ_l, Nat.sub_diag by lia.
  rewrite (lookup_app_r l1 _ (length l1)), Nat.sub_diag by lia. cbn [lookup list_lookup].
  destruct (Z.ltb_spec (shash_ k) (shash_ x)) as [Hk|Hk].
  - rewrite (insert_app_r_alt l1 _ (length l1)), Nat.sub_diag by lia.
    rewrite insert_app_r_alt, Nat.sub_succ_l, Nat.sub_diag by lia. cbn [insert list_insert].
    rewrite (IH k (x :: l2) Hs1). clear -Hk Hx. induction l1 as [|y l1 IH]; simpl.
    + by rewrite (proj2 (Z.ltb_lt _ _) Hk).
    + apply Forall_cons in Hx as [Hy Hx]. destruct (shash_ k <? shash_ y); simpl; [by rewrite <- app_assoc|].
      by rewrite IH.
  - assert (insert_sorted k (l1 ++ [x]) = l1 ++ [x; k]) as ->.
    { clear IH Hs Hs1. induction l1 as [|y l1 IH]; simpl; [by rewrite (proj2 (Z.ltb_ge _ _) Hk)|].
      apply Forall_cons in Hx as [Hy Hx]. unfold hash_le in Hy. rewrite (proj2 (Z.ltb_ge _ _)) by lia. by rewrite IH. }
    rewrite (IH x (k :: l2) Hs1). rewrite <- app_assoc. cbn [app].
    assert (insert_sorted x l1 = l1 ++ [x]) as ->; [|by rewrite <- app_assoc].
    clear -Hx. induction l1 as [|y l1 IH]; simpl; [done|]. apply Forall_cons in Hx as [Hy Hx].
    unfold hash_le in Hy. rewrite (proj2 (Z.ltb_ge _ _)) by lia. by rewrite IH.
Qed.

(** Scheduling a price inserts it into the ordered vector behind all
    entries with a hash not greater; the vector stays ordered and no entry is
    lost or repeated. *)
Theorem schedule_sorted k kvec :
  StronglySorted hash_le kvec ->
  schedule k kvec = insert_sorted k kvec /\ StronglySorted hash_le (schedule k kvec) /\ schedule k kvec ≡ₚ k :: kvec.
Proof.
  intros Hs. assert (schedule k kvec = insert_sorted k kvec) as ->.
  { unfold schedule. by rewrite sift_sorted, app_nil_r. }
  split_and!; [done | by apply insert_sorted_sorted | apply insert_sorted_perm].
Qed.

(** ** Rounds *)

(** The values the schedule takes: hashes are remainders, times and the
    interval (at most three months) far from the bounds of their types. *)
Record sched_ok (s : sched) : Prop := {
  sk_sorted : StronglySorted hash_le (kvec_ s);
  sk_hash : Forall (fun k => 0 <= shash_ k < fraction) (kvec_ s);
  sk_int : 0 <= pub_int_ s < 2 ^ 53;
  sk_ts : 0 <= pub_ts_ s < 2 ^ 62;
  sk_len : Z.of_nat (length (kvec_ s)) < 2 ^ 32 - 1 }.

Lemma due_eq s k : sched_ok s -> k ∈ kvec_ s ->
  due s k = pub_ts_ s + pub_int_ s * shash_ k / fraction /\ due s k <= pub_ts_ s + pub_int_ s.
Proof.
  intros [_ Hh Hi Ht _] Hk. rewrite Forall_forall in Hh. specialize (Hh k Hk). unfold due, fraction in *.
  assert (0 <= pub_int_ s * shash_ k < 2 ^ 53 * 997) as Hp by nia.
  assert (0 <= pub_int_ s * shash_ k / 997 <= pub_int_ s) as Hd.
  { split; [apply Z.div_pos; lia|]. apply Z.div_le_upper_bound; nia. }
  rewrite (wrap_small 64 (pub_int_ s)) by (unfold in_u; lia). rewrite wrap_small by (unfold in_u; lia).
  rewrite (swrap_small 64 (_ / _)), swrap_small by (unfold in_s; lia). lia.
Qed.

Lemma due_mono s a b : sched_ok s -> a ∈ kvec_ s -> b ∈ kvec_ s -> hash_le a b -> due s a <= due s b.
Proof.
  intros Hs Ha Hb Hab. destruct (due_eq s a Hs Ha) as [-> _], (due_eq s b Hs Hb) as [-> _].
  unfold hash_le in Hab. pose proof (sk_int _ Hs). apply Zplus_le_compat_l, Z.div_le_mono; [done | nia].
Qed.

(** What stays the same while a round goes on. *)
Definition same_round (s s' : sched) : Prop :=
  kvec_ s' = kvec_ s /\ pub_ts_ s' = pub_ts_ s /\ pub_int_ s' = pub_int_ s.
Lemma same_round_ok s s' : same_round s s' -> sched_ok s -> sched_ok s'.
Proof. intros (H1 & H2 & H3) [A B C D E]. split; congruence. Qed.
Lemma same_round_due s s' k : same_round s s' -> due s' k = due s k.
Proof. intros (H1 & H2 & H3). unfold due. by rewrite H2, H3. Qed.
#[export] Instance same_round_preorder : PreOrder same_round.
Proof. split; [done | intros a b c (?&?&?) (?&?&?); split_and!; congruence]. Qed.

(** A round in progress: the index is inside the vector. *)
Definition in_round (s : sched) : Prop := is_pub_ s = true /\ 0 <= kidx_ s < Z.of_nat (length (kvec_ s)).
Definition pos (s : sched) : nat := Z.to_nat (kidx_ s).

Lemma fire_ok fuel now s l s' :
  sched_ok s -> in_round s -> (length (kvec_ s) <= pos s + fuel)%nat -> fire fuel now s = (l, s') ->
  same_round s s' /\ take (pos s') (kvec_ s) = take (pos s) (kvec_ s) ++ l
  /\ Forall (fun k => due s k < now) l /\ Forall (fun k => now <= due s k) (drop (pos s') (kvec_ s))
  /\ (if is_pub_ s' then in_round s' else kidx_ s' = Z.of_nat (length (kvec_ s))).
Proof.
  revert s l s'; induction fuel as [|fuel IH]; intros s l s' Hs [Hp Hi] Hf H; [unfold pos in Hf; lia|].
  cbn [fire] in H. rewrite Hp in H. rewrite (proj2 (Z.ltb_lt _ _)) in H by lia.
  assert (pos s < length (kvec_ s))%nat as Hi' by (unfold pos; lia).
  destruct (lookup_lt_is_Some_2 _ _ Hi') as [k Hk]. fold (pos s) in H. rewrite Hk in H.
  assert (drop (pos s) (kvec_ s) = k :: drop (S (pos s)) (kvec_ s)) as Hd by (by apply drop_S).
  destruct (Z.ltb_spec (due s k) now) as [Hlt|Hge].
  2:{ injection H as <- <-. rewrite app_nil_r, Hp. split_and!; try done. rewrite Hd.
      pose proof (sk_sorted _ Hs) as Hsort. rewrite <- (take_drop (pos s)), Hd in Hsort.
      assert (forall l1 l2, StronglySorted hash_le (l1 ++ l2) -> StronglySorted hash_le l2) as Happ.
      { induction l1 as [|x l1 IHl]; [done|]. intros l2 [Hx _]%StronglySorted_inv. by apply IHl. }
      apply Happ, StronglySorted_inv in Hsort as [_ Hle]. constructor; [done|].
      rewrite Forall_forall in *. intros x Hx. assert (x ∈ kvec_ s) as Hx' by (by eapply subseteq_drop).
      etransitivity; [exact Hge|]. apply due_mono; [done | by eapply list_elem_of_lookup_2 | done | by apply Hle]. }
  set (s1 := mk_sched _ _ _ _ _) in H. destruct (fire fuel now s1) as [l1 s2] eqn:E. injection H as <- <-.
  assert (same_round s s1) as Hsame by done. pose proof (same_round_ok _ _ Hsame Hs) as Hs1.
  assert (kidx_ s1 = kidx_ s + 1) as Ek1 by (unfold s1; cbn [kidx_]; apply wrap_small; pose proof (sk_len _ Hs); unfold in_u; lia).
  assert (pos s1 = S (pos s)) as Ep1 by (unfold pos; lia).
  assert (take (pos s1) (kvec_ s) = take (pos s) (kvec_ s) ++ [k]) as Ht by (rewrite Ep1; by apply take_S_r).
  assert (is_pub_ s1 = negb (Z.of_nat (length (kvec_ s)) <=? kidx_ s1)) as Eb by done.
  destruct (decide (kidx_ s + 1 < Z.of_nat (length (kvec_ s)))) as [Hlt'|Hge'].
  - assert (in_round s1) as Hr.
    { split; [|change (kvec_ s1) with (kvec_ s); lia]. rewrite Eb. apply negb_true_iff, Z.leb_gt. lia. }
    destruct (IH s1 l1 s2 Hs1 Hr ltac:(change (kvec_ s1) with (kvec_ s); lia) E) as (R & T & F1 & F2 & P).
    change (kvec_ s1) with (kvec_ s) in *. rewrite Ht, <- app_assoc in T. split_and!; try done.
    constructor; [done | exact F1].
  - assert (is_pub_ s1 = false) as Hp1 by (rewrite Eb; apply negb_false_iff, Z.leb_le; lia).
    assert (l1 = [] /\ s2 = s1) as [-> ->] by (destruct fuel; cbn [fire] in E; [|rewrite Hp1 in E]; by injection E as <- <-).
    rewrite Hp1. assert (kidx_ s1 = Z.of_nat (length (kvec_ s))) as Hk1 by lia.
    split_and!; [done | exact Ht | by repeat constructor | | exact Hk1]. rewrite drop_ge by (unfold pos; lia). constructor.
Qed.

(** The polls of one round: until it ends or the times are used up. *)
Fixpoint run_round (nows : list Z) (s : sched) : list (list price_sched) * sched :=
  match nows with
  | [] => ([], s)
  | now :: nows' =>
      let '(l, s) := poll_schedule now s in
      if is_pub_ s then let '(ls, s) := run_round nows' s in (l :: ls, s) else ([l], s)
  end.

Lemma poll_schedule_in now s l s' :
  sched_ok s -> in_round s -> poll_schedule now s = (l, s') ->
  same_round s s' /\ take (pos s') (kvec_ s) = take (pos s) (kvec_ s) ++ l
  /\ Forall (fun k => due s k < now) l /\ Forall (fun k => now <= due s k) (drop (pos s') (kvec_ s))
  /\ (if is_pub_ s' then in_round s' else kidx_ s' = Z.of_nat (length (kvec_ s))).
Proof.
  intros Hs Hr H. unfold poll_schedule in H. destruct Hr as [Hp Hi].
  assert (start_round now s = s) as E by (unfold start_round; by rewrite Hp). rewrite E in H.
  apply (fire_ok _ _ _ _ _ Hs (conj Hp Hi)) in H; [done | lia].
Qed.

(** (C30) A round over a vector that is not empty ([in_round]) and to which no price
    is added meanwhile ([run_round] only polls) fires every price once, in the
    order of the hashes, and none before it is due, however the polls fall; a
    poll later than the publish interval ends the round.  Both conditions are
    needed: a price scheduled in mid-round can make one fire twice
    ([fired_twice]), and a round over no prices does not end ([empty_round]). *)
Theorem round_fires_once nows s ls s' :
  sched_ok s -> in_round s -> kidx_ s = 0 -> run_round nows s = (ls, s') ->
  concat ls = take (pos s') (kvec_ s) /\ length ls = length (zip ls nows)
  /\ Forall (fun '(l, now) => Forall (fun k => due s k < now) l) (zip ls nows)
  /\ (is_pub_ s' = false -> concat ls = kvec_ s)
  /\ (Exists (fun now => pub_ts_ s + pub_int_ s < now) nows -> is_pub_ s' = false).
Proof.
  intros Hs Hr Hk H. enough (take (pos s) (kvec_ s) ++ concat ls = take (pos s') (kvec_ s)
    /\ length ls = length (zip ls nows)
    /\ Forall (fun '(l, now) => Forall (fun k => due s k < now) l) (zip ls nows)
    /\ (is_pub_ s' = false -> kidx_ s' = Z.of_nat (length (kvec_ s)))
    /\ (Exists (fun now => pub_ts_ s + pub_int_ s < now) nows -> is_pub_ s' = false)) as (A & B & C & D & E).
  { unfold pos in A at 1. rewrite Hk in A. change (concat ls = take (pos s') (kvec_ s)) in A. split_and!; try done. intros Hp. rewrite A. unfold pos. rewrite D by done. by rewrite Nat2Z.id, firstn_all. }
  clear Hk. revert s ls s' Hs Hr H; induction nows as [|now nows IH]; intros s ls s' Hs Hr H; cbn [run_round] in H.
  { injection H as <- <-. rewrite app_nil_r. split_and!; try done; [destruct Hr; congruence|]. intros Hx. by inversion Hx. }
  destruct (poll_schedule now s) as [l s1] eqn:E. destruct (poll_schedule_in _ _ _ _ Hs Hr E) as (R & T & F1 & F2 & P).
  pose proof R as (Ek & Et & Ei).
  destruct (is_pub_ s1) eqn:Ep.
  - destruct (run_round nows s1) as [ls1 s2] eqn:Er. injection H as <- <-.
    destruct (IH s1 ls1 s2 (same_round_ok _ _ R Hs) P Er) as (A & B & C & D & F). rewrite Ek in A, D.
    cbn [concat zip zip_with length]. rewrite app_assoc, <- T. split_and!; [done | by f_equal | | done |].
    + constructor; [done|]. eapply Forall_impl; [exact C|]. intros [x t] Hx. eapply Forall_impl; [exact Hx|].
      intros k. cbn. by rewrite (same_round_due _ _ _ R).
    + rewrite Et, Ei in F. intros [Hn|Hn]%Exists_cons; [|by apply F]. exfalso. destruct P as [_ P]. rewrite Ek in P.
      assert (pos s1 < length (kvec_ s))%nat as P' by (unfold pos; lia).
      destruct (lookup_lt_is_Some_2 _ _ P') as [k Hk]. rewrite (drop_S _ _ _ Hk) in F2. apply Forall_cons in F2 as [F2 _].
      destruct (due_eq s k Hs) as [_ Hd]; [by eapply list_elem_of_lookup_2 | lia].
  - injection H as <- <-. cbn [concat zip zip_with length]. rewrite app_nil_r. split_and!; try done. by repeat constructor.
Qed.

(** ** Witnesses *)

Definition test_kvec : list price_sched := [mk_price_sched [1] 10; mk_price_sched [2] 500; mk_price_sched [3] 900].
Definition test_sched (n : Z) : sched := mk_sched test_kvec n true 1000 1000000000.

Lemma test_kvec_sorted : StronglySorted hash_le test_kvec.
Proof. repeat constructor; unfold hash_le; cbn; lia. Qed.

Lemma schedule_sorted_witness :
  schedule (mk_price_sched [4] 500) test_kvec
  = [mk_price_sched [1] 10; mk_price_sched [2] 500; mk_price_sched [4] 500; mk_price_sched [3] 900].
Proof.
  destruct (schedule_sorted (mk_price_sched [4] 500) test_kvec test_kvec_sorted) as [-> _]. reflexivity.
Defined.

Lemma round_fires_once_witness :
  concat (run_round [100; 600000000; 2000000000] (test_sched 0)).1 = test_kvec.
Proof.
  destruct (run_round [100; 600000000; 2000000000] (test_sched 0)) as [ls s'] eqn:E.
  apply (round_fires_once [100; 600000000; 2000000000] (test_sched 0) ls s').
  - split; [apply test_kvec_sorted | | cbn; lia | cbn; lia | cbn; lia]. repeat constructor; cbn; unfold fraction; lia.
  - split; [reflexivity | cbn; lia].
  - reflexivity.
  - exact E.
  - revert E. vm_compute. intros [= <- <-]. reflexivity.
Defined.

(** A price scheduled during a round with a smaller hash than those fired moves
    them up: the index, left where it was, points at one that has fired. *)
Example fired_twice :
  let '(l1, s) := poll_schedule 600000000 (test_sched 0) in
  let '(l2, _) := poll_schedule 2000000000 (set_kvec (schedule (mk_price_sched [4] 20) (kvec_ s)) s) in
  (sk_ <$> l1, sk_ <$> l2) = ([[1]; [2]], [[2]; [3]]).
Proof. vm_compute. reflexivity. Qed.

(** A round that starts before any price is scheduled goes on for ever: the only
    test for its end is behind a price that fires. *)
Example empty_round now : is_pub_ (poll_schedule now (mk_sched [] 0 true 1000 1000000000)).2 = true.
Proof. reflexivity. Qed.
