(* ===== verification/Accounts.v ===== *)
(** * Account discovery ([get_mapping], [product] and [price] of
    [pc/request.cpp], [manager] of [pc/manager.cpp], the account layouts of
    [program/c/src/oracle/oracle.h])

    The manager knows mapping, product and price accounts by key.  Each account
    is a request that waits in a list until the connection is ready, asks for
    its data, and, when the data comes, adds the accounts it refers to.  The
    manager counts the accounts that have not answered; when none is left it
    tells its subscriber that initialization is complete.

    The RPC client is seen through the requests it is given and the account
    updates it delivers; [RpcClient] models it.  The subscriber's callbacks are
    recorded as events. *)

From S2P Require AttrDict PubStats Schedule.
From S2P Require Import Prelude KeyPair RpcClient Publish.
Import AttrDict (attr_dict, attr_id_set).

(** ** Account layouts *)

Definition PC_MAGIC : Z := 0xa1b2c3d4.
Definition PC_VERSION : Z := 2.
Definition PC_MAP_TABLE_SIZE : Z := 5000.
Definition PC_PROD_ACC_SIZE : Z := 512.
Definition sizeof_map_table : Z := 160056.
Definition sizeof_prod : Z := 48.
Definition ZSTD_UPPER_BOUND : Z := 3312 + 96 * 96 + 48.

(** Reads of a structure at offset [o]; outside the buffer there is no result. *)
Definition field (o n : nat) (m : bytes) : option bytes :=
  if bool_decide (o + n <= length m)%nat then Some (slice o n m) else None.
Definition u32_at (o : nat) (m : bytes) : option Z := of_le <$> field o 4 m.
Definition u64_at (o : nat) (m : bytes) : option Z := of_le <$> field o 8 m.
Definition key_at (o : nat) (m : bytes) : option bytes := field o 32 m.

Definition get_magic : bytes -> option Z := u32_at 0.
Definition get_ver : bytes -> option Z := u32_at 4.
(** [pc_map_table]: [num_], [next_], [prod_]. *)
Definition map_num : bytes -> option Z := u32_at 16.
Definition map_next : bytes -> option bytes := key_at 24.
Definition map_prod (i : nat) : bytes -> option bytes := key_at (56 + 32 * i).
(** [pc_prod]: [px_acc_]. *)
Definition prod_px_acc : bytes -> option bytes := key_at 16.
(** [pc_price]: [num_], [valid_slot_], [next_], [agg_.pub_slot_]; of [comp_[i]],
    [pub_] and [agg_.pub_slot_]. *)
Definition price_num : bytes -> option Z := u32_at 24.
Definition price_valid_slot : bytes -> option Z := u64_at 40.
Definition price_next : bytes -> option bytes := key_at 144.
Definition price_pub_slot : bytes -> option Z := u64_at 232.
Definition comp_pub (i : nat) : bytes -> option bytes := key_at (240 + 96 * i).
Definition comp_pub_slot (i : nat) : bytes -> option Z := u64_at (240 + 96 * i + 56).

(** ** State *)

Inductive map_state := e_new | e_init.
Inductive prod_state := e_prod_subscribe | e_done | e_prod_error.
#[export] Instance map_state_eq_dec : EqDecision map_state.
Proof. solve_decision. Defined.
#[export] Instance prod_state_eq_dec : EqDecision prod_state.
Proof. solve_decision. Defined.

Record mapping := mk_mapping { map_st : map_state; num_sym_ : Z }.
Record product := mk_product { prod_st : prod_state; attrs_ : attr_dict; pvec_ : list bytes }.
Record price_acc := mk_price_acc {
  px_st : price_state; px_prod : bytes; px_idx : Z; px_lamports : Z; px_slot : Z; pptr_ : bytes;
  px_stats : PubStats.pub_stats; isched_ : bool; sched_submit : bool }.

Inductive acct := a_map (m : mapping) | a_prod (p : product) | a_price (x : price_acc).
(** The [request] part: the two flags and the error. *)
Record node := mk_node { acct_ : acct; is_submit_ : bool; is_recv_ : bool; nerr_ : option bytes }.

(** The requests of the manager's list: an account's, or a price schedule. *)
Inductive request := r_acc (k : bytes) | r_sched (k : bytes).
#[export] Instance request_eq_dec : EqDecision request.
Proof. solve_decision. Defined.

Inductive event :=
  | ev_init | ev_add_symbol (k : bytes) | ev_product (k : bytes) | ev_price (k : bytes) | ev_init_price (k : bytes)
  | ev_price_error (k : bytes) | ev_capture (k : bytes).

Record accounts := mk_accounts {
  amap_ : gmap bytes node; mvec_ : list bytes; svec_ : list bytes; plist_ : list request;
  astatus_ : Z; num_sub_ : Z; aslot_ : Z; merr_ : option bytes; attr_ids : attr_id_set; zbuf_ : bytes;
  sched_ : Schedule.sched; sent_ : list bytes; events : list event }.

Definition set_amap (m : gmap bytes node) (w : accounts) : accounts :=
  mk_accounts m (mvec_ w) (svec_ w) (plist_ w) (astatus_ w) (num_sub_ w) (aslot_ w) (merr_ w) (attr_ids w) (zbuf_ w)
    (sched_ w) (sent_ w) (events w).
Definition set_vecs (mv sv : list bytes) (w : accounts) : accounts :=
  mk_accounts (amap_ w) mv sv (plist_ w) (astatus_ w) (num_sub_ w) (aslot_ w) (merr_ w) (attr_ids w) (zbuf_ w)
    (sched_ w) (sent_ w) (events w).
Definition set_plist (l : list request) (w : accounts) : accounts :=
  mk_accounts (amap_ w) (mvec_ w) (svec_ w) l (astatus_ w) (num_sub_ w) (aslot_ w) (merr_ w) (attr_ids w) (zbuf_ w)
    (sched_ w) (sent_ w) (events w).
Definition set_astatus (s : Z) (w : accounts) : accounts :=
  mk_accounts (amap_ w) (mvec_ w) (svec_ w) (plist_ w) s (num_sub_ w) (aslot_ w) (merr_ w) (attr_ids w) (zbuf_ w)
    (sched_ w) (sent_ w) (events w).
Definition set_num_sub (n : Z) (w : accounts) : accounts :=
  mk_accounts (amap_ w) (mvec_ w) (svec_ w) (plist_ w) (astatus_ w) n (aslot_ w) (merr_ w) (attr_ids w) (zbuf_ w)
    (sched_ w) (sent_ w) (events w).
Definition set_aslot (n : Z) (w : accounts) : accounts :=
  mk_accounts (amap_ w) (mvec_ w) (svec_ w) (plist_ w) (astatus_ w) (num_sub_ w) n (merr_ w) (attr_ids w) (zbuf_ w)
    (sched_ w) (sent_ w) (events w).
(** [error::set_err_msg] of the manager. *)
Definition set_merr (e : bytes) (w : accounts) : accounts :=
  mk_accounts (amap_ w) (mvec_ w) (svec_ w) (plist_ w) (astatus_ w) (num_sub_ w) (aslot_ w) (Some e) (attr_ids w)
    (zbuf_ w) (sched_ w) (sent_ w) (events w).
Definition set_ids (s : attr_id_set) (w : accounts) : accounts :=
  mk_accounts (amap_ w) (mvec_ w) (svec_ w) (plist_ w) (astatus_ w) (num_sub_ w) (aslot_ w) (merr_ w) s (zbuf_ w)
    (sched_ w) (sent_ w) (events w).
Definition set_zbuf (z : bytes) (w : accounts) : accounts :=
  mk_accounts (amap_ w) (mvec_ w) (svec_ w) (plist_ w) (astatus_ w) (num_sub_ w) (aslot_ w) (merr_ w) (attr_ids w) z
    (sched_ w) (sent_ w) (events w).
Definition set_sched (s : Schedule.sched) (w : accounts) : accounts :=
  mk_accounts (amap_ w) (mvec_ w) (svec_ w) (plist_ w) (astatus_ w) (num_sub_ w) (aslot_ w) (merr_ w) (attr_ids w)
    (zbuf_ w) s (sent_ w) (events w).
(** An account's request handed to the RPC client. *)
Definition add_sent (k : bytes) (w : accounts) : accounts :=
  mk_accounts (amap_ w) (mvec_ w) (svec_ w) (plist_ w) (astatus_ w) (num_sub_ w) (aslot_ w) (merr_ w) (attr_ids w)
    (zbuf_ w) (sched_ w) (sent_ w ++ [k]) (events w).
Definition add_event (e : event) (w : accounts) : accounts :=
  mk_accounts (amap_ w) (mvec_ w) (svec_ w) (plist_ w) (astatus_ w) (num_sub_ w) (aslot_ w) (merr_ w) (attr_ids w)
    (zbuf_ w) (sched_ w) (sent_ w) (events w ++ [e]).

Definition set_acct (a : acct) (n : node) : node := mk_node a (is_submit_ n) (is_recv_ n) (nerr_ n).
Definition set_is_submit (b : bool) (n : node) : node := mk_node (acct_ n) b (is_recv_ n) (nerr_ n).
Definition set_is_recv (b : bool) (n : node) : node := mk_node (acct_ n) (is_submit_ n) b (nerr_ n).
Definition set_nerr (e : option bytes) (n : node) : node := mk_node (acct_ n) (is_submit_ n) (is_recv_ n) e.
Definition upd_node (k : bytes) (f : node -> node) (w : accounts) : accounts := set_amap (alter f k (amap_ w)) w.

Definition has_bits (s : Z) (w : accounts) : bool := s =? Z.land (astatus_ w) s.

(** ** The manager's list and count *)

(** [manager::submit( request * )]. *)
Definition submit (r : request) (w : accounts) : accounts :=
  match r with
  | r_acc k =>
      match amap_ w !! k with
      | Some n => if is_submit_ n then w else set_plist (plist_ w ++ [r]) (upd_node k (set_is_submit true) w)
      | None => w
      end
  | r_sched k =>
      match amap_ w !! k with
      | Some (mk_node (a_price x) s v e) =>
          if sched_submit x then w else
          set_plist (plist_ w ++ [r])
            (set_amap (<[k := mk_node (a_price (mk_price_acc (px_st x) (px_prod x) (px_idx x) (px_lamports x) (px_slot x)
                                                 (pptr_ x) (px_stats x) (isched_ x) true)) s v e]> (amap_ w)) w)
      | _ => w
      end
  end.

Definition add_map_sub (w : accounts) : accounts := set_num_sub (num_sub_ w + 1) w.
Definition del_map_sub (w : accounts) : accounts :=
  let w := set_num_sub (num_sub_ w - 1) w in
  if (num_sub_ w <=? 0) && negb (has_bits PC_PYTH_HAS_MAPPING w)
  then add_event ev_init (set_astatus (Z.lor (astatus_ w) PC_PYTH_HAS_MAPPING) w) else w.

(** ** New accounts *)

Section data.
Context (zstd_decompress : bytes -> Z -> Z + bytes) (compress_bound : Z -> Z).
(** The publisher's key, if it has one, and the capture flag. *)
Context (publish_key : option bytes) (do_cap : bool).

Definition price_buf_len : Z := compress_bound ZSTD_UPPER_BOUND.
Definition new_mapping : node := mk_node (a_map (mk_mapping e_new 0)) false false None.
Definition new_product : node := mk_node (a_prod (mk_product e_prod_subscribe AttrDict.clear [])) false false None.
Definition new_price (prod : bytes) : node :=
  mk_node (a_price (mk_price_acc e_subscribe prod no_pub 0 0 (replicate (Z.to_nat price_buf_len) 0)
                      PubStats.clear_stats false false)) false false None.

Definition known (k : bytes) (w : accounts) : bool := bool_decide (is_Some (amap_ w !! k)).

Definition add_mapping (k : bytes) (w : accounts) : accounts :=
  if known k w then w else
  add_map_sub (submit (r_acc k)
    (set_vecs (mvec_ w ++ [k]) (svec_ w) (set_amap (<[k := new_mapping]> (amap_ w)) w))).
Definition add_product (k : bytes) (w : accounts) : accounts :=
  if known k w then w else
  add_map_sub (submit (r_acc k)
    (set_vecs (mvec_ w) (svec_ w ++ [k]) (set_amap (<[k := new_product]> (amap_ w)) w))).

(** [product::add_price]. *)
Definition push_price (k : bytes) (n : node) : node :=
  match acct_ n with
  | a_prod p => set_acct (a_prod (mk_product (prod_st p) (attrs_ p) (pvec_ p ++ [k]))) n
  | _ => n
  end.
Definition add_price (k prod : bytes) (w : accounts) : accounts :=
  if known k w then w else
  add_map_sub (upd_node prod (push_price k)
    (submit (r_acc k) (set_amap (<[k := new_price prod]> (amap_ w)) w))).

Definition capture (k : bytes) (w : accounts) : accounts := if do_cap then add_event (ev_capture k) w else w.

(** ** Responses *)

(** What a handler gets: the error, or the account's update. *)
Record response := mk_response { rerr : option bytes; rupd : account_update }.

Definition is_zero_key (k : bytes) : bool := bool_decide (k = replicate 32 0).

(** *** [get_mapping::update] *)

Fixpoint add_products (n i : nat) (tab : bytes) (w : accounts) : option accounts :=
  match n with
  | O => Some w
  | S n' => k ← map_prod i tab; add_products n' (S i) tab (add_product k w)
  end.

(** [get_mapping::update] once the header is right. *)
Definition read_mapping (k : bytes) (m : mapping) (tab : bytes) (w : accounts) : option accounts :=
  num ← map_num tab;
  let w := upd_node k (set_acct (a_map (mk_mapping (map_st m) num))) w in
  w ← add_products (Z.to_nat num) 0 tab w;
  next ← map_next tab;
  let w := if is_zero_key next then w else add_mapping next w in
  let w := match map_st m with
           | e_new => del_map_sub (upd_node k (set_acct (a_map (mk_mapping e_init num))) w)
           | e_init => w
           end in
  Some (capture k w).

Definition update_mapping (k : bytes) (m : mapping) (res : response) (w : accounts) : option accounts :=
  match rerr res with
  | Some e => Some (set_merr e w)
  | None =>
      let '(len, tab) := get_data_ref zstd_decompress compress_bound (data_ (rupd res)) sizeof_map_table (zbuf_ w) in
      let w := set_zbuf tab w in
      if len <? sizeof_map_table then Some (set_merr (bs "invalid or corrupt mapping account") w) else
      magic ← get_magic tab;
      if negb (magic =? PC_MAGIC) then Some (set_merr (bs "invalid or corrupt mapping account") w) else
      ver ← get_ver tab;
      let w := if ver =? PC_VERSION then w
               else set_merr (bs "invalid mapping account version=" ++ Text.uint_to_str ver) w in
      read_mapping k m tab w
  end.

(** *** [product::update] *)

Definition set_prod_st (s : prod_state) (n : node) : node :=
  match acct_ n with
  | a_prod p => set_acct (a_prod (mk_product s (attrs_ p) (pvec_ p))) n
  | _ => n
  end.
Definition set_attrs (d : attr_dict) (n : node) : node :=
  match acct_ n with
  | a_prod p => set_acct (a_prod (mk_product (prod_st p) d (pvec_ p))) n
  | _ => n
  end.
Definition product_error (k e : bytes) (w : accounts) : accounts := upd_node k (set_prod_st e_prod_error) (set_merr e w).

(** [product::update] once the account is read. *)
Definition read_product (k : bytes) (p : product) (prod : bytes) (w : accounts) : option accounts :=
  px ← prod_px_acc prod;
  let w := if is_zero_key px then w else add_price px k w in
  let w := capture k w in
  let w := match prod_st p with
           | e_done => w
           | _ => del_map_sub (upd_node k (set_prod_st e_done) w)
           end in
  Some (add_event (ev_product k) w).

Definition update_product (k : bytes) (p : product) (res : response) (w : accounts) : option accounts :=
  match rerr res with
  | Some e => Some (product_error k e w)
  | None =>
      let plen := Z.max ZSTD_UPPER_BOUND PC_PROD_ACC_SIZE in
      let '(len, prod) := get_data_ref zstd_decompress compress_bound (data_ (rupd res)) plen (zbuf_ w) in
      let w := set_zbuf prod w in
      let bad := bs "invalid or corrupt product account" in
      if len <? sizeof_prod then Some (product_error k bad w) else
      magic ← get_magic prod;
      if negb (magic =? PC_MAGIC) then Some (product_error k bad w) else
      '(ok, d, ids) ← AttrDict.init_from_account prod (attr_ids w);
      let w := set_ids ids (upd_node k (set_attrs d) w) in
      if negb (ok : bool) then Some (product_error k bad w) else
      ver ← get_ver prod;
      if negb (ver =? PC_VERSION)
      then Some (product_error k (bs "invalid product account version=" ++ Text.uint_to_str ver) w) else
      read_product k p prod w
  end.

(** *** [price::update] *)

Definition set_price (f : price_acc -> price_acc) (n : node) : node :=
  match acct_ n with a_price x => set_acct (a_price (f x)) n | _ => n end.
Definition set_px_st (s : price_state) (x : price_acc) : price_acc :=
  mk_price_acc s (px_prod x) (px_idx x) (px_lamports x) (px_slot x) (pptr_ x) (px_stats x) (isched_ x) (sched_submit x).
Definition set_px_idx (i : Z) (x : price_acc) : price_acc :=
  mk_price_acc (px_st x) (px_prod x) i (px_lamports x) (px_slot x) (pptr_ x) (px_stats x) (isched_ x) (sched_submit x).
Definition set_px_lamports (l : Z) (x : price_acc) : price_acc :=
  mk_price_acc (px_st x) (px_prod x) (px_idx x) l (px_slot x) (pptr_ x) (px_stats x) (isched_ x) (sched_submit x).
Definition set_px_slot (s : Z) (st : PubStats.pub_stats) (x : price_acc) : price_acc :=
  mk_price_acc (px_st x) (px_prod x) (px_idx x) (px_lamports x) s (pptr_ x) st (isched_ x) (sched_submit x).
Definition set_pptr (m : bytes) (x : price_acc) : price_acc :=
  mk_price_acc (px_st x) (px_prod x) (px_idx x) (px_lamports x) (px_slot x) m (px_stats x) (isched_ x) (sched_submit x).

Definition price_error (k e : bytes) (w : accounts) : accounts :=
  upd_node k (set_price (set_px_st e_error)) (add_event (ev_price_error k) (upd_node k (set_nerr (Some e)) w)).

(** [price::update_pub]: the first component with the publisher's key. *)
Fixpoint find_pub (n i : nat) (m key : bytes) : option Z :=
  match n with
  | O => Some no_pub
  | S n' => k ← comp_pub i m; if bool_decide (k = key) then Some (Z.of_nat i) else find_pub n' (S i) m key
  end.
Definition pub_index (m : bytes) : option Z :=
  match publish_key with
  | None => Some no_pub
  | Some key => num ← price_num m; find_pub (Z.to_nat num) 0 m key
  end.
Definition update_pub (k : bytes) (m : bytes) (w : accounts) : option accounts :=
  i ← pub_index m; Some (upd_node k (set_price (set_px_idx i)) w).

(** [price::init_subscribe]. *)
Definition init_subscribe (k prod : bytes) (m : bytes) (w : accounts) : option accounts :=
  let w := upd_node k (set_price (set_px_st e_publish)) w in
  w ← update_pub k m w;
  next ← price_next m;
  let w := if is_zero_key next then w else add_price next prod w in
  let w := add_event (ev_add_symbol k) w in
  Some (del_map_sub w).

(** The aggregate changed: statistics, capture and subscribers. *)
Definition new_aggregate (k : bytes) (x : price_acc) (idx : Z) (m : bytes) (slot : Z) (w : accounts) : option accounts :=
  valid ← price_valid_slot m;
  let st := if (px_slot x <? valid) && negb (px_slot x =? 0) then PubStats.inc_sub_drop (px_stats x) else px_stats x in
  let w := capture k (upd_node k (set_price (set_px_slot slot st)) w) in
  w ← (if idx =? no_pub then Some w
       else ps ← comp_pub_slot (Z.to_nat idx) m;
            Some (upd_node k (set_price (set_px_slot slot (PubStats.add_recv (aslot_ w) slot ps st))) w));
  Some (add_event (ev_price k) w).

Definition update_price (k : bytes) (x : price_acc) (res : response) (w : accounts) : option accounts :=
  match rerr res with
  | Some e => Some (price_error k e w)
  | None =>
      let m := (get_data_val zstd_decompress (data_ (rupd res)) price_buf_len (pptr_ x)).2 in
      let w := upd_node k (set_price (set_pptr m)) w in
      magic ← get_magic m;
      if negb (magic =? PC_MAGIC) then Some (price_error k (bs "bad price account header") w) else
      slot ← price_pub_slot m;
      let w := if slot =? 0 then add_event (ev_init_price k) w else w in
      w ← (if bool_decide (px_st x = e_sent_subscribe) then init_subscribe k (px_prod x) m w else Some w);
      idx ← pub_index m;
      let w := upd_node k (set_price (set_px_lamports (lamports_ (rupd res)))) (upd_node k (set_price (set_px_idx idx)) w) in
      if negb (px_slot x =? slot) || (px_slot x =? 0) then new_aggregate k x idx m slot w else Some w
  end.

(** *** Dispatch *)

Definition update (k : bytes) (res : response) (w : accounts) : option accounts :=
  n ← amap_ w !! k;
  match acct_ n with
  | a_map m => update_mapping k m res w
  | a_prod p => update_product k p res w
  | a_price x => update_price k x res w
  end.

(** [on_response( rpc::get_account_info * )]: the answer to the request of [k]. *)
Definition on_info (k : bytes) (res : response) (w : accounts) : option accounts :=
  update k res (upd_node k (set_is_recv true) w).
(** [on_response( rpc::account_update * )], of the manager and of the account. *)
Definition on_update (res : response) (w : accounts) : option accounts :=
  match rerr res with
  | Some e => Some (set_merr (bs "account update failed [" ++ e ++ bs "]") w)
  | None =>
      let k := acc_ (rupd res) in
      match amap_ w !! k with
      | Some n => if is_recv_ n then update k res w else Some w
      | None => Some w
      end
  end.

(** ** Submitting *)

Definition acc_ready (w : accounts) : bool := has_bits (Z.lor PC_PYTH_RPC_CONNECTED PC_PYTH_HAS_BLOCK_HASH) w.
Definition get_is_ready (r : request) (w : accounts) : bool :=
  match r with
  | r_acc _ => acc_ready w
  | r_sched _ => has_bits (Z.lor (Z.lor PC_PYTH_RPC_CONNECTED PC_PYTH_HAS_BLOCK_HASH) PC_PYTH_HAS_MAPPING) w
  end.

Definition set_sched_submit (b : bool) (x : price_acc) : price_acc :=
  mk_price_acc (px_st x) (px_prod x) (px_idx x) (px_lamports x) (px_slot x) (pptr_ x) (px_stats x) (isched_ x) b.
Definition clear_submit (r : request) (w : accounts) : accounts :=
  match r with
  | r_acc k => upd_node k (set_is_submit false) w
  | r_sched k => upd_node k (set_price (set_sched_submit false)) w
  end.

(** The [submit] of the four requests. *)
Definition submit_acc (k : bytes) (w : accounts) : accounts :=
  match acct_ <$> amap_ w !! k with
  | Some (a_map m) => add_sent k (upd_node k (set_acct (a_map (mk_mapping e_new (num_sym_ m)))) w)
  | Some (a_prod _) => add_sent k (upd_node k (set_prod_st e_prod_subscribe) w)
  | Some (a_price x) =>
      if bool_decide (px_st x = e_subscribe)
      then upd_node k (set_price (set_px_st e_sent_subscribe)) (add_sent k w) else w
  | None => w
  end.
Definition do_submit (r : request) (w : accounts) : accounts :=
  match r with
  | r_acc k => submit_acc k w
  | r_sched k => set_sched (Schedule.set_kvec (Schedule.schedule (Schedule.mk_price_sched k (Schedule.sched_hash k))
                                                (Schedule.kvec_ (sched_ w))) (sched_ w)) w
  end.

(** The loop of [manager::poll] over the pending requests. *)
Definition poll_one (r : request) (w : accounts) : accounts :=
  if get_is_ready r w then do_submit r (set_plist (filter (fun r' => r' <> r) (plist_ w)) (clear_submit r w)) else w.
Definition poll_submit (w : accounts) : accounts := foldl (fun w r => poll_one r w) w (plist_ w).

(** [price::get_sched]. *)
Definition get_sched (k : bytes) (w : accounts) : accounts :=
  match acct_ <$> amap_ w !! k with
  | Some (a_price x) =>
      if isched_ x then w else
      submit (r_sched k) (upd_node k (set_price (fun x => mk_price_acc (px_st x) (px_prod x) (px_idx x) (px_lamports x)
                                        (px_slot x) (pptr_ x) (px_stats x) true (sched_submit x))) w)
  | _ => w
  end.

(** ** A new connection *)

(** [reset] of the three requests. *)
Definition reset_acct (a : acct) : acct :=
  match a with
  | a_map m => a_map (mk_mapping e_new (num_sym_ m))
  | a_prod p => a_prod (mk_product e_prod_subscribe (attrs_ p) (pvec_ p))
  | a_price x => a_price (set_px_st e_subscribe x)
  end.
Definition reset_node (n : node) : node := mk_node (reset_acct (acct_ n)) (is_submit_ n) false None.
Definition resubmit (k : bytes) (w : accounts) : accounts :=
  add_map_sub (submit (r_acc k) (upd_node k reset_node w)).
Definition prices_of (k : bytes) (w : accounts) : list bytes :=
  match acct_ <$> amap_ w !! k with Some (a_prod p) => pvec_ p | _ => [] end.

(** The part of [reconnect_rpc] that restarts the discovery of accounts. *)
Definition clear_plist (w : accounts) : accounts :=
  set_plist [] (foldl (fun w r => clear_submit r w) w (plist_ w)).
Definition restart (mapping_key : option bytes) (w : accounts) : accounts :=
  let w := set_astatus (Z.lor (astatus_ w) PC_PYTH_RPC_CONNECTED) w in
  let w := mk_accounts (amap_ w) (mvec_ w) (svec_ w) (plist_ w) (astatus_ w) 0 0 (merr_ w) (attr_ids w) (zbuf_ w)
             (sched_ w) [] (events w) in
  let w := clear_plist w in
  let w := foldl (fun w k => resubmit k w) w (mvec_ w) in
  let w := foldl (fun w k => foldl (fun w q => resubmit q w) (resubmit k w) (prices_of k w)) w (svec_ w) in
  match mvec_ w, mapping_key with
  | [], Some k => add_mapping k w
  | _, _ => w
  end.
End data.
