(* ===== verification/Admin.v ===== *)
(** * The requests of [pyth_admin] ([pcapps/admin_request.cpp])

    Each request sends one or two transactions and waits for the confirmation of
    each before it goes on.  The classes differ in [submit] and in their
    transaction; their callbacks are the same text, and one definition here.
    What a request does is recorded in order: transactions and subscriptions
    sent, and its subscribers told. *)

From S2P Require AdminTx AttrDict KeyStore RpcClient Accounts.
From S2P Require Import Prelude Base58 JsonWtr KeyPair.
From S2P Require Import JTree.
Import AdminTx (admin_tx).
Import Accounts (PC_MAP_TABLE_SIZE, sizeof_map_table, PC_PROD_ACC_SIZE).
Import KeyStore (key_store, FileSystem).

(** ** RPC calls without a transaction *)

(** [signature_subscribe::request]. *)
Definition request_signature_subscribe (sig : bytes) (cmt : Z) (w : json_wtr) : option json_wtr :=
  let w := add_key_str (bs "method") (bs "signatureSubscribe") w in
  let w := add_key_type (bs "params") JsonWtr.e_arr w in
  w ← add_val_enc_base58 sig w;
  let w := add_val_type JsonWtr.e_obj w in
  w ← pop (add_key_str (bs "commitment") (RpcClient.commitment_to_str cmt) w);
  pop w.

(** [get_minimum_balance_rent_exemption::request]. *)
Definition request_minimum_balance (sz : Z) (w : json_wtr) : option json_wtr :=
  let w := add_key_str (bs "method") (bs "getMinimumBalanceForRentExemption") w in
  pop (add_val_uint sz (add_key_type (bs "params") JsonWtr.e_arr w)).

(** [rpc_request::on_error]: the message of an error answer, if it is one. *)
Definition on_error (jt : jtree) : option (option bytes) :=
  etok ← find_val jt 1 (bs "error");
  if etok =? 0 then Some None else
  mtok ← find_val jt etok (bs "message");
  txt ← get_str jt mtok;
  ctok ← find_val jt etok (bs "code");
  code ← get_int jt ctok;
  Some (Some txt).

(** ** The state of a request *)

Record product_view := mk_product_view { pv_account : bytes; pv_types : list Z }.
Record price_view := mk_price_view { xv_account : bytes; xv_type : Z; xv_pubs : list bytes }.

(** The classes, with the parameters set before the request is submitted. *)
Inductive admin_kind :=
  | init_mapping
  | add_mapping
  | add_product
  | upd_product (prod : product_view) (attrs : AttrDict.attr_dict) (ids : AttrDict.attr_id_set)
  | add_price (prod : product_view) (expo ptype : Z)
  | init_price (px : price_view) (expo : Z)
  | set_min_pub_req (px : price_view) (min_pub : Z)
  | add_publisher (px : price_view) (pub : bytes)
  | del_publisher (px : price_view) (pub : bytes).

(** The [state_t] of the classes: those that create no account start with the
    third, called [e_sent], [e_init_sent] or [e_add_sent]. *)
Inductive state_t := e_create_sent | e_create_sig | e_op_sent | e_op_sig | e_done | e_error.
#[export] Instance state_t_eq_dec : EqDecision state_t.
Proof. solve_decision. Defined.

Definition creates (k : admin_kind) : bool :=
  match k with init_mapping | add_mapping | add_product | add_price _ _ _ => true | _ => false end.
Definition first_state (k : admin_kind) : state_t := if creates k then e_create_sent else e_op_sent.

(** What a request does. *)
Inductive event :=
  | ev_send (tx : admin_tx) (sig : bytes)
  | ev_subscribe (sig : bytes) (cmt : Z)
  | ev_response.

(** An RPC request object: its error and the signature it stored. *)
Record rpc_obj := mk_rpc_obj { r_err : option bytes; r_sig : bytes }.
Definition new_rpc_obj : rpc_obj := mk_rpc_obj None (replicate 64 0).

(** [akey_] is the account created, [mkey_] the key pair looked up ([mkey_],
    [skey_], [key_] or [akey_] in the classes); [op_] the transaction set up in
    [submit]. *)
Record request := mk_request {
  kind_ : admin_kind; st_ : state_t; cmt_ : Z; lamports_ : Z;
  akey_ : bytes; mkey_ : bytes;
  creq_ : rpc_obj; op_ : option admin_tx; oreq_ : rpc_obj; sig_err_ : option bytes;
  err_ : option bytes; events : list event }.

Definition e_finalized : Z := 3.
Definition new_request (k : admin_kind) : request :=
  mk_request k (first_state k) RpcClient.e_confirmed 0 key_pair_zero key_pair_zero new_rpc_obj None new_rpc_obj None None [].

Definition set_commitment (c : Z) (r : request) : request :=
  mk_request (kind_ r) (st_ r) c (lamports_ r) (akey_ r) (mkey_ r) (creq_ r) (op_ r) (oreq_ r) (sig_err_ r) (err_ r) (events r).
Definition set_lamports (v : Z) (r : request) : request :=
  mk_request (kind_ r) (st_ r) (cmt_ r) v (akey_ r) (mkey_ r) (creq_ r) (op_ r) (oreq_ r) (sig_err_ r) (err_ r) (events r).
Definition set_st (s : state_t) (r : request) : request :=
  mk_request (kind_ r) s (cmt_ r) (lamports_ r) (akey_ r) (mkey_ r) (creq_ r) (op_ r) (oreq_ r) (sig_err_ r) (err_ r) (events r).
Definition set_keys (a m : bytes) (r : request) : request :=
  mk_request (kind_ r) (st_ r) (cmt_ r) (lamports_ r) a m (creq_ r) (op_ r) (oreq_ r) (sig_err_ r) (err_ r) (events r).
Definition set_creq (o : rpc_obj) (r : request) : request :=
  mk_request (kind_ r) (st_ r) (cmt_ r) (lamports_ r) (akey_ r) (mkey_ r) o (op_ r) (oreq_ r) (sig_err_ r) (err_ r) (events r).
Definition set_op (t : admin_tx) (r : request) : request :=
  mk_request (kind_ r) (st_ r) (cmt_ r) (lamports_ r) (akey_ r) (mkey_ r) (creq_ r) (Some t) (oreq_ r) (sig_err_ r) (err_ r) (events r).
Definition set_oreq (o : rpc_obj) (r : request) : request :=
  mk_request (kind_ r) (st_ r) (cmt_ r) (lamports_ r) (akey_ r) (mkey_ r) (creq_ r) (op_ r) o (sig_err_ r) (err_ r) (events r).
Definition set_sig_err (e : option bytes) (r : request) : request :=
  mk_request (kind_ r) (st_ r) (cmt_ r) (lamports_ r) (akey_ r) (mkey_ r) (creq_ r) (op_ r) (oreq_ r) e (err_ r) (events r).
Definition set_err (e : option bytes) (r : request) : request :=
  mk_request (kind_ r) (st_ r) (cmt_ r) (lamports_ r) (akey_ r) (mkey_ r) (creq_ r) (op_ r) (oreq_ r) (sig_err_ r) e (events r).
Definition add_event (e : event) (r : request) : request :=
  mk_request (kind_ r) (st_ r) (cmt_ r) (lamports_ r) (akey_ r) (mkey_ r) (creq_ r) (op_ r) (oreq_ r) (sig_err_ r) (err_ r) (events r ++ [e]).

Definition get_is_done (r : request) : bool := bool_decide (st_ r = e_done).
Definition get_is_err (r : request) : bool := bool_decide (is_Some (err_ r)).
(** [upd_product::reset]. *)
Definition reset (r : request) : request := set_st e_op_sent (set_err None r).

Definition on_response_sub (r : request) : request := add_event ev_response r.
Definition on_error_sub (emsg : bytes) (r : request) : request := on_response_sub (set_err (Some emsg) r).

(** ** The manager, as the requests see it *)

Definition PC_NUM_COMP : Z := 64.
Definition sizeof_price : Z := 240 + PC_NUM_COMP * 96.

Section admin.
Context (ed25519_sign : bytes -> bytes -> bytes).
Context {fs : Type} `{FileSystem fs}.

(** [status]: whether the manager has the status bits a request asks for;
    [last_mapping]: the key and number of symbols of the last mapping account. *)
Record manager_view := mk_manager_view {
  status : bool; keys : key_store; files : fs; block_hash : bytes; last_mapping : option (bytes * Z) }.
Definition set_key_store (k : key_store) (m : manager_view) : manager_view :=
  mk_manager_view (status m) k (files m) (block_hash m) (last_mapping m).
Definition set_files (s : fs) (m : manager_view) : manager_view :=
  mk_manager_view (status m) (keys m) s (block_hash m) (last_mapping m).

Definition get_is_full (num_sym : Z) : bool := PC_MAP_TABLE_SIZE <=? num_sym.

(** [get_is_ready]; without the mapping's key it is an error of the request. *)
Definition missing_mapping (r : request) (k : key_store) : bytes :=
  match kind_ r with
  | add_publisher _ _ | del_publisher _ _ =>
      bs "missing mapping key file [" ++ KeyStore.get_mapping_pub_key_file k ++ bs "]"
  | _ => bs "missing mapping key pairfile [" ++ KeyStore.get_mapping_key_pair_file k ++ bs "]"
  end.
Definition get_is_ready (r : request) (m : manager_view) : option (bool * request * manager_view) :=
  match kind_ r with
  | init_mapping => Some (status m, r, m)
  | _ =>
      '(ok, k) ← KeyStore.get_mapping_pub_key (files m) (keys m);
      let m := set_key_store k m in
      if negb ok then Some (false, set_err (Some (missing_mapping r k)) r, m)
      else Some (status m, r, m)
  end.

(** ** Sending

    The message is written into the object the RPC client opened, [open]; a
    transaction in a block that held [block]. *)
Context (block : bytes) (open : json_wtr).

Definition set_block_hash (h : bytes) (t : admin_tx) : admin_tx :=
  match t with
  | AdminTx.create_account _ snd account owner lamports space => AdminTx.create_account h snd account owner lamports space
  | AdminTx.init_mapping _ pkey mkey gkey => AdminTx.init_mapping h pkey mkey gkey
  | AdminTx.add_mapping _ pkey mkey akey gkey => AdminTx.add_mapping h pkey mkey akey gkey
  | AdminTx.add_product _ pkey gkey akey mkey => AdminTx.add_product h pkey gkey akey mkey
  | AdminTx.upd_product _ pkey gkey akey attrs ids => AdminTx.upd_product h pkey gkey akey attrs ids
  | AdminTx.add_price expo ptype _ pkey gkey akey skey => AdminTx.add_price expo ptype h pkey gkey akey skey
  | AdminTx.init_price expo ptype _ pkey gkey akey => AdminTx.init_price expo ptype h pkey gkey akey
  | AdminTx.set_min_pub_rpc min_pub _ pkey gkey akey => AdminTx.set_min_pub_rpc min_pub h pkey gkey akey
  | AdminTx.add_publisher nkey _ pkey gkey akey => AdminTx.add_publisher nkey h pkey gkey akey
  | AdminTx.del_publisher nkey _ pkey gkey akey => AdminTx.del_publisher nkey h pkey gkey akey
  end.

(** [send( creq_ )]: the transaction, and the signature kept in the object. *)
Definition send_create (t : admin_tx) (r : request) : option request :=
  '(_, sig) ← AdminTx.request ed25519_sign block t open;
  Some (set_creq (mk_rpc_obj (r_err (creq_ r)) sig) (add_event (ev_send t sig) r)).
(** [set_block_hash] and [send] of the second transaction. *)
Definition send_op (bhash : bytes) (r : request) : option request :=
  t ← op_ r;
  let t := set_block_hash bhash t in
  '(_, sig) ← AdminTx.request ed25519_sign block t open;
  Some (set_oreq (mk_rpc_obj (r_err (oreq_ r)) sig) (set_op t (add_event (ev_send t sig) r))).
(** [set_commitment], [set_signature] and [send( sig_ )]. *)
Definition send_sig (sig : bytes) (cmt : Z) (r : request) : option request :=
  _ ← request_signature_subscribe sig cmt open;
  Some (add_event (ev_subscribe sig cmt) r).

(** ** Callbacks *)

(** [on_response( rpc::create_account * )]. *)
Definition on_create (r : request) : option request :=
  match r_err (creq_ r) with
  | Some e => Some (set_st e_error (on_error_sub e r))
  | None =>
      if decide (st_ r = e_create_sent) then send_sig (r_sig (creq_ r)) e_finalized (set_st e_create_sig r)
      else Some r
  end.

(** The callback of the class's own transaction. *)
Definition on_op (r : request) : option request :=
  match r_err (oreq_ r) with
  | Some e => Some (set_st e_error (on_error_sub e r))
  | None =>
      if decide (st_ r = e_op_sent) then send_sig (r_sig (oreq_ r)) (cmt_ r) (set_st e_op_sig r)
      else Some r
  end.

(** [on_response( rpc::signature_subscribe * )] of the classes that create an
    account, and of the others. *)
Definition on_signature_two (bhash : bytes) (r : request) : option request :=
  match sig_err_ r with
  | Some e => Some (set_st e_error (on_error_sub e r))
  | None =>
      if decide (st_ r = e_create_sig) then send_op bhash (set_st e_op_sent r)
      else if decide (st_ r = e_op_sig) then Some (on_response_sub (set_st e_done r))
      else Some r
  end.
Definition on_signature_one (r : request) : option request :=
  match sig_err_ r with
  | Some e => Some (set_st e_error (on_error_sub e r))
  | None => if decide (st_ r = e_op_sig) then Some (on_response_sub (set_st e_done r)) else Some r
  end.
Definition on_signature (bhash : bytes) (r : request) : option request :=
  if creates (kind_ r) then on_signature_two bhash r else on_signature_one r.

(** *** What the RPC client delivers *)

(** The [response] functions of the transactions, [signature_subscribe]'s
    [response] and [notify].  The block hash is the manager's at that time. *)
Inductive input :=
  | in_create (jt : jtree) | in_op (jt : jtree) | in_subscribed (jt : jtree) | in_signature (jt : jtree) (bhash : bytes).

Definition with_err (e : option bytes) (o : rpc_obj) : rpc_obj :=
  mk_rpc_obj (match e with Some _ => e | None => r_err o end) (r_sig o).
Definition response_create (jt : jtree) (r : request) : option request :=
  e ← on_error jt; on_create (set_creq (with_err e (creq_ r)) r).
Definition response_op (jt : jtree) (r : request) : option request :=
  e ← on_error jt; on_op (set_oreq (with_err e (oreq_ r)) r).
(** Without an error the answer only puts the request among the client's
    subscriptions. *)
Definition response_subscribe (jt : jtree) (bhash : bytes) (r : request) : option request :=
  e ← on_error jt;
  match e with
  | Some _ => on_signature bhash (set_sig_err e r)
  | None => Some r
  end.
(** [notify] reads the slot, and calls back. *)
Definition notify_signature (jt : jtree) (bhash : bytes) (r : request) : option request :=
  e ← on_error jt;
  match e with
  | Some _ => on_signature bhash (set_sig_err e r)
  | None =>
      ptok ← find_val jt 1 (bs "params");
      rtok ← find_val jt ptok (bs "result");
      ctok ← find_val jt rtok (bs "context");
      stok ← find_val jt ctok (bs "slot");
      slot ← get_uint jt stok;
      on_signature bhash r
  end.

Definition receive (r : request) (i : input) : option request :=
  match i with
  | in_create jt => response_create jt r
  | in_op jt => response_op jt r
  | in_subscribed jt => response_subscribe jt [] r
  | in_signature jt bhash => notify_signature jt bhash r
  end.

(** ** [submit]

    [gen] is the key pair that is generated, if one is.  The block hash of the
    second transaction is set when it is sent; until then it is empty here. *)

Definition submitted : Type := option (request * manager_view).
Definition fail (msg : bytes) (r : request) (m : manager_view) : submitted := Some (on_error_sub msg r, m).

(** The checks the classes share: a key, or the error that it is missing.  Some
    messages lack the closing bracket. *)
Definition with_publish (closing : bytes) (r : request) (m : manager_view)
    (cont : bytes -> manager_view -> submitted) : submitted :=
  '(ok, k) ← KeyStore.get_publish_key_pair (files m) (keys m);
  let m := set_key_store k m in
  if negb ok then fail (bs "missing or invalid publish key [" ++ KeyStore.get_publish_key_pair_file k ++ closing) r m
  else cont (KeyStore.pkey_ k) m.
Definition with_program (r : request) (m : manager_view) (cont : bytes -> manager_view -> submitted) : submitted :=
  '(ok, k) ← KeyStore.get_program_pub_key (files m) (keys m);
  let m := set_key_store k m in
  if negb ok then fail (bs "missing or invalid program public key [" ++ KeyStore.get_program_pub_key_file k ++ bs "]") r m
  else cont (KeyStore.gpub_ k) m.
Definition with_mapping (r : request) (m : manager_view) (cont : bytes -> manager_view -> submitted) : submitted :=
  '(ok, k) ← KeyStore.get_mapping_key_pair (files m) (keys m);
  let m := set_key_store k m in
  if negb ok then fail (bs "missing or invalid mapping key [" ++ KeyStore.get_mapping_key_pair_file k ++ bs "]") r m
  else cont (KeyStore.mkey_ k) m.
(** The key pair of an account on file, into [mkey_]. *)
Definition with_account (what pk : bytes) (r : request) (m : manager_view) (cont : request -> submitted) : submitted :=
  '(ok, kp) ← KeyStore.get_account_key_pair pk (keys m) (files m) (mkey_ r);
  let r := set_keys (akey_ r) kp r in
  if negb ok then fail (bs "missing key pair for " ++ what ++ bs " acct [" ++ hash_to_text pk ++ bs "]") r m
  else cont r.
(** A new account's key pair, into [akey_]. *)
Definition with_new_account (what gen : bytes) (r : request) (m : manager_view)
    (cont : request -> manager_view -> submitted) : submitted :=
  '(ok, kp, s) ← KeyStore.create_account_key_pair gen (keys m) (files m);
  let r := set_keys kp (mkey_ r) r in
  let m := set_files s m in
  if negb ok then fail (bs "failed to create new " ++ what ++ bs " key_pair") r m else cont r m.
(** The key pair of the last mapping account: the mapping's own, or one on
    file. *)
Definition with_last_mapping (mkey mpub : bytes) (r : request) (m : manager_view)
    (cont : bytes -> request -> manager_view -> submitted) : submitted :=
  '(ok, k) ← KeyStore.get_mapping_pub_key (files m) (keys m);
  let m := set_key_store k m in
  if negb ok then None else
  if hash_eqb mpub (KeyStore.mpub_ k) then cont mkey r m else
  '(ok, kp) ← KeyStore.get_account_key_pair mpub (keys m) (files m) (mkey_ r);
  let r := set_keys (akey_ r) kp r in
  if negb ok then fail (bs "cant find last mapping key_pair") r m else cont kp r m.

(** The ends of [submit]. *)
Definition start_create (pkey account gpub : bytes) (space : Z) (r : request) (m : manager_view) : submitted :=
  r ← send_create (AdminTx.create_account (block_hash m) pkey account gpub (lamports_ r) space) (set_st e_create_sent r);
  Some (r, m).
Definition start_op (r : request) (m : manager_view) : submitted :=
  r ← send_op (block_hash m) (set_st e_op_sent r);
  Some (r, m).

Definition submit_init_mapping (gen : bytes) (r : request) (m : manager_view) : submitted :=
  with_publish [] r m (fun pkey m =>
  '(ok, k) ← KeyStore.get_mapping_key_pair (files m) (keys m);
  let m := set_key_store k m in
  if ok : bool then fail (bs "mapping key pair already exists [" ++ KeyStore.get_mapping_key_pair_file k ++ bs "]") r m else
  '(ok, k, s) ← KeyStore.create_mapping_key_pair gen (keys m) (files m);
  let m := set_files s (set_key_store k m) in
  if negb ok then fail (bs "failed to create mapping key pair [" ++ KeyStore.get_mapping_key_pair_file k ++ bs "]") r m else
  let mkey := KeyStore.mkey_ k in
  with_program r m (fun gpub m =>
  start_create pkey mkey gpub sizeof_map_table (set_op (AdminTx.init_mapping [] pkey mkey gpub) r) m)).

Definition submit_add_mapping (gen : bytes) (r : request) (m : manager_view) : submitted :=
  with_publish [] r m (fun pkey m =>
  with_mapping r m (fun mkey m =>
  '(mpub, num) ← last_mapping m;
  if negb (get_is_full num) then fail (bs "last mapping table not yet full") r m else
  with_last_mapping mkey mpub r m (fun mkey r m =>
  with_program r m (fun gpub m =>
  with_new_account (bs "mapping") gen r m (fun r m =>
  start_create pkey (akey_ r) gpub sizeof_map_table (set_op (AdminTx.add_mapping [] pkey mkey (akey_ r) gpub) r) m))))).

Definition submit_add_product (gen : bytes) (r : request) (m : manager_view) : submitted :=
  with_mapping r m (fun mkey m =>
  '(mpub, num) ← last_mapping m;
  if get_is_full num then fail (bs "mapping table full. run add_mapping first") r m else
  with_last_mapping mkey mpub r m (fun mkey r m =>
  with_publish (bs "]") r m (fun pkey m =>
  with_program r m (fun gpub m =>
  with_new_account (bs "symbol") gen r m (fun r m =>
  start_create pkey (akey_ r) gpub PC_PROD_ACC_SIZE (set_op (AdminTx.add_product [] pkey gpub (akey_ r) mkey) r) m))))).

Definition submit_upd_product (prod : product_view) (attrs : AttrDict.attr_dict) (ids : AttrDict.attr_id_set)
    (r : request) (m : manager_view) : submitted :=
  with_publish (bs "]") r m (fun pkey m =>
  with_program r m (fun gpub m =>
  with_account (bs "product") (pv_account prod) r m (fun r =>
  start_op (set_op (AdminTx.upd_product [] pkey gpub (mkey_ r) attrs ids) r) m))).

Definition get_price (prod : product_view) (ptype : Z) : bool := existsb (Z.eqb ptype) (pv_types prod).
Definition submit_add_price (prod : product_view) (expo ptype : Z) (gen : bytes) (r : request) (m : manager_view) : submitted :=
  with_publish (bs "]") r m (fun pkey m =>
  with_program r m (fun gpub m =>
  if get_price prod ptype then fail (bs "price_type already exists for this product") r m else
  with_account (bs "product") (pv_account prod) r m (fun r =>
  with_new_account (bs "symbol") gen r m (fun r m =>
  start_create pkey (akey_ r) gpub sizeof_price
    (set_op (AdminTx.add_price expo ptype [] pkey gpub (akey_ r) (mkey_ r)) r) m)))).

Definition submit_init_price (px : price_view) (expo : Z) (r : request) (m : manager_view) : submitted :=
  with_publish (bs "]") r m (fun pkey m =>
  with_program r m (fun gpub m =>
  with_account (bs "price") (xv_account px) r m (fun r =>
  start_op (set_op (AdminTx.init_price expo (xv_type px) [] pkey gpub (mkey_ r)) r) m))).

Definition submit_set_min_pub (px : price_view) (min_pub : Z) (r : request) (m : manager_view) : submitted :=
  with_publish (bs "]") r m (fun pkey m =>
  with_program r m (fun gpub m =>
  with_account (bs "price") (xv_account px) r m (fun r =>
  start_op (set_op (AdminTx.set_min_pub_rpc min_pub [] pkey gpub (mkey_ r)) r) m))).

Definition has_publisher (px : price_view) (pub : bytes) : bool := existsb (fun k => hash_eqb k pub) (xv_pubs px).
Definition submit_add_publisher (px : price_view) (pub : bytes) (r : request) (m : manager_view) : submitted :=
  if has_publisher px pub then fail (bs "publisher already exists for this symbol") r m else
  with_publish (bs "]") r m (fun pkey m =>
  with_program r m (fun gpub m =>
  with_account (bs "price") (xv_account px) r m (fun r =>
  start_op (set_op (AdminTx.add_publisher pub [] pkey gpub (mkey_ r)) r) m))).
Definition submit_del_publisher (px : price_view) (pub : bytes) (r : request) (m : manager_view) : submitted :=
  if negb (has_publisher px pub) then fail (bs "publisher not defined for this symbol") r m else
  with_publish (bs "]") r m (fun pkey m =>
  with_program r m (fun gpub m =>
  with_account (bs "price") (xv_account px) r m (fun r =>
  start_op (set_op (AdminTx.del_publisher pub [] pkey gpub (mkey_ r)) r) m))).

Definition submit (gen : bytes) (r : request) (m : manager_view) : submitted :=
  match kind_ r with
  | init_mapping => submit_init_mapping gen r m
  | add_mapping => submit_add_mapping gen r m
  | add_product => submit_add_product gen r m
  | upd_product prod attrs ids => submit_upd_product prod attrs ids r m
  | add_price prod expo ptype => submit_add_price prod expo ptype gen r m
  | init_price px expo => submit_init_price px expo r m
  | set_min_pub_req px min_pub => submit_set_min_pub px min_pub r m
  | add_publisher px pub => submit_add_publisher px pub r m
  | del_publisher px pub => submit_del_publisher px pub r m
  end.

(** ** The amount that keeps an account: no transaction, one answer *)

Record rent_request := mk_rent_request {
  rt_st : state_t; rt_size : Z; rt_lamports : Z; rt_obj_err : option bytes; rt_err : option bytes; rt_events : list event }.
Definition new_rent : rent_request := mk_rent_request e_op_sent 128 0 None None [].
Definition set_size (sz : Z) (r : rent_request) : rent_request :=
  mk_rent_request (rt_st r) sz (rt_lamports r) (rt_obj_err r) (rt_err r) (rt_events r).
Definition submit_rent (r : rent_request) : option rent_request :=
  _ ← request_minimum_balance (rt_size r) open;
  Some (mk_rent_request e_op_sent (rt_size r) (rt_lamports r) (rt_obj_err r) (rt_err r) (rt_events r)).
Definition on_rent (r : rent_request) : rent_request :=
  match rt_obj_err r with
  | Some e => mk_rent_request e_error (rt_size r) (rt_lamports r) (rt_obj_err r) (Some e) (rt_events r ++ [ev_response])
  | None =>
      if decide (rt_st r = e_op_sent)
      then mk_rent_request e_done (rt_size r) (rt_lamports r) None (rt_err r) (rt_events r ++ [ev_response])
      else r
  end.
Definition response_rent (jt : jtree) (r : rent_request) : option rent_request :=
  e ← on_error jt;
  match e with
  | Some _ => Some (on_rent (mk_rent_request (rt_st r) (rt_size r) (rt_lamports r) e (rt_err r) (rt_events r)))
  | None =>
      tok ← find_val jt 1 (bs "result");
      v ← get_uint jt tok;
      Some (on_rent (mk_rent_request (rt_st r) (rt_size r) v (rt_obj_err r) (rt_err r) (rt_events r)))
  end.

(** ** What a request is to do

    The transactions in turn, each waiting for its confirmation: the first, that
    creates the account, until it is final, the other as asked for.  Two
    transactions with their signatures make the plan. *)

Record tx := mk_tx { t_tx : admin_tx; t_sig : bytes }.
Definition plan (two : bool) (cmt : Z) (c o : tx) : list (state_t * event) :=
  (if two then [(e_create_sent, ev_send (t_tx c) (t_sig c)); (e_create_sig, ev_subscribe (t_sig c) e_finalized)] else [])
  ++ [(e_op_sent, ev_send (t_tx o) (t_sig o)); (e_op_sig, ev_subscribe (t_sig o) cmt); (e_done, ev_response)].

(** The part of the plan that is done, or the part that was when an answer was
    an error. *)
Inductive progress := going (p : nat) | failed (p : nat).

(** The answers, and whether they are errors. *)
Inductive answer := a_create (ok : bool) | a_op (ok : bool) | a_subscribed (ok : bool) | a_signature (ok : bool).
Definition ok_of (a : answer) : bool :=
  match a with a_create b | a_op b | a_subscribed b | a_signature b => b end.
(** The answer each point of the plan waits for. *)
Definition awaited (s : state_t) (a : answer) : bool :=
  match s, a with
  | e_create_sent, a_create _ | e_create_sig, a_signature _ | e_op_sent, a_op _ | e_op_sig, a_signature _ => true
  | _, _ => false
  end.
Definition state_at (two : bool) (p : nat) : state_t :=
  nth (Nat.pred p) ((if two then [e_create_sent; e_create_sig] else []) ++ [e_op_sent; e_op_sig; e_done]) e_error.
Definition advance (two : bool) (s : progress) (a : answer) : progress :=
  match s with
  | failed p => failed p
  | going p => if negb (ok_of a) then failed p else if awaited (state_at two p) a then going (S p) else going p
  end.

(** Reading the inputs. *)
Definition is_ok (jt : jtree) : bool := match on_error jt with Some None => true | _ => false end.
Definition answer_of (i : input) : answer :=
  match i with
  | in_create jt => a_create (is_ok jt)
  | in_op jt => a_op (is_ok jt)
  | in_subscribed jt => a_subscribed (is_ok jt)
  | in_signature jt _ => a_signature (is_ok jt)
  end.

(** A transaction was signed as it was sent. *)
Definition signed (t : tx) : Prop := exists w, AdminTx.request ed25519_sign block (t_tx t) open = Some (w, t_sig t).

(** A request at a point of its plan, whose second transaction is [op] with
    some block hash. *)
Inductive at_point (op : admin_tx) (r : request) : progress -> Prop :=
  | at_going p c o h :
      (1 <= p <= length (plan (creates (kind_ r)) (cmt_ r) c o))%nat ->
      st_ r = state_at (creates (kind_ r)) p ->
      events r = snd <$> take p (plan (creates (kind_ r)) (cmt_ r) c o) ->
      (forall t s, ev_send t s ∈ events r -> signed (mk_tx t s)) ->
      t_sig c = r_sig (creq_ r) -> t_sig o = r_sig (oreq_ r) ->
      t_tx o = set_block_hash h op -> op_ r = Some (set_block_hash h op) ->
      r_err (creq_ r) = None -> r_err (oreq_ r) = None -> sig_err_ r = None -> err_ r = None ->
      at_point op r (going p)
  | at_failed p c o h n :
      st_ r = e_error -> is_Some (err_ r) ->
      events r = (snd <$> take p (plan (creates (kind_ r)) (cmt_ r) c o)) ++ replicate (S n) ev_response ->
      (forall t s, ev_send t s ∈ events r -> signed (mk_tx t s)) ->
      t_tx o = set_block_hash h op ->
      at_point op r (failed p).

Lemma set_block_hash_twice h h' t : set_block_hash h (set_block_hash h' t) = set_block_hash h t.
Proof. by destruct t. Qed.

(** The outcome of a callback whose object has an error. *)
Definition erred (e : bytes) (r : request) : request := set_st e_error (on_error_sub e r).

Lemma on_create_err e r : r_err (creq_ r) = Some e -> on_create r = Some (erred e r).
Proof. unfold on_create. by intros ->. Qed.
Lemma on_op_err e r : r_err (oreq_ r) = Some e -> on_op r = Some (erred e r).
Proof. unfold on_op. by intros ->. Qed.
Lemma on_signature_err e h r : sig_err_ r = Some e -> on_signature h r = Some (erred e r).
Proof. unfold on_signature, on_signature_two, on_signature_one. intros ->. by destruct (creates (kind_ r)). Qed.

(** An error answer, whatever the request was doing. *)
Lemma receive_err r i r' e :
  (match i with in_create jt | in_op jt | in_subscribed jt | in_signature jt _ => on_error jt end) = Some (Some e) ->
  receive r i = Some r' ->
  st_ r' = e_error /\ err_ r' = Some e /\ events r' = events r ++ [ev_response]
  /\ kind_ r' = kind_ r /\ cmt_ r' = cmt_ r.
Proof.
  destruct i; cbn [receive]; unfold response_create, response_op, response_subscribe, notify_signature;
    intros ->; cbn [mbind option_bind].
  - rewrite (on_create_err e) by done. by intros [=]; subst.
  - rewrite (on_op_err e) by done. by intros [=]; subst.
  - rewrite (on_signature_err e) by done. by intros [=]; subst.
  - rewrite (on_signature_err e) by done. by intros [=]; subst.
Qed.

(** A request that failed does nothing more but tell of further errors. *)
Lemma receive_failed r i r' :
  st_ r = e_error -> is_Some (err_ r) -> receive r i = Some r' ->
  st_ r' = e_error /\ is_Some (err_ r') /\ kind_ r' = kind_ r /\ cmt_ r' = cmt_ r
  /\ (events r' = events r \/ events r' = events r ++ [ev_response]).
Proof.
  intros Hs He.
  assert (forall r, st_ r = e_error -> is_Some (err_ r) -> forall r', on_create r = Some r' \/ on_op r = Some r'
            \/ (exists h, on_signature h r = Some r') ->
    st_ r' = e_error /\ is_Some (err_ r') /\ kind_ r' = kind_ r /\ cmt_ r' = cmt_ r
    /\ (events r' = events r \/ events r' = events r ++ [ev_response])) as Hcb.
  { clear. intros r Hs He r' Hx.
    assert ((exists e, r' = erred e r) \/ r' = r) as [[e ->]| ->].
    - destruct Hx as [Hx|[Hx|[h Hx]]]; revert Hx; unfold on_create, on_op, on_signature, on_signature_two, on_signature_one;
        rewrite ?Hs; try (destruct (r_err _)); try (destruct (creates _)); try (destruct (sig_err_ r));
        rewrite ?decide_False by done; intros [=]; subst; by eauto.
    - split_and!; cbn; eauto.
    - split_and!; auto. }
  destruct i; cbn [receive]; unfold response_create, response_op, response_subscribe, notify_signature;
    (destruct (on_error jt) as [e|] eqn:Ee; [|done]); cbn [mbind option_bind].
  - intros Hx. by apply (Hcb (set_creq (with_err e (creq_ r)) r)); auto.
  - intros Hx. by apply (Hcb (set_oreq (with_err e (oreq_ r)) r)); auto.
  - destruct e as [e|]; [|intros [=]; subst; split_and!; auto]. intros Hx.
    apply (Hcb (set_sig_err (Some e) r)); eauto.
  - destruct e as [e|]; [intros Hx; apply (Hcb (set_sig_err (Some e) r)); eauto|].
    intros Hx. repeat (match type of Hx with context [_ ← ?x; _] => destruct x; [|done]; cbn [mbind option_bind] in Hx end).
    apply (Hcb r); eauto.
Qed.
(** The point a state stands for. *)

Lemma point_of (two : bool) (p : nat) (s : state_t) : (1 <= p <= (if two then 5 else 3))%nat -> state_at two p = s ->
  match s with
  | e_create_sent => two = true /\ p = 1%nat
  | e_create_sig => two = true /\ p = 2%nat
  | e_op_sent => p = (if two then 3 else 1)%nat
  | e_op_sig => p = (if two then 4 else 2)%nat
  | e_done => p = (if two then 5 else 3)%nat
  | e_error => False
  end.
Proof.
  intros Hp <-. destruct two; destruct p as [|[|[|[|[|[|p]]]]]]; cbn in *; lia.
Qed.

Lemma length_plan two cmt c o : length (plan two cmt c o) = if two then 5%nat else 3%nat.
Proof. by destruct two. Qed.

(** The callbacks at a point of the plan, without an error. *)
Lemma create_at op r p r' : at_point op r (going p) -> on_create r = Some r' ->
  at_point op r' (advance (creates (kind_ r)) (going p) (a_create true)) /\ kind_ r' = kind_ r /\ cmt_ r' = cmt_ r.
Proof.
  intros Hp. inversion Hp as [? c o h Hr Hs Hev Hsg Hc Ho Hto Hop Ec Eo Es Er|]; subst.
  unfold on_create. rewrite Ec. rewrite length_plan in Hr. cbn [advance ok_of negb]. rewrite <- Hs.
  destruct (decide (st_ r = e_create_sent)) as [E|E].
  - rewrite E in *. cbn [awaited].
    destruct (point_of _ _ _ Hr (eq_sym Hs)) as [Htwo ->].
    unfold send_sig. destruct (request_signature_subscribe _ _ _); [|done]. cbn [mbind option_bind].
    intros [=]; subst. split; [|done]. rewrite Htwo in *.
    apply (at_going _ _ 2 c o h); cbn [kind_ cmt_ st_ events creq_ oreq_ op_ sig_err_ err_ add_event set_st]; rewrite ?Htwo; try done.
    + cbn. lia.
    + rewrite Hev, <- Hc. done.
    + intros t s. rewrite Hev. cbn. rewrite !elem_of_cons. intros [[=]|[[=]|Hn]]; [|by apply elem_of_nil in Hn].
      subst. apply Hsg. rewrite Hev. by left.
  - intros [=]; subst. destruct (st_ r'); done.
Qed.

Lemma op_at op r p r' : at_point op r (going p) -> on_op r = Some r' ->
  at_point op r' (advance (creates (kind_ r)) (going p) (a_op true)) /\ kind_ r' = kind_ r /\ cmt_ r' = cmt_ r.
Proof.
  intros Hp. inversion Hp as [? c o h Hr Hs Hev Hsg Hc Ho Hto Hop Ec Eo Es Er|]; subst.
  unfold on_op. rewrite Eo. rewrite length_plan in Hr. cbn [advance ok_of negb]. rewrite <- Hs.
  destruct (decide (st_ r = e_op_sent)) as [E|E]; [|intros [=]; subst; destruct (st_ r'); done].
  rewrite E in *. cbn [awaited]. pose proof (point_of _ _ _ Hr (eq_sym Hs)) as ->.
  unfold send_sig. destruct (request_signature_subscribe _ _ _); [|done]. cbn [mbind option_bind].
  intros [=]; subst. split; [|done].
  apply (at_going _ _ _ c o h); cbn [kind_ cmt_ st_ events creq_ oreq_ op_ sig_err_ err_ add_event set_st]; try done.
  - destruct (creates (kind_ r)); cbn; lia.
  - by destruct (creates (kind_ r)).
  - rewrite Hev, <- Ho. by destruct (creates (kind_ r)).
  - intros t s. rewrite elem_of_app, list_elem_of_singleton. intros [Hin|[=]]. by apply Hsg.
Qed.

Lemma signature_at op r p h' r' : at_point op r (going p) -> on_signature h' r = Some r' ->
  at_point op r' (advance (creates (kind_ r)) (going p) (a_signature true)) /\ kind_ r' = kind_ r /\ cmt_ r' = cmt_ r.
Proof.
  intros Hp. inversion Hp as [? c o h Hr Hs Hev Hsg Hc Ho Hto Hop Ec Eo Es Er|]; subst.
  rewrite length_plan in Hr. cbn [advance ok_of negb]. rewrite <- Hs.
  assert (forall r', on_response_sub (set_st e_done r) = r' -> st_ r = e_op_sig ->
    at_point op r' (going (S p)) /\ kind_ r' = kind_ r /\ cmt_ r' = cmt_ r) as Hdone.
  { intros ? <- E. rewrite E in Hs. pose proof (point_of _ _ _ Hr (eq_sym Hs)) as ->. split; [|done].
    apply (at_going _ _ _ c o h); cbn [kind_ cmt_ st_ events creq_ oreq_ op_ sig_err_ err_ add_event set_st on_response_sub]; try done.
    - destruct (creates (kind_ r)); cbn; lia.
    - by destruct (creates (kind_ r)).
    - rewrite Hev. by destruct (creates (kind_ r)).
    - intros t s. rewrite elem_of_app, list_elem_of_singleton. intros [Hin|[=]]. by apply Hsg. }
  unfold on_signature, on_signature_two, on_signature_one. rewrite Es. destruct (creates (kind_ r)) eqn:Htwo.
  - destruct (decide (st_ r = e_create_sig)) as [E|E].
    + rewrite E in *. cbn [awaited]. destruct (point_of true p _ Hr (eq_sym Hs)) as [_ ->].
      unfold send_op. cbn [op_ set_st]. rewrite Hop. cbn [mbind option_bind]. rewrite set_block_hash_twice.
      destruct (AdminTx.request _ _ _ _) as [[w sig]|] eqn:Eq; [|done]. cbn [mbind option_bind]. intros [=]; subst.
      split; [|done]. set (o' := mk_tx (set_block_hash h' op) sig).
      apply (at_going _ _ 3 c o' h'); cbn [kind_ cmt_ st_ events creq_ oreq_ op_ sig_err_ err_ add_event set_st set_oreq set_op r_err r_sig];
        rewrite ?Htwo; try done.
      * cbn. lia.
      * rewrite Hev. done.
      * intros t s. rewrite elem_of_app, list_elem_of_singleton. intros [Hin|[= -> ->]]; [by apply Hsg|by exists w].
    + destruct (decide (st_ r = e_op_sig)) as [E2|E2].
      * rewrite E2. cbn [awaited]. intros [=]. by apply Hdone.
      * intros [=]; subst. destruct (st_ r'); done.
  - destruct (decide (st_ r = e_op_sig)) as [E2|E2].
    + rewrite E2. cbn [awaited]. intros [=]. by apply Hdone.
    + intros [=]; subst. destruct (st_ r') eqn:E; try done. destruct (point_of false p _ Hr (eq_sym Hs)). done.
Qed.

Lemma with_err_none (o : rpc_obj) : with_err None o = o.
Proof. by destruct o. Qed.
Lemma set_creq_same r : set_creq (creq_ r) r = r.
Proof. by destruct r. Qed.
Lemma set_oreq_same r : set_oreq (oreq_ r) r = r.
Proof. by destruct r. Qed.

(** One input: the request moves as its plan does. *)
Lemma receive_at op r s i r' : at_point op r s -> receive r i = Some r' ->
  at_point op r' (advance (creates (kind_ r)) s (answer_of i)) /\ kind_ r' = kind_ r /\ cmt_ r' = cmt_ r.
Proof.
  intros Hp Hr. destruct s as [p|p].
  - destruct (match i with in_create jt | in_op jt | in_subscribed jt | in_signature jt _ => on_error jt end) as [[e|]|] eqn:Ee.
    + destruct (receive_err _ _ _ _ Ee Hr) as (Hs & He & Hev & Hk & Hc).
      assert (advance (creates (kind_ r)) (going p) (answer_of i) = failed p) as ->.
      { unfold advance. destruct i; cbn [answer_of ok_of]; unfold is_ok; by rewrite Ee. }
      split; [|done]. inversion Hp as [? c o h ? ? Hev0 Hsg ? ? Hto|]; subst.
      apply (at_failed _ _ _ c o h 0); rewrite ?Hk, ?Hc; [done | by eexists | by rewrite Hev, Hev0 | | done].
      intros t s. rewrite Hev, elem_of_app, list_elem_of_singleton. intros [Hin|[=]]. by apply Hsg.
    + destruct i; cbn [receive answer_of] in *; unfold response_create, response_op, response_subscribe, notify_signature, is_ok in *;
        rewrite Ee in *; cbn [mbind option_bind] in Hr.
      * rewrite with_err_none, set_creq_same in Hr. by apply create_at.
      * rewrite with_err_none, set_oreq_same in Hr. by apply op_at.
      * injection Hr as <-. split; [|done]. cbn [advance ok_of negb]. by destruct (state_at _ p).
      * repeat (match type of Hr with context [_ ← ?x; _] => destruct x; [|done]; cbn [mbind option_bind] in Hr end).
        by eapply signature_at.
    + exfalso. destruct i; cbn [receive] in Hr; unfold response_create, response_op, response_subscribe, notify_signature in Hr;
        by rewrite Ee in Hr.
  - cbn [advance]. inversion Hp as [|? c o h n Hs He Hev Hsg Hto]; subst.
    destruct (receive_failed _ _ _ Hs He Hr) as (Hs' & He' & Hk & Hc & Hev'). split; [|done].
    destruct Hev' as [Hev'|Hev'].
    + apply (at_failed _ _ _ c o h n); rewrite ?Hk, ?Hc; try done; [congruence|]. by rewrite Hev'.
    + apply (at_failed _ _ _ c o h (S n)); rewrite ?Hk, ?Hc; try done.
      * rewrite Hev', Hev, <- app_assoc. f_equal. by rewrite <- replicate_S_end.
      * intros t s. rewrite Hev', elem_of_app, list_elem_of_singleton. intros [Hin|[=]]. by apply Hsg.
Qed.

(** All the inputs. *)
Definition receives (r : request) (ins : list input) : option request :=
  foldl (fun r i => r ← r; receive r i) (Some r) ins.

Lemma receives_cons r i ins : receives r (i :: ins) = (r ← receive r i; receives r ins).
Proof.
  unfold receives. cbn [foldl mbind option_bind]. destruct (receive r i) as [r'|]; [done|]. cbn.
  induction ins as [|j ins IH]; [done|]. exact IH.
Qed.

Lemma receives_at op ins : forall r s r', at_point op r s -> receives r ins = Some r' ->
  at_point op r' (foldl (advance (creates (kind_ r))) s (answer_of <$> ins)) /\ kind_ r' = kind_ r /\ cmt_ r' = cmt_ r.
Proof.
  induction ins as [|i ins IH]; intros r s r' Hp; [by intros [=]; subst|]. rewrite receives_cons.
  destruct (receive r i) as [r1|] eqn:E; [|done]. cbn [mbind option_bind]. intros Hr.
  destruct (receive_at _ _ _ _ _ Hp E) as (H1 & Hk & Hc). rewrite fmap_cons. cbn [foldl].
  destruct (IH _ _ _ H1 Hr) as (H2 & Hk2 & Hc2). rewrite Hk in *. split_and!; [done | congruence | congruence].
Qed.

(** ** Submitting *)

(** What holds of the outcome, if there is one. *)
Definition post (o : submitted) (Q : request -> manager_view -> Prop) : Prop :=
  forall r m, o = Some (r, m) -> Q r m.

(** A request that has done nothing yet. *)
Record fresh (r : request) : Prop := {
  fr_events : events r = []; fr_creq : r_err (creq_ r) = None; fr_oreq : r_err (oreq_ r) = None;
  fr_sig : sig_err_ r = None; fr_err : err_ r = None }.
Lemma fresh_keys r a k : fresh r -> fresh (set_keys a k r).
Proof. by intros []. Qed.
Lemma fresh_op r t : fresh r -> fresh (set_op t r).
Proof. by intros []. Qed.
#[local] Hint Resolve fresh_keys fresh_op : core.

(** What reading keys leaves alone. *)
Definition same_manager (m m' : manager_view) : Prop :=
  block_hash m' = block_hash m /\ KeyStore.dir_ (keys m') = KeyStore.dir_ (keys m).
Lemma same_manager_trans m1 m2 m3 : same_manager m1 m2 -> same_manager m2 m3 -> same_manager m1 m3.
Proof. intros [H1 H2] [H3 H4]. split; congruence. Qed.

Ltac read_keys := repeat match goal with
  | |- context [if ?b then _ else _] => destruct b
  | |- context [KeyStore.key_pair_from_file ?f ?s ?o] => destruct (KeyStore.key_pair_from_file f s o) as [[[] ?]|]
  | |- context [KeyStore.hash_from_file ?f ?s ?o] => destruct (KeyStore.hash_from_file f s o) as [[[] ?]|]
  | _ => progress cbn [mbind option_bind]
  end; intros [=]; subst; done.

Lemma publish_dir s k b k' : KeyStore.get_publish_key_pair s k = Some (b, k') -> KeyStore.dir_ k' = KeyStore.dir_ k.
Proof. unfold KeyStore.get_publish_key_pair. read_keys. Qed.
Lemma mapping_frame s k b k' : KeyStore.get_mapping_key_pair s k = Some (b, k') ->
  KeyStore.dir_ k' = KeyStore.dir_ k /\ KeyStore.pkey_ k' = KeyStore.pkey_ k /\ KeyStore.gpub_ k' = KeyStore.gpub_ k.
Proof. unfold KeyStore.get_mapping_key_pair. read_keys. Qed.
Lemma program_frame s k b k' : KeyStore.get_program_pub_key s k = Some (b, k') ->
  KeyStore.dir_ k' = KeyStore.dir_ k /\ KeyStore.pkey_ k' = KeyStore.pkey_ k.
Proof. unfold KeyStore.get_program_pub_key, KeyStore.get_program_key_pair. read_keys. Qed.
Lemma mapping_pub_frame s k b k' : KeyStore.get_mapping_pub_key s k = Some (b, k') ->
  KeyStore.dir_ k' = KeyStore.dir_ k /\ KeyStore.pkey_ k' = KeyStore.pkey_ k /\ KeyStore.gpub_ k' = KeyStore.gpub_ k.
Proof. unfold KeyStore.get_mapping_pub_key, KeyStore.get_mapping_key_pair. read_keys. Qed.

(** The rules for the shared checks: what each failure and the rest of
    [submit] must give. *)
Section rules.
Context (Q : request -> manager_view -> Prop).
(** A refusal is an error, and the subscribers told. *)
Context (refused : forall r m e, fresh r -> Q (on_error_sub e r) m).

Lemma post_fail e r m : fresh r -> post (fail e r m) Q.
Proof. intros Hf r' m' [=]; subst. by apply refused. Qed.

Lemma post_publish c r m cont : fresh r ->
  (forall k, KeyStore.dir_ k = KeyStore.dir_ (keys m) -> post (cont (KeyStore.pkey_ k) (set_key_store k m)) Q) ->
  post (with_publish c r m cont) Q.
Proof.
  intros Hf Hc. unfold with_publish. destruct (KeyStore.get_publish_key_pair _ _) as [[[] k]|] eqn:E; [|by apply post_fail|done].
  apply Hc. by eapply publish_dir.
Qed.

Lemma post_program r m cont : fresh r ->
  (forall k, KeyStore.dir_ k = KeyStore.dir_ (keys m) -> KeyStore.pkey_ k = KeyStore.pkey_ (keys m) ->
     post (cont (KeyStore.gpub_ k) (set_key_store k m)) Q) ->
  post (with_program r m cont) Q.
Proof.
  intros Hf Hc. unfold with_program. destruct (KeyStore.get_program_pub_key _ _) as [[[] k]|] eqn:E; [|by apply post_fail|done].
  apply program_frame in E as [H1 H2]. by apply Hc.
Qed.

Lemma post_mapping r m cont : fresh r ->
  (forall k, KeyStore.dir_ k = KeyStore.dir_ (keys m) -> KeyStore.pkey_ k = KeyStore.pkey_ (keys m) ->
     post (cont (KeyStore.mkey_ k) (set_key_store k m)) Q) ->
  post (with_mapping r m cont) Q.
Proof.
  intros Hf Hc. unfold with_mapping. destruct (KeyStore.get_mapping_key_pair _ _) as [[[] k]|] eqn:E; [|by apply post_fail|done].
  apply mapping_frame in E as (H1 & H2 & _). by apply Hc.
Qed.

Lemma post_account what pk r m cont : fresh r ->
  (forall kp, post (cont (set_keys (akey_ r) kp r)) Q) -> post (with_account what pk r m cont) Q.
Proof.
  intros Hf Hc. unfold with_account.
  destruct (KeyStore.get_account_key_pair _ _ _ _) as [[[] kp]|]; [apply Hc|apply post_fail; auto|done].
Qed.

Lemma post_last_mapping mkey mpub r m cont : fresh r ->
  (forall kp r' k, fresh r' -> kind_ r' = kind_ r -> cmt_ r' = cmt_ r -> lamports_ r' = lamports_ r ->
     KeyStore.dir_ k = KeyStore.dir_ (keys m) -> KeyStore.pkey_ k = KeyStore.pkey_ (keys m) ->
     post (cont kp r' (set_key_store k m)) Q) ->
  post (with_last_mapping mkey mpub r m cont) Q.
Proof.
  intros Hf Hc. unfold with_last_mapping.
  destruct (KeyStore.get_mapping_pub_key _ _) as [[[] k]|] eqn:E; [|done..]. apply mapping_pub_frame in E as (H1 & H2 & _).
  cbn [negb mbind option_bind]. destruct (hash_eqb _ _); [by apply Hc|].
  destruct (KeyStore.get_account_key_pair _ _ _ _) as [[[] kp]|]; [|apply post_fail; auto|done]. apply Hc; auto.
Qed.

(** A new account's key pair is on file. *)
Lemma post_new_account what gen r m cont : fresh r -> is_bytes gen -> length gen = key_pair_len ->
  (forall s, KeyStore.content (KeyStore.account_file (get_pub_key gen) (keys m)) s = Some (KeyStore.key_text gen) ->
     KeyStore.mode (KeyStore.account_file (get_pub_key gen) (keys m)) s = 256 ->
     post (cont (set_keys gen (mkey_ r) r) (set_files s m)) Q) ->
  post (with_new_account what gen r m cont) Q.
Proof.
  intros Hf Hb Hl Hc. unfold with_new_account, KeyStore.create_account_key_pair.
  destruct (KeyStore.write_key_file_ends (KeyStore.account_file (get_pub_key gen) (keys m)) gen (files m) Hb Hl)
    as (ok & s & -> & Hok & _). cbn [mbind option_bind]. destruct ok; [|apply post_fail; auto].
  destruct (Hok eq_refl). by apply Hc.
Qed.
End rules.

Lemma start_create_at op pkey acct gpub space r m :
  fresh r -> creates (kind_ r) = true -> op_ r = Some op -> set_block_hash [] op = op ->
  post (start_create pkey acct gpub space r m) (fun r1 m1 =>
    m1 = m /\ kind_ r1 = kind_ r /\ cmt_ r1 = cmt_ r /\ at_point op r1 (going 1)
    /\ exists s, events r1 = [ev_send (AdminTx.create_account (block_hash m) pkey acct gpub (lamports_ r) space) s]).
Proof.
  intros [Fe Fc Fo Fs Fr] Hk Hop Hn r1 m1. unfold start_create, send_create.
  destruct (AdminTx.request _ _ _ _) as [[w sig]|] eqn:E; [|done]. cbn [mbind option_bind]. intros [=]; subst.
  set (t := AdminTx.create_account _ _ _ _ _ _) in *. split_and!; try done; [|exists sig; cbn; by rewrite Fe].
  apply (at_going _ _ 1 (mk_tx t sig) (mk_tx op (r_sig (oreq_ r))) []);
    cbn [kind_ cmt_ st_ events creq_ oreq_ op_ sig_err_ err_ add_event set_st set_creq r_err r_sig t_tx t_sig]; rewrite ?Hk, ?Fe; try done.
  - cbn. lia.
  - intros t' s'. cbn. rewrite list_elem_of_singleton. intros [=]; subst. by exists w.
  - by rewrite Hop, Hn.
Qed.

Lemma start_op_at op r m :
  fresh r -> creates (kind_ r) = false -> op_ r = Some op ->
  post (start_op r m) (fun r1 m1 =>
    m1 = m /\ kind_ r1 = kind_ r /\ cmt_ r1 = cmt_ r /\ at_point op r1 (going 1)
    /\ exists s, events r1 = [ev_send (set_block_hash (block_hash m) op) s]).
Proof.
  intros [Fe Fc Fo Fs Fr] Hk Hop r1 m1. unfold start_op, send_op. cbn [op_ set_st]. rewrite Hop. cbn [mbind option_bind].
  destruct (AdminTx.request _ _ _ _) as [[w sig]|] eqn:E; [|done]. cbn [mbind option_bind]. intros [=]; subst.
  set (t := set_block_hash _ _) in *. split_and!; try done; [|exists sig; cbn; by rewrite Fe].
  apply (at_going _ _ 1 (mk_tx t (r_sig (creq_ r))) (mk_tx t sig) (block_hash m1));
    cbn [kind_ cmt_ st_ events creq_ oreq_ op_ sig_err_ err_ add_event set_st set_oreq set_op r_err r_sig t_tx t_sig]; rewrite ?Hk, ?Fe; try done.
  - cbn. lia.
  - intros t' s'. cbn. rewrite list_elem_of_singleton. intros [=]; subst. by exists w.
Qed.

(** The account's key pair is on file, for the user only. *)
Definition saved (k : admin_kind) (gen : bytes) (m : manager_view) : Prop :=
  let file := match k with
              | init_mapping => KeyStore.get_mapping_key_pair_file (keys m)
              | _ => KeyStore.account_file (get_pub_key gen) (keys m)
              end in
  KeyStore.content file (files m) = Some (KeyStore.key_text gen) /\ KeyStore.mode file (files m) = 256.

(** What [submit] is to achieve: an error, and nothing sent; or the first
    transaction, paid for by the publishing key. *)
Definition launched (gen : bytes) (r : request) (m : manager_view) (r1 : request) (m1 : manager_view) : Prop :=
  let pkey := KeyStore.pkey_ (keys m1) in
  kind_ r1 = kind_ r /\ cmt_ r1 = cmt_ r /\ exists op, at_point op r1 (going 1) /\ head (AdminTx.keys op) = Some pkey
  /\ if creates (kind_ r)
     then gen ∈ AdminTx.keys op /\ saved (kind_ r) gen m1
          /\ exists space s, events r1 = [ev_send (AdminTx.create_account (block_hash m) pkey gen (AdminTx.program op) (lamports_ r) space) s]
     else exists s, events r1 = [ev_send (set_block_hash (block_hash m) op) s].
Definition outcome (gen : bytes) (r : request) (m : manager_view) (r1 : request) (m1 : manager_view) : Prop :=
  (is_Some (err_ r1) /\ events r1 = [ev_response]) \/ launched gen r m r1 m1.

Lemma outcome_refused gen r m r1 m1 e : fresh r1 -> outcome gen r m (on_error_sub e r1) m1.
Proof. intros [Fe _ _ _ _]. left. cbn. rewrite Fe. by eauto. Qed.

(** The one-transaction classes, once their checks are passed. *)
Lemma launch_op gen r m r0 m0 op :
  fresh r0 -> creates (kind_ r) = false -> kind_ r0 = kind_ r -> cmt_ r0 = cmt_ r -> block_hash m0 = block_hash m ->
  op_ r0 = Some op -> head (AdminTx.keys op) = Some (KeyStore.pkey_ (keys m0)) ->
  post (start_op r0 m0) (outcome gen r m).
Proof.
  intros Hf Hk Ek Ec Eb Hop Hh r1 m1 Hs. right.
  destruct (start_op_at op r0 m0 Hf ltac:(congruence) Hop r1 m1 Hs) as (-> & H1 & H2 & H3 & s & H4).
  unfold launched. rewrite Hk. split_and!; [congruence..|]. exists op. split_and!; [done..|].
  exists s. by rewrite <- Eb.
Qed.

Lemma launch_create gen r m r0 m0 op space :
  fresh r0 -> creates (kind_ r) = true -> kind_ r0 = kind_ r -> cmt_ r0 = cmt_ r -> lamports_ r0 = lamports_ r ->
  block_hash m0 = block_hash m ->
  op_ r0 = Some op -> set_block_hash [] op = op -> head (AdminTx.keys op) = Some (KeyStore.pkey_ (keys m0)) ->
  gen ∈ AdminTx.keys op -> saved (kind_ r) gen m0 ->
  post (start_create (KeyStore.pkey_ (keys m0)) gen (AdminTx.program op) space r0 m0) (outcome gen r m).
Proof.
  intros Hf Hk Ek Ec El Eb Hop Hn Hh Hg Hsv r1 m1 Hs. right.
  destruct (start_create_at op _ _ _ _ r0 m0 Hf ltac:(congruence) Hop Hn r1 m1 Hs) as (-> & H1 & H2 & H3 & s & H4).
  unfold launched. rewrite Hk. split_and!; [congruence..|]. exists op. split_and!; [done..|].
  exists space, s. by rewrite <- Eb, <- El.
Qed.

#[local] Hint Resolve outcome_refused : core.
Ltac manager := cbn [keys set_key_store set_files block_hash] in *.

Lemma submit_op_outcome gen r m op closing what pk :
  fresh r -> creates (kind_ r) = false ->
  (forall pkey gpub kp, head (AdminTx.keys (op pkey gpub kp)) = Some pkey) ->
  post (with_publish closing r m (fun pkey m => with_program r m (fun gpub m =>
    with_account what pk r m (fun r => start_op (set_op (op pkey gpub (mkey_ r)) r) m)))) (outcome gen r m).
Proof.
  intros Hf Hk Hh. apply post_publish; [auto|done|]. intros k1 Hd1. apply post_program; [auto|done|].
  intros k2 Hd2 Hp2. apply post_account; [auto|done|]. intros kp. manager.
  apply (launch_op gen r m _ _ (op (KeyStore.pkey_ k1) (KeyStore.gpub_ k2) kp)); auto. manager. by rewrite Hh, Hp2.
Qed.

Lemma init_mapping_outcome gen r m :
  fresh r -> is_bytes gen -> length gen = key_pair_len -> kind_ r = init_mapping -> post (submit_init_mapping gen r m) (outcome gen r m).
Proof.
  intros Hf Hb Hl Hk. apply post_publish; [auto|done|]. intros k1 Hd1. manager.
  destruct (KeyStore.get_mapping_key_pair _ _) as [[[] k2]|] eqn:E; [apply post_fail; auto| |done].
  apply mapping_frame in E as (Hd2 & Hp2 & _). cbn [mbind option_bind]. manager. unfold KeyStore.create_mapping_key_pair.
  destruct (KeyStore.write_key_file_ends (KeyStore.get_mapping_key_pair_file k2) gen (files m) Hb Hl) as (ok & s & E2 & Hok & _).
  cbn [files set_key_store]. rewrite E2. cbn [mbind option_bind]. destruct ok; [|apply post_fail; auto]. cbn [negb].
  apply post_program; [auto|done|]. intros k3 Hd3 Hp3. manager.
  cbn [KeyStore.mkey_ KeyStore.pkey_ KeyStore.dir_ KeyStore.set_mapping] in *.
  rewrite <- Hp2, <- Hp3. set (m3 := set_key_store k3 _). change k3 with (keys m3).
  apply (launch_create gen r m _ m3 (AdminTx.init_mapping [] (KeyStore.pkey_ (keys m3)) gen (KeyStore.gpub_ (keys m3))));
    try done; [by apply fresh_op | by rewrite Hk | cbn; set_solver |].
  rewrite Hk. pose proof (Hok eq_refl) as [H1 H2]. unfold saved, KeyStore.get_mapping_key_pair_file, m3. manager.
  rewrite Hd3. done.
Qed.

Lemma add_mapping_outcome gen r m :
  fresh r -> is_bytes gen -> length gen = key_pair_len -> kind_ r = add_mapping -> post (submit_add_mapping gen r m) (outcome gen r m).
Proof.
  intros Hf Hb Hl Hk. apply post_publish; [auto|done|]. intros k1 Hd1. apply post_mapping; [auto|done|]. intros k2 Hd2 Hp2. manager.
  destruct (last_mapping _) as [[mpub num]|]; [|done]. cbn [mbind option_bind]. destruct (negb _); [apply post_fail; auto|].
  apply post_last_mapping; [auto|done|]. intros mk r' k3 Hf' Hk' Hc' Hl' Hd3 Hp3.
  apply post_program; [auto|done|]. intros k4 Hd4 Hp4.
  apply post_new_account; [auto|done|done|done|]. intros s Hc Hm. manager.
  rewrite <- Hp2, <- Hp3, <- Hp4. set (m3 := set_files s _). change k4 with (keys m3).
  apply (launch_create gen r m _ m3 (AdminTx.add_mapping [] (KeyStore.pkey_ (keys m3)) mk gen (KeyStore.gpub_ (keys m3))));
    try done; [by apply fresh_op, fresh_keys | by rewrite Hk | cbn; set_solver | by rewrite Hk].
Qed.

Lemma add_product_outcome gen r m :
  fresh r -> is_bytes gen -> length gen = key_pair_len -> kind_ r = add_product -> post (submit_add_product gen r m) (outcome gen r m).
Proof.
  intros Hf Hb Hl Hk. apply post_mapping; [auto|done|]. intros k1 Hd1 Hp1. manager.
  destruct (last_mapping _) as [[mpub num]|]; [|done]. cbn [mbind option_bind]. destruct (get_is_full _); [apply post_fail; auto|].
  apply post_last_mapping; [auto|done|]. intros mk r' k2 Hf' Hk' Hc' Hl' Hd2 Hp2.
  apply post_publish; [auto|done|]. intros k3 Hd3.
  apply post_program; [auto|done|]. intros k4 Hd4 Hp4.
  apply post_new_account; [auto|done|done|done|]. intros s Hc Hm. manager.
  rewrite <- Hp4. set (m3 := set_files s _). change k4 with (keys m3).
  apply (launch_create gen r m _ m3 (AdminTx.add_product [] (KeyStore.pkey_ (keys m3)) (KeyStore.gpub_ (keys m3)) gen mk));
    try done; [by apply fresh_op, fresh_keys | by rewrite Hk | cbn; set_solver | by rewrite Hk].
Qed.

Lemma add_price_outcome gen r m prod expo ptype :
  fresh r -> is_bytes gen -> length gen = key_pair_len -> kind_ r = add_price prod expo ptype -> post (submit_add_price prod expo ptype gen r m) (outcome gen r m).
Proof.
  intros Hf Hb Hl Hk. apply post_publish; [auto|done|]. intros k1 Hd1. apply post_program; [auto|done|]. intros k2 Hd2 Hp2. manager.
  destruct (get_price _ _); [apply post_fail; auto|]. apply post_account; [auto|done|]. intros kp.
  apply post_new_account; [auto|by apply fresh_keys|done|done|]. intros s Hc Hm. manager.
  rewrite <- Hp2. set (m3 := set_files s _). change k2 with (keys m3).
  apply (launch_create gen r m _ m3 (AdminTx.add_price expo ptype [] (KeyStore.pkey_ (keys m3)) (KeyStore.gpub_ (keys m3)) gen kp));
    try done; [by apply fresh_op, fresh_keys, fresh_keys | by rewrite Hk | cbn; set_solver | by rewrite Hk].
Qed.

(** Every [submit] either refuses, having sent nothing, or starts its plan. *)
Lemma submit_outcome gen r m :
  fresh r -> is_bytes gen -> length gen = key_pair_len -> post (submit gen r m) (outcome gen r m).
Proof.
  intros Hf Hb Hl. unfold submit. destruct (kind_ r) as [| | |prod attrs ids|prod expo ptype|px expo|px mp|px pub|px pub] eqn:Hk.
  - by apply init_mapping_outcome.
  - by apply add_mapping_outcome.
  - by apply add_product_outcome.
  - apply (submit_op_outcome gen r m (fun p g k => AdminTx.upd_product [] p g k attrs ids)); [done | by rewrite Hk | done].
  - by apply add_price_outcome.
  - apply (submit_op_outcome gen r m (fun p g k => AdminTx.init_price expo (xv_type px) [] p g k)); [done | by rewrite Hk | done].
  - apply (submit_op_outcome gen r m (fun p g k => AdminTx.set_min_pub_rpc mp [] p g k)); [done | by rewrite Hk | done].
  - unfold submit_add_publisher. destruct (has_publisher _ _); [apply post_fail; auto|]. apply (submit_op_outcome gen r m (fun p g k => AdminTx.add_publisher pub [] p g k)); [done | by rewrite Hk | done].
  - unfold submit_del_publisher. destruct (negb _); [apply post_fail; auto|]. apply (submit_op_outcome gen r m (fun p g k => AdminTx.del_publisher pub [] p g k)); [done | by rewrite Hk | done].
Qed.

(** ** The plan is followed *)

(** (C10) A request that is accepted follows its plan, whatever answers come: the
    transaction that makes an account first, then, only when the cluster has
    made it final, the request's own under the block hash of that moment, and
    it is done only when that is confirmed as asked.  An error answer stops it. *)
Theorem request_follows_plan gen r m r1 m1 ins r2 :
  fresh r -> is_bytes gen -> length gen = key_pair_len ->
  submit gen r m = Some (r1, m1) -> err_ r1 = None -> receives r1 ins = Some r2 ->
  let two := creates (kind_ r) in
  exists c o op h0 h, op_ r1 = Some (set_block_hash h0 op) /\ t_tx o = set_block_hash h op
    /\ (forall t s, ev_send t s ∈ events r2 -> signed (mk_tx t s))
    /\ match foldl (advance two) (going 1) (answer_of <$> ins) with
       | going p => st_ r2 = state_at two p /\ err_ r2 = None /\ events r2 = snd <$> take p (plan two (cmt_ r) c o)
       | failed p => st_ r2 = e_error /\ is_Some (err_ r2)
           /\ exists n, events r2 = (snd <$> take p (plan two (cmt_ r) c o)) ++ replicate (S n) ev_response
       end.
Proof.
  intros Hf Hb Hl Hs He Hr. cbv zeta. destruct (submit_outcome gen r m Hf Hb Hl r1 m1 Hs) as [[[e Hx] _]|(Hk & Hc & op & Hp & _ & _)];
    [congruence|].
  assert (exists h0, op_ r1 = Some (set_block_hash h0 op)) as [h0 Hop] by (inversion Hp; eauto).
  destruct (receives_at op ins r1 (going 1) r2 Hp Hr) as (Hp2 & Hk2 & Hc2). rewrite Hk in *.
  inversion Hp2 as [p c o h Hrg Hst Hev Hsg _ _ Hto _ _ _ _ Her Eq|p c o h n Hst Her Hev Hsg Hto Eq];
    exists c, o, op, h0, h; rewrite Hk2, Hc2, ?Hc in *; split_and!; eauto.
Qed.

(** (C13) An account is paid for only with a key pair that is already on file,
    readable by the user alone; the publishing key pays, the program owns, and
    the transaction that follows is signed by the new key too. *)
Theorem created_account_saved gen r m r1 m1 :
  fresh r -> is_bytes gen -> length gen = key_pair_len -> creates (kind_ r) = true ->
  submit gen r m = Some (r1, m1) -> err_ r1 = None ->
  exists op h space s, op_ r1 = Some (set_block_hash h op) /\ gen ∈ AdminTx.keys op
    /\ events r1 = [ev_send (AdminTx.create_account (block_hash m) (KeyStore.pkey_ (keys m1)) gen
                               (AdminTx.program op) (lamports_ r) space) s]
    /\ saved (kind_ r) gen m1.
Proof.
  intros Hf Hb Hl Hk Hs He. destruct (submit_outcome gen r m Hf Hb Hl r1 m1 Hs) as [[[e Hx] _]|(_ & _ & op & Hp & _ & Hc)];
    [congruence|].
  rewrite Hk in Hc. destruct Hc as (Hg & Hsv & space & s & Hev).
  assert (exists h, op_ r1 = Some (set_block_hash h op)) as [h Hop] by (inversion Hp; eauto).
  by exists op, h, space, s.
Qed.

(** (C14) An error answer ends a request: the message is the answer's, its
    subscribers are told, and nothing is sent any more. *)
Theorem error_stops r i e r1 ins r2 :
  (match i with in_create jt | in_op jt | in_subscribed jt | in_signature jt _ => on_error jt end) = Some (Some e) ->
  receive r i = Some r1 -> receives r1 ins = Some r2 ->
  err_ r1 = Some e /\ st_ r2 = e_error /\ is_Some (err_ r2)
  /\ exists n, events r2 = events r ++ replicate (S n) ev_response.
Proof.
  intros Hi Hr Hrs. destruct (receive_err _ _ _ _ Hi Hr) as (Hs & He & Hev & _). split; [done|].
  assert (forall ins r1 r2 n, receives r1 ins = Some r2 -> st_ r1 = e_error -> is_Some (err_ r1) ->
    events r1 = events r ++ replicate (S n) ev_response ->
    st_ r2 = e_error /\ is_Some (err_ r2) /\ exists n, events r2 = events r ++ replicate (S n) ev_response) as Hgo.
  { clear. induction ins as [|i ins IH]; intros r1 r2 n Hrs Hs He Hev; [injection Hrs as <-; eauto|].
    rewrite receives_cons in Hrs. destruct (receive r1 i) as [r1'|] eqn:E; [|done].
    destruct (receive_failed _ _ _ Hs He E) as (Hs' & He' & _ & _ & [Hev'|Hev']); cbn [mbind option_bind] in Hrs.
    - eapply (IH r1' r2 n); congruence.
    - apply (IH r1' r2 (S n)); try done. rewrite Hev', Hev, <- app_assoc. f_equal. by rewrite <- replicate_S_end. }
  by apply (Hgo ins r1 r2 0%nat).
Qed.

(** *** The plan is completed

    The subscription can be written for any signature, and the transaction for
    parameters of the right sizes. *)
Lemma subscription_written sig cmt id : (length sig <= 64)%nat ->
  is_Some (request_signature_subscribe sig cmt (RpcClient.open_call id)).
Proof.
  intros Hl. unfold request_signature_subscribe. rewrite RpcClient.open_call_out. JsonWtr.outs.
  unfold add_val_enc_base58, add_enc_base58. change NetBuf.buf_max with 1270.
  destruct (Z.ltb_spec 1270 (2 * Z.of_nat (length sig))); [lia|].
  unfold add_first, add. cbn [out first_ JsonWtr.st_]. JsonWtr.outs. by eexists.
Qed.

Context (sign_length : forall k m, length (ed25519_sign k m) = Bincode.sig_len).

(** An answer that is not an error and has what is read of it. *)
Definition readable (i : input) : Prop :=
  match i with
  | in_create jt | in_op jt | in_subscribed jt => on_error jt = Some None
  | in_signature jt h => on_error jt = Some None /\ length h = hash_len
      /\ is_Some (ptok ← find_val jt 1 (bs "params"); rtok ← find_val jt ptok (bs "result");
                  ctok ← find_val jt rtok (bs "context"); stok ← find_val jt ctok (bs "slot"); get_uint jt stok)
  end.
Definition op_ok (op : admin_tx) : Prop :=
  forall h, length h = hash_len -> AdminTx.tx_ok (set_block_hash h op) /\ AdminTx.tx_size_of (set_block_hash h op) <= 951.

Lemma sent_length op r p : at_point op r (going p) ->
  (st_ r = e_create_sent -> length (r_sig (creq_ r)) <= 64)%nat /\ (st_ r = e_op_sent -> length (r_sig (oreq_ r)) <= 64)%nat.
Proof.
  intros Hp. inversion Hp as [? c o h Hr Hs Hev Hsg Hc Ho Hto Hop Ec Eo Es Er|]; subst. rewrite length_plan in Hr.
  split; intros E; pose proof (point_of _ _ _ Hr (eq_trans (eq_sym Hs) E)) as Hpt; cbn in Hpt.
  - destruct Hpt as [Htwo ->]. rewrite Htwo in *. destruct (Hsg (t_tx c) (t_sig c)) as [w Hw]; [rewrite Hev; left|].
    rewrite <- Hc. by eapply AdminTx.request_sig_length.
  - subst p. destruct (Hsg (t_tx o) (t_sig o)) as [w Hw].
    + rewrite Hev. destruct (creates (kind_ r)); cbn; [by do 2 right; left | by left].
    + rewrite <- Ho. by eapply AdminTx.request_sig_length.
Qed.

Lemma receive_total op r p i id :
  open = RpcClient.open_call id -> length block = Z.to_nat NetBuf.buf_max -> op_ok op ->
  at_point op r (going p) -> readable i -> is_Some (receive r i).
Proof.
  intros Hopen Hblk Hok Hp Hi. destruct (sent_length _ _ _ Hp) as [Hcl Hol].
  inversion Hp as [? c o h Hr Hs Hev Hsg Hc Ho Hto Hop Ec Eo Es Er|]; subst.
  destruct i as [jt|jt|jt|jt h']; cbn [receive readable] in *.
  - unfold response_create. rewrite Hi. cbn [mbind option_bind]. rewrite with_err_none, set_creq_same. unfold on_create.
    rewrite Ec. destruct (decide _) as [E|E]; [|by eexists]. unfold send_sig. rewrite Hopen.
    destruct (subscription_written (r_sig (creq_ r)) e_finalized id) as [w ->]; [auto|by eexists].
  - unfold response_op. rewrite Hi. cbn [mbind option_bind]. rewrite with_err_none, set_oreq_same. unfold on_op.
    rewrite Eo. destruct (decide _) as [E|E]; [|by eexists]. unfold send_sig. rewrite Hopen.
    destruct (subscription_written (r_sig (oreq_ r)) (cmt_ r) id) as [w ->]; [auto|by eexists].
  - unfold response_subscribe. rewrite Hi. by eexists.
  - destruct Hi as (He & Hh & [slot Hsl]). unfold notify_signature. rewrite He. cbn [mbind option_bind] in *.
    repeat (match type of Hsl with context [mbind _ ?x] => destruct x; [|done]; cbn [mbind option_bind] in * end).
    rewrite Hsl. cbn [mbind option_bind]. unfold on_signature, on_signature_two, on_signature_one. rewrite Es.
    destruct (creates (kind_ r)); [|destruct (decide _); by eexists].
    destruct (decide _) as [E|E]; [|destruct (decide _); by eexists].
    unfold send_op. cbn [op_ set_st]. rewrite Hop. cbn [mbind option_bind]. rewrite set_block_hash_twice, Hopen.
    destruct (Hok h' Hh) as [H1 H2]. destruct (AdminTx.request_result ed25519_sign sign_length block _ id H1 Hblk H2) as (w & -> & _).
    by eexists.
Qed.

Lemma receives_total op ins id :
  open = RpcClient.open_call id -> length block = Z.to_nat NetBuf.buf_max -> op_ok op ->
  forall r p, at_point op r (going p) -> Forall readable ins -> is_Some (receives r ins).
Proof.
  intros Hopen Hblk Hok. induction ins as [|i ins IH]; intros r p Hp Hi; [by eexists|].
  apply Forall_cons in Hi as [Hi His]. rewrite receives_cons.
  destruct (receive_total op r p i id Hopen Hblk Hok Hp Hi) as [r1 E]. rewrite E. cbn [mbind option_bind].
  destruct (receive_at _ _ _ _ _ Hp E) as (H1 & _ & _).
  assert (exists p', advance (creates (kind_ r)) (going p) (answer_of i) = going p') as [p' E'].
  { unfold advance. assert (ok_of (answer_of i) = true) as ->; [|destruct (awaited _ _); by eexists].
    destruct i; cbn [readable answer_of ok_of] in *; unfold is_ok; [by rewrite Hi..|by destruct Hi as [-> _]]. }
  rewrite E' in H1. by apply (IH r1 p').
Qed.

(** (C11) An accepted request is completed: answers that are not errors and come in
    the order of the plan lead it to its end, all of the plan done and its
    subscribers told. *)
Theorem request_completes gen r m r1 m1 id ins :
  fresh r -> is_bytes gen -> length gen = key_pair_len ->
  submit gen r m = Some (r1, m1) -> err_ r1 = None ->
  open = RpcClient.open_call id -> length block = Z.to_nat NetBuf.buf_max ->
  (forall t, op_ r1 = Some t -> op_ok t) -> Forall readable ins ->
  foldl (advance (creates (kind_ r))) (going 1) (answer_of <$> ins) = going (if creates (kind_ r) then 5 else 3) ->
  exists r2 c o, receives r1 ins = Some r2 /\ get_is_done r2 = true /\ get_is_err r2 = false
    /\ events r2 = snd <$> plan (creates (kind_ r)) (cmt_ r) c o.
Proof.
  intros Hf Hb Hl Hs He Hopen Hblk Hok Hi Ha.
  destruct (submit_outcome gen r m Hf Hb Hl r1 m1 Hs) as [[[e Hx] _]|(Hk & Hc & op & Hp & _ & _)]; [congruence|].
  assert (op_ok op) as Hop.
  { inversion Hp as [? c o h ? ? ? ? ? ? ? Hop|]; subst. intros h' Hh. specialize (Hok _ Hop h' Hh).
    by rewrite set_block_hash_twice in Hok. }
  destruct (receives_total op ins id Hopen Hblk Hop r1 1 Hp Hi) as [r2 Hr].
  destruct (receives_at op ins r1 (going 1) r2 Hp Hr) as (Hp2 & Hk2 & Hc2). rewrite Hk, Ha in Hp2.
  inversion Hp2 as [p c o h Hrg Hst Hev Hsg _ _ Hto _ _ _ _ Her Eq|]. exists r2, c, o. rewrite Hk2, Hc2, Hk, Hc in *.
  unfold get_is_done, get_is_err. rewrite Hst, Her, Hev. subst p.
  by destruct (creates (kind_ r)).
Qed.

End admin.

(** ** Witnesses *)

#[local] Existing Instance KeyStore.disk_system.

Definition test_sign := AdminTx.test_sign.
Definition kp_of (k : Z) : bytes := replicate 64 k.
Definition test_block : bytes := Bincode.zero_block.
Definition test_open : json_wtr := RpcClient.open_call 1.

(** A directory with the publisher's and the mapping's key pairs, and the
    program's public key. *)
Definition test_dir : KeyStore.disk :=
  <[bs "/keys/publish_key_pair.json" := (KeyStore.key_text (kp_of 1), 256)]>
  (<[bs "/keys/mapping_key_pair.json" := (KeyStore.key_text (kp_of 2), 256)]>
   {[ bs "/keys/program_key.json" := (hash_to_text (replicate 32 9), 256) ]}).
Definition test_manager : manager_view (fs := KeyStore.disk) :=
  mk_manager_view true KeyStore.sample_store test_dir (replicate 32 7) (Some (replicate 32 2, 10)).
Definition start : submitted := submit test_sign test_block test_open (kp_of 3) (new_request add_product) test_manager.
Definition started : request := match start with Some (r, _) => r | None => new_request add_product end.
Definition started_in : manager_view := match start with Some (_, m) => m | None => test_manager end.

Lemma start_some : bool_decide (is_Some start) = true.
Proof. vm_compute. reflexivity. Qed.
Lemma start_eq : start = Some (started, started_in).
Proof. pose proof start_some as Hs. unfold started, started_in. by destruct start as [[r m]|]. Qed.
Lemma started_ok : err_ started = None.
Proof. vm_compute. reflexivity. Qed.
Lemma new_fresh k : fresh (new_request k).
Proof. by split. Qed.
Lemma kp3_bytes : is_bytes (kp_of 3).
Proof. by_decide. Qed.

(** Answers, as the RPC node sends them. *)
Definition answer_tree (v : json) : jtree := default new_jtree (JTree.parse new_jtree (text v)).
Definition result_json (v : json) : json :=
  j_obj [(bs "jsonrpc", j_str (bs "2.0")); (bs "result", v); (bs "id", j_uint 1)].
Definition error_json (m : string) : json :=
  j_obj [(bs "jsonrpc", j_str (bs "2.0")); (bs "error", j_obj [(bs "code", j_int (-32002)); (bs "message", j_str (bs m))]); (bs "id", j_uint 1)].
Definition notification_json (err : json) : json :=
  j_obj [(bs "jsonrpc", j_str (bs "2.0")); (bs "method", j_str (bs "signatureNotification"));
         (bs "params", j_obj [(bs "result", j_obj [(bs "context", j_obj [(bs "slot", j_uint 500)]);
                                                    (bs "value", j_obj [(bs "err", err)])]);
                              (bs "subscription", j_uint 9)])].
Definition confirmed : jtree := answer_tree (notification_json j_null).
Definition sent_ok : jtree := answer_tree (result_json (j_str (bs "sig"))).
Definition subscribed_ok : jtree := answer_tree (result_json (j_uint 9)).

Definition good_answers : list input :=
  [in_create sent_ok; in_subscribed subscribed_ok; in_signature confirmed (replicate 32 8);
   in_op sent_ok; in_subscribed subscribed_ok; in_signature confirmed (replicate 32 8)].
Definition run (r : request) (ins : list input) : request :=
  default r (receives test_sign test_block test_open r ins).

Lemma run_good : receives test_sign test_block test_open started good_answers = Some (run started good_answers).
Proof.
  assert (bool_decide (is_Some (receives test_sign test_block test_open started good_answers)) = true) as Hs
    by (vm_compute; reflexivity).
  unfold run. by destruct (receives _ _ _ _ _).
Qed.

Lemma request_follows_plan_witness :
  exists c o, events (run started good_answers) = snd <$> plan true 2 c o.
Proof.
  destruct (request_follows_plan test_sign test_block test_open (kp_of 3) (new_request add_product) test_manager
              started started_in good_answers _ (new_fresh _) kp3_bytes eq_refl start_eq started_ok run_good)
    as (c & o & op & h0 & h & _ & _ & _ & Hm).
  replace (foldl (advance (creates (kind_ (new_request add_product)))) (going 1) (answer_of <$> good_answers))
    with (going 5) in Hm by (vm_compute; reflexivity).
  exists c, o. exact (proj2 (proj2 Hm)).
Defined.

Lemma created_account_saved_witness :
  exists op h space s, op_ started = Some (set_block_hash h op) /\ kp_of 3 ∈ AdminTx.keys op
    /\ events started = [ev_send (AdminTx.create_account (replicate 32 7) (KeyStore.pkey_ (keys started_in)) (kp_of 3)
                                    (AdminTx.program op) 0 space) s]
    /\ saved add_product (kp_of 3) started_in.
Proof.
  exact (created_account_saved test_sign test_block test_open (kp_of 3) (new_request add_product) test_manager
           started started_in (new_fresh _) kp3_bytes eq_refl eq_refl start_eq started_ok).
Defined.

Definition refused_tree : jtree := answer_tree (error_json "Blockhash not found").
Definition after_refusal : request := run started [in_create refused_tree].
Lemma error_stops_witness :
  err_ after_refusal = Some (bs "Blockhash not found") /\ st_ (run after_refusal good_answers) = e_error
  /\ is_Some (err_ (run after_refusal good_answers))
  /\ exists n, events (run after_refusal good_answers) = events started ++ replicate (S n) ev_response.
Proof.
  apply (error_stops test_sign test_block test_open started (in_create refused_tree) (bs "Blockhash not found")
           after_refusal good_answers); vm_compute; reflexivity.
Defined.

Lemma started_op t : op_ started = Some t -> op_ok t.
Proof.
  intros Ht h Hh. assert (op_ started = Some (AdminTx.add_product [] (kp_of 1) (replicate 32 9) (kp_of 3) (kp_of 2))) as E
    by (vm_compute; reflexivity).
  rewrite E in Ht. injection Ht as <-. split; [|by_decide]. split; [by_decide | exact Hh | done | done].
Qed.

Lemma request_completes_witness :
  exists r2 c o, receives test_sign test_block test_open started good_answers = Some r2
    /\ get_is_done r2 = true /\ get_is_err r2 = false /\ events r2 = snd <$> plan true 2 c o.
Proof.
  refine (request_completes test_sign test_block test_open (fun _ _ => eq_refl) (kp_of 3) (new_request add_product) test_manager
            started started_in 1 good_answers (new_fresh _) kp3_bytes eq_refl start_eq started_ok eq_refl _ started_op _ _).
  - reflexivity.
  - repeat constructor; try (vm_compute; reflexivity); vm_compute; eexists; reflexivity.
  - vm_compute. reflexivity.
Defined.

(** A notification whose transaction failed on chain has the failure in
    [params.result.value.err]; [notify] looks for [error] only, and the request
    goes on: here it is done although both transactions failed. *)
Definition failed_on_chain : jtree :=
  answer_tree (notification_json (j_obj [(bs "InstructionError", j_arr [j_uint 0; j_str (bs "InvalidArgument")])])).
Example failed_transaction_done :
  get_is_done (run started [in_create sent_ok; in_subscribed subscribed_ok; in_signature failed_on_chain (replicate 32 8);
                            in_op sent_ok; in_subscribed subscribed_ok; in_signature failed_on_chain (replicate 32 8)]) = true.
Proof. vm_compute. reflexivity. Qed.

(** The errors of the RPC objects are never reset: after [reset] and a new
    [submit] a good answer is taken for the old error. *)
Definition px : price_view := mk_price_view (replicate 32 4) 1 [].
Definition price_dir : KeyStore.disk :=
  <[bs "/keys/account_" ++ hash_to_text (replicate 32 4) ++ bs ".json" := (KeyStore.key_text (kp_of 4), 256)]> test_dir.
Definition price_manager : manager_view (fs := KeyStore.disk) := mk_manager_view true KeyStore.sample_store price_dir (replicate 32 7) None.
Definition submit_price (r : request) : request :=
  match submit test_sign test_block test_open [] r price_manager with Some (r, _) => r | None => r end.
Example retry_after_error :
  let r := run (submit_price (new_request (init_price px 5))) [in_op refused_tree] in
  let r := run (submit_price (reset r)) [in_op sent_ok] in
  st_ r = e_error /\ err_ r = Some (bs "Blockhash not found").
Proof. vm_compute. split; reflexivity. Qed.

(** Without the program's key [init_mapping] refuses, but the mapping's key pair
    has been made and stored, and the next attempt refuses because of it. *)
Definition bare_manager : manager_view (fs := KeyStore.disk) :=
  mk_manager_view true KeyStore.sample_store
    {[ bs "/keys/publish_key_pair.json" := (KeyStore.key_text (kp_of 1), 256) ]} (replicate 32 7) None.
Definition second_attempt : option (option bytes * option bytes) :=
  '(r, m) ← submit test_sign test_block test_open (kp_of 3) (new_request init_mapping) bare_manager;
  '(r', _) ← submit test_sign test_block test_open (kp_of 5) (new_request init_mapping) m;
  Some (err_ r, err_ r').
Example init_mapping_blocked :
  second_attempt = Some (Some (bs "missing or invalid program public key [/keys/program_key.json]"),
                         Some (bs "mapping key pair already exists [/keys/mapping_key_pair.json]")).
Proof. vm_compute. reflexivity. Qed.
