(* ===== verification/Discovery.v ===== *)
(** * Account discovery is complete ([Accounts])

    The count of the manager is the number of accounts whose data has not been
    taken in; when it tells its subscriber that initialization is complete,
    every account reachable from the mapping account has been read. *)

From S2P Require AttrDict PubStats Schedule.
From S2P Require Import Prelude RpcClient Publish Accounts.

(** ** The invariant *)

(** What never changes of a node but for the prices of a product. *)
Inductive shape := s_map | s_prod (l : list bytes) | s_price (prod : bytes).
#[export] Instance shape_eq_dec : EqDecision shape.
Proof. solve_decision. Defined.
Definition shape_of (n : node) : shape :=
  match acct_ n with a_map _ => s_map | a_prod p => s_prod (pvec_ p) | a_price x => s_price (px_prod x) end.
Definition shapes (w : accounts) : gmap bytes shape := shape_of <$> amap_ w.
Definition prices_in (s : gmap bytes shape) (k : bytes) : list bytes :=
  match s !! k with Some (s_prod l) => l | _ => [] end.
(** The accounts in the order a new connection asks for them. *)
Definition keys_in (mv sv : list bytes) (s : gmap bytes shape) : list bytes :=
  mv ++ (sv ≫= fun k => k :: prices_in s k).
Definition keys_of (w : accounts) : list bytes := keys_in (mvec_ w) (svec_ w) (shapes w).

(** The account's data has been taken in: its references are known. *)
Definition loaded (n : node) : bool :=
  match acct_ n with
  | a_map m => match map_st m with e_init => true | e_new => false end
  | a_prod p => match prod_st p with e_done => true | _ => false end
  | a_price x => bool_decide (px_st x = e_publish)
  end.
(** Loaded, or a price that failed since. *)
Definition answered (n : node) : bool :=
  loaded n || match acct_ n with a_price x => bool_decide (px_st x = e_error) | _ => false end.

(** A request is in the manager's list once if its flag is set, else not. *)
Definition nflags (n : node) : bool * bool :=
  (is_submit_ n, match acct_ n with a_price x => sched_submit x | _ => false end).
Definition flag (w : accounts) (r : request) : bool :=
  match r with
  | r_acc k => match amap_ w !! k with Some n => (nflags n).1 | None => false end
  | r_sched k => match amap_ w !! k with Some n => (nflags n).2 | None => false end
  end.
Definition flags_ok (w : accounts) : Prop := NoDup (plist_ w) /\ forall r, r ∈ plist_ w <-> flag w r = true.

Lemma flags_same w w' : plist_ w' = plist_ w -> (forall r, flag w' r = flag w r) -> flags_ok w -> flags_ok w'.
Proof. intros Hp Hf [H1 H2]. split; [by rewrite Hp|]. intros r. rewrite Hp, Hf. apply H2. Qed.
Lemma flag_upd k f w r : (forall n, amap_ w !! k = Some n -> nflags (f n) = nflags n) -> flag (upd_node k f w) r = flag w r.
Proof.
  intros Hf. unfold flag, upd_node. cbn [amap_ set_amap]. destruct r as [j|j].
  all: destruct (decide (j = k)) as [->|Hj]; [rewrite lookup_alter_eq | by rewrite lookup_alter_ne].
  all: destruct (amap_ w !! k) as [n|] eqn:E; [|done]; cbn [fmap option_fmap option_map]; by rewrite (Hf n eq_refl).
Qed.
Lemma flags_submit r w : flags_ok w -> flags_ok (submit r w).
Proof.
  intros [H1 H2]. assert (forall w', plist_ w' = plist_ w ++ [r] -> flag w r = false ->
    (forall r', flag w' r' = if decide (r' = r) then true else flag w r') -> flags_ok w') as Hadd.
  { intros w' Hp Hf Hw. split.
    - rewrite Hp. apply NoDup_app. split_and!; [done | | apply NoDup_singleton].
      intros r' Hr ->%list_elem_of_singleton. apply H2 in Hr. congruence.
    - intros r'. rewrite Hp, Hw, elem_of_app, list_elem_of_singleton, H2. destruct (decide _); naive_solver. }
  unfold submit. destruct r as [k|k].
  - destruct (amap_ w !! k) as [n|] eqn:E; [|done]. destruct (is_submit_ n) eqn:Es; [done|]. apply Hadd; [done | |].
    + unfold flag, nflags. rewrite E. exact Es.
    + intros r'. unfold flag, upd_node. cbn [amap_ set_amap set_plist].
      destruct r' as [j|j]; (destruct (decide (j = k)) as [->|Hj];
        [rewrite lookup_alter_eq, E; by repeat (case_decide || congruence)
        | rewrite lookup_alter_ne by done; by rewrite decide_False by congruence]).
  - destruct (amap_ w !! k) as [[[m|p|x] sb v e]|] eqn:E; try done. destruct (sched_submit x) eqn:Es; [done|]. apply Hadd; [done | |].
    + unfold flag, nflags. rewrite E. exact Es.
    + intros r'. unfold flag. cbn [amap_ set_amap set_plist].
      destruct r' as [j|j]; (destruct (decide (j = k)) as [->|Hj];
        [rewrite lookup_insert_eq, E; by repeat (case_decide || congruence)
        | rewrite lookup_insert_ne by done; by rewrite decide_False by congruence]).
Qed.
Lemma flags_insert k n w w' :
  amap_ w !! k = None -> nflags n = (false, false) -> amap_ w' = <[k := n]> (amap_ w) -> plist_ w' = plist_ w ->
  flags_ok w -> flags_ok w'.
Proof.
  intros Hk Hn Ha Hp. apply flags_same; [done|]. intros r. unfold flag. rewrite Ha.
  destruct r as [j|j]; (destruct (decide (j = k)) as [->|Hj]; [by rewrite lookup_insert_eq, Hk, Hn | by rewrite lookup_insert_ne]).
Qed.

(** The accounts that an account refers to. *)
Definition opt_key (k : bytes) : list bytes := if is_zero_key k then [] else [k].
Definition map_refs (m : bytes) : option (list bytes) :=
  num ← map_num m;
  ks ← mapM (fun i => map_prod i m) (seq 0 (Z.to_nat num));
  next ← map_next m;
  Some (ks ++ opt_key next).
Definition refs_of (n : node) (m : bytes) : option (list bytes) :=
  match acct_ n with
  | a_map _ => map_refs m
  | a_prod _ => opt_key <$> prod_px_acc m
  | a_price _ => opt_key <$> price_next m
  end.

Section discovery.
Context (zstd_decompress : bytes -> Z -> Z + bytes) (compress_bound : Z -> Z).
Context (publish_key : option bytes) (do_cap : bool).

(** [D] are the accounts loaded since the connection was made; the count is
    [δ] ahead while one is being loaded. *)
Record inv (D : gset bytes) (δ : Z) (w : accounts) : Prop := {
  i_keys : keys_of w ≡ₚ elements (dom (amap_ w));
  i_mv k : k ∈ mvec_ w -> shapes w !! k = Some s_map;
  i_sv k : k ∈ svec_ w -> exists l, shapes w !! k = Some (s_prod l);
  i_prod k p : shapes w !! k = Some (s_price p) -> p ∈ svec_ w;
  i_svec k l : shapes w !! k = Some (s_prod l) -> k ∈ svec_ w;
  i_count : num_sub_ w = Z.of_nat (size (dom (amap_ w))) - Z.of_nat (size D) + δ;
  i_sub : D ⊆ dom (amap_ w);
  i_load k n : amap_ w !! k = Some n -> loaded n = true -> k ∈ D;
  i_done k n : amap_ w !! k = Some n -> k ∈ D -> answered n = true;
  i_plist k : r_acc k ∈ plist_ w ->
    k ∉ D /\ k ∉ sent_ w /\ forall n, amap_ w !! k = Some n -> is_recv_ n = false;
  i_sent k : k ∈ sent_ w -> k ∈ dom (amap_ w);
  i_flags : flags_ok w }.

Definition inits (w : accounts) : nat := length (omap (fun e => match e with ev_init => Some tt | _ => None end) (events w)).

(** *** Updates of one node *)

Lemma shapes_upd k f w :
  (forall n, amap_ w !! k = Some n -> shape_of (f n) = shape_of n) -> shapes (upd_node k f w) = shapes w.
Proof.
  intros Hf. unfold shapes, upd_node. cbn [amap_ set_amap]. apply map_eq. intros i. rewrite !lookup_fmap.
  destruct (decide (i = k)) as [->|Hi]; [|by rewrite lookup_alter_ne].
  rewrite lookup_alter_eq. destruct (amap_ w !! k) as [n|] eqn:E; [|done]. cbn. by rewrite Hf.
Qed.
Lemma dom_upd k f w : dom (amap_ (upd_node k f w)) = dom (amap_ w).
Proof. unfold upd_node. cbn [amap_ set_amap]. by rewrite dom_alter_L. Qed.
Lemma upd_lookup k f w i n : amap_ (upd_node k f w) !! i = Some n ->
  (i <> k /\ amap_ w !! i = Some n) \/ (i = k /\ exists n0, amap_ w !! k = Some n0 /\ n = f n0).
Proof.
  unfold upd_node. cbn [amap_ set_amap]. destruct (decide (i = k)) as [->|Hi].
  - rewrite lookup_alter_eq. destruct (amap_ w !! k) as [n0|]; [|done]. intros [= <-]. right. eauto.
  - rewrite lookup_alter_ne by done. auto.
Qed.

(** The parts of the state that the invariant sees. *)
Lemma inv_same D δ w w' :
  mvec_ w' = mvec_ w -> svec_ w' = svec_ w -> shapes w' = shapes w -> num_sub_ w' = num_sub_ w ->
  (forall k, r_acc k ∈ plist_ w' -> r_acc k ∈ plist_ w
     \/ k ∉ D /\ k ∉ sent_ w /\ forall n, amap_ w !! k = Some n -> is_recv_ n = false) ->
  (forall k, k ∈ sent_ w' -> k ∈ sent_ w \/ k ∈ dom (amap_ w) /\ r_acc k ∉ plist_ w') ->
  (flags_ok w -> flags_ok w') ->
  (forall k n', amap_ w' !! k = Some n' -> exists n, amap_ w !! k = Some n
     /\ (loaded n' = true -> loaded n = true) /\ (answered n = true -> answered n' = true)
     /\ (is_recv_ n' = true -> is_recv_ n = true \/ r_acc k ∉ plist_ w')) ->
  inv D δ w -> inv D δ w'.
Proof.
  intros Em Es Eh En Ep Et Hfl Hn [A1 A2 A3 A4 A4' A5 A6 A7 A8 A9 A9' A11].
  assert (dom (amap_ w') = dom (amap_ w)) as Ed.
  { pose proof (f_equal dom Eh) as E. unfold shapes in E. by rewrite !dom_fmap_L in E. }
  split; rewrite ?Em, ?Es, ?Eh, ?Ed, ?En; try done.
  - unfold keys_of. by rewrite Em, Es, Eh.
  - intros k n' Hk Hl. destruct (Hn k n' Hk) as (n & Hk' & H1 & _). eauto.
  - intros k n' Hk Hd. destruct (Hn k n' Hk) as (n & Hk' & _ & H2 & _). eauto.
  - intros k Hk. assert (k ∉ D /\ k ∉ sent_ w /\ forall n, amap_ w !! k = Some n -> is_recv_ n = false) as (B1 & B2 & B3)
      by (destruct (Ep k Hk); [by apply A9 | done]).
    split_and!; [done | intros Hs; destruct (Et k Hs) as [?|[_ ?]]; done|].
    intros n' Hn'. destruct (Hn k n' Hn') as (n & Hn0 & _ & _ & Hr). destruct (is_recv_ n') eqn:E; [|done].
    destruct (Hr eq_refl) as [Hr'|Hr']; [|done]. by rewrite (B3 n Hn0) in Hr'.
  - intros k Hk. destruct (Et k Hk) as [Hs|[Hs _]]; [by apply A9' | done].
  - by apply Hfl.
Qed.

(** An update that keeps the progress of the node. *)
Definition keeps (f : node -> node) : Prop :=
  forall n, shape_of (f n) = shape_of n /\ loaded (f n) = loaded n /\ answered (f n) = answered n
    /\ is_recv_ (f n) = is_recv_ n /\ nflags (f n) = nflags n.
Lemma inv_upd_at D δ k f w :
  (forall n, amap_ w !! k = Some n -> shape_of (f n) = shape_of n /\ (loaded (f n) = true -> loaded n = true)
     /\ (answered n = true -> answered (f n) = true) /\ is_recv_ (f n) = is_recv_ n /\ nflags (f n) = nflags n) ->
  inv D δ w -> inv D δ (upd_node k f w).
Proof.
  intros Hf. apply inv_same; try done; [|auto|auto| |].
  - apply shapes_upd. intros n Hn. apply (Hf n Hn).
  - apply flags_same; [done|]. intros r. apply flag_upd. intros n Hn. apply (Hf n Hn).
  - intros i n'. intros [[Hi H]|[-> (n & Hn & ->)]]%upd_lookup; [exists n'; auto|]. exists n.
    destruct (Hf n Hn) as (_ & ? & ? & -> & _). auto.
Qed.
Lemma inv_upd D δ k f w : keeps f -> inv D δ w -> inv D δ (upd_node k f w).
Proof. intros Hf. apply inv_upd_at. intros n _. destruct (Hf n) as (? & -> & -> & ?). auto. Qed.

Lemma keeps_nerr e : keeps (set_nerr e). Proof. done. Qed.
Lemma keeps_attrs d : keeps (set_attrs d).
Proof. intros n. unfold set_attrs. destruct n as [[m|p|x] s v e]; done. Qed.
Lemma keeps_price f :
  (forall x, px_st (f x) = px_st x /\ px_prod (f x) = px_prod x /\ sched_submit (f x) = sched_submit x) -> keeps (set_price f).
Proof.
  intros Hf n. unfold set_price. destruct n as [[m|p|x] s v e]; try done. destruct (Hf x) as (H1 & H2 & H3).
  unfold shape_of, loaded, answered, nflags. cbn. by rewrite H1, H2, H3.
Qed.

Ltac other := apply inv_same; try done; eauto 6.
Lemma inv_event D δ e w : inv D δ w -> inv D δ (add_event e w). Proof. other. Qed.
Lemma inv_status D δ s w : inv D δ w -> inv D δ (set_astatus s w). Proof. other. Qed.
Lemma inv_add_sent D δ k w : k ∈ dom (amap_ w) -> r_acc k ∉ plist_ w -> inv D δ w -> inv D δ (add_sent k w).
Proof.
  intros Hd Hp. apply inv_same; try done; eauto 6. cbn. intros j [Hj|Hj]%elem_of_app; [by left|].
  apply list_elem_of_singleton in Hj as ->. by right.
Qed.
Lemma inv_recv D δ k w : r_acc k ∉ plist_ w -> inv D δ w -> inv D δ (upd_node k (set_is_recv true) w).
Proof.
  intros Hp. apply inv_same; try done; [|auto|auto| |].
  - by apply shapes_upd.
  - apply flags_same; [done|]. intros r. by apply flag_upd.
  - intros i n'. intros [[Hi H]|[-> (n & Hn & ->)]]%upd_lookup; [exists n'; auto | exists n; auto 6].
Qed.
Lemma inv_zbuf D δ z w : inv D δ w -> inv D δ (set_zbuf z w). Proof. other. Qed.
Lemma inv_ids D δ s w : inv D δ w -> inv D δ (set_ids s w). Proof. other. Qed.
Lemma inv_slot D δ s w : inv D δ w -> inv D δ (set_aslot s w). Proof. other. Qed.
Lemma inv_sched D δ s w : inv D δ w -> inv D δ (set_sched s w). Proof. other. Qed.
Lemma inv_merr D δ e w : inv D δ w -> inv D δ (set_merr e w). Proof. other. Qed.
Lemma inv_capture D δ k w : inv D δ w -> inv D δ (capture do_cap k w).
Proof. unfold capture. destruct do_cap; [apply inv_event | done]. Qed.

Lemma inv_submit D δ k w :
  k ∉ D -> k ∉ sent_ w -> (forall n, amap_ w !! k = Some n -> is_recv_ n = false) ->
  inv D δ w -> inv D δ (submit (r_acc k) w).
Proof.
  intros Hk Hs Hr Hi. pose proof (flags_submit (r_acc k) w (i_flags _ _ _ Hi)) as Hfl. revert Hfl. unfold submit.
  destruct (amap_ w !! k) as [n|] eqn:E; [|done]. destruct (is_submit_ n); [done|]. intros Hfl.
  revert Hi. apply inv_same; try done.
  - by apply shapes_upd.
  - intros j [Hj|Hj]%elem_of_app; [by left|]. apply list_elem_of_singleton in Hj as [= ->]. right. split_and!; [done..|].
    intros n' Hn. apply (Hr n'). congruence.
  - auto.
  - intros i n'. intros [[Hi' H]|[-> (n0 & Hn & ->)]]%upd_lookup; [eauto 7 | exists n0; auto 7].
Qed.

(** *** New accounts *)

Lemma bind_prices_insert (sv : list bytes) k s sh :
  k ∉ sv -> (sv ≫= fun j => j :: prices_in (<[k := s]> sh) j) = (sv ≫= fun j => j :: prices_in sh j).
Proof.
  intros Hk. induction sv as [|j sv IH]; [done|]. apply not_elem_of_cons in Hk as [Hj Hk]. cbn [mbind list_bind].
  rewrite (IH Hk). unfold prices_in. by rewrite lookup_insert_ne.
Qed.

Lemma shapes_insert k n w : shapes (set_amap (<[k := n]> (amap_ w)) w) = <[k := shape_of n]> (shapes w).
Proof. unfold shapes. cbn [amap_ set_amap]. by rewrite fmap_insert. Qed.

Lemma inv_grow D δ k w w' :
  amap_ w !! k = None -> dom (amap_ w') = {[k]} ∪ dom (amap_ w) -> keys_of w' ≡ₚ k :: keys_of w ->
  (forall i, i ∈ mvec_ w' -> shapes w' !! i = Some s_map) ->
  (forall i, i ∈ svec_ w' -> exists l, shapes w' !! i = Some (s_prod l)) ->
  (forall i p, shapes w' !! i = Some (s_price p) -> p ∈ svec_ w') ->
  (forall i l, shapes w' !! i = Some (s_prod l) -> i ∈ svec_ w') ->
  num_sub_ w' = num_sub_ w + 1 -> (forall j, r_acc j ∈ plist_ w' -> r_acc j ∈ plist_ w \/ j = k) ->
  sent_ w' = sent_ w -> (flags_ok w -> flags_ok w') ->
  (forall i n', amap_ w' !! i = Some n' -> (i = k /\ loaded n' = false /\ is_recv_ n' = false)
     \/ exists n, amap_ w !! i = Some n /\ loaded n' = loaded n /\ answered n' = answered n /\ is_recv_ n' = is_recv_ n) ->
  inv D δ w -> inv D δ w'.
Proof.
  intros Hk Edom Hkeys Hmv Hsv Hprod Hsvec En Ep Et Hfl Hn [A1 A2 A3 A4 A4' A5 A6 A7 A8 A9 A9' A11].
  assert (k ∉ dom (amap_ w)) as Hd by (by apply not_elem_of_dom).
  split; rewrite ?En; try done.
  - rewrite Hkeys, Edom, elements_union_singleton by done. by rewrite A1.
  - rewrite Edom, size_union, size_singleton by set_solver. lia.
  - rewrite Edom. set_solver.
  - intros i n' Hi Hl. destruct (Hn i n' Hi) as [(-> & Hl' & _)|(n & Hi' & E & _)]; [congruence|]. eapply A7; [done | congruence].
  - intros i n' Hi Hin. destruct (Hn i n' Hi) as [[-> _]|(n & Hi' & _ & E & _)]; [by apply A6 in Hin|]. rewrite E. by eapply A8.
  - intros j Hj. rewrite Et. destruct (Ep j Hj) as [Hj'| ->].
    + destruct (A9 j Hj') as (B1 & B2 & B3). split_and!; [done..|]. intros n' Hn'.
      destruct (Hn j n' Hn') as [(_ & _ & ?)|(n & Hn0 & _ & _ & ->)]; [done | by apply B3].
    + split_and!; [intros Hin; by apply Hd, A6 | intros Hin; by apply Hd, A9'|]. intros n' Hn'.
      destruct (Hn k n' Hn') as [(_ & _ & ?)|(n & Hn0 & _)]; [done | congruence].
  - intros j. rewrite Et, Edom. intros Hj. apply elem_of_union_r. by apply A9'.
  - by apply Hfl.
Qed.

(** A new account in one of the lists. *)
Lemma inv_insert D δ k n w w' :
  amap_ w !! k = None -> loaded n = false -> is_recv_ n = false -> nflags n = (false, false) ->
  amap_ w' = <[k := n]> (amap_ w) ->
  plist_ w' = plist_ w -> sent_ w' = sent_ w ->
  num_sub_ w' = num_sub_ w + 1 ->
  mvec_ w' = mvec_ w ++ (if decide (shape_of n = s_map) then [k] else []) ->
  svec_ w' = svec_ w ++ (if decide (shape_of n = s_prod []) then [k] else []) ->
  shape_of n = s_map \/ shape_of n = s_prod [] -> inv D δ w -> inv D δ w'.
Proof.
  intros Hk Hl Hrv Hnf Ea Ep Et En Em Es Hn Hi. pose proof Hi as [_ A2 A3 A4 A4' _ _ _ _ _ _ _].
  assert (shapes w' = <[k := shape_of n]> (shapes w)) as Eh by (unfold shapes; by rewrite Ea, fmap_insert).
  assert (forall i s, shapes w !! i = Some s -> i <> k) as Hs.
  { intros i s H ->. unfold shapes in H. by rewrite lookup_fmap, Hk in H. }
  assert (k ∉ svec_ w) as Hsv by (intros H; destruct (A3 k H) as (l & H'); by eapply Hs).
  apply (inv_grow D δ k w); try done; rewrite ?Eh.
  - by rewrite Ea, dom_insert_L.
  - unfold keys_of, keys_in. rewrite Em, Es, Eh, bind_app, (bind_prices_insert _ _ _ _ Hsv).
    destruct Hn as [Hn|Hn]; rewrite Hn.
    + rewrite decide_True, decide_False by done. cbn [mbind list_bind]. rewrite app_nil_r, <- app_assoc. cbn [app].
      symmetry. apply Permutation_middle.
    + rewrite decide_False, decide_True by done. cbn [mbind list_bind]. unfold prices_in at 2.
      rewrite lookup_insert_eq, !app_nil_r, !app_assoc, ?app_nil_r. symmetry. apply Permutation_cons_append.
  - intros i. rewrite Em. intros [Hi'|Hi']%elem_of_app.
    + rewrite lookup_insert_ne by (intros <-; by eapply Hs; [apply A2|]). by apply A2.
    + destruct (decide _) as [E|]; [|by apply elem_of_nil in Hi']. apply list_elem_of_singleton in Hi' as ->.
      by rewrite lookup_insert_eq, E.
  - intros i. rewrite Es. intros [Hi'|Hi']%elem_of_app.
    + rewrite lookup_insert_ne by (intros <-; done). by apply A3.
    + destruct (decide (_ = s_prod [])) as [E|]; [|by apply elem_of_nil in Hi']. apply list_elem_of_singleton in Hi' as ->.
      rewrite lookup_insert_eq, E. eauto.
  - intros i q. rewrite Es. destruct (decide (i = k)) as [->|Hne].
    + rewrite lookup_insert_eq. intros [= E]. destruct Hn as [Hn|Hn]; by rewrite Hn in E.
    + rewrite lookup_insert_ne by done. intros H. apply elem_of_app. left. by eapply A4.
  - intros i l. rewrite Es. destruct (decide (i = k)) as [->|Hne].
    + rewrite lookup_insert_eq. intros [= E]. apply elem_of_app. right. destruct Hn as [Hn|Hn]; rewrite Hn in E; [done|].
      rewrite decide_True by done. by left.
    + rewrite lookup_insert_ne by done. intros H. apply elem_of_app. left. by eapply A4'.
  - intros j. rewrite Ep. auto.
  - by apply (flags_insert k n).
  - intros i n'. rewrite Ea. destruct (decide (i = k)) as [->|Hne]; [rewrite lookup_insert_eq; intros [= <-]; by left|].
    rewrite lookup_insert_ne by done. eauto 7.
Qed.

Lemma known_false k w : known k w = false <-> amap_ w !! k = None.
Proof. unfold known. rewrite bool_decide_eq_false, eq_None_not_Some. done. Qed.
Lemma known_dom k w : known k w = true <-> k ∈ dom (amap_ w).
Proof. unfold known. by rewrite bool_decide_eq_true, elem_of_dom. Qed.
Lemma submit_add_map_sub r w : add_map_sub (submit r w) = submit r (add_map_sub w).
Proof.
  unfold submit, add_map_sub. cbn [amap_ set_num_sub]. destruct r as [k|k].
  - destruct (amap_ w !! k) as [n|]; [|done]. by destruct (is_submit_ n).
  - destruct (amap_ w !! k) as [[[m|p|x] s v e]|]; try done. by destruct (sched_submit x).
Qed.
Lemma dom_not_in D δ k w : inv D δ w -> amap_ w !! k = None -> k ∉ D.
Proof. intros Hi Hk Hin. apply (i_sub _ _ _ Hi), elem_of_dom in Hin as [n Hn]. congruence. Qed.

Lemma not_sent D δ k w : inv D δ w -> amap_ w !! k = None -> k ∉ sent_ w.
Proof. intros Hi Hk Hin. apply (i_sent _ _ _ Hi), elem_of_dom in Hin as [n Hn]. congruence. Qed.

Lemma inv_add_mapping D δ k w : inv D δ w -> inv D δ (add_mapping k w).
Proof.
  intros Hi. unfold add_mapping. destruct (known k w) eqn:Ek; [done|]. apply known_false in Ek.
  rewrite submit_add_map_sub. apply inv_submit;
    [by eapply dom_not_in | exact (not_sent D δ k w Hi Ek) | by intros n; cbn; rewrite lookup_insert_eq; intros [= <-] |].
  apply (inv_insert D δ k new_mapping w); try done; [by cbn; rewrite app_nil_r | by left].
Qed.
Lemma inv_add_product D δ k w : inv D δ w -> inv D δ (add_product k w).
Proof.
  intros Hi. unfold add_product. destruct (known k w) eqn:Ek; [done|]. apply known_false in Ek.
  rewrite submit_add_map_sub. apply inv_submit;
    [by eapply dom_not_in | exact (not_sent D δ k w Hi Ek) | by intros n; cbn; rewrite lookup_insert_eq; intros [= <-] |].
  apply (inv_insert D δ k new_product w); try done; [by cbn; rewrite app_nil_r | by right].
Qed.

(** A new price, in the list of its product. *)
Lemma keys_add_price sv prod k s l sh :
  NoDup sv -> prod ∈ sv -> k ∉ sv -> sh !! prod = Some (s_prod l) ->
  (sv ≫= fun j => j :: prices_in (<[prod := s_prod (l ++ [k])]> (<[k := s]> sh)) j)
  ≡ₚ k :: (sv ≫= fun j => j :: prices_in sh j).
Proof.
  intros Hnd Hp Hk Hl. apply list_elem_of_split in Hp as (l1 & l2 & ->).
  apply NoDup_app in Hnd as (_ & H1 & Hnd). apply NoDup_cons in Hnd as [H2 _].
  assert (prod ∉ l1) as H1' by (intros H; apply (H1 _ H); by left).
  rewrite not_elem_of_app, not_elem_of_cons in Hk. destruct Hk as (Hk1 & Hkp & Hk2).
  rewrite !bind_app. cbn [mbind list_bind].
  rewrite (bind_prices_insert l1 prod), (bind_prices_insert l2 prod), (bind_prices_insert l1 k), (bind_prices_insert l2 k). all: try done.
  unfold prices_in at 2 5. rewrite lookup_insert_eq, Hl. cbn [app].
  rewrite <- app_assoc. generalize (l1 ≫= fun j => j :: prices_in sh j) as a, (l2 ≫= fun j => j :: prices_in sh j) as c.
  intros a c. cbn [app]. rewrite app_comm_cons, (app_assoc a), <- Permutation_middle, <- app_assoc. done.
Qed.

Lemma inv_add_price D δ k prod w : prod ∈ svec_ w -> inv D δ w -> inv D δ (add_price compress_bound k prod w).
Proof.
  intros Hprod Hi. unfold add_price. destruct (known k w) eqn:Ek; [done|]. apply known_false in Ek.
  destruct (i_sv _ _ _ Hi _ Hprod) as [l Hl]. assert (prod <> k) as Hne.
  { intros ->. unfold shapes in Hl. by rewrite lookup_fmap, Ek in Hl. }
  set (w' := add_map_sub _).
  assert (amap_ w' = alter (push_price k) prod (<[k := set_is_submit true (new_price compress_bound prod)]> (amap_ w))) as Ea.
  { unfold w', submit. cbn [amap_ add_map_sub set_num_sub upd_node set_amap set_plist]. rewrite lookup_insert_eq.
    cbn [is_submit_ new_price amap_ set_plist upd_node set_amap]. by rewrite alter_insert_eq. }
  assert (plist_ w' = plist_ w ++ [r_acc k]) as Ep.
  { unfold w', submit. cbn [amap_ add_map_sub set_num_sub upd_node set_amap set_plist plist_]. by rewrite lookup_insert_eq. }
  assert (num_sub_ w' = num_sub_ w + 1 /\ mvec_ w' = mvec_ w /\ svec_ w' = svec_ w /\ sent_ w' = sent_ w) as (En & Em & Es & Et).
  { unfold w', submit. cbn [amap_ add_map_sub set_num_sub upd_node set_amap set_plist plist_]. by rewrite lookup_insert_eq. }
  assert (shapes w' = <[prod := s_prod (l ++ [k])]> (<[k := s_price prod]> (shapes w))) as Eh.
  { unfold shapes in *. rewrite Ea. apply map_eq. intros i. rewrite lookup_fmap.
    destruct (decide (i = prod)) as [->|Hi1].
    - rewrite lookup_alter_eq, lookup_insert_eq, lookup_insert_ne by done. rewrite lookup_fmap in Hl.
      destruct (amap_ w !! prod) as [[[m|p|x] sb v e]|]; cbn in *; try done. by injection Hl as ->.
    - rewrite lookup_alter_ne, (lookup_insert_ne _ prod) by done. destruct (decide (i = k)) as [->|Hi2].
      + by rewrite !lookup_insert_eq.
      + by rewrite !lookup_insert_ne, lookup_fmap by done. }
  assert (k ∉ svec_ w) as Hk.
  { intros H. destruct (i_sv _ _ _ Hi _ H) as [l' Hl']. unfold shapes in Hl'. by rewrite lookup_fmap, Ek in Hl'. }
  assert (NoDup (svec_ w)) as Hnd.
  { assert (NoDup (keys_of w)) as H by (rewrite (i_keys _ _ _ Hi); apply NoDup_elements).
    unfold keys_of, keys_in in H. apply NoDup_app in H as (_ & _ & H). clear -H.
    induction (svec_ w) as [|j sv IH]; [constructor|]. cbn [mbind list_bind] in H.
    apply NoDup_app in H as (H1 & H2 & H3). constructor; [|by apply IH]. intros Hj.
    apply (H2 j); [by left|]. apply list_elem_of_bind. exists j. split; [by left | done]. }
  pose proof Hi as [_ A2 A3 A4 A4' _ _ _ _ _ _ _].
  assert (forall i s, shapes w !! i = Some s -> i <> k) as Hs.
  { intros i s H ->. unfold shapes in H. by rewrite lookup_fmap, Ek in H. }
  apply (inv_grow D δ k w); try done; rewrite ?Eh, ?Em, ?Es.
  - rewrite Ea, dom_alter_L, dom_insert_L. done.
  - unfold keys_of, keys_in. rewrite Em, Es, Eh, (keys_add_price _ _ _ _ _ _ Hnd Hprod Hk Hl).
    symmetry. apply Permutation_middle.
  - intros i Hm. specialize (A2 i Hm). rewrite lookup_insert_ne, lookup_insert_ne; [done | by intros ->; eapply Hs | congruence].
  - intros i Hsv. destruct (decide (i = prod)) as [->|Hi1]; [rewrite lookup_insert_eq; eauto|].
    rewrite lookup_insert_ne, lookup_insert_ne by congruence. by apply A3.
  - intros i q. destruct (decide (i = prod)) as [->|Hi1]; [by rewrite lookup_insert_eq|]. rewrite lookup_insert_ne by done.
    destruct (decide (i = k)) as [->|Hi2]; [rewrite lookup_insert_eq; by intros [= <-]|]. rewrite lookup_insert_ne by done. apply A4.
  - intros i q. destruct (decide (i = prod)) as [->|Hi1]; [done|]. rewrite lookup_insert_ne by done.
    destruct (decide (i = k)) as [->|Hi2]; [by rewrite lookup_insert_eq|]. rewrite lookup_insert_ne by done. apply A4'.
  - intros j. rewrite Ep. intros [Hj|Hj]%elem_of_app; [by left|]. apply list_elem_of_singleton in Hj as [= ->]. by right.
  - intros Hf. set (w0 := set_amap (<[k := new_price compress_bound prod]> (amap_ w)) w) in *.
    assert (flags_ok (submit (r_acc k) w0)) as Hf' by (by apply flags_submit, (flags_insert k (new_price compress_bound prod) w)).
    revert Hf'. apply flags_same; [done|]. intros r. change (flag w' r) with (flag (upd_node prod (push_price k) (submit (r_acc k) w0)) r).
    apply flag_upd. intros [[m|p|x] sb v e] _; done.
  - intros i n'. rewrite Ea. destruct (decide (i = prod)) as [->|Hi1].
    + rewrite lookup_alter_eq, lookup_insert_ne by done. destruct (amap_ w !! prod) as [[[m|p|x] sb v e]|]; [|..|done];
        intros [= <-]; right; eexists; split_and!; done.
    + rewrite lookup_alter_ne by done. destruct (decide (i = k)) as [->|Hi2]; [rewrite lookup_insert_eq; intros [= <-]; by left|].
      rewrite lookup_insert_ne by done. eauto 7.
Qed.

(** *** Loading an account *)

Lemma inv_start D k f w n :
  inv D 0 w -> k ∉ D -> amap_ w !! k = Some n -> is_recv_ n = true ->
  shape_of (f n) = shape_of n -> answered (f n) = true -> nflags (f n) = nflags n ->
  inv ({[k]} ∪ D) 1 (upd_node k f w).
Proof.
  intros [A1 A2 A3 A4 A4' A5 A6 A7 A8 A9 A9' A11] Hk Hn Hr Hs Ha Hnf.
  assert (shapes (upd_node k f w) = shapes w) as Eh by (apply shapes_upd; intros n0; rewrite Hn; by intros [= <-]).
  assert (k ∈ dom (amap_ w)) as Hd by (apply elem_of_dom; eauto).
  split; rewrite ?Eh, ?dom_upd; cbn [mvec_ svec_ num_sub_ plist_ sent_ upd_node set_amap]; try done.
  - unfold keys_of. by rewrite Eh.
  - rewrite size_union, size_singleton by set_solver. lia.
  - set_solver.
  - intros i n'. intros [[Hi H]|[-> _]]%upd_lookup Hl; [|set_solver]. apply elem_of_union_r. by eapply A7.
  - intros i n'. intros [[Hi H]|[-> (n0 & H & ->)]]%upd_lookup Hin; [|congruence]. eapply A8; [done | set_solver].
  - intros i Hi. destruct (A9 i Hi) as (B1 & B2 & B3). assert (i <> k) as Hne by (intros ->; rewrite (B3 n Hn) in Hr; done).
    split_and!; [set_solver | done|]. intros n'. intros [[_ H]|[? _]]%upd_lookup; [by apply B3 | done].
  - revert A11. apply flags_same; [done|]. intros r. apply flag_upd. intros n0. rewrite Hn. by intros [= <-].
Qed.

Lemma inits_add_event e w : e <> ev_init -> inits (add_event e w) = inits w.
Proof. intros He. unfold inits. cbn [events add_event]. rewrite omap_app, length_app. destruct e; done || (simpl; lia). Qed.

(** The subscriber is told only when the count reaches zero. *)
Lemma inv_del D w : inv D 1 w -> inv D 0 (del_map_sub w)
  /\ (inits (del_map_sub w) <> inits w -> num_sub_ (del_map_sub w) <= 0).
Proof.
  intros [A1 A2 A3 A4 A4' A5 A6 A7 A8 A9 A9' A11]. unfold del_map_sub.
  destruct (_ && _) eqn:E; (split; [split; try done; cbn; lia|]).
  - intros _. apply andb_true_iff in E as [E _]. apply Z.leb_le in E. exact E.
  - done.
Qed.

(** *** Growth *)

Inductive acct_st := st_map (s : map_state) | st_prod (s : prod_state) | st_price (s : price_state).
Definition st_of (n : node) : acct_st :=
  match acct_ n with a_map m => st_map (map_st m) | a_prod p => st_prod (prod_st p) | a_price x => st_price (px_st x) end.

Record grown (w w' : accounts) : Prop := {
  g_node k n : amap_ w !! k = Some n ->
    exists n', amap_ w' !! k = Some n' /\ is_recv_ n' = is_recv_ n /\ st_of n' = st_of n;
  g_inits : inits w' = inits w;
  g_merr : merr_ w' = merr_ w;
  g_svec k : k ∈ svec_ w -> k ∈ svec_ w' }.
#[local] Instance grown_preorder : PreOrder grown.
Proof.
  split; [split; eauto|]. intros w1 w2 w3 [A1 B1 C1 D1] [A2 B2 C2 D2]. split; [|congruence|congruence|auto].
  intros k n Hn. destruct (A1 k n Hn) as (n' & Hn' & E1 & E2). destruct (A2 k n' Hn') as (n'' & Hn'' & E3 & E4).
  exists n''. split_and!; congruence.
Qed.
Lemma grown_dom w w' k : grown w w' -> k ∈ dom (amap_ w) -> k ∈ dom (amap_ w').
Proof. intros Hg [n Hn]%elem_of_dom. destruct (g_node _ _ Hg k n Hn) as (n' & Hn' & _). apply elem_of_dom. eauto. Qed.
Lemma grown_upd k f w : (forall n, is_recv_ (f n) = is_recv_ n /\ st_of (f n) = st_of n) -> grown w (upd_node k f w).
Proof.
  intros Hf. split; try done. intros i n Hn. unfold upd_node. cbn [amap_ set_amap].
  destruct (decide (i = k)) as [->|Hi]; [|rewrite lookup_alter_ne by done; eauto].
  rewrite lookup_alter_eq, Hn. cbn. destruct (Hf n) as [H1 H2]. eauto.
Qed.
Lemma grown_submit k w : grown w (submit (r_acc k) w).
Proof.
  unfold submit. destruct (amap_ w !! k) as [n|]; [|done]. destruct (is_submit_ n); [done|].
  destruct (grown_upd k (set_is_submit true) w) as [A B C E]; [done|]. by split.
Qed.
Lemma grown_insert k n w w' : amap_ w !! k = None -> amap_ w' = <[k := n]> (amap_ w) -> events w' = events w ->
  merr_ w' = merr_ w -> (forall i, i ∈ svec_ w -> i ∈ svec_ w') -> grown w w'.
Proof.
  intros Hk Ha He Hm Hs. split; [|by unfold inits; rewrite He | done | done]. intros i n0 Hi. exists n0.
  rewrite Ha, lookup_insert_ne by congruence. done.
Qed.
Lemma grown_add_mapping k w : grown w (add_mapping k w) /\ k ∈ dom (amap_ (add_mapping k w)).
Proof.
  unfold add_mapping. destruct (known k w) eqn:Ek; [split; [done | by apply known_dom]|]. apply known_false in Ek.
  rewrite submit_add_map_sub. set (w1 := add_map_sub _).
  assert (grown w w1) as Hg by (by apply (grown_insert k new_mapping)).
  pose proof (grown_submit k w1) as Hs. split; [by etransitivity|]. apply (grown_dom _ _ _ Hs).
  unfold w1. cbn [amap_ add_map_sub set_num_sub set_vecs set_amap]. set_solver.
Qed.
Lemma grown_add_product k w : grown w (add_product k w) /\ k ∈ dom (amap_ (add_product k w)).
Proof.
  unfold add_product. destruct (known k w) eqn:Ek; [split; [done | by apply known_dom]|]. apply known_false in Ek.
  rewrite submit_add_map_sub. set (w1 := add_map_sub _).
  assert (grown w w1) as Hg.
  { apply (grown_insert k new_product); try done. cbn. intros i Hi. apply elem_of_app. by left. }
  pose proof (grown_submit k w1) as Hs. split; [by etransitivity|]. apply (grown_dom _ _ _ Hs).
  unfold w1. cbn [amap_ add_map_sub set_num_sub set_vecs set_amap]. set_solver.
Qed.
Lemma grown_add_price k prod w :
  grown w (add_price compress_bound k prod w) /\ k ∈ dom (amap_ (add_price compress_bound k prod w)).
Proof.
  unfold add_price. destruct (known k w) eqn:Ek; [split; [done | by apply known_dom]|]. apply known_false in Ek.
  set (w1 := set_amap _ w). set (w2 := submit _ w1).
  assert (grown w w1) as Hg by (by apply (grown_insert k (new_price compress_bound prod))).
  pose proof (grown_submit k w1) as Hs. fold w2 in Hs.
  assert (grown w2 (add_map_sub (upd_node prod (push_price k) w2))) as Hu.
  { destruct (grown_upd prod (push_price k) w2) as [A B C E]; [|by split]. intros [[m|p|x] sb v e]; done. }
  split; [etransitivity; [exact Hg|]; by etransitivity|]. apply (grown_dom _ _ _ Hu), (grown_dom _ _ _ Hs).
  unfold w1. cbn [amap_ set_amap]. set_solver.
Qed.

(** *** The handlers *)

(** After a handler for [k]: [k] may be loaded now, its references then being
    known; the subscriber is told only when the count is zero. *)
Definition handled (D : gset bytes) (k : bytes) (rs : option (list bytes)) (w w' : accounts) : Prop :=
  exists D', inv D' 0 w' /\ (inits w' <> inits w -> num_sub_ w' <= 0)
    /\ (forall i, i ∈ dom (amap_ w) -> i ∈ dom (amap_ w'))
    /\ (D' = D \/ D' = {[k]} ∪ D /\ exists l, rs = Some l /\ forall c, c ∈ l -> c ∈ dom (amap_ w')).

Lemma add_products_ok D δ n i tab w w' :
  inv D δ w -> add_products n i tab w = Some w' ->
  inv D δ w' /\ grown w w'
  /\ exists ks, mapM (fun i => map_prod i tab) (seq i n) = Some ks /\ forall c, c ∈ ks -> c ∈ dom (amap_ w').
Proof.
  revert i w; induction n as [|n IH]; intros i w Hi H; cbn [add_products] in H.
  { injection H as <-. split_and!; [done..|]. exists []. split; [done|]. intros c Hc. by apply elem_of_nil in Hc. }
  destruct (map_prod i tab) as [k|] eqn:Ek; [|done]. cbn [mbind option_bind] in H.
  destruct (grown_add_product k w) as [Hg Hd].
  destruct (IH (S i) _ (inv_add_product _ _ k _ Hi) H) as (Hi' & Hg' & ks & Hks & Hin).
  split_and!; [done | by etransitivity|]. exists (k :: ks). cbn [seq mapM]. rewrite Ek. cbn [mbind option_bind].
  rewrite Hks. split; [done|]. intros c [->|Hc]%elem_of_cons; [by apply (grown_dom _ _ _ Hg') | by apply Hin].
Qed.

Lemma capture_same k w : amap_ (capture do_cap k w) = amap_ w /\ num_sub_ (capture do_cap k w) = num_sub_ w
  /\ inits (capture do_cap k w) = inits w /\ merr_ (capture do_cap k w) = merr_ w.
Proof. unfold capture. destruct do_cap; [|done]. split_and!; try done. by rewrite inits_add_event. Qed.
Lemma del_same w : amap_ (del_map_sub w) = amap_ w /\ merr_ (del_map_sub w) = merr_ w.
Proof. unfold del_map_sub. by destruct (_ && _). Qed.

Lemma not_loaded_not_in D δ k n w :
  inv D δ w -> amap_ w !! k = Some n -> answered n = false -> k ∉ D.
Proof. intros Hi Hn Ha Hin. pose proof (i_done _ _ _ Hi k n Hn Hin). congruence. Qed.

Lemma read_mapping_ok D k m tab w w' n :
  inv D 0 w -> amap_ w !! k = Some n -> acct_ n = a_map m -> is_recv_ n = true ->
  read_mapping do_cap k m tab w = Some w' -> handled D k (refs_of n tab) w w' /\ merr_ w' = merr_ w.
Proof.
  intros Hi Hn Ea Hr H. unfold read_mapping in H. unfold refs_of. rewrite Ea.
  destruct (map_num tab) as [num|] eqn:Enum; [|done]. cbn [mbind option_bind] in H.
  set (w0 := upd_node k _ w) in H.
  assert (inv D 0 w0) as Hi0.
  { apply inv_upd_at; [|done]. intros n0 Hn0. rewrite Hn in Hn0. injection Hn0 as <-.
    unfold shape_of, loaded, answered, loaded, nflags. cbn. by rewrite Ea. }
  assert (exists n0, amap_ w0 !! k = Some n0 /\ is_recv_ n0 = true /\ st_of n0 = st_map (map_st m)) as (n0 & Hn0 & Hr0 & Es0).
  { unfold w0, upd_node. cbn [amap_ set_amap]. rewrite lookup_alter_eq, Hn. eexists. split; [done|]. done. }
  assert (forall i, i ∈ dom (amap_ w) -> i ∈ dom (amap_ w0)) as Hd0 by (intros i; unfold w0; by rewrite dom_upd).
  destruct (add_products (Z.to_nat num) 0 tab w0) as [w1|] eqn:E1; [|done]. cbn [mbind option_bind] in H.
  destruct (add_products_ok D 0 _ _ _ _ _ Hi0 E1) as (Hi1 & Hg1 & ks & Hks & Hin1).
  destruct (map_next tab) as [next|] eqn:Enext; [|done]. cbn [mbind option_bind] in H.
  set (w2 := if is_zero_key next then w1 else add_mapping next w1) in *.
  assert (inv D 0 w2 /\ grown w1 w2 /\ forall c, c ∈ opt_key next -> c ∈ dom (amap_ w2)) as (Hi2 & Hg2 & Hin2).
  { unfold w2, opt_key. destruct (is_zero_key next).
    - split_and!; [done..|]. intros c Hc. by apply elem_of_nil in Hc.
    - destruct (grown_add_mapping next w1). split_and!; [by apply inv_add_mapping | done|].
      by intros c ->%list_elem_of_singleton. }
  assert (grown w0 w2) as Hg by (by etransitivity).
  destruct (g_node _ _ Hg k n0 Hn0) as (n2 & Hn2 & Hr2 & Es2). rewrite Es0 in Es2. rewrite Hr0 in Hr2.
  injection H as <-.
  match goal with |- context [capture do_cap k ?v] => remember v as w3 eqn:Ew end.
  destruct (capture_same k w3) as (Ec1 & Ec2 & Ec3 & Ec4). unfold handled. rewrite Ec1, Ec2, Ec3, Ec4.
  assert (inits w2 = inits w /\ merr_ w2 = merr_ w) as [Ei2 Em2] by (by rewrite (g_inits _ _ Hg), (g_merr _ _ Hg)).
  destruct (map_st m) eqn:Est; subst w3.
  - set (f := set_acct (a_map (mk_mapping e_init num))).
    assert (shape_of (f n2) = shape_of n2 /\ answered n2 = false /\ nflags (f n2) = nflags n2) as (Hsh & Han & Hnf).
    { unfold st_of in Es2. unfold shape_of, answered, loaded, nflags. destruct n2 as [[m2|p2|x2] sb v e]; cbn in *; try done.
      injection Es2 as ->. done. }
    pose proof (inv_start D k f w2 n2 Hi2 (not_loaded_not_in _ _ _ _ _ Hi2 Hn2 Han) Hn2 Hr2 Hsh eq_refl Hnf) as Hs.
    destruct (inv_del _ _ Hs) as [Hdel Hz]. destruct (del_same (upd_node k f w2)) as [Ed Em].
    rewrite Em. split; [|done].
    exists ({[k]} ∪ D). split_and!; [by apply inv_capture| | | ].
    + intros Hne. apply Hz. rewrite <- Ei2 in Hne. done.
    + intros i Hd. rewrite Ed, dom_upd. apply (grown_dom _ _ _ Hg), Hd0, Hd.
    + right. split; [done|]. unfold map_refs. rewrite Enum. cbn [mbind option_bind]. rewrite Hks. cbn [mbind option_bind].
      rewrite Enext. cbn [mbind option_bind]. eexists. split; [done|]. intros c [Hc|Hc]%elem_of_app; rewrite Ed, dom_upd.
      * apply (grown_dom _ _ _ Hg2), Hin1, Hc.
      * by apply Hin2.
  - split; [|done]. exists D. split_and!; [by apply inv_capture | done | | by left].
    intros i Hd. apply (grown_dom _ _ _ Hg), Hd0, Hd.
Qed.

(** A handler's step from not loaded to loaded, and the count. *)
Lemma load_step D k f w n :
  inv D 0 w -> amap_ w !! k = Some n -> answered n = false -> is_recv_ n = true ->
  shape_of (f n) = shape_of n -> answered (f n) = true -> nflags (f n) = nflags n ->
  let w' := del_map_sub (upd_node k f w) in
  inv ({[k]} ∪ D) 0 w' /\ (inits w' <> inits w -> num_sub_ w' <= 0) /\ dom (amap_ w') = dom (amap_ w)
  /\ merr_ w' = merr_ w.
Proof.
  intros Hi Hn Ha Hr Hs Hf Hnf w'.
  pose proof (inv_start D k f w n Hi (not_loaded_not_in _ _ _ _ _ Hi Hn Ha) Hn Hr Hs Hf Hnf) as H1.
  destruct (inv_del _ _ H1) as [H2 H3]. destruct (del_same (upd_node k f w)) as [E1 E2].
  split_and!; [done | exact H3 | unfold w'; by rewrite E1, dom_upd | exact E2].
Qed.

Lemma event_same e w : e <> ev_init -> inits (add_event e w) = inits w /\ num_sub_ (add_event e w) = num_sub_ w
  /\ amap_ (add_event e w) = amap_ w /\ merr_ (add_event e w) = merr_ w.
Proof. intros He. split_and!; try done. by apply inits_add_event. Qed.

Lemma read_product_ok D k p prod w w' n :
  inv D 0 w -> amap_ w !! k = Some n -> st_of n = st_prod (prod_st p) -> is_recv_ n = true ->
  read_product compress_bound do_cap k p prod w = Some w' ->
  handled D k (opt_key <$> prod_px_acc prod) w w' /\ merr_ w' = merr_ w.
Proof.
  intros Hi Hn Es Hr H. unfold read_product in H. destruct (prod_px_acc prod) as [px|]; [|done].
  cbn [mbind option_bind] in H. injection H as <-.
  assert (k ∈ svec_ w) as Hk.
  { destruct n as [[m|q|x] sb v e]; try done. eapply (i_svec _ _ _ Hi). unfold shapes. by rewrite lookup_fmap, Hn. }
  set (w1 := if is_zero_key px then w else _).
  assert (inv D 0 w1 /\ grown w w1 /\ forall c, c ∈ opt_key px -> c ∈ dom (amap_ w1)) as (Hi1 & Hg1 & Hin1).
  { unfold w1, opt_key. destruct (is_zero_key px).
    - split_and!; [done..|]. intros c Hc. by apply elem_of_nil in Hc.
    - destruct (grown_add_price px k w). split_and!; [by apply inv_add_price | done|]. by intros c ->%list_elem_of_singleton. }
  destruct (capture_same k w1) as (Ec1 & Ec2 & Ec3 & Ec4). set (w2 := capture do_cap k w1) in *.
  destruct (g_node _ _ Hg1 k n Hn) as (n1 & Hn1 & Hr1 & Es1). rewrite <- Ec1 in Hn1. rewrite Hr in Hr1. rewrite Es in Es1.
  assert (inits w2 = inits w /\ merr_ w2 = merr_ w) as [Ei2 Em2] by (by rewrite Ec3, Ec4, (g_inits _ _ Hg1), (g_merr _ _ Hg1)).
  assert (forall i, i ∈ dom (amap_ w) -> i ∈ dom (amap_ w2)) as Hd2 by (intros i; rewrite Ec1; apply (grown_dom _ _ _ Hg1)).
  assert (inv D 0 w2) as Hi2 by (by apply inv_capture).
  match goal with |- context [add_event (ev_product k) ?v] => remember v as w3 eqn:Ew end.
  destruct (event_same (ev_product k) w3) as (Ee1 & Ee2 & Ee3 & Ee4); [done|]. unfold handled. rewrite Ee1, Ee2, Ee3, Ee4.
  destruct (decide (prod_st p = e_done)) as [Ed|Ed].
  - rewrite Ed in Ew. subst w3. split; [|done]. exists D. split_and!; [by apply inv_event | done | done | by left].
  - assert (w3 = del_map_sub (upd_node k (set_prod_st e_done) w2)) as -> by (by destruct (prod_st p)). clear Ew.
    destruct (load_step D k (set_prod_st e_done) w2 n1 Hi2 Hn1) as (H1 & H2 & H3 & H4); try done.
    1-4: destruct n1 as [[m|q|x] sb v e]; try done; injection Es1 as Eq; unfold answered, loaded; cbn; rewrite Eq; by destruct (prod_st p).
    rewrite H4. split; [|done]. exists ({[k]} ∪ D). rewrite H3, <- Ei2. split_and!; [by apply inv_event | done | done|].
    right. split; [done|]. eexists. split; [done|]. intros c Hc. rewrite Ec1. by apply Hin1.
Qed.

(** What the later part of the price handler leaves alone. *)
Record quiet (w w' : accounts) : Prop := {
  q_inits : inits w' = inits w; q_num : num_sub_ w' = num_sub_ w;
  q_dom : dom (amap_ w') = dom (amap_ w); q_merr : merr_ w' = merr_ w }.
#[local] Instance quiet_preorder : PreOrder quiet.
Proof. split; [done | intros a b c [] []; split; congruence]. Qed.
Lemma acc_quiet_upd k f w : quiet w (upd_node k f w).
Proof. split; try done. apply dom_upd. Qed.
Lemma quiet_event e w : e <> ev_init -> quiet w (add_event e w).
Proof. intros He. destruct (event_same e w He) as (H1 & H2 & H3 & H4). split; by rewrite ?H3. Qed.
Lemma quiet_capture k w : quiet w (capture do_cap k w).
Proof. destruct (capture_same k w) as (H1 & H2 & H3 & H4). split; by rewrite ?H1. Qed.
Lemma handled_quiet D k rs w w1 w2 : handled D k rs w w1 -> quiet w1 w2 ->
  (forall D', inv D' 0 w1 -> inv D' 0 w2) -> handled D k rs w w2.
Proof.
  intros (D' & H1 & H2 & H3 & H4) [Q1 Q2 Q3 Q4] Hi. exists D'. rewrite Q1, Q2, Q3. auto.
Qed.

Lemma new_aggregate_ok k x idx m slot w w' :
  new_aggregate do_cap k x idx m slot w = Some w' -> quiet w w' /\ forall D, inv D 0 w -> inv D 0 w'.
Proof.
  unfold new_aggregate. intros H. destruct (price_valid_slot m) as [valid|]; [|done]. cbn [mbind option_bind] in H.
  set (w1 := capture do_cap k _) in H.
  assert (quiet w w1 /\ forall D, inv D 0 w -> inv D 0 w1) as [Q1 I1].
  { unfold w1. split; [etransitivity; [apply acc_quiet_upd | apply quiet_capture]|]. intros D Hi.
    by apply inv_capture, inv_upd; [apply keeps_price|]. }
  match type of H with mbind _ ?o = _ => destruct o as [w2|] eqn:E; [|done] end. cbn [mbind option_bind] in H.
  injection H as <-.
  assert (quiet w1 w2 /\ forall D, inv D 0 w1 -> inv D 0 w2) as [Q2 I2].
  { destruct (idx =? no_pub); [by injection E as <-|]. destruct (comp_pub_slot _ m) as [ps|]; [|done].
    injection E as <-. split; [apply acc_quiet_upd|]. intros D Hi. by apply inv_upd; [apply keeps_price|]. }
  split; [|intros D Hi; by apply inv_event, I2, I1].
  etransitivity; [exact Q1|]. etransitivity; [exact Q2 | by apply quiet_event].
Qed.

Lemma update_pub_ok k m w w' : update_pub publish_key k m w = Some w' ->
  grown w w' /\ quiet w w' /\ forall D δ, inv D δ w -> inv D δ w'.
Proof.
  unfold update_pub. intros H. destruct (pub_index publish_key m) as [i|]; [|done]. cbn [mbind option_bind] in H. injection H as <-.
  split_and!; [|apply acc_quiet_upd | intros D δ Hi; by apply inv_upd; [apply keeps_price|]].
  apply grown_upd. intros [[m1|p|x] sb v e]; done.
Qed.

Lemma init_subscribe_ok D k x m w w' n :
  inv D 0 w -> amap_ w !! k = Some n -> acct_ n = a_price x -> px_st x = e_sent_subscribe -> is_recv_ n = true ->
  init_subscribe compress_bound publish_key k (px_prod x) m w = Some w' ->
  handled D k (opt_key <$> price_next m) w w' /\ merr_ w' = merr_ w.
Proof.
  intros Hi Hn Ea Es Hr H. unfold init_subscribe in H. set (w1 := upd_node k _ w) in H.
  assert (answered n = false) as Han by (unfold answered, loaded; by rewrite Ea, Es).
  assert (px_prod x ∈ svec_ w) as Hp.
  { eapply (i_prod _ _ _ Hi k). unfold shapes. rewrite lookup_fmap, Hn. cbn. unfold shape_of. by rewrite Ea. }
  assert (inv ({[k]} ∪ D) 1 w1) as Hi1.
  { apply (inv_start D k _ w n Hi (not_loaded_not_in _ _ _ _ _ Hi Hn Han) Hn Hr).
    - unfold shape_of, set_price. rewrite Ea. done.
    - unfold answered, loaded, set_price. rewrite Ea. done.
    - unfold nflags, set_price. rewrite Ea. done. }
  destruct (update_pub publish_key k m w1) as [w2|] eqn:E2; [|done]. cbn [mbind option_bind] in H.
  destruct (update_pub_ok _ _ _ _ E2) as (G2 & Q2 & I2). specialize (I2 _ _ Hi1).
  destruct (price_next m) as [next|]; [|done]. cbn [mbind option_bind] in H. injection H as <-.
  set (w3 := if is_zero_key next then w2 else _).
  assert (inv ({[k]} ∪ D) 1 w3 /\ grown w2 w3 /\ forall c, c ∈ opt_key next -> c ∈ dom (amap_ w3)) as (Hi3 & Hg3 & Hin3).
  { unfold w3, opt_key. destruct (is_zero_key next).
    - split_and!; [done..|]. intros c Hc. by apply elem_of_nil in Hc.
    - destruct (grown_add_price next (px_prod x) w2). split_and!; [|done|by intros c ->%list_elem_of_singleton].
      apply inv_add_price; [|done]. apply (g_svec _ _ G2). exact Hp. }
  destruct (event_same (ev_add_symbol k) w3) as (Ee1 & Ee2 & Ee3 & Ee4); [done|].
  destruct (inv_del _ _ (inv_event _ _ (ev_add_symbol k) _ Hi3)) as [Hi4 Hz].
  destruct (del_same (add_event (ev_add_symbol k) w3)) as [Ed Em]. rewrite Ee3 in Ed. rewrite Ee4 in Em.
  assert (inits w3 = inits w /\ merr_ w3 = merr_ w) as [Ei3 Em3].
  { rewrite (g_inits _ _ Hg3), (g_merr _ _ Hg3), (q_inits _ _ Q2), (q_merr _ _ Q2). done. }
  rewrite Em, Em3. split; [|done]. exists ({[k]} ∪ D). rewrite Ed. split_and!; [done | | |].
  - rewrite Ee1, Ei3 in Hz. exact Hz.
  - intros i Hd. apply (grown_dom _ _ _ Hg3). rewrite (q_dom _ _ Q2). unfold w1. by rewrite dom_upd.
  - right. split; [done|]. eexists. split; [done | exact Hin3].
Qed.

(** The memory a handler reads. *)
Definition read_buf (n : node) (res : response) (w : accounts) : bytes :=
  match acct_ n with
  | a_map _ => (get_data_ref zstd_decompress compress_bound (data_ (rupd res)) sizeof_map_table (zbuf_ w)).2
  | a_prod _ => (get_data_ref zstd_decompress compress_bound (data_ (rupd res))
                   (Z.max ZSTD_UPPER_BOUND PC_PROD_ACC_SIZE) (zbuf_ w)).2
  | a_price x => (get_data_val zstd_decompress (data_ (rupd res)) (price_buf_len compress_bound) (pptr_ x)).2
  end.

Lemma handled_same D k rs w w' : inv D 0 w' -> quiet w w' -> handled D k rs w w'.
Proof. intros Hi [Q1 Q2 Q3 Q4]. exists D. rewrite Q3. split_and!; [done | done | done | by left]. Qed.

Lemma handled_from D k rs w0 w w' : quiet w0 w -> handled D k rs w w' -> handled D k rs w0 w'.
Proof. intros [Q1 Q2 Q3 Q4] (D' & H1 & H2 & H3 & H4). exists D'. rewrite <- Q1, <- Q3. auto. Qed.

Lemma price_error_ok D k e w n : amap_ w !! k = Some n -> (exists x, acct_ n = a_price x) ->
  inv D 0 w -> inv D 0 (price_error k e w) /\ quiet w (price_error k e w).
Proof.
  intros Hn (x & Ea) Hi. unfold price_error. split.
  - apply inv_upd_at.
    + intros [[m|p|y] sb v er] Hy; done.
    + by apply inv_event, inv_upd.
  - etransitivity; [apply acc_quiet_upd|]. etransitivity; [by apply (quiet_event (ev_price_error k))|]. apply acc_quiet_upd.
Qed.

Lemma update_mapping_ok D k m res w w' n :
  inv D 0 w -> amap_ w !! k = Some n -> acct_ n = a_map m -> is_recv_ n = true ->
  update_mapping zstd_decompress compress_bound do_cap k m res w = Some w' -> merr_ w' = None ->
  handled D k (refs_of n (read_buf n res w)) w w' /\ merr_ w = None.
Proof.
  intros Hi Hn Ea Hr H Hm. unfold update_mapping in H. destruct (rerr res); [by injection H as <-|].
  unfold read_buf. rewrite Ea. destruct (get_data_ref _ _ _ _ _) as [len tab]. cbn [snd] in *.
  destruct (len <? sizeof_map_table); [by injection H as <-|].
  destruct (get_magic tab) as [magic|]; [|done]. cbn [mbind option_bind] in H.
  destruct (negb (magic =? PC_MAGIC)); [by injection H as <-|].
  destruct (get_ver tab) as [ver|]; [|done]. cbn [mbind option_bind] in H.
  set (w1 := if ver =? PC_VERSION then _ else _) in H.
  assert (inv D 0 w1 /\ amap_ w1 = amap_ w) as [Hi1 Ha1].
  { unfold w1. destruct (ver =? PC_VERSION); (split; [|done]); [by apply inv_zbuf | by apply inv_merr, inv_zbuf]. }
  rewrite <- Ha1 in Hn.
  destruct (read_mapping_ok D k m tab w1 w' n Hi1 Hn Ea Hr H) as [Hh Em]. rewrite Em in Hm.
  unfold w1 in Hm, Hh. destruct (ver =? PC_VERSION); [|done]. split; [|exact Hm].
  eapply handled_from; [|exact Hh]. done.
Qed.

Lemma update_product_ok D k p res w w' n :
  inv D 0 w -> amap_ w !! k = Some n -> acct_ n = a_prod p -> is_recv_ n = true ->
  update_product zstd_decompress compress_bound do_cap k p res w = Some w' -> merr_ w' = None ->
  handled D k (refs_of n (read_buf n res w)) w w' /\ merr_ w = None.
Proof.
  intros Hi Hn Ea Hr H Hm. unfold update_product in H. destruct (rerr res); [by injection H as <-|].
  unfold read_buf, refs_of. rewrite Ea. destruct (get_data_ref _ _ _ _ _) as [len prod]. cbn [snd] in *.
  destruct (len <? sizeof_prod); [by injection H as <-|].
  destruct (get_magic prod) as [magic|]; [|done]. cbn [mbind option_bind] in H.
  destruct (negb (magic =? PC_MAGIC)); [by injection H as <-|].
  destruct (AttrDict.init_from_account prod _) as [[[ok d] ids]|]; [|done]. cbn [mbind option_bind] in H.
  destruct ok; cbn [negb] in H; [|by injection H as <-].
  destruct (get_ver prod) as [ver|]; [|done]. cbn [mbind option_bind] in H.
  destruct (negb (ver =? PC_VERSION)); [by injection H as <-|].
  set (w1 := set_ids _ _) in H.
  assert (quiet w w1) as Q1 by (split; try done; unfold w1; cbn; by rewrite dom_alter_L).
  assert (exists n1, amap_ w1 !! k = Some n1 /\ st_of n1 = st_prod (prod_st p) /\ is_recv_ n1 = true) as (n1 & Hn1 & Es1 & Hr1).
  { unfold w1. cbn [amap_ set_ids upd_node set_amap set_zbuf]. rewrite lookup_alter_eq, Hn. eexists. split; [done|].
    unfold st_of, set_attrs. destruct n as [[m|q|x] sb v e]; try done. cbn in *. by injection Ea as ->. }
  destruct (read_product_ok D k p prod w1 w' n1) as [Hh Em]; try done.
  { unfold w1. apply inv_ids, inv_upd; [apply keeps_attrs | by apply inv_zbuf]. }
  split; [by eapply handled_from | by rewrite Em, (q_merr _ _ Q1) in Hm].
Qed.

Lemma update_price_ok D k x res w w' n :
  inv D 0 w -> amap_ w !! k = Some n -> acct_ n = a_price x -> is_recv_ n = true ->
  update_price zstd_decompress compress_bound publish_key do_cap k x res w = Some w' ->
  handled D k (refs_of n (read_buf n res w)) w w' /\ merr_ w' = merr_ w.
Proof.
  intros Hi Hn Ea Hr H. unfold update_price in H.
  destruct (rerr res) as [e|].
  { injection H as <-. destruct (price_error_ok D k e w n Hn ltac:(eauto) Hi) as [H1 H2].
    split; [by apply handled_same | by apply (q_merr _ _ H2)]. }
  unfold read_buf, refs_of. rewrite Ea. set (m := (get_data_val _ _ _ _).2) in *.
  set (w1 := upd_node k _ w) in H.
  assert (inv D 0 w1) as Hi1 by (by apply inv_upd; [apply keeps_price|]).
  assert (exists n1, amap_ w1 !! k = Some n1 /\ acct_ n1 = a_price (set_pptr m x) /\ is_recv_ n1 = true) as (n1 & Hn1 & Ea1 & Hr1).
  { unfold w1, upd_node. cbn [amap_ set_amap]. rewrite lookup_alter_eq, Hn. eexists. split; [done|].
    unfold set_price. by rewrite Ea. }
  assert (quiet w w1) as Q1 by apply acc_quiet_upd.
  destruct (get_magic m) as [magic|]; [|done]. cbn [mbind option_bind] in H.
  destruct (negb (magic =? PC_MAGIC)).
  { injection H as <-. destruct (price_error_ok D k (bs "bad price account header") w1 n1 Hn1 ltac:(eauto) Hi1) as [H1 H2].
    split; [apply handled_same; [done | by etransitivity] | rewrite (q_merr _ _ H2); apply Q1]. }
  destruct (price_pub_slot m) as [slot|]; [|done]. cbn [mbind option_bind] in H.
  set (w2 := if slot =? 0 then _ else w1) in H.
  assert (inv D 0 w2 /\ quiet w1 w2 /\ amap_ w2 = amap_ w1) as (Hi2 & Q2 & Ha2).
  { unfold w2. destruct (slot =? 0); [|done]. split_and!; [by apply inv_event | by apply quiet_event | done]. }
  rewrite <- Ha2 in Hn1.
  match type of H with mbind _ ?o = _ => destruct o as [w3|] eqn:E3; [|done] end. cbn [mbind option_bind] in H.
  assert (handled D k (opt_key <$> price_next m) w2 w3 /\ merr_ w3 = merr_ w2) as [Hh Em3].
  { case_bool_decide as Est.
    - exact (init_subscribe_ok D k (set_pptr m x) m w2 w3 n1 Hi2 Hn1 Ea1 Est Hr1 E3).
    - injection E3 as <-. split; [by apply handled_same | done]. }
  destruct (pub_index publish_key m) as [idx|]; [|done]. cbn [mbind option_bind] in H.
  set (w4 := upd_node k _ (upd_node k _ w3)) in H.
  assert (quiet w3 w4 /\ forall D', inv D' 0 w3 -> inv D' 0 w4) as [Q4 I4].
  { unfold w4. split; [etransitivity; apply acc_quiet_upd|]. intros D' Hi'.
    apply inv_upd; [by apply keeps_price|]. by apply inv_upd; [apply keeps_price|]. }
  assert (quiet w4 w' /\ forall D', inv D' 0 w4 -> inv D' 0 w') as [Q5 I5].
  { destruct (_ || _); [eapply new_aggregate_ok, H | by injection H as <-]. }
  assert (quiet w w2) as Q02 by (by etransitivity). assert (quiet w3 w') as Q35 by (by etransitivity). split.
  - eapply handled_from; [exact Q02|]. eapply handled_quiet; [exact Hh | exact Q35 | auto].
  - rewrite (q_merr _ _ Q35), Em3. apply Q02.
Qed.

Lemma update_ok D k res w w' n :
  inv D 0 w -> amap_ w !! k = Some n -> is_recv_ n = true ->
  update zstd_decompress compress_bound publish_key do_cap k res w = Some w' -> merr_ w' = None ->
  handled D k (refs_of n (read_buf n res w)) w w' /\ merr_ w = None.
Proof.
  intros Hi Hn Hr H Hm. unfold update in H. rewrite Hn in H. cbn [mbind option_bind] in H.
  destruct (acct_ n) as [m|p|x] eqn:Ea.
  - by apply (update_mapping_ok D k m res w w' n).
  - by apply (update_product_ok D k p res w w' n).
  - destruct (update_price_ok D k x res w w' n Hi Hn Ea Hr H) as [H1 H2]. split; [done | congruence].
Qed.

(** *** Submitting *)

Lemma flags_clear r w : r ∈ plist_ w -> flags_ok w ->
  flags_ok (set_plist (filter (fun r' => r' <> r) (plist_ w)) (clear_submit r w)).
Proof.
  intros Hr [H1 H2]. split; [by apply NoDup_filter|]. intros r'. cbn [plist_ set_plist].
  rewrite list_elem_of_filter, H2. unfold flag, clear_submit, upd_node. cbn [amap_ set_plist set_amap].
  destruct r as [k|k], r' as [j|j]; cbn [amap_ set_plist set_amap];
    (destruct (decide (j = k)) as [->|Hj];
      [rewrite lookup_alter_eq; destruct (amap_ w !! k) as [[[m|p|x] sb v e]|]; cbn; naive_solver
      | rewrite lookup_alter_ne by done; naive_solver]).
Qed.

Lemma inv_clear D r w : r ∈ plist_ w -> inv D 0 w ->
  inv D 0 (set_plist (filter (fun r' => r' <> r) (plist_ w)) (clear_submit r w)).
Proof.
  intros Hr. apply inv_same; try (by destruct r).
  - destruct r as [k|k]; [by apply shapes_upd|]. apply (shapes_upd k). intros [[m|p|x] sb v e]; done.
  - intros j. cbn. rewrite list_elem_of_filter. intros [_ ?]. by left.
  - intros j. destruct r; by left.
  - by apply flags_clear.
  - intros i n'. destruct r as [k|k]; (intros [[Hi H]|[-> (n & Hn & ->)]]%upd_lookup; [eauto 7|]); exists n; [auto|].
    destruct n as [[m|p|x] sb v e]; auto.
Qed.

Lemma inv_submit_acc D k w :
  k ∉ D -> r_acc k ∉ plist_ w -> inv D 0 w -> inv D 0 (submit_acc k w).
Proof.
  intros Hk Hp Hi. unfold submit_acc. destruct (amap_ w !! k) as [n|] eqn:Hn; [|done]. cbn [fmap option_fmap option_map].
  assert (k ∈ dom (amap_ w)) as Hd by (apply elem_of_dom; eauto).
  assert (loaded n = false) as Hl by (destruct (loaded n) eqn:E; [by destruct Hk; eapply i_load|done]).
  destruct (acct_ n) as [m|p|x] eqn:Ea.
  - apply inv_add_sent; [by rewrite dom_upd | done|]. apply inv_upd_at; [|done]. intros n0. rewrite Hn. intros [= <-].
    unfold shape_of, answered, loaded, nflags in *. cbn. rewrite Ea in *. destruct (map_st m); [|done]. by split_and!.
  - apply inv_add_sent; [by rewrite dom_upd | done|]. apply inv_upd_at; [|done]. intros n0. rewrite Hn. intros [= <-].
    unfold shape_of, answered, loaded, nflags, set_prod_st in *. rewrite Ea in *. cbn. destruct (prod_st p); by split_and!.
  - case_bool_decide as Es; [|done]. apply inv_upd_at; [|by apply inv_add_sent]. intros n0. cbn. rewrite Hn. intros [= <-].
    unfold shape_of, answered, loaded, nflags, set_price in *. rewrite Ea in *. cbn. rewrite Es. by split_and!.
Qed.

(** What polling leaves alone. *)
Record polled (w w' : accounts) : Prop := {
  po_inits : inits w' = inits w; po_num : num_sub_ w' = num_sub_ w; po_dom : dom (amap_ w') = dom (amap_ w);
  po_merr : merr_ w' = merr_ w; po_status : astatus_ w' = astatus_ w }.
#[local] Instance polled_preorder : PreOrder polled.
Proof. split; [done | intros a b c [] []; split; congruence]. Qed.
Lemma polled_submit_acc k w : polled w (submit_acc k w).
Proof.
  unfold submit_acc. destruct (acct_ <$> amap_ w !! k) as [[m|p|x]|]; try done; [..|case_bool_decide; [|done]];
    split; try done; cbn; by rewrite dom_alter_L.
Qed.
Lemma polled_one r w : polled w (poll_one r w).
Proof.
  unfold poll_one. destruct (get_is_ready r w); [|done].
  assert (polled w (set_plist (filter (fun r' => r' <> r) (plist_ w)) (clear_submit r w))) as H.
  { destruct r; split; try done; cbn; by rewrite dom_alter_L. }
  destruct r; cbn [do_submit]; [etransitivity; [exact H | apply polled_submit_acc] | destruct H; by split].
Qed.

Lemma inv_poll_one D r w : r ∈ plist_ w -> inv D 0 w -> inv D 0 (poll_one r w)
  /\ forall r', r' ∈ plist_ (poll_one r w) <-> r' ∈ plist_ w /\ (r' <> r \/ get_is_ready r w = false).
Proof.
  intros Hr Hi. unfold poll_one. destruct (get_is_ready r w); [|split; [done | naive_solver]].
  pose proof (inv_clear D r w Hr Hi) as Hc. set (w1 := set_plist _ _) in *.
  assert (forall r', r' ∈ plist_ w1 <-> r' ∈ plist_ w /\ r' <> r) as Hp.
  { intros r'. unfold w1. cbn [plist_ set_plist]. rewrite list_elem_of_filter. naive_solver. }
  destruct r as [k|k]; cbn [do_submit].
  - assert (plist_ (submit_acc k w1) = plist_ w1) as Ep.
    { unfold submit_acc. destruct (acct_ <$> amap_ w1 !! k) as [[m|p|x]|]; try done. by case_bool_decide. }
    split; [|intros r'; rewrite Ep, Hp; naive_solver]. apply inv_submit_acc; [|rewrite Hp; naive_solver | done].
    by apply (i_plist _ _ _ Hi).
  - split; [by apply inv_sched|]. intros r'. cbn [plist_ set_sched]. rewrite Hp. naive_solver.
Qed.

Lemma inv_poll_list D rs w : NoDup rs -> (forall r, r ∈ rs -> r ∈ plist_ w) -> inv D 0 w ->
  inv D 0 (foldl (fun w r => poll_one r w) w rs) /\ polled w (foldl (fun w r => poll_one r w) w rs)
  /\ forall r, r ∈ plist_ (foldl (fun w r => poll_one r w) w rs) <->
       r ∈ plist_ w /\ (r ∉ rs \/ get_is_ready r w = false).
Proof.
  revert w; induction rs as [|r rs IH]; intros w Hnd Hin Hi.
  { cbn. split_and!; [done..|]. intros r. rewrite elem_of_nil. naive_solver. }
  apply NoDup_cons in Hnd as [Hr Hnd]. cbn [foldl].
  destruct (inv_poll_one D r w (Hin r ltac:(left)) Hi) as [Hi1 Hp1]. pose proof (polled_one r w) as P1.
  destruct (IH (poll_one r w) Hnd) as (H1 & H2 & H3); [|done|].
  { intros r' Hr'. apply Hp1. split; [apply Hin; by right|]. left. intros ->. done. }
  split_and!; [done | by etransitivity|]. intros r'.
  assert (get_is_ready r' (poll_one r w) = get_is_ready r' w) as Eg.
  { unfold get_is_ready, acc_ready, has_bits. by rewrite (po_status _ _ P1). }
  rewrite H3, Hp1, Eg, elem_of_cons. destruct (decide (r' = r)) as [->|]; naive_solver.
Qed.

Lemma inv_poll D w : inv D 0 w ->
  inv D 0 (poll_submit w) /\ polled w (poll_submit w)
  /\ forall r, r ∈ plist_ (poll_submit w) <-> r ∈ plist_ w /\ get_is_ready r w = false.
Proof.
  intros Hi. unfold poll_submit. destruct (i_flags _ _ _ Hi) as [Hnd _].
  destruct (inv_poll_list D (plist_ w) w Hnd ltac:(done) Hi) as (H1 & H2 & H3). split_and!; [done..|].
  intros r. rewrite H3. naive_solver.
Qed.

(** *** A new connection *)

(** The effect of resetting and resubmitting the accounts [ks]. *)
Record resubmitted (ks : list bytes) (w w' : accounts) : Prop := {
  rs_shapes : shapes w' = shapes w; rs_mvec : mvec_ w' = mvec_ w; rs_svec : svec_ w' = svec_ w;
  rs_num : num_sub_ w' = num_sub_ w + Z.of_nat (length ks); rs_sent : sent_ w' = sent_ w;
  rs_flags : flags_ok w -> flags_ok w';
  rs_plist k : r_acc k ∈ plist_ w' -> r_acc k ∈ plist_ w \/ k ∈ ks;
  rs_new k n' : k ∈ ks -> amap_ w' !! k = Some n' -> loaded n' = false /\ is_recv_ n' = false;
  rs_old k n' : amap_ w' !! k = Some n' -> exists n, amap_ w !! k = Some n
    /\ (loaded n = false -> loaded n' = false) /\ (is_recv_ n = false -> is_recv_ n' = false);
  rs_rest : inits w' = inits w /\ merr_ w' = merr_ w /\ astatus_ w' = astatus_ w }.

Lemma reset_not_loaded n : loaded (reset_node n) = false.
Proof. destruct n as [[m|p|x] sb v e]; done. Qed.

Lemma resubmit_one k w : resubmitted [k] w (resubmit k w).
Proof.
  unfold resubmit. rewrite submit_add_map_sub. set (w1 := add_map_sub (upd_node k reset_node w)).
  assert (forall n, amap_ w !! k = Some n -> shape_of (reset_node n) = shape_of n /\ nflags (reset_node n) = nflags n) as Hf
    by (intros [[m|p|x] sb v e] _; done).
  assert (resubmitted [k] w w1) as [A B C E F G H I J K].
  { split; try done.
    - apply (shapes_upd k reset_node w). apply Hf.
    - apply flags_same; [done|]. intros r. change (flag w1 r) with (flag (upd_node k reset_node w) r). apply flag_upd. apply Hf.
    - auto.
    - intros j n' ->%list_elem_of_singleton. intros [[Hne _]|[_ (n & _ & ->)]]%(upd_lookup k reset_node w); [done|].
      split; [apply reset_not_loaded | done].
    - intros j n'. intros [[Hne Hn]|[-> (n & Hn & ->)]]%(upd_lookup k reset_node w); [eauto|]. exists n.
      split_and!; [done | intros _; apply reset_not_loaded | done]. }
  unfold submit. destruct (amap_ w1 !! k) as [n|] eqn:En; [|by split]. destruct (is_submit_ n) eqn:Es; [by split|].
  pose proof (flags_submit (r_acc k) w1) as Hfl. unfold submit in Hfl. rewrite En, Es in Hfl.
  split; try done.
  - rewrite <- A. by apply (shapes_upd k (set_is_submit true) w1).
  - auto.
  - intros j [Hj|Hj]%elem_of_app; [by apply H|]. apply list_elem_of_singleton in Hj as [= ->]. right. by left.
  - intros j n' Hj. intros [[_ Hn]|[-> (n0 & Hn & ->)]]%(upd_lookup k (set_is_submit true) w1); [by eapply I | by apply (I k n0)].
  - intros j n'. intros [[_ Hn]|[-> (n0 & Hn & ->)]]%(upd_lookup k (set_is_submit true) w1); [by apply J | by apply (J k n0)].
Qed.

Lemma resubmit_app ks1 ks2 w w1 w2 : resubmitted ks1 w w1 -> resubmitted ks2 w1 w2 -> resubmitted (ks1 ++ ks2) w w2.
Proof.
  intros [A1 B1 C1 D1 E1 F1 G1 H1 I1 (J1 & K1 & L1)] [A2 B2 C2 D2 E2 F2 G2 H2 I2 (J2 & K2 & L2)]. split; try congruence.
  - rewrite D2, D1, length_app. lia.
  - auto.
  - intros k Hk. rewrite elem_of_app. destruct (G2 k Hk) as [Hk'|]; [destruct (G1 k Hk')|]; auto.
  - intros k n' [Hk|Hk]%elem_of_app Hn; [|by eapply H2]. destruct (I2 k n' Hn) as (n & Hn0 & X & Y).
    destruct (H1 k n Hk Hn0). auto.
  - intros k n' Hn. destruct (I2 k n' Hn) as (n & Hn0 & X & Y). destruct (I1 k n Hn0) as (n0 & Hn1 & X1 & Y1). exists n0. auto.
  - split_and!; congruence.
Qed.

Lemma resubmit_list ks w : resubmitted ks w (foldl (fun w k => resubmit k w) w ks).
Proof.
  revert w; induction ks as [|k ks IH]; intros w.
  - split; try done; cbn; try lia; [auto | intros k n' Hk; by apply elem_of_nil in Hk | eauto].
  - cbn [foldl]. apply (resubmit_app [k] ks w (resubmit k w)); [apply resubmit_one | apply IH].
Qed.

Lemma prices_of_in k w : prices_of k w = prices_in (shapes w) k.
Proof.
  unfold prices_of, prices_in, shapes. rewrite lookup_fmap. by destruct (amap_ w !! k) as [[[m|p|x] sb v e]|].
Qed.

Lemma resubmit_products sv w :
  resubmitted (sv ≫= fun k => k :: prices_in (shapes w) k) w
    (foldl (fun w k => foldl (fun w q => resubmit q w) (resubmit k w) (prices_of k w)) w sv).
Proof.
  revert w; induction sv as [|k sv IH]; intros w; [apply (resubmit_list [])|]. cbn [foldl mbind list_bind].
  set (w1 := foldl _ (resubmit k w) _).
  assert (resubmitted (k :: prices_in (shapes w) k) w w1) as H1.
  { unfold w1. rewrite prices_of_in. apply (resubmit_list (k :: prices_in (shapes w) k)). }
  eapply resubmit_app; [exact H1|]. rewrite <- (rs_shapes _ _ _ H1). apply IH.
Qed.

(** Each account asked for again is in the manager's list. *)
Record marked (ks : list bytes) (w w' : accounts) : Prop := {
  mk_dom : dom (amap_ w') = dom (amap_ w);
  mk_mono r : flag w r = true -> flag w' r = true;
  mk_all k : k ∈ ks -> k ∈ dom (amap_ w) -> flag w' (r_acc k) = true }.
Lemma marked_app ks1 ks2 w w1 w2 : marked ks1 w w1 -> marked ks2 w1 w2 -> marked (ks1 ++ ks2) w w2.
Proof.
  intros [A1 B1 C1] [A2 B2 C2]. split; [congruence | auto|]. intros k [Hk|Hk]%elem_of_app Hd; [auto|]. apply C2; [done | by rewrite A1].
Qed.
Lemma marked_one k w : marked [k] w (resubmit k w).
Proof.
  unfold resubmit. rewrite submit_add_map_sub. set (w1 := add_map_sub (upd_node k reset_node w)).
  assert (forall r, flag w1 r = flag w r) as Hf.
  { intros r. change (flag w1 r) with (flag (upd_node k reset_node w) r). apply flag_upd. by intros [[m|p|x] sb v e] _. }
  assert (dom (amap_ w1) = dom (amap_ w)) as Hd by apply (dom_upd k reset_node w).
  unfold submit. destruct (amap_ w1 !! k) as [n|] eqn:En.
  - assert (flag w1 (r_acc k) = is_submit_ n) as Hn by (unfold flag; by rewrite En).
    destruct (is_submit_ n) eqn:Es.
    + split; [done | intros r; by rewrite Hf |]. by intros j ->%list_elem_of_singleton _.
    + assert (forall r, flag (set_plist (plist_ w1 ++ [r_acc k]) (upd_node k (set_is_submit true) w1)) r
        = if decide (r = r_acc k) then true else flag w1 r) as Hu.
      { intros r. unfold flag, upd_node. cbn [amap_ set_amap set_plist].
        destruct r as [j|j]; (destruct (decide (j = k)) as [->|Hj];
          [rewrite lookup_alter_eq, En; by repeat (case_decide || congruence)
          | rewrite lookup_alter_ne by done; by rewrite decide_False by congruence]). }
      split; [exact (eq_trans (dom_upd k (set_is_submit true) w1) Hd) | |].
      * intros r Hr. rewrite Hu. case_decide; [done|]. by rewrite Hf.
      * intros j ->%list_elem_of_singleton _. rewrite Hu. by rewrite decide_True.
  - split; [done | intros r; by rewrite Hf |]. intros j ->%list_elem_of_singleton Hj. rewrite <- Hd in Hj.
    apply elem_of_dom in Hj as [n Hn]. congruence.
Qed.
Lemma marked_list ks w : marked ks w (foldl (fun w k => resubmit k w) w ks).
Proof.
  revert w; induction ks as [|k ks IH]; intros w; [split; [done | done | intros k Hk; by apply elem_of_nil in Hk]|].
  cbn [foldl]. apply (marked_app [k] ks w (resubmit k w)); [apply marked_one | apply IH].
Qed.
Lemma marked_products sv w :
  marked (sv ≫= fun k => k :: prices_in (shapes w) k) w
    (foldl (fun w k => foldl (fun w q => resubmit q w) (resubmit k w) (prices_of k w)) w sv).
Proof.
  revert w; induction sv as [|k sv IH]; intros w; [apply (marked_list [])|]. cbn [foldl mbind list_bind].
  set (w1 := foldl _ (resubmit k w) _).
  assert (marked (k :: prices_in (shapes w) k) w w1) as H1.
  { unfold w1. rewrite prices_of_in. apply (marked_list (k :: prices_in (shapes w) k)). }
  assert (resubmitted (k :: prices_in (shapes w) k) w w1) as H2.
  { unfold w1. rewrite prices_of_in. apply (resubmit_list (k :: prices_in (shapes w) k)). }
  eapply marked_app; [exact H1|]. rewrite <- (rs_shapes _ _ _ H2). apply IH.
Qed.

Lemma clear_list rs w : let w' := foldl (fun w r => clear_submit r w) w rs in
  shapes w' = shapes w /\ mvec_ w' = mvec_ w /\ svec_ w' = svec_ w /\ num_sub_ w' = num_sub_ w /\ sent_ w' = sent_ w
  /\ astatus_ w' = astatus_ w /\ merr_ w' = merr_ w /\ inits w' = inits w
  /\ forall r, flag w' r = flag w r && negb (bool_decide (r ∈ rs)).
Proof.
  revert w; induction rs as [|r rs IH]; intros w; cbn [foldl].
  { split_and!; try done. intros r. rewrite bool_decide_eq_false_2 by apply not_elem_of_nil. by rewrite andb_true_r. }
  destruct (IH (clear_submit r w)) as (A & B & C & E & F & G & H & I & J).
  assert (shapes (clear_submit r w) = shapes w) as Hs.
  { destruct r as [k|k]; [by apply (shapes_upd k)|]. apply (shapes_upd k). intros [[m|p|x] sb v e]; done. }
  assert (forall r', flag (clear_submit r w) r' = flag w r' && negb (bool_decide (r' = r))) as Hf.
  { intros r'. unfold flag, clear_submit, upd_node. destruct r as [k|k], r' as [j|j]; cbn [amap_ set_amap];
      (destruct (decide (j = k)) as [->|Hj];
        [rewrite lookup_alter_eq; destruct (amap_ w !! k) as [[[m|p|x] sb v e]|]; cbn;
          repeat case_bool_decide; rewrite ?andb_true_r, ?andb_false_r; congruence
        | rewrite lookup_alter_ne by done; rewrite bool_decide_eq_false_2 by congruence; by rewrite andb_true_r]). }
  assert (mvec_ (clear_submit r w) = mvec_ w /\ svec_ (clear_submit r w) = svec_ w /\ num_sub_ (clear_submit r w) = num_sub_ w
    /\ sent_ (clear_submit r w) = sent_ w /\ astatus_ (clear_submit r w) = astatus_ w /\ merr_ (clear_submit r w) = merr_ w
    /\ inits (clear_submit r w) = inits w) as (B0 & C0 & E0 & F0 & G0 & H0 & I0) by (by destruct r).
  rewrite A, B, C, E, F, G, H, I. split_and!; try done. intros r'. rewrite J, Hf, <- andb_assoc. f_equal.
  rewrite <- negb_orb. f_equal. rewrite <- bool_decide_or. apply bool_decide_ext. rewrite elem_of_cons. tauto.
Qed.

(** After a new connection every account known is to be asked for again, and the
    count is their number. *)
Lemma inv_restart D δ mk w : inv D δ w -> inv ∅ 0 (restart mk w) /\ inits (restart mk w) = inits w
  /\ merr_ (restart mk w) = merr_ w /\ astatus_ (restart mk w) = Z.lor (astatus_ w) PC_PYTH_RPC_CONNECTED
  /\ dom (amap_ w) ⊆ dom (amap_ (restart mk w))
  /\ forall k, k ∈ dom (amap_ (restart mk w)) -> r_acc k ∈ plist_ (restart mk w).
Proof.
  intros Hi. unfold restart. set (w0 := mk_accounts _ _ _ _ _ _ _ _ _ _ _ _ _).
  set (w1 := clear_plist w0).
  destruct (clear_list (plist_ w0) w0) as (A & B & C & E & F & G & H & I & J).
  assert (flags_ok w1) as Hf1.
  { split; [constructor|]. intros r. unfold w1, clear_plist. cbn [plist_ set_plist]. rewrite elem_of_nil. split; [done|].
    change (flag (set_plist [] ?v) r) with (flag v r). rewrite J. destruct (i_flags _ _ _ Hi) as [_ Hfl].
    intros [H1 H2]%andb_true_iff. apply negb_true_iff, bool_decide_eq_false in H2. destruct H2. by apply Hfl. }
  set (w2 := foldl (fun w k => resubmit k w) w1 (mvec_ w1)).
  pose proof (resubmit_list (mvec_ w1) w1) as R1. fold w2 in R1.
  set (w3 := foldl _ w2 (svec_ w2)). pose proof (resubmit_products (svec_ w2) w2) as R2. fold w3 in R2.
  pose proof (resubmit_app _ _ _ _ _ R1 R2) as R. rewrite (rs_shapes _ _ _ R1), (rs_svec _ _ _ R1) in R.
  change (mvec_ w1 ++ _) with (keys_of w1) in R.
  assert (keys_of w1 = keys_of w) as Ek by (unfold keys_of; change (shapes w1) with (shapes (foldl (fun w r => clear_submit r w) w0 (plist_ w0)));
    change (mvec_ w1) with (mvec_ (foldl (fun w r => clear_submit r w) w0 (plist_ w0)));
    change (svec_ w1) with (svec_ (foldl (fun w r => clear_submit r w) w0 (plist_ w0))); by rewrite A, B, C).
  assert (shapes w3 = shapes w /\ mvec_ w3 = mvec_ w /\ svec_ w3 = svec_ w) as (Es & Em & Ev).
  { rewrite (rs_shapes _ _ _ R), (rs_mvec _ _ _ R), (rs_svec _ _ _ R). by split_and!. }
  assert (dom (amap_ w3) = dom (amap_ w)) as Ed.
  { pose proof (f_equal dom Es) as E0. unfold shapes in E0. by rewrite !dom_fmap_L in E0. }
  pose proof Hi as [A1 A2 A3 A4 A4' A5 A6 A7 A8 A9 A9' A11].
  assert (forall k n, amap_ w3 !! k = Some n -> k ∈ keys_of w1) as Hin.
  { intros k n Hn. rewrite Ek, A1, elem_of_elements, <- Ed. apply elem_of_dom. eauto. }
  assert (inv ∅ 0 w3) as H3.
  { split; rewrite ?Es, ?Em, ?Ev, ?Ed; try done.
    - unfold keys_of at 1. rewrite Es, Em, Ev. exact A1.
    - rewrite (rs_num _ _ _ R), Ek. rewrite (Permutation_length A1).
      change (size (dom (amap_ w))) with (length (elements (dom (amap_ w)))). rewrite size_empty.
      change (num_sub_ w1) with (num_sub_ (foldl (fun w r => clear_submit r w) w0 (plist_ w0))). rewrite E. cbn [num_sub_ w0]. lia.
    - intros k n Hn Hl. destruct (rs_new _ _ _ R k n (Hin k n Hn) Hn). congruence.
    - intros k Hk. split; [apply not_elem_of_empty|].
      assert (sent_ w3 = []) as ->.
      { rewrite (rs_sent _ _ _ R). change (sent_ w1) with (sent_ (foldl (fun w r => clear_submit r w) w0 (plist_ w0))). by rewrite F. }
      split; [apply not_elem_of_nil|]. intros n Hn. by destruct (rs_new _ _ _ R k n (Hin k n Hn) Hn).
    - intros k. rewrite (rs_sent _ _ _ R). change (sent_ w1) with (sent_ (foldl (fun w r => clear_submit r w) w0 (plist_ w0))).
      rewrite F. intros Hk. by apply elem_of_nil in Hk.
    - by apply (rs_flags _ _ _ R). }
  assert (inits w3 = inits w /\ merr_ w3 = merr_ w /\ astatus_ w3 = Z.lor (astatus_ w) PC_PYTH_RPC_CONNECTED) as (X & Y & Z).
  { destruct (rs_rest _ _ _ R) as (-> & -> & ->).
    change (inits w1) with (inits (foldl (fun w r => clear_submit r w) w0 (plist_ w0))).
    change (merr_ w1) with (merr_ (foldl (fun w r => clear_submit r w) w0 (plist_ w0))).
    change (astatus_ w1) with (astatus_ (foldl (fun w r => clear_submit r w) w0 (plist_ w0))). rewrite G, H, I. done. }
  assert (forall k, k ∈ dom (amap_ w3) -> r_acc k ∈ plist_ w3) as Hall.
  { intros k Hk. destruct (i_flags _ _ _ H3) as [_ Hfl]. apply Hfl.
    pose proof (marked_list (mvec_ w1) w1) as M1. fold w2 in M1.
    pose proof (marked_products (svec_ w2) w2) as M2. fold w3 in M2. pose proof (marked_app _ _ _ _ _ M1 M2) as M.
    apply (mk_all _ _ _ M k); [|by rewrite <- (mk_dom _ _ _ M)].
    rewrite (rs_shapes _ _ _ R1), (rs_svec _ _ _ R1). apply elem_of_dom in Hk as [n Hn]. exact (Hin k n Hn). }
  destruct (mvec_ w3), mk as [k|]; try (split_and!; [done..| by rewrite Ed | done]). destruct (grown_add_mapping k w3) as [Hg _].
  split_and!; [by apply inv_add_mapping | by rewrite (g_inits _ _ Hg) | by rewrite (g_merr _ _ Hg)| | |].
  2: { rewrite <- Ed. intros j Hj. by apply (grown_dom w3). }
  2: { intros j. unfold add_mapping. destruct (known k w3) eqn:Ek'; [apply Hall|]. apply known_false in Ek'.
       unfold submit. cbn [amap_ set_amap set_vecs]. rewrite lookup_insert_eq.
       cbn [is_submit_ new_mapping plist_ amap_ add_map_sub set_num_sub set_plist upd_node set_amap set_vecs].
       rewrite dom_alter_L, dom_insert_L, elem_of_union, elem_of_singleton. intros [->|Hj]; apply elem_of_app; [right; by left|].
       left. by apply Hall. }
  rewrite <- Z. unfold add_mapping. destruct (known k w3); [done|]. rewrite submit_add_map_sub. unfold submit.
  destruct (amap_ _ !! k) as [n|]; [|done]. by destruct (is_submit_ n).
Qed.

(** ** Runs *)

(** The RPC client calls each request it was given once. *)
Definition take_sent (k : bytes) (w : accounts) : accounts :=
  mk_accounts (amap_ w) (mvec_ w) (svec_ w) (plist_ w) (astatus_ w) (num_sub_ w) (aslot_ w) (merr_ w) (attr_ids w)
    (zbuf_ w) (sched_ w) (filter (fun j => j <> k) (sent_ w)) (events w).
Definition answer (k : bytes) (res : response) (w : accounts) : option accounts :=
  on_info zstd_decompress compress_bound publish_key do_cap k res (take_sent k w).

(** What the accounts refer to, and responses that say so. *)
Context (refs : bytes -> list bytes).
Definition honest (k : bytes) (res : response) (w : accounts) : Prop :=
  forall n l, amap_ w !! k = Some n -> refs_of n (read_buf n res w) = Some l -> forall c, c ∈ refs k -> c ∈ l.

(** Answers and notifications, the manager's loop, its subscriber's schedules,
    its status, errors from elsewhere, and new connections, in any order. *)
Inductive step (w : accounts) : accounts -> Prop :=
  | step_poll : step w (poll_submit w)
  | step_info k res w' : k ∈ sent_ w -> honest k res w -> answer k res w = Some w' -> step w w'
  | step_update res w' : honest (acc_ (rupd res)) res w ->
      on_update zstd_decompress compress_bound publish_key do_cap res w = Some w' -> step w w'
  | step_sched k : step w (get_sched k w)
  | step_slot slot : step w (set_aslot slot w)
  | step_hash : step w (set_astatus (Z.lor (astatus_ w) PC_PYTH_HAS_BLOCK_HASH) w)
  | step_down : step w (set_astatus 0 w)
  | step_error e : step w (set_merr e w)
  | step_restart mk : step w (restart mk w).

Definition new_accounts (ids : AttrDict.attr_id_set) : accounts :=
  mk_accounts ∅ [] [] [] 0 0 0 None ids [] Schedule.new_sched [] [].

Definition closed (D : gset bytes) (w : accounts) : Prop :=
  forall k c, k ∈ D -> c ∈ refs k -> c ∈ dom (amap_ w).

Lemma new_inv ids : inv ∅ 0 (new_accounts ids).
Proof.
  assert (forall k, amap_ (new_accounts ids) !! k = None) as Hn by (intros k; apply lookup_empty).
  assert (forall k, shapes (new_accounts ids) !! k = None) as Hs by (intros k; unfold shapes; by rewrite lookup_fmap, Hn).
  assert (dom (amap_ (new_accounts ids)) = (∅ : gset bytes)) as Hd by apply dom_empty_L.
  split; rewrite ?Hd; try done; try (intros k H; by apply elem_of_nil in H); try (intros k x; by rewrite ?Hs, ?Hn).
  - split; [constructor|]. intros [j|j]; unfold flag; rewrite Hn; (split; [intros H; by apply elem_of_nil in H | done]).
Qed.

Lemma inv_take D k w : inv D 0 w -> inv D 0 (take_sent k w).
Proof.
  apply inv_same; try done; [auto | | eauto 7].
  intros j. cbn. rewrite list_elem_of_filter. intros [_ ?]. by left.
Qed.

Lemma flag_recv k w r : flag (upd_node k (set_is_recv true) w) r = flag w r.
Proof. by apply flag_upd. Qed.

(** The count of one step. *)
Lemma step_ok D w w' : inv D 0 w -> closed D w -> step w w' -> merr_ w' = None ->
  merr_ w = None /\ exists D', inv D' 0 w' /\ closed D' w' /\ (inits w' <> inits w -> num_sub_ w' <= 0).
Proof.
  intros Hi Hc Hs Hm.
  assert (forall k n res w1, inv D 0 w1 -> amap_ w1 !! k = Some n -> is_recv_ n = true ->
    dom (amap_ w1) = dom (amap_ w) -> inits w1 = inits w -> merr_ w1 = merr_ w ->
    (forall l, refs_of n (read_buf n res w1) = Some l -> forall c, c ∈ refs k -> c ∈ l) ->
    update zstd_decompress compress_bound publish_key do_cap k res w1 = Some w' ->
    merr_ w = None /\ exists D', inv D' 0 w' /\ closed D' w' /\ (inits w' <> inits w -> num_sub_ w' <= 0)) as Hupd.
  { intros k n res w1 Hi1 Hn Hr Ed Ei Em Hh Hu.
    destruct (update_ok D k res w1 w' n Hi1 Hn Hr Hu Hm) as [(D' & H1 & H2 & H3 & H4) Hm1].
    split; [congruence|]. exists D'. rewrite <- Ei. split_and!; [done | | done].
    assert (closed D w') as Hc' by (intros j c Hj Hjc; apply H3; rewrite Ed; by eapply Hc).
    destruct H4 as [->|[-> (l & Hl & Hin)]]; [done|]. intros j c [->%elem_of_singleton|Hj]%elem_of_union Hjc.
    - apply Hin. by eapply Hh.
    - by eapply Hc'. }
  destruct Hs as [|k res w' Hk Hh Ha|res w' Hh Hu|k|slot| | |e|mk].
  - destruct (inv_poll D w Hi) as (H1 & P & _). rewrite (po_merr _ _ P) in Hm. split; [done|]. exists D.
    split_and!; [done | | intros Hne; by rewrite (po_inits _ _ P) in Hne].
    intros j c. rewrite (po_dom _ _ P). apply Hc.
  - unfold answer, on_info in Ha. destruct (amap_ w !! k) as [n|] eqn:Hn; cycle 1.
    { exfalso. apply (i_sent _ _ _ Hi), elem_of_dom in Hk as [n Hn']. congruence. }
    apply (Hupd k (set_is_recv true n) res (upd_node k (set_is_recv true) (take_sent k w))); [ | | done | | done | done | | exact Ha].
    + apply inv_recv; [|by apply inv_take]. intros Hp. by apply (i_plist _ _ _ Hi) in Hp as (_ & ? & _).
    + unfold upd_node. cbn [amap_ set_amap take_sent]. by rewrite lookup_alter_eq, Hn.
    + by rewrite dom_upd.
    + intros l Hl. by apply (Hh n l Hn).
  - unfold on_update in Hu. destruct (rerr res); [by injection Hu as <-|].
    destruct (amap_ w !! acc_ (rupd res)) as [n|] eqn:Hn.
    + destruct (is_recv_ n) eqn:Hr; [|injection Hu as <-; split; [done|]; by exists D].
      apply (Hupd (acc_ (rupd res)) n res w); try done. intros l. by apply Hh.
    + injection Hu as <-. split; [done|]. by exists D.
  - assert (inv D 0 (get_sched k w) /\ dom (amap_ (get_sched k w)) = dom (amap_ w) /\ merr_ (get_sched k w) = merr_ w
      /\ inits (get_sched k w) = inits w) as (H1 & H2 & H3 & H4).
    { unfold get_sched. destruct (acct_ <$> amap_ w !! k) as [[m|p|x]|]; try done. destruct (isched_ x); [done|].
      set (w1 := upd_node k _ w). assert (inv D 0 w1) as Hi1 by (by apply inv_upd; [apply keeps_price|]).
      assert (dom (amap_ w1) = dom (amap_ w)) as Ed by apply dom_upd.
      pose proof (flags_submit (r_sched k) w1 (i_flags _ _ _ Hi1)) as Hf. revert Hf. unfold submit.
      destruct (amap_ w1 !! k) as [[[m|p|y] sb v e]|] eqn:En; try done. destruct (sched_submit y); [done|]. intros Hf.
      split_and!; try done.
      - revert Hi1. apply inv_same; try done.
        + unfold shapes. cbn [amap_ set_amap set_plist]. rewrite fmap_insert. apply insert_id. by rewrite lookup_fmap, En.
        + intros j [Hj|Hj]%elem_of_app; [by left|]. by apply list_elem_of_singleton in Hj.
        + auto.
        + intros i n'. cbn [amap_ set_amap set_plist]. destruct (decide (i = k)) as [->|Hik].
          * rewrite lookup_insert_eq. intros [= <-]. rewrite En. eauto 7.
          * rewrite lookup_insert_ne by done. eauto 7.
      - cbn [amap_ set_amap set_plist]. rewrite dom_insert_L, Ed.
        assert (k ∈ dom (amap_ w1)) by (apply elem_of_dom; eauto). set_solver. }
    rewrite H3 in Hm. split; [done|]. exists D. split_and!; [done | | by rewrite H4].
    intros j c. rewrite H2. apply Hc.
  - split; [done|]. exists D. split_and!; [by apply inv_slot | done | done].
  - split; [done|]. exists D. split_and!; [by apply inv_status | done | done].
  - split; [done|]. exists D. split_and!; [by apply inv_status | done | done].
  - done.
  - destruct (inv_restart D 0 mk w Hi) as (H1 & H2 & H3 & _). rewrite H3 in Hm. split; [done|]. exists ∅.
    split_and!; [done | | by rewrite H2]. intros j c Hj. by apply elem_of_empty in Hj.
Qed.

(** The program stops polling once the manager has an error. *)
Definition live_step (w w' : accounts) : Prop := merr_ w = None /\ step w w'.

Lemma steps_ok ids w : rtc live_step (new_accounts ids) w -> merr_ w = None -> exists D, inv D 0 w /\ closed D w.
Proof.
  revert w. apply (rtc_ind_r (fun w => merr_ w = None -> exists D, inv D 0 w /\ closed D w)).
  - intros _. exists ∅. split; [apply new_inv|]. intros k c Hk. by apply elem_of_empty in Hk.
  - intros y z _ [Hy Hstep] IH Hm. destruct (IH Hy) as (D & Hi & Hc).
    destruct (step_ok D y z Hi Hc Hstep Hm) as (_ & D' & ? & ? & _). eauto.
Qed.

(** The account of [k] is reached from [root]. *)
Definition reaches : relation bytes := rtc (fun k c => c ∈ refs k).

(** (C23) When the manager tells its subscriber that initialization is complete,
    every account it knows has answered and been taken in, and it knows all
    accounts that can be reached from one it knows. *)
Theorem init_complete ids w w' root k :
  rtc live_step (new_accounts ids) w -> live_step w w' -> inits w' <> inits w -> merr_ w' = None ->
  root ∈ dom (amap_ w') -> reaches root k ->
  exists n, amap_ w' !! k = Some n /\ answered n = true.
Proof.
  intros Hs [Hm Hstep] Hne Hm' Hroot Hreach. destruct (steps_ok ids w Hs Hm) as (D & Hi & Hc).
  destruct (step_ok D w w' Hi Hc Hstep Hm') as (_ & D' & Hi' & Hc' & Hz). specialize (Hz Hne).
  assert (dom (amap_ w') ⊆ D') as Hsub.
  { pose proof (i_count _ _ _ Hi') as Hn. pose proof (i_sub _ _ _ Hi') as Hsub.
    assert (D' = dom (amap_ w')) as ->; [|done]. apply set_subseteq_size_eq; [done | lia]. }
  assert (k ∈ dom (amap_ w')) as Hk.
  { induction Hreach as [x|x y z Hxy _ IH]; [done|]. apply IH. by apply (Hc' x y); [apply Hsub|]. }
  apply elem_of_dom in Hk as Hn. destruct Hn as [n Hn]. exists n. split; [done|].
  eapply (i_done _ _ _ Hi'); [done | by apply Hsub].
Qed.

(** (C25) Without an error the manager's count is the number of accounts it knows
    less those taken in since the connection, and all of these are known. *)
Theorem pending_count ids w :
  rtc live_step (new_accounts ids) w -> merr_ w = None ->
  exists D, D ⊆ dom (amap_ w) /\ num_sub_ w = Z.of_nat (size (dom (amap_ w) ∖ D))
    /\ (forall k n, amap_ w !! k = Some n -> loaded n = true -> k ∈ D)
    /\ (forall k n, amap_ w !! k = Some n -> k ∈ D -> answered n = true)
    /\ keys_of w ≡ₚ elements (dom (amap_ w)) /\ NoDup (plist_ w).
Proof.
  intros Hs Hm. destruct (steps_ok ids w Hs Hm) as (D & Hi & _). exists D. destruct Hi as [A1 A2 A3 A4 A4' A5 A6 A7 A8 A9 A9' A11].
  split_and!; try done; [|apply A11]. rewrite size_difference by done. pose proof (subseteq_size _ _ A6). lia.
Qed.
End discovery.

(** ** Witnesses *)

(** A ledger with a mapping account, one product and one price. *)
Definition test_key (k : Z) : bytes := replicate 32 k.
Definition test_header (type size : Z) : bytes :=
  le_bytes 4 PC_MAGIC ++ le_bytes 4 PC_VERSION ++ le_bytes 4 type ++ le_bytes 4 size.
Definition test_map : bytes :=
  test_header 1 88 ++ le_bytes 4 1 ++ le_bytes 4 0 ++ replicate 32 0 ++ test_key 2 ++ replicate (Z.to_nat (160056 - 88)) 0.
Definition test_prod : bytes := test_header 2 48 ++ test_key 3.
Definition test_price : bytes :=
  test_header 3 240 ++ replicate 216 0 ++ le_bytes 8 5.
Definition test_content (k : bytes) : bytes :=
  if bool_decide (k = test_key 1) then test_map else if bool_decide (k = test_key 2) then test_prod else test_price.
Definition test_refs (k : bytes) : list bytes :=
  if bool_decide (k = test_key 1) then [test_key 2] else if bool_decide (k = test_key 2) then [test_key 3] else [].
(** The compression is the identity on a text that names the account. *)
Definition test_zstd (src : bytes) (_ : Z) : Z + bytes := inr (test_content src).
Definition test_resp (k : bytes) : response :=
  mk_response None (mk_account_update k 0 7 1000 (Base64.enc_base64 k)).

Abbreviation tanswer k w := (answer test_zstd id None false k (test_resp k) w).
Abbreviation tstep := (live_step test_zstd id None false test_refs).

Definition honestb (k : bytes) (res : response) (w : accounts) : bool :=
  match amap_ w !! k with
  | Some n => match refs_of n (read_buf test_zstd id n res w) with
              | Some l => bool_decide (Forall (fun c => c ∈ l) (test_refs k))
              | None => true
              end
  | None => true
  end.
Lemma honestb_ok k res w : honestb k res w = true -> honest test_zstd id test_refs k res w.
Proof.
  unfold honestb, honest. intros H n l Hn Hl. rewrite Hn, Hl in H. apply bool_decide_eq_true in H.
  rewrite Forall_forall in H. exact H.
Qed.

Definition at_key (k : bytes) (w : accounts) : accounts := match tanswer k w with Some w' => w' | None => w end.
Lemma step_answer k w :
  bool_decide (merr_ w = None) && bool_decide (k ∈ sent_ w) && honestb k (test_resp k) w
    && bool_decide (is_Some (tanswer k w)) = true -> tstep w (at_key k w).
Proof.
  intros H. apply andb_true_iff in H as [H H4]. apply andb_true_iff in H as [H H3]. apply andb_true_iff in H as [H1 H2].
  apply bool_decide_eq_true in H1, H2, H4. split; [done|]. apply (step_info _ _ _ _ _ w k (test_resp k)); [done | by apply honestb_ok|].
  unfold at_key. destruct H4 as [w' ->]. done.
Qed.

Definition world_a : accounts := restart (Some (test_key 1)) (new_accounts AttrDict.new_attr_id_set).
Definition world_b : accounts := set_astatus (Z.lor (astatus_ world_a) PC_PYTH_HAS_BLOCK_HASH) world_a.
Definition world_c : accounts := poll_submit world_b.
Definition world_d : accounts := at_key (test_key 1) world_c.
Definition world_e : accounts := poll_submit world_d.
Definition world_f : accounts := at_key (test_key 2) world_e.
Definition world_g : accounts := poll_submit world_f.

Lemma step_poll_at w : bool_decide (merr_ w = None) = true -> tstep w (poll_submit w).
Proof. intros H%bool_decide_eq_true. split; [done | apply step_poll]. Qed.

Lemma test_run : rtc tstep (new_accounts AttrDict.new_attr_id_set) world_g.
Proof.
  apply (rtc_l _ _ world_a); [split; [reflexivity | apply step_restart]|].
  apply (rtc_l _ _ world_b); [split; [vm_compute; reflexivity | apply step_hash]|].
  apply (rtc_l _ _ world_c); [apply step_poll_at; vm_compute; reflexivity|].
  apply (rtc_l _ _ world_d); [apply step_answer; vm_compute; reflexivity|].
  apply (rtc_l _ _ world_e); [apply step_poll_at; vm_compute; reflexivity|].
  apply (rtc_l _ _ world_f); [apply step_answer; vm_compute; reflexivity|].
  apply (rtc_l _ _ world_g); [apply step_poll_at; vm_compute; reflexivity | apply rtc_refl].
Qed.

Lemma init_complete_witness :
  exists n, amap_ (at_key (test_key 3) world_g) !! test_key 3 = Some n /\ answered n = true.
Proof.
  apply (init_complete test_zstd id None false test_refs AttrDict.new_attr_id_set world_g (at_key (test_key 3) world_g)
           (test_key 1) (test_key 3) test_run).
  - apply step_answer. vm_compute. reflexivity.
  - vm_compute. discriminate.
  - vm_compute. reflexivity.
  - apply known_dom. vm_compute. reflexivity.
  - eapply rtc_l; [|apply rtc_once]; [left | left].
Defined.

Lemma pending_count_witness :
  exists D, num_sub_ world_g = Z.of_nat (size (dom (amap_ world_g) ∖ D)) /\ num_sub_ world_g = 1.
Proof.
  destruct (pending_count test_zstd id None false test_refs AttrDict.new_attr_id_set world_g test_run) as (D & _ & H & _).
  - vm_compute. reflexivity.
  - exists D. split; [exact H | vm_compute; reflexivity].
Defined.
