(* ===== verification/Subs.v ===== *)
(** * Request subscriptions ([request_sub_set], [request_node], [request::on_response_sub] of
    [pc/request.hpp], [pc/request.cpp])

    A subscriber has a vector of nodes by subscription number; each request has
    the list of the nodes of its subscribers.  A node is its subscriber and
    number: the request's list holds these pairs, in the order in which
    [dbl_list] keeps them, which [DblList] justifies.  An index outside the vector
    has no result. *)

From S2P Require Import Prelude.

Section subs.
Context {sub req : Type} `{Countable sub} `{Countable req}.

(** [svec_] has the request of each node, or null. *)
Record sub_set := mk_sub_set { svec_ : list (option req); rvec_ : list Z; sidx_ : Z }.
Definition new_sub_set : sub_set := mk_sub_set [] [] 0.

Record subs := mk_subs { sets : gmap sub sub_set; slists : gmap req (list (sub * Z)) }.

Definition subscribers (r : req) (w : subs) : list (sub * Z) := default [] (slists w !! r).
Definition add_sub (n : sub * Z) (r : req) (l : gmap req (list (sub * Z))) : gmap req (list (sub * Z)) :=
  <[r := default [] (l !! r) ++ [n]]> l.
Definition del_sub (n : sub * Z) (r : req) (l : gmap req (list (sub * Z))) : gmap req (list (sub * Z)) :=
  <[r := filter (fun m => m <> n) (default [] (l !! r))]> l.

(** [svec_.resize]. *)
Definition resize_vec (n : nat) (v : list (option req)) : list (option req) := take n v ++ replicate (n - length v) None.
Definition set_svec (i : Z) (x : option req) (t : sub_set) : option sub_set :=
  if bool_decide (0 <= i < Z.of_nat (length (svec_ t))) then
    Some (mk_sub_set (<[Z.to_nat i := x]> (svec_ t)) (rvec_ t) (sidx_ t))
  else None.

(** The number of a new subscription: the last one given back, or a new one. *)
Definition new_index (t : sub_set) : Z * sub_set :=
  match last (rvec_ t) with
  | Some i => (wrap 32 i, mk_sub_set (svec_ t) (removelast (rvec_ t)) (sidx_ t))
  | None =>
      let n := wrap 64 (sidx_ t + 1) in
      (wrap 32 (sidx_ t), mk_sub_set (resize_vec (Z.to_nat n) (svec_ t)) (rvec_ t) n)
  end.

Definition add (s : sub) (r : req) (w : subs) : option (Z * subs) :=
  t ← sets w !! s;
  let '(i, t) := new_index t in
  t ← set_svec i (Some r) t;
  Some (i, mk_subs (<[s := t]> (sets w)) (add_sub (s, i) r (slists w))).

Definition del (s : sub) (i : Z) (w : subs) : option (bool * subs) :=
  t ← sets w !! s;
  if Z.of_nat (length (svec_ t)) <=? i then Some (false, w)
  else match svec_ t !! Z.to_nat i with
       | Some (Some r) =>
           t ← set_svec i None t;
           Some (true, mk_subs (<[s := mk_sub_set (svec_ t) (rvec_ t ++ [i]) (sidx_ t)]> (sets w))
                         (del_sub (s, i) r (slists w)))
       | _ => Some (false, w)
       end.

Fixpoint del_nodes (s : sub) (i : Z) (v : list (option req)) (l : gmap req (list (sub * Z)))
  : gmap req (list (sub * Z)) :=
  match v with
  | [] => l
  | Some r :: v' => del_nodes s (i + 1) v' (del_sub (s, i) r l)
  | None :: v' => del_nodes s (i + 1) v' l
  end.
Definition teardown (s : sub) (w : subs) : option subs :=
  t ← sets w !! s;
  Some (mk_subs (<[s := mk_sub_set [] (rvec_ t) (sidx_ t)]> (sets w)) (del_nodes s 0 (svec_ t) (slists w))).

(** [on_response_sub]: the calls [on_response( req, idx )], for the subscribers
    that have the request's interface. *)
Definition on_response_sub (handles : sub -> bool) (r : req) (w : subs) : list (sub * Z) :=
  filter (fun n => handles n.1 = true) (subscribers r w).

(** ** The invariant *)

(** Subscription [i] of [s] is to [r]. *)
Definition subscribed (w : subs) (s : sub) (i : Z) (r : req) : Prop :=
  0 <= i /\ exists t, sets w !! s = Some t /\ svec_ t !! Z.to_nat i = Some (Some r).

(** Nodes and lists agree. *)
Record subs_ok (w : subs) : Prop := {
  ok_nodup r : NoDup (subscribers r w);
  ok_list r s i : (s, i) ∈ subscribers r w <-> subscribed w s i r }.

(** The numbers given back are those without a node, and all are below 32 bits. *)
Record set_ok (t : sub_set) : Prop := {
  ok_len : Z.of_nat (length (svec_ t)) = sidx_ t;
  ok_free i : i ∈ rvec_ t <-> 0 <= i /\ svec_ t !! Z.to_nat i = Some None;
  ok_distinct : NoDup (rvec_ t) }.

Definition list_at (r : req) (l : gmap req (list (sub * Z))) : list (sub * Z) := default [] (l !! r).

Lemma list_at_add n r r' l : list_at r (add_sub n r' l) = (if decide (r = r') then list_at r l ++ [n] else list_at r l).
Proof.
  unfold list_at, add_sub. destruct (decide (r = r')) as [->|]; [by rewrite lookup_insert_eq | by rewrite lookup_insert_ne].
Qed.
Lemma list_at_del n r r' l :
  list_at r (del_sub n r' l) = if decide (r = r') then filter (fun m => m <> n) (list_at r l) else list_at r l.
Proof.
  unfold list_at, del_sub. destruct (decide (r = r')) as [->|]; [by rewrite lookup_insert_eq | by rewrite lookup_insert_ne].
Qed.

(** The numbers [new_index] may give. *)
Lemma new_index_ok t : set_ok t -> sidx_ t + 1 < 2 ^ 32 ->
  let '(i, t') := new_index t in
  0 <= i < Z.of_nat (length (svec_ t')) /\ (svec_ t !! Z.to_nat i = Some None \/ svec_ t !! Z.to_nat i = None)
  /\ ~ (i ∈ rvec_ t')
  /\ (forall k r, svec_ t' !! k = Some (Some r) <-> svec_ t !! k = Some (Some r))
  /\ Z.of_nat (length (svec_ t')) = sidx_ t' /\ NoDup (rvec_ t')
  /\ (forall k, k ∈ rvec_ t' <-> k <> i /\ 0 <= k /\ svec_ t' !! Z.to_nat k = Some None).
Proof.
  intros [Hlen Hfree Hdist] Hlt. unfold new_index. destruct (last (rvec_ t)) as [i|] eqn:El.
  - apply last_Some in El as [l El]. pose proof (Hfree i) as Hi. rewrite El in *.
    assert (0 <= i /\ svec_ t !! Z.to_nat i = Some None) as [Hi0 Hin] by (apply Hi, elem_of_app; right; left).
    pose proof (lookup_lt_Some _ _ _ Hin) as Hil. rewrite wrap_small by (unfold in_u; lia).
    rewrite removelast_last. apply NoDup_app in Hdist as (Hd & Hni & _).
    assert (i ∉ l) as Hnl by (intros Hc; apply (Hni i Hc); left).
    cbn [svec_ rvec_ sidx_]. split_and!; [lia | lia | by left | done | done | done | done |].
    intros k. specialize (Hfree k). rewrite elem_of_app, list_elem_of_singleton in Hfree. split.
    + intros Hk. split; [by intros -> | apply Hfree; by left].
    + intros [Hne Hk]. apply Hfree in Hk as [Hk|Hk]; done.
  - apply last_None in El. rewrite El in *. cbn [svec_ rvec_ sidx_].
    assert (0 <= sidx_ t) by lia. rewrite !wrap_small by (unfold in_u; lia).
    assert (Z.to_nat (sidx_ t + 1) = S (length (svec_ t))) as En by lia.
    assert (Z.to_nat (sidx_ t) = length (svec_ t)) as Ei by lia.
    assert (resize_vec (S (length (svec_ t))) (svec_ t) = svec_ t ++ [None]) as Er.
    { unfold resize_vec. rewrite take_ge by lia. by replace (S (length (svec_ t)) - length (svec_ t))%nat with 1%nat by lia. }
    rewrite En, Er, Ei, length_app. cbn [length]. split_and!; try lia; [right; by apply lookup_ge_None_2 | inversion 1 | | constructor |].
    + intros k r. split; [|intros Hk; by apply lookup_app_l_Some].
      intros Hk. apply lookup_app_Some in Hk as [Hk|[Hk1 Hk]]; [done|]. destruct (k - length (svec_ t))%nat; done.
    + intros k. split; [inversion 1|]. intros (Hne & Hk0 & Hk). exfalso. apply lookup_app_Some in Hk as [Hk|[Hk1 Hk]].
      * assert (k ∈ ([] : list Z)) as Hc by (by apply Hfree). inversion Hc.
      * apply lookup_lt_Some in Hk. cbn in Hk. lia.
Qed.

(** A map of sets with the vector of [s] replaced. *)
Lemma subscribed_insert w s t l s' i r :
  subscribed (mk_subs (<[s := t]> (sets w)) l) s' i r
  <-> if decide (s' = s) then 0 <= i /\ svec_ t !! Z.to_nat i = Some (Some r) else subscribed w s' i r.
Proof.
  unfold subscribed. cbn [sets]. destruct (decide (s' = s)) as [->|Hne].
  - rewrite lookup_insert_eq. split; [intros (H1 & t' & [= <-] & H2); done | intros [H1 H2]; split; [done | by exists t]].
  - by rewrite lookup_insert_ne.
Qed.

Lemma subscribed_at w s t i r :
  sets w !! s = Some t -> subscribed w s i r <-> 0 <= i /\ svec_ t !! Z.to_nat i = Some (Some r).
Proof.
  intros Ht. unfold subscribed. rewrite Ht. split; [intros (H1 & t' & [= <-] & H2); done | intros [H1 H2]; split; [done | by exists t]].
Qed.

Lemma add_exact s r w t :
  subs_ok w -> sets w !! s = Some t -> set_ok t -> sidx_ t + 1 < 2 ^ 32 ->
  exists i w' t', add s r w = Some (i, w') /\ sets w' !! s = Some t' /\ set_ok t'
    /\ (forall r', ~ subscribed w s i r')
    /\ (forall s' j r', subscribed w' s' j r' <-> subscribed w s' j r' \/ (s' = s /\ j = i /\ r' = r))
    /\ (forall s', s' <> s -> sets w' !! s' = sets w !! s')
    /\ subs_ok w'.
Proof.
  intros [Hnd Hlist] Ht Hok Hlt. pose proof (new_index_ok t Hok Hlt) as Hnew. unfold add. rewrite Ht. cbn [mbind option_bind].
  destruct (new_index t) as [i t1]. destruct Hnew as (Hi & Hfree & Hni & Hsame & Hlen & Hdist & Hr).
  unfold set_svec. rewrite bool_decide_true by done. cbn [mbind option_bind].
  set (t' := mk_sub_set (<[Z.to_nat i := Some r]> (svec_ t1)) (rvec_ t1) (sidx_ t1)).
  eexists i, _, t'. split; [reflexivity|]. cbn [sets]. rewrite lookup_insert_eq.
  assert (forall r', ~ subscribed w s i r') as Hun.
  { intros r' (H1 & H2)%(subscribed_at _ _ _ _ _ Ht). destruct Hfree; congruence. }
  assert (forall s' j r', subscribed (mk_subs (<[s := t']> (sets w)) (add_sub (s, i) r (slists w))) s' j r'
            <-> subscribed w s' j r' \/ (s' = s /\ j = i /\ r' = r)) as Hsub.
  { intros s' j r'. rewrite subscribed_insert. destruct (decide (s' = s)) as [->|Hne]; [|split; [by left | intros [?|(? & _)]; done]].
    rewrite (subscribed_at _ _ _ _ _ Ht). cbn [svec_ t']. destruct (decide (j = i)) as [->|Hji].
    - rewrite list_lookup_insert_eq by lia. split; [intros [_ [= ->]]; by right | intros [[H1 H2]|(_ & _ & ->)]; [|split; [lia | done]]].
      destruct Hfree; congruence.
    - split.
      + intros [H1 H2]. left. split; [done|]. rewrite list_lookup_insert_ne in H2 by lia. by apply Hsame.
      + intros [[H1 H2]|(_ & ? & _)]; [|done]. split; [done|]. rewrite list_lookup_insert_ne by lia. by apply Hsame. }
  split; [done|]. split; [|split; [done|split; [exact Hsub|split; [intros; by apply lookup_insert_ne|]]]].
  - split; cbn [svec_ rvec_ sidx_ t'].
    + by rewrite length_insert.
    + intros k. rewrite Hr. destruct (decide (k = i)) as [->|Hne].
      * split; [intros (H1 & _); done|]. intros [_ H1]. rewrite list_lookup_insert_eq in H1 by lia. done.
      * split; [intros (_ & H1 & H2) | intros [H1 H2]]; (split_and!; try done).
        -- by rewrite list_lookup_insert_ne by lia.
        -- by rewrite list_lookup_insert_ne in H2 by lia.
    + done.
  - split.
    + intros r'. change (NoDup (list_at r' (add_sub (s, i) r (slists w)))). rewrite list_at_add.
      destruct (decide (r' = r)) as [->|]; [|apply Hnd]. apply NoDup_app. split; [apply Hnd|]. split; [|apply NoDup_singleton].
      intros x Hx Hc%list_elem_of_singleton. subst x. apply Hlist in Hx. by apply (Hun r).
    + intros r' s' j. change ((s', j) ∈ list_at r' (add_sub (s, i) r (slists w)) <-> 
        subscribed (mk_subs (<[s := t']> (sets w)) (add_sub (s, i) r (slists w))) s' j r').
      rewrite Hsub, list_at_add. rewrite <- (Hlist r' s' j). destruct (decide (r' = r)) as [->|Hne].
      * rewrite elem_of_app, list_elem_of_singleton. apply or_iff_compat_l.
        split; [by intros [= -> ->] | by intros (-> & -> & _)].
      * split; [by left | intros [?|(_ & _ & ?)]; done].
Qed.

Lemma filter_all {A} (P : A -> Prop) `{forall x, Decision (P x)} (l : list A) : (forall x, P x) -> filter P l = l.
Proof. intros HP. induction l as [|x l IH]; [done|]. rewrite filter_cons_True by done. by rewrite IH. Qed.

Lemma filter_ext_in {A} (P Q : A -> Prop) `{forall x, Decision (P x)} `{forall x, Decision (Q x)} (l : list A) :
  (forall x, x ∈ l -> P x <-> Q x) -> filter P l = filter Q l.
Proof.
  induction l as [|x l IH]; intros HPQ; [done|]. assert (P x <-> Q x) as Hx by (apply HPQ; left).
  destruct (decide (P x)).
  - rewrite !filter_cons_True by tauto. f_equal. apply IH. intros y Hy. apply HPQ. by right.
  - rewrite !filter_cons_False by tauto. apply IH. intros y Hy. apply HPQ. by right.
Qed.

Lemma del_nodes_list s v : forall i l r,
  list_at r (del_nodes s i v l)
  = filter (fun n => ~ (n.1 = s /\ 0 <= n.2 - i /\ v !! Z.to_nat (n.2 - i) = Some (Some r))) (list_at r l).
Proof.
  induction v as [|x v IH]; intros i l r.
  { cbn [del_nodes]. symmetry. apply filter_all. intros n (_ & _ & Hc). by rewrite lookup_nil in Hc. }
  assert (forall l : list (sub * Z), filter (fun n : sub * Z => ~ (n.1 = s /\ 0 <= n.2 - (i + 1) /\ v !! Z.to_nat (n.2 - (i + 1)) = Some (Some r)))
            (if decide (x = Some r) then filter (fun m => m <> (s, i)) l else l)
          = filter (fun n => ~ (n.1 = s /\ 0 <= n.2 - i /\ (x :: v) !! Z.to_nat (n.2 - i) = Some (Some r))) l) as Hstep.
  { intros l'. assert (forall n : sub * Z, 0 <= n.2 - i ->
      (x :: v) !! Z.to_nat (n.2 - i) = if decide (n.2 = i) then Some x else v !! Z.to_nat (n.2 - (i + 1))) as Hl.
    { intros n Hn. destruct (decide (n.2 = i)) as [->|]; [by rewrite Z.sub_diag|].
      replace (Z.to_nat (n.2 - i)) with (S (Z.to_nat (n.2 - (i + 1)))) by lia. done. }
    destruct (decide (x = Some r)) as [->|Hne].
    - rewrite list_filter_filter. apply list_filter_iff. intros [s' j]. cbn [fst snd]. specialize (Hl (s', j)). cbn [snd] in Hl.
      split.
      + intros [H1 H2] (-> & H3 & H4). rewrite Hl in H4 by done. destruct (decide (j = i)) as [->|]; [done|].
        apply H1. split_and!; [done | lia | done].
      + intros H1. split.
        * intros (-> & H3 & H4). apply H1. split_and!; [done | lia |]. rewrite Hl by lia. rewrite decide_False by lia. done.
        * intros [= -> ->]. apply H1. split_and!; [done | lia |]. rewrite Hl by lia. by rewrite decide_True.
    - apply list_filter_iff. intros [s' j]. cbn [fst snd]. specialize (Hl (s', j)). cbn [snd] in Hl.
      split; intros H1 (-> & H3 & H4); apply H1; split_and!; try done; try lia.
      + rewrite Hl in H4 by lia. destruct (decide (j = i)); [congruence | lia].
      + rewrite Hl in H4 by lia. destruct (decide (j = i)); [congruence | done].
      + rewrite Hl by lia. rewrite decide_False by lia. done. }
  cbn [del_nodes]. rewrite <- Hstep. destruct x as [r'|].
  - rewrite IH, list_at_del. destruct (decide (r = r')) as [->|Hne].
    + by rewrite decide_True.
    + rewrite decide_False by congruence. done.
  - by rewrite IH, decide_False.
Qed.

Lemma list_at_subscribers w r : list_at r (slists w) = subscribers r w.
Proof. done. Qed.

(** Subscription numbers: [add] on a set in order gives a number that has no
    subscription, after which that number is subscribed to the request and every
    other subscription is as before. *)
Theorem sub_add_ok s r w t :
  subs_ok w -> sets w !! s = Some t -> set_ok t -> sidx_ t + 1 < 2 ^ 32 ->
  exists i w' t', add s r w = Some (i, w') /\ sets w' !! s = Some t' /\ set_ok t'
    /\ (forall r', ~ subscribed w s i r')
    /\ (forall s' j r', subscribed w' s' j r' <-> subscribed w s' j r' \/ (s' = s /\ j = i /\ r' = r))
    /\ subs_ok w'.
Proof.
  intros Hw Ht Hok Hlt. destruct (add_exact s r w t Hw Ht Hok Hlt) as (i & w' & t' & H1 & H2 & H3 & H4 & H5 & _ & H6).
  exists i, w', t'. done.
Qed.

(** [del] says whether the number was subscribed; if it was, exactly that
    subscription ends and its number may be given again. *)
Theorem sub_del_ok s i w t :
  subs_ok w -> sets w !! s = Some t -> set_ok t -> 0 <= i ->
  exists b w' t', del s i w = Some (b, w') /\ sets w' !! s = Some t' /\ set_ok t'
    /\ (b = true <-> exists r, subscribed w s i r)
    /\ (forall s' j r', subscribed w' s' j r' <-> subscribed w s' j r' /\ ~ (s' = s /\ j = i))
    /\ subs_ok w'.
Proof.
  intros [Hnd Hlist] Ht Hok Hi. unfold del. rewrite Ht. cbn [mbind option_bind].
  assert (forall r, ~ (svec_ t !! Z.to_nat i = Some (Some r)) -> ~ subscribed w s i r) as Hno.
  { intros r Hr [_ H2]%(subscribed_at _ _ _ _ _ Ht). done. }
  assert ((forall r, svec_ t !! Z.to_nat i <> Some (Some r)) ->
    exists b w' t', Some (false, w) = Some (b, w') /\ sets w' !! s = Some t' /\ set_ok t'
      /\ (b = true <-> exists r, subscribed w s i r)
      /\ (forall s' j r', subscribed w' s' j r' <-> subscribed w s' j r' /\ ~ (s' = s /\ j = i))
      /\ subs_ok w') as Hnone.
  { intros Hr. exists false, w, t. split_and!; try done.
    - split; [done|]. intros [r Hs]. by destruct (Hno r (Hr r)).
    - intros s' j r'. split; [|by intros [? _]]. intros Hs. split; [done|]. intros [-> ->]. by destruct (Hno r' (Hr r')). }
  destruct (Z.leb_spec (Z.of_nat (length (svec_ t))) i) as [Hge|Hlt].
  { apply Hnone. intros r Hr%lookup_lt_Some. lia. }
  destruct (svec_ t !! Z.to_nat i) as [[r|]|] eqn:Er; try (apply Hnone; congruence).
  unfold set_svec. rewrite bool_decide_true by lia. cbn [mbind option_bind].
  set (t' := mk_sub_set (<[Z.to_nat i := None]> (svec_ t)) (rvec_ t ++ [i]) (sidx_ t)).
  assert (subscribed w s i r) as His by (by apply (subscribed_at _ _ _ _ _ Ht)).
  assert (forall s' j r', subscribed (mk_subs (<[s := t']> (sets w)) (del_sub (s, i) r (slists w))) s' j r'
            <-> subscribed w s' j r' /\ ~ (s' = s /\ j = i)) as Hsub.
  { intros s' j r'. rewrite subscribed_insert. destruct (decide (s' = s)) as [->|Hne].
    2: { split; [|by intros [? _]]. intros Hs. split; [done|]. by intros [? _]. }
    rewrite (subscribed_at _ _ _ _ _ Ht). cbn [svec_ t']. destruct (decide (j = i)) as [->|Hji].
    - rewrite list_lookup_insert_eq by lia. split; [by intros [_ ?] | intros [_ Hc]; by destruct Hc].
    - split.
      + intros [H1 H2]. rewrite list_lookup_insert_ne in H2 by lia. split; [done | by intros [_ ?]].
      + intros [[H1 H2] _]. by rewrite list_lookup_insert_ne by lia. }
  exists true, (mk_subs (<[s := t']> (sets w)) (del_sub (s, i) r (slists w))), t'. split; [reflexivity|]. cbn [sets]. rewrite lookup_insert_eq. split; [done|]. destruct Hok as [Hlen Hfree Hdist].
  split; [|split; [by split; [exists r|]|split; [exact Hsub|]]].
  - split; cbn [svec_ rvec_ sidx_ t'].
    + by rewrite length_insert.
    + intros k. rewrite elem_of_app, list_elem_of_singleton, Hfree. destruct (decide (k = i)) as [->|Hne].
      * rewrite list_lookup_insert_eq by lia. split; [done | by right].
      * split.
        -- intros [[H1 H2]|?]; [|done]. by rewrite list_lookup_insert_ne by lia.
        -- intros [H1 H2]. rewrite list_lookup_insert_ne in H2 by lia. by left.
    + apply NoDup_app. split; [done|]. split; [|apply NoDup_singleton]. intros x Hx Hc%list_elem_of_singleton. subst x.
      apply Hfree in Hx as [_ Hx]. congruence.
  - split.
    + intros r'. rewrite <- list_at_subscribers. cbn [slists]. rewrite list_at_del.
      destruct (decide (r' = r)) as [->|]; [apply NoDup_filter|]; apply Hnd.
    + intros r' s' j. rewrite Hsub, <- list_at_subscribers. cbn [slists]. rewrite list_at_del, <- (Hlist r' s' j).
      destruct (decide (r' = r)) as [->|Hne].
      * rewrite list_elem_of_filter. split.
        -- intros [H1 H2]. split; [done|]. by intros [-> ->].
        -- intros [H1 H2]. split; [|done]. intros [= -> ->]; by apply H2.
      * split; [|by intros [? _]]. intros Hs. split; [done|]. intros [-> ->].
        apply Hlist, (subscribed_at _ _ _ _ _ Ht) in Hs as [_ Hs]. congruence.
Qed.

(** After [teardown] no request calls the subscriber back, whatever its
    subscriptions were, and those of others are as before. *)
Theorem teardown_ok s w t :
  subs_ok w -> sets w !! s = Some t ->
  exists w', teardown s w = Some w' /\ subs_ok w'
    /\ (forall handles r n, n ∈ on_response_sub handles r w' -> n.1 <> s)
    /\ (forall handles r n, n.1 <> s -> n ∈ on_response_sub handles r w' <-> n ∈ on_response_sub handles r w).
Proof.
  intros [Hnd Hlist] Ht. unfold teardown. rewrite Ht. cbn [mbind option_bind]. eexists. split; [reflexivity|].
  set (w' := mk_subs _ _).
  assert (forall r, subscribers r w' = filter (fun n => n.1 <> s) (subscribers r w)) as Hl.
  { intros r. change (list_at r (del_nodes s 0 (svec_ t) (slists w)) = filter (fun n => n.1 <> s) (subscribers r w)).
    rewrite del_nodes_list, list_at_subscribers. apply filter_ext_in. intros [s' j] Hj. cbn [fst snd].
    apply Hlist in Hj. split; [|by intros ? (? & _)]. intros Hno ->. apply (subscribed_at _ _ _ _ _ Ht) in Hj as [H1 H2].
    apply Hno. rewrite Z.sub_0_r. done. }
  split; [|split].
  - split.
    + intros r. rewrite Hl. by apply NoDup_filter.
    + intros r s' j. rewrite Hl, list_elem_of_filter, Hlist. unfold w'. rewrite subscribed_insert. cbn [fst svec_].
      rewrite lookup_nil. destruct (decide (s' = s)) as [->|]; [|by split; [intros [_ ?]|]].
      split; [by intros [? _] | by intros [_ ?]].
  - intros handles r n. unfold on_response_sub. rewrite Hl, !list_elem_of_filter. by intros (_ & ? & _).
  - intros handles r n Hn. unfold on_response_sub. rewrite Hl, !list_elem_of_filter. split; [by intros (? & _ & ?) | by intros [? ?]].
Qed.

Lemma respond_exact handles r w :
  subs_ok w -> NoDup (on_response_sub handles r w)
  /\ forall s i, (s, i) ∈ on_response_sub handles r w <-> subscribed w s i r /\ handles s = true.
Proof.
  intros [Hnd Hlist]. split; [by apply NoDup_filter|]. intros s i. unfold on_response_sub.
  rewrite list_elem_of_filter, Hlist. cbn [fst]. split; intros [? ?]; done.
Qed.

(** A response goes once to each subscription to the request, with its
    number, and to nothing else. *)
Theorem responded handles r w :
  subs_ok w -> NoDup (on_response_sub handles r w)
  /\ forall s i, (s, i) ∈ on_response_sub handles r w <-> subscribed w s i r /\ handles s = true.
Proof. apply respond_exact. Qed.

(** [teardown] keeps the numbers given back: after it, a set that had one writes
    outside its empty vector. *)
Lemma stale_index s r w t i l :
  sets w !! s = Some t -> rvec_ t = l ++ [i] -> 
  exists w', teardown s w = Some w' /\ add s r w' = None.
Proof.
  intros Ht Hr. unfold teardown. rewrite Ht. cbn [mbind option_bind]. eexists. split; [reflexivity|].
  unfold add. cbn [sets]. rewrite lookup_insert_eq. cbn [mbind option_bind]. unfold new_index. cbn [rvec_ svec_ sidx_].
  rewrite Hr, last_snoc. unfold set_svec. cbn [svec_ length]. rewrite bool_decide_false by lia. done.
Qed.
End subs.

(** ** Witnesses *)

Lemma new_sub_set_ok {req} : set_ok (req := req) new_sub_set.
Proof. split; [done | | constructor]. intros i. split; [inversion 1 | intros [_ Hc]; cbn in Hc; by rewrite lookup_nil in Hc]. Qed.

Lemma no_subs_ok {sub req} `{Countable sub} `{Countable req} (m : gmap sub (sub_set (req := req))) :
  (forall s t, m !! s = Some t -> svec_ t = []) -> subs_ok (mk_subs m ∅).
Proof.
  intros Hm. split.
  - intros r. unfold subscribers. cbn. rewrite lookup_empty. constructor.
  - intros r s i. unfold subscribers. cbn. rewrite lookup_empty. split; [inversion 1|].
    intros (_ & t & Ht & Hs). cbn in Ht. by rewrite (Hm _ _ Ht), lookup_nil in Hs.
Qed.

(** Two subscribers, the first subscribed to request 7. *)
Definition two_subs : subs (sub := positive) (req := Z) := mk_subs {[1%positive := new_sub_set; 2%positive := new_sub_set]} ∅.
Definition one_sub : subs (sub := positive) (req := Z) :=
  match add 1%positive 7 two_subs with Some (_, w) => w | None => two_subs end.
Definition one_set : sub_set (req := Z) := mk_sub_set [Some 7] [] 1.

Lemma two_subs_ok : subs_ok two_subs.
Proof.
  apply no_subs_ok. intros s t [[_ <-]|[_ Ht]]%lookup_insert_Some; [done|].
  by apply lookup_singleton_Some in Ht as [_ <-].
Qed.

Lemma one_sub_ok : subs_ok one_sub /\ sets one_sub !! 1%positive = Some one_set /\ set_ok one_set.
Proof.
  destruct (add_exact 1%positive 7 two_subs new_sub_set two_subs_ok eq_refl new_sub_set_ok eq_refl)
    as (i & w' & t' & Ha & Ht & Hok & _ & _ & _ & Hw).
  assert (one_sub = w') as E by (unfold one_sub; by rewrite Ha). rewrite E in *.
  assert (sets one_sub !! 1%positive = Some one_set) as H1 by (vm_compute; reflexivity). rewrite E in H1.
  split; [done|]. split; [done|]. congruence.
Qed.

Lemma sub_add_ok_witness :
  exists i w' t', add 1%positive 7 one_sub = Some (i, w') /\ sets w' !! 1%positive = Some t' /\ i = 1.
Proof.
  destruct one_sub_ok as (Hw & Ht & Hok).
  destruct (sub_add_ok 1%positive 7 one_sub one_set Hw Ht Hok eq_refl) as (i & w' & t' & Ha & Ht' & _).
  exists i, w', t'. split; [exact Ha|]. split; [exact Ht'|]. vm_compute in Ha. injection Ha as <- _. reflexivity.
Defined.

Lemma sub_del_ok_witness : exists w', del 1%positive 0 one_sub = Some (true, w') /\ subs_ok w'.
Proof.
  destruct one_sub_ok as (Hw & Ht & Hok).
  destruct (sub_del_ok 1%positive 0 one_sub one_set Hw Ht Hok (Z.le_refl 0)) as (b & w' & t' & Hd & _ & _ & Hb & _ & Hw').
  exists w'. split; [|exact Hw']. rewrite Hd. f_equal. f_equal. apply Hb. exists 7. split; [done|]. by exists one_set.
Defined.

Lemma teardown_ok_witness :
  exists w', teardown 1%positive one_sub = Some w' /\ subs_ok w'.
Proof.
  destruct one_sub_ok as (Hw & Ht & _).
  destruct (teardown_ok 1%positive one_sub one_set Hw Ht) as (w' & Hd & Hw' & _). by exists w'.
Defined.

Lemma responded_witness : NoDup (on_response_sub (fun _ => true) 7 one_sub) /\ on_response_sub (fun _ => true) 7 one_sub = [(1%positive, 0)].
Proof.
  destruct one_sub_ok as (Hw & _ & _). split; [exact (proj1 (responded (fun _ => true) 7 one_sub Hw))|].
  vm_compute. reflexivity.
Defined.
