(* ===== verification/Dump.v ===== *)
(** * Price and product data as JSON ([price::get_...], [price::dump_json],
    [product::dump_json] of [pc/request.cpp])

    The data of a price is the bytes of its account ([Accounts]), read at the
    offsets of [pc_price_t]; a read outside them has no result. *)

From S2P Require AttrDict Base58.
From S2P Require Import Prelude JsonWtr Accounts.
From S2P Require RpcClient.
Import RpcClient (price_type_to_str, symbol_status_to_str).

(** ** Reading a price account *)

Definition i32_at (o : nat) (m : bytes) : option Z := swrap 32 <$> u32_at o m.
Definition i64_at (o : nat) (m : bytes) : option Z := swrap 64 <$> u64_at o m.

Definition get_price_type : bytes -> option Z := u32_at 16.
Definition get_price_exponent : bytes -> option Z := i32_at 20.
Definition get_num_publisher : bytes -> option Z := price_num.
Definition get_num_qt : bytes -> option Z := u32_at 28.
Definition get_valid_slot : bytes -> option Z := price_valid_slot.
Definition get_twap : bytes -> option Z := i64_at 48.
(** The assertion has no result when it fails. *)
Definition get_twac (m : bytes) : option Z := v ← i64_at 72 m; if v <? 0 then None else Some v.
Definition get_min_pub (m : bytes) : option Z := m !! 104%nat.
Definition get_prev_slot : bytes -> option Z := u64_at 176.
Definition get_prev_price : bytes -> option Z := i64_at 184.
Definition get_prev_conf : bytes -> option Z := u64_at 192.
Definition get_price : bytes -> option Z := i64_at 208.
Definition get_conf : bytes -> option Z := u64_at 216.
Definition get_status : bytes -> option Z := u32_at 224.
Definition get_pub_slot : bytes -> option Z := price_pub_slot.

Definition get_publisher (i : nat) : bytes -> option bytes := comp_pub i.
Definition get_publisher_price (i : nat) : bytes -> option Z := i64_at (240 + 96 * i + 32).
Definition get_publisher_conf (i : nat) : bytes -> option Z := u64_at (240 + 96 * i + 40).
Definition get_publisher_status (i : nat) : bytes -> option Z := u32_at (240 + 96 * i + 48).
Definition get_publisher_slot (i : nat) : bytes -> option Z := comp_pub_slot i.

(** ** Writing it *)

(** [price::dump_json], for the account [k] with data [m]. *)
Definition dump_publisher (m : bytes) (i : nat) (w : json_wtr) : option json_wtr :=
  let w := add_val_type e_obj w in
  pk ← get_publisher i m;
  w ← add_key_hash (bs "account") pk w;
  st ← get_publisher_status i m;
  let w := add_key_str (bs "status") (symbol_status_to_str st) w in
  px ← get_publisher_price i m;
  let w := add_key_int (bs "price") px w in
  cf ← get_publisher_conf i m;
  let w := add_key_uint (bs "conf") cf w in
  sl ← get_publisher_slot i m;
  let w := add_key_uint (bs "slot") sl w in
  pop w.

Fixpoint dump_publishers (n i : nat) (m : bytes) (w : json_wtr) : option json_wtr :=
  match n with
  | O => Some w
  | S n' => w ← dump_publisher m i w; dump_publishers n' (S i) m w
  end.

Definition dump_price (k m : bytes) (w : json_wtr) : option json_wtr :=
  w ← add_key_hash (bs "account") k w;
  pt ← get_price_type m;
  let w := add_key_str (bs "price_type") (price_type_to_str pt) w in
  ex ← get_price_exponent m;
  let w := add_key_int (bs "price_exponent") ex w in
  st ← get_status m;
  let w := add_key_str (bs "status") (symbol_status_to_str st) w in
  px ← get_price m;
  let w := add_key_int (bs "price") px w in
  cf ← get_conf m;
  let w := add_key_uint (bs "conf") cf w in
  tp ← get_twap m;
  let w := add_key_int (bs "twap") tp w in
  tc ← get_twac m;
  let w := add_key_uint (bs "twac") tc w in
  vs ← get_valid_slot m;
  let w := add_key_uint (bs "valid_slot") vs w in
  ps ← get_pub_slot m;
  let w := add_key_uint (bs "pub_slot") ps w in
  rs ← get_prev_slot m;
  let w := add_key_uint (bs "prev_slot") rs w in
  rp ← get_prev_price m;
  let w := add_key_int (bs "prev_price") rp w in
  rc ← get_prev_conf m;
  let w := add_key_uint (bs "prev_conf") rc w in
  let w := add_key_type (bs "publisher_accounts") e_arr w in
  n ← get_num_publisher m;
  w ← dump_publishers (Z.to_nat n) 0 m w;
  pop w.

Section product.
(** The accounts of the manager, and its attribute names. *)
Context (acc : accounts).

(** [product::get_price( i )]: the price object of the key, with its account. *)
Definition price_at (k : bytes) : option price_acc :=
  n ← amap_ acc !! k; match acct_ n with a_price x => Some x | _ => None end.
Definition product_at (k : bytes) : option product :=
  n ← amap_ acc !! k; match acct_ n with a_prod p => Some p | _ => None end.

Fixpoint dump_prices (ks : list bytes) (w : json_wtr) : option json_wtr :=
  match ks with
  | [] => Some w
  | k :: ks' =>
      let w := add_val_type e_obj w in
      x ← price_at k;
      w ← dump_price k (pptr_ x) w;
      w ← pop w;
      dump_prices ks' w
  end.
Definition dump_product (k : bytes) (p : product) (w : json_wtr) : option json_wtr :=
  w ← add_key_hash (bs "account") k w;
  let w := add_key_type (bs "attr_dict") e_obj w in
  w ← pop (AttrDict.write_json (attrs_ p) (attr_ids acc) w);
  let w := add_key_type (bs "price_accounts") e_arr w in
  w ← dump_prices (pvec_ p) w;
  pop w.

(** The entry of [get_product_list]. *)
Fixpoint list_prices (ks : list bytes) (w : json_wtr) : option json_wtr :=
  match ks with
  | [] => Some w
  | k :: ks' =>
      let w := add_val_type e_obj w in
      x ← price_at k;
      ex ← get_price_exponent (pptr_ x);
      pt ← get_price_type (pptr_ x);
      w ← add_key_hash (bs "account") k w;
      let w := add_key_int (bs "price_exponent") ex w in
      let w := add_key_str (bs "price_type") (price_type_to_str pt) w in
      w ← pop w;
      list_prices ks' w
  end.
Definition list_product (k : bytes) (p : product) (w : json_wtr) : option json_wtr :=
  let w := add_val_type e_obj w in
  w ← add_key_hash (bs "account") k w;
  let w := add_key_type (bs "attr_dict") e_obj w in
  w ← pop (AttrDict.write_json (attrs_ p) (attr_ids acc) w);
  let w := add_key_type (bs "price") e_arr w in
  w ← list_prices (pvec_ p) w;
  w ← pop w;
  pop w.
End product.

(** ** The JSON values written

    Writing the members of an object, or the elements of an array, one after the
    other. *)

Fixpoint write_members (ms : list (bytes * json)) (w : json_wtr) : option json_wtr :=
  match ms with
  | [] => Some w
  | kv :: ms' => w ← write kv.2 (add_key_only kv.1 w); write_members ms' w
  end.
Fixpoint write_values (vs : list json) (w : json_wtr) : option json_wtr :=
  match vs with
  | [] => Some w
  | v :: vs' => w ← write v (add_first w); write_values vs' w
  end.

Lemma bind_some_r {A} (o : option A) : (x ← o; Some x) = o.
Proof. by destruct o. Qed.

Lemma foldl_none {A B} (f : A -> B -> option B) l : foldl (fun w x => w ← w; f x w) None l = None.
Proof. induction l as [|x l IH]; [done|]. exact IH. Qed.

Lemma write_obj ms w : write (j_obj ms) w = (w ← write_members ms (add_obj w); pop w).
Proof.
  cbn [write]. f_equal. generalize (add_obj w). induction ms as [|kv ms IH]; intros w0; [done|].
  cbn [foldl write_members mbind option_bind]. destruct (write kv.2 (add_key_only kv.1 w0)); [apply IH|].
  apply (foldl_none (fun kv w => write kv.2 (add_key_only kv.1 w))).
Qed.
Lemma write_arr vs w : write (j_arr vs) w = (w ← write_values vs (add_arr w); pop w).
Proof.
  cbn [write]. f_equal. generalize (add_arr w). induction vs as [|v vs IH]; intros w0; [done|].
  cbn [foldl write_values mbind option_bind]. destruct (write v (add_first w0)); [apply IH|].
  apply (foldl_none (fun v w => write v (add_first w))).
Qed.

Lemma write_members_app ms ms' w : write_members (ms ++ ms') w = (w ← write_members ms w; write_members ms' w).
Proof.
  revert w. induction ms as [|kv ms IH]; intros w; [done|]. cbn [app write_members].
  destruct (write kv.2 (add_key_only kv.1 w)); [apply IH | done].
Qed.

(** The text of a key as a JSON string. *)
Definition key_json (k : bytes) : json := j_str (Base58.enc_base58 k 64).

Lemma add_key_hash_write key k w : length k = 32%nat -> add_key_hash key k w = write (key_json k) (add_key_only key w).
Proof. intros Hk. unfold add_key_hash, add_enc_base58. rewrite Hk. done. Qed.

Definition publisher_json (m : bytes) (i : nat) : option json :=
  pk ← get_publisher i m; st ← get_publisher_status i m; px ← get_publisher_price i m;
  cf ← get_publisher_conf i m; sl ← get_publisher_slot i m;
  Some (j_obj [(bs "account", key_json pk); (bs "status", j_str (symbol_status_to_str st)); (bs "price", j_int px);
               (bs "conf", j_uint cf); (bs "slot", j_uint sl)]).

Definition price_members (k m : bytes) : option (list (bytes * json)) :=
  pt ← get_price_type m; ex ← get_price_exponent m; st ← get_status m; px ← get_price m; cf ← get_conf m;
  tp ← get_twap m; tc ← get_twac m; vs ← get_valid_slot m; ps ← get_pub_slot m; rs ← get_prev_slot m;
  rp ← get_prev_price m; rc ← get_prev_conf m; n ← get_num_publisher m;
  pubs ← mapM (publisher_json m) (seq 0 (Z.to_nat n));
  Some [(bs "account", key_json k); (bs "price_type", j_str (price_type_to_str pt)); (bs "price_exponent", j_int ex);
        (bs "status", j_str (symbol_status_to_str st)); (bs "price", j_int px); (bs "conf", j_uint cf);
        (bs "twap", j_int tp); (bs "twac", j_uint tc); (bs "valid_slot", j_uint vs); (bs "pub_slot", j_uint ps);
        (bs "prev_slot", j_uint rs); (bs "prev_price", j_int rp); (bs "prev_conf", j_uint rc);
        (bs "publisher_accounts", j_arr pubs)].

Section product_json.
Context (acc : accounts).

Definition attr_members (p : product) : list (bytes * json) :=
  (fun a => (a.1.2, j_str a.2)) <$> AttrDict.attrs (attrs_ p) (attr_ids acc).
Definition price_json (k : bytes) : option json := x ← price_at acc k; ms ← price_members k (pptr_ x); Some (j_obj ms).
Definition product_members (k : bytes) (p : product) : option (list (bytes * json)) :=
  pxs ← mapM price_json (pvec_ p);
  Some [(bs "account", key_json k); (bs "attr_dict", j_obj (attr_members p)); (bs "price_accounts", j_arr pxs)].

Definition listed_price_json (k : bytes) : option json :=
  x ← price_at acc k; ex ← get_price_exponent (pptr_ x); pt ← get_price_type (pptr_ x);
  Some (j_obj [(bs "account", key_json k); (bs "price_exponent", j_int ex); (bs "price_type", j_str (price_type_to_str pt))]).
Definition listed_product_json (k : bytes) (p : product) : option json :=
  pxs ← mapM listed_price_json (pvec_ p);
  Some (j_obj [(bs "account", key_json k); (bs "attr_dict", j_obj (attr_members p)); (bs "price", j_arr pxs)]).
End product_json.

(** ** The calls write these values *)

Lemma field_length o n m f : field o n m = Some f -> length f = n.
Proof. unfold field. case_bool_decide; [|done]. intros [= <-]. by apply length_slice. Qed.

(** A member, as the call that writes it. *)
Lemma wm_str k v ms w : write_members ((k, j_str v) :: ms) w = write_members ms (add_key_str k v w).
Proof. done. Qed.
Lemma wm_int k v ms w : write_members ((k, j_int v) :: ms) w = write_members ms (add_key_int k v w).
Proof. done. Qed.
Lemma wm_uint k v ms w : write_members ((k, j_uint v) :: ms) w = write_members ms (add_key_uint k v w).
Proof. done. Qed.
Lemma wm_key k v ms w : length v = 32%nat ->
  write_members ((k, key_json v) :: ms) w = (w ← add_key_hash k v w; write_members ms w).
Proof. intros Hv. cbn [write_members fst snd]. by rewrite add_key_hash_write. Qed.
Lemma wm_arr k vs ms w :
  write_members ((k, j_arr vs) :: ms) w = (w ← write_values vs (add_key_type k e_arr w); w ← pop w; write_members ms w).
Proof. cbn [write_members fst snd]. rewrite write_arr. by destruct (write_values _ _). Qed.
Lemma wm_obj k ms' ms w :
  write_members ((k, j_obj ms') :: ms) w = (w ← write_members ms' (add_key_type k e_obj w); w ← pop w; write_members ms w).
Proof. cbn [write_members fst snd]. rewrite write_obj. by destruct (write_members ms' _). Qed.
Lemma wm_nil w : write_members [] w = Some w.
Proof. done. Qed.
Ltac members := repeat first [rewrite wm_str | rewrite wm_int | rewrite wm_uint | rewrite wm_nil].

Lemma dump_publisher_json m i w v : publisher_json m i = Some v -> dump_publisher m i w = write v (add_first w).
Proof.
  intros Hv. unfold publisher_json in Hv. unfold dump_publisher. destruct (get_publisher i m) as [pk|] eqn:Ek; [|done].
  assert (length pk = 32%nat) as Hl by (eapply field_length, Ek).
  destruct (get_publisher_status i m) as [st|]; [|done]. destruct (get_publisher_price i m) as [px|]; [|done].
  destruct (get_publisher_conf i m) as [cf|]; [|done]. destruct (get_publisher_slot i m) as [sl|]; [|done].
  cbn [mbind option_bind] in *. injection Hv as <-. rewrite write_obj, wm_key by done.
  change (add_val_type e_obj w) with (add_obj (add_first w)). destruct (add_key_hash _ _ _); [|done].
  cbn [mbind option_bind]. members. done.
Qed.

Lemma dump_publishers_json m : forall n i w vs, mapM (publisher_json m) (seq i n) = Some vs ->
  dump_publishers n i m w = write_values vs w.
Proof.
  induction n as [|n IH]; intros i w vs Hvs; [by injection Hvs as <-|].
  cbn [seq mapM] in Hvs. destruct (publisher_json m i) as [v|] eqn:Ev; [|done]. cbn [mbind option_bind] in Hvs.
  destruct (mapM (publisher_json m) (seq (S i) n)) as [vs'|] eqn:Evs; [|done]. injection Hvs as <-.
  cbn [dump_publishers write_values]. rewrite (dump_publisher_json m i w v Ev).
  destruct (write v (add_first w)); [|done]. by apply IH.
Qed.

Lemma dump_price_json k m w ms : length k = 32%nat -> price_members k m = Some ms -> dump_price k m w = write_members ms w.
Proof.
  intros Hk Hms. unfold price_members in Hms. unfold dump_price.
  destruct (get_price_type m); [|done]. destruct (get_price_exponent m); [|done]. destruct (get_status m); [|done].
  destruct (get_price m); [|done]. destruct (get_conf m); [|done]. destruct (get_twap m); [|done].
  destruct (get_twac m); [|done]. destruct (get_valid_slot m); [|done]. destruct (get_pub_slot m); [|done].
  destruct (get_prev_slot m); [|done]. destruct (get_prev_price m); [|done]. destruct (get_prev_conf m); [|done].
  destruct (get_num_publisher m) as [n|]; [|done]. cbn [mbind option_bind] in *.
  destruct (mapM (publisher_json m) (seq 0 (Z.to_nat n))) as [pubs|] eqn:Ep; [|done]. injection Hms as <-.
  rewrite wm_key by done. destruct (add_key_hash _ _ _) as [w1|]; [|done]. cbn [mbind option_bind]. members.
  rewrite wm_arr. rewrite (dump_publishers_json m _ _ _ pubs Ep). destruct (write_values pubs _) as [w2|]; [|done].
  cbn [mbind option_bind]. by destruct (pop w2).
Qed.

Section products.
Context (acc : accounts).

Lemma attr_members_write p w :
  write_members (attr_members acc p) w = Some (AttrDict.write_json (attrs_ p) (attr_ids acc) w).
Proof.
  unfold attr_members, AttrDict.write_json. generalize (AttrDict.attrs (attrs_ p) (attr_ids acc)). intros l.
  revert w. induction l as [|a l IH]; intros w; [done|]. cbn [fmap list_fmap foldl]. rewrite wm_str. apply IH.
Qed.

(** Elements written as objects, each by its own calls. *)
Lemma write_each {A} (json_of : A -> option json) (dump : A -> json_wtr -> option json_wtr) (each : list A -> json_wtr -> option json_wtr) :
  (forall w, each [] w = Some w) -> (forall x l w, each (x :: l) w = (w ← dump x w; each l w)) ->
  forall l vs w, Forall (fun x => forall v w, json_of x = Some v -> dump x w = write v (add_first w)) l ->
  mapM json_of l = Some vs -> each l w = write_values vs w.
Proof.
  intros Hnil Hcons l vs w Hl Hvs. apply mapM_Some_1 in Hvs. revert w. induction Hvs as [|x v l vs Hx Hvs IH]; intros w.
  { apply Hnil. }
  apply Forall_cons in Hl as [Hd Hl]. rewrite Hcons, (Hd v w Hx). cbn [write_values].
  destruct (write v (add_first w)); [|done]. by apply IH.
Qed.

Definition key32 (k : bytes) : Prop := length k = 32%nat.

Definition dump_one_price (k : bytes) (w : json_wtr) : option json_wtr :=
  x ← price_at acc k; w ← dump_price k (pptr_ x) (add_val_type e_obj w); pop w.

Lemma dump_prices_json ks w vs :
  Forall key32 ks -> mapM (price_json acc) ks = Some vs -> dump_prices acc ks w = write_values vs w.
Proof.
  intros Hk Hvs. apply (write_each (price_json acc) dump_one_price); try done.
  - intros k l w'. unfold dump_one_price. cbn [dump_prices]. destruct (price_at acc k) as [x|]; [|done]. cbn [mbind option_bind].
    by destruct (dump_price k (pptr_ x) (add_val_type e_obj w')).
  - eapply Forall_impl; [exact Hk|]. cbn. intros k Hkk v w' Hv. unfold price_json in Hv. unfold dump_one_price.
    destruct (price_at acc k) as [x|]; [|done]. cbn [mbind option_bind] in *.
    destruct (price_members k (pptr_ x)) as [ms|] eqn:Ems; [|done]. injection Hv as <-.
    rewrite write_obj. change (add_val_type e_obj w') with (add_obj (add_first w')). by rewrite (dump_price_json _ _ _ ms).
Qed.

Lemma dump_product_json k p w ms :
  key32 k -> Forall key32 (pvec_ p) -> product_members acc k p = Some ms -> dump_product acc k p w = write_members ms w.
Proof.
  intros Hk Hks Hms. unfold product_members in Hms. unfold dump_product.
  destruct (mapM (price_json acc) (pvec_ p)) as [pxs|] eqn:Ep; [|done]. injection Hms as <-.
  rewrite wm_key by done. destruct (add_key_hash _ _ _) as [w1|]; [|done]. cbn [mbind option_bind].
  rewrite wm_obj, attr_members_write. cbn [mbind option_bind]. destruct (pop _) as [w2|]; [|done]. cbn [mbind option_bind].
  rewrite wm_arr, (dump_prices_json _ _ pxs) by done. destruct (write_values pxs _) as [w3|]; [|done].
  cbn [mbind option_bind]. by destruct (pop w3).
Qed.

Definition list_one_price (k : bytes) (w : json_wtr) : option json_wtr :=
  x ← price_at acc k; ex ← get_price_exponent (pptr_ x); pt ← get_price_type (pptr_ x);
  w ← add_key_hash (bs "account") k (add_val_type e_obj w);
  pop (add_key_str (bs "price_type") (price_type_to_str pt) (add_key_int (bs "price_exponent") ex w)).

Lemma list_prices_json ks w vs :
  Forall key32 ks -> mapM (listed_price_json acc) ks = Some vs -> list_prices acc ks w = write_values vs w.
Proof.
  intros Hk Hvs. apply (write_each (listed_price_json acc) list_one_price); try done.
  - intros k l w'. unfold list_one_price. cbn [list_prices]. destruct (price_at acc k) as [x|]; [|done]. cbn [mbind option_bind].
    destruct (get_price_exponent (pptr_ x)); [|done]. destruct (get_price_type (pptr_ x)); [|done]. cbn [mbind option_bind].
    by destruct (add_key_hash _ _ _).
  - eapply Forall_impl; [exact Hk|]. cbn. intros k Hkk v w' Hv. unfold listed_price_json in Hv. unfold list_one_price.
    destruct (price_at acc k) as [x|]; [|done]. cbn [mbind option_bind] in *.
    destruct (get_price_exponent (pptr_ x)); [|done]. destruct (get_price_type (pptr_ x)); [|done].
    cbn [mbind option_bind] in *. injection Hv as <-.
    rewrite write_obj, wm_key by done. change (add_val_type e_obj w') with (add_obj (add_first w')).
    destruct (add_key_hash _ _ _); [|done]. cbn [mbind option_bind]. members. done.
Qed.

Lemma list_product_json k p w v :
  key32 k -> Forall key32 (pvec_ p) -> listed_product_json acc k p = Some v -> list_product acc k p w = write v (add_first w).
Proof.
  intros Hk Hks Hv. unfold listed_product_json in Hv. unfold list_product.
  destruct (mapM (listed_price_json acc) (pvec_ p)) as [pxs|] eqn:Ep; [|done]. injection Hv as <-.
  rewrite write_obj, wm_key by done. change (add_val_type e_obj w) with (add_obj (add_first w)).
  destruct (add_key_hash _ _ _) as [w1|]; [|done]. cbn [mbind option_bind].
  rewrite wm_obj, attr_members_write. cbn [mbind option_bind]. destruct (pop _) as [w2|]; [|done]. cbn [mbind option_bind].
  rewrite wm_arr, (list_prices_json _ _ pxs) by done. destruct (write_values pxs _) as [w3|]; [|done].
  cbn [mbind option_bind]. by destruct (pop w3).
Qed.
End products.
