(* ===== verification/Csv.v ===== *)
(** * A capture as text ([pcapps/pyth_csv.cpp])

    The program replays a capture and prints a line for each price account in it,
    of one symbol if it is asked to.  Products come before their prices and give
    them their symbols.  The hash map from products to symbols is a finite map
    ([HashMap]). *)

From S2P Require AttrDict Dump Admin.
From S2P Require Import Prelude Text Calendar Capture Replay.
Import RpcClient (price_type_to_str, symbol_status_to_str).
Import Admin (PC_NUM_COMP).
Import Accounts (u32_at, key_at).
Import Dump.

(** ** Output *)

(** [operator<<] of an integer on a stream. *)
Definition cout_int (v : Z) : bytes := if v <? 0 then bs "-" ++ uint_to_str (- v) else uint_to_str v.

(** The texts with a comma before each. *)
Definition columns (l : list bytes) : bytes := concat ((fun x => bs "," ++ x) <$> l).

(** [csv_print]; the ids of attributes are those of the class [attr_id]. *)
Record csv_print := mk_csv_print {
  smap_ : gmap bytes bytes; sym_id_ : Z; attr_ : AttrDict.attr_dict; skey_ : bytes; sym_ : bytes;
  do_sym_ : bool; has_sym_ : bool; ids : AttrDict.attr_id_set; cout : bytes }.

Definition new_csv_print : option csv_print :=
  '(id, s) ← AttrDict.add_attr_id (bs "symbol") AttrDict.new_attr_id_set;
  Some (mk_csv_print ∅ id AttrDict.clear [] [] false false s []).

Definition put_out (b : bytes) (c : csv_print) : csv_print :=
  mk_csv_print (smap_ c) (sym_id_ c) (attr_ c) (skey_ c) (sym_ c) (do_sym_ c) (has_sym_ c) (ids c) (cout c ++ b).
Definition set_symbol (sym : bytes) (c : csv_print) : csv_print :=
  mk_csv_print (smap_ c) (sym_id_ c) (attr_ c) (skey_ c) sym (negb (bool_decide (sym = []))) (has_sym_ c) (ids c) (cout c).

(** ** The header *)

Definition header_names : list bytes :=
  [bs "symbol"; bs "price_type"; bs "price_exponent"; bs "status"; bs "price"; bs "conf"; bs "twap"; bs "twac";
   bs "num_qt"; bs "valid_slot"; bs "pub_slot"; bs "prev_slot"; bs "prev_price"; bs "prev_conf"].
Definition comp_names (i : Z) : list bytes :=
  (fun x => x ++ uint_to_str i) <$> [bs "comp_status_"; bs "comp_price_"; bs "comp_conf_"; bs "comp_slot"].
Definition header : bytes :=
  bs "time" ++ columns (header_names ++ concat (comp_names <$> seqZ 0 PC_NUM_COMP)).
Definition print_header (c : csv_print) : csv_print := put_out (header ++ [10]) c.

Create HintDb csv.

Section csv.
Context {wz rz : Type} `{Gz wz rz}.

(** ** Products *)

(** The symbol of a product, and whether it is the one asked for. *)
Definition add_symbol (k sym : bytes) (c : csv_print) : csv_print :=
  let found := do_sym_ c && bool_decide (sym_ c = sym) in
  mk_csv_print (<[k := sym]> (smap_ c)) (sym_id_ c) (attr_ c) (if found then k else skey_ c) (sym_ c) (do_sym_ c)
    (if found then true else has_sym_ c) (ids c) (cout c).
Definition set_attrs (d : AttrDict.attr_dict) (s : AttrDict.attr_id_set) (c : csv_print) : csv_print :=
  mk_csv_print (smap_ c) (sym_id_ c) d (skey_ c) (sym_ c) (do_sym_ c) (has_sym_ c) s (cout c).

Definition parse_product (r : replay (rz := rz)) (c : csv_print) : option csv_print :=
  '(ok, d, s) ← AttrDict.init_from_account (get_update r) (ids c);
  let c := set_attrs d s c in
  if negb ok then Some c else
  match AttrDict.get_attr d (sym_id_ c) with
  | None => Some c
  | Some sym => Some (add_symbol (get_account r) sym c)
  end.

(** ** Prices *)

(** A publisher's columns. *)
Definition comp_row (m : bytes) (i : nat) : option (list bytes) :=
  st ← get_publisher_status i m; px ← get_publisher_price i m; cf ← get_publisher_conf i m;
  sl ← get_publisher_slot i m;
  Some [symbol_status_to_str st; cout_int px; cout_int cf; cout_int sl].
Fixpoint comp_rows (m : bytes) (n i : nat) : option (list bytes) :=
  match n with
  | O => Some []
  | S n' => x ← comp_row m i; xs ← comp_rows m n' (S i); Some (x ++ xs)
  end.

(** The columns of the account. *)
Definition price_row (m : bytes) : option (list bytes) :=
  pt ← get_price_type m; ex ← get_price_exponent m; st ← get_status m; px ← get_price m; cf ← get_conf m;
  tw ← i64_at 48 m; tc ← i64_at 72 m; nq ← get_num_qt m; vs ← get_valid_slot m; ps ← get_pub_slot m;
  es ← get_prev_slot m; ep ← get_prev_price m; ec ← get_prev_conf m;
  Some [price_type_to_str pt; cout_int ex; symbol_status_to_str st; cout_int px; cout_int cf; cout_int tw; cout_int tc;
        cout_int nq; cout_int vs; cout_int ps; cout_int es; cout_int ep; cout_int ec].

(** The columns of the places without publisher: the counter wraps. *)
Definition blanks (num : Z) : bytes := concat (replicate (Z.to_nat (u32 (PC_NUM_COMP - num))) (bs ",,,,")).

Definition filtered (prod : bytes) (c : csv_print) : bool :=
  do_sym_ c && (negb (has_sym_ c) || negb (bool_decide (prod = skey_ c))).

Definition price_line (r : replay (rz := rz)) (prod : bytes) (c : csv_print) : option bytes :=
  let m := get_update r in
  row ← price_row m; num ← get_num_publisher m; comps ← comp_rows m (Z.to_nat num) 0;
  Some (nsecs_to_utc6 (get_time r) ++ columns (default [] (smap_ c !! prod) :: row ++ comps) ++ blanks num ++ [10]).

Definition parse_price (r : replay (rz := rz)) (c : csv_print) : option csv_print :=
  prod ← key_at 112 (get_update r);
  if filtered prod c then Some c else
  line ← price_line r prod c; Some (put_out line c).

Definition parse (r : replay (rz := rz)) (c : csv_print) : option csv_print :=
  ty ← u32_at 8 (get_update r);
  if ty =? 3 then parse_price r c
  else if ty =? 2 then parse_product r c
  else Some c.

(** ** The program *)

(** The loop of [main]. *)
Fixpoint csv_loop (fuel : nat) (r : replay (rz := rz)) (c : csv_print) : option csv_print :=
  match fuel with
  | O => None
  | S fuel' =>
      '(ok, r) ← get_next r;
      if ok : bool then c ← parse r c; csv_loop fuel' r c else Some c
  end.

Definition csv_main (fuel : nat) (z : rz) (symstr : bytes) : option bytes :=
  c ← new_csv_print;
  c ← csv_loop fuel (new_replay z) (set_symbol symstr (print_header c));
  Some (cout c).

(** ** The columns *)

Definition commas (l : bytes) : nat := length (filter (fun x => x = 44) l).

Lemma commas_app l k : commas (l ++ k) = (commas l + commas k)%nat.
Proof. unfold commas. by rewrite filter_app, length_app. Qed.

Lemma commas_none l : 44 ∉ l -> commas l = 0%nat.
Proof.
  induction l as [|x l IH]; [done|]. rewrite not_elem_of_cons. intros [Hx Hl].
  unfold commas. rewrite filter_cons_False by congruence. by apply IH.
Qed.

Lemma commas_columns l : Forall (fun x => 44 ∉ x) l -> commas (columns l) = length l.
Proof.
  induction 1 as [|x l Hx Hl IH]; [done|]. unfold columns in *. cbn [fmap list_fmap concat].
  rewrite !commas_app, IH, (commas_none x) by done. done.
Qed.

Lemma commas_blanks num : 0 <= num <= PC_NUM_COMP -> commas (blanks num) = (4 * Z.to_nat (PC_NUM_COMP - num))%nat.
Proof.
  intros Hn. unfold blanks. rewrite wrap_small by (unfold PC_NUM_COMP in *; mach).
  induction (Z.to_nat (PC_NUM_COMP - num)) as [|n IH]; [done|]. simpl replicate. cbn [concat].
  rewrite commas_app, IH. change (commas (bs ",,,,")) with 4%nat. lia.
Qed.

(** No text of a number or of an enumeration has a comma. *)
Lemma no_comma_digits l : is_digits l -> 44 ∉ l.
Proof. intros Hl Hin. unfold is_digits in Hl. rewrite Forall_forall in Hl. by specialize (Hl _ Hin). Qed.

Lemma digit_char v : 0 <= v -> isdigit (u8 (48 + Z.rem v 10)) = true.
Proof.
  intros Hv. rewrite Z.rem_mod_nonneg by lia. pose proof (Z.mod_pos_bound v 10 ltac:(done)).
  rewrite wrap_small by mach. apply isdigit_spec. lia.
Qed.

Lemma put_digits_text fuel val acc : 0 <= val -> is_digits acc -> is_digits (put_digits fuel val acc).
Proof.
  revert val acc. induction fuel as [|fuel IH]; intros val acc Hv Ha; [done|]. simpl. destruct (val =? 0); [done|].
  apply IH; [apply Z.quot_pos; lia|]. by constructor; [apply digit_char|].
Qed.

Lemma put_fixed_text n val acc : 0 <= val -> is_digits acc -> is_digits (put_fixed n val acc).
Proof.
  revert val acc. induction n as [|n IH]; intros val acc Hv Ha; [done|]. simpl.
  apply IH; [apply Z.quot_pos; lia|]. by constructor; [apply digit_char|].
Qed.

Lemma uint_text v : 0 <= v -> 44 ∉ uint_to_str v.
Proof.
  intros Hv. apply no_comma_digits. unfold uint_to_str. destruct (v =? 0); [repeat constructor|].
  apply put_digits_text; [done | constructor].
Qed.

Lemma cout_int_text v : 44 ∉ cout_int v.
Proof.
  unfold cout_int. destruct (Z.ltb_spec v 0); [|by apply uint_text].
  rewrite not_elem_of_app. split; [by_decide | apply uint_text; lia].
Qed.

Lemma enum_text names i : Forall (fun x => 44 ∉ x) names -> 44 ∉ RpcClient.enum_to_str names i.
Proof.
  intros Hn. unfold RpcClient.enum_to_str. generalize (Z.to_nat (if i <? Z.of_nat (length names) then i else 0)). intros k.
  destruct (nth_in_or_default k names []) as [Hin | ->]; [|by apply not_elem_of_nil].
  rewrite Forall_forall in Hn. by apply Hn, list_elem_of_In.
Qed.

Lemma price_type_text t : 44 ∉ price_type_to_str t.
Proof. apply enum_text. by_decide. Qed.
Lemma status_text t : 44 ∉ symbol_status_to_str t.
Proof. apply enum_text. by_decide. Qed.

#[local] Hint Resolve cout_int_text price_type_text status_text : csv.

Lemma time_text ts : 0 <= ts < 2 ^ 63 -> 44 ∉ nsecs_to_utc6 ts.
Proof.
  intros Hts. unfold nsecs_to_utc6, PC_NSECS_IN_SEC. rewrite Z.quot_div_nonneg, Z.rem_mod_nonneg by lia.
  pose proof (Z.mod_pos_bound ts 1000000000 ltac:(done)) as Hn.
  assert (0 <= ts / 1000000000 < 9223372037) as Hs by (Z.to_euclidean_division_equations; lia).
  destruct (gmtime_r_ok (ts / 1000000000)) as ((Hm & Hd) & Hh & Hmi & Hse & _).
  pose proof (gmtime_year _ Hs) as Hy.
  assert (forall n v, 0 <= v -> 44 ∉ put_fixed n v []) as Hf.
  { intros n v Hv. apply no_comma_digits, put_fixed_text; [done | constructor]. }
  unfold uint_to_str4, uint_to_str2, uint_to_str6. rewrite !not_elem_of_app.
  split_and!; first [apply Hf | by_decide]; try lia. apply Z.quot_pos; lia.
Qed.

Lemma price_row_text m row : price_row m = Some row -> length row = 13%nat /\ Forall (fun x => 44 ∉ x) row.
Proof. unfold price_row. intros E. simplify_option_eq. split; [done|]. repeat constructor; auto with csv. Qed.

Lemma comp_rows_text m n i xs : comp_rows m n i = Some xs -> length xs = (4 * n)%nat /\ Forall (fun x => 44 ∉ x) xs.
Proof.
  revert i xs. induction n as [|n IH]; intros i xs E; simpl in E; simplify_eq; [done|].
  unfold comp_row in E. simplify_option_eq. destruct (IH _ _ ltac:(eassumption)) as [Hl Hf].
  split; [simpl; lia|]. simpl. repeat constructor; auto with csv.
Qed.

(** Every line of a price has the columns of the header, and ends with its only
    newline. *)
Theorem price_line_columns r prod c line num :
  price_line r prod c = Some line -> 0 <= get_time r ->
  get_num_publisher (get_update r) = Some num -> 0 <= num <= PC_NUM_COMP ->
  44 ∉ default [] (smap_ c !! prod) -> commas line = commas header.
Proof.
  unfold price_line. intros E Ht En Hn Hs. rewrite En in E.
  destruct (price_row (get_update r)) as [row|] eqn:Er; cbn [mbind option_bind] in E; [|done].
  destruct (comp_rows (get_update r) (Z.to_nat num) 0) as [comps|] eqn:Ec; cbn [mbind option_bind] in E; [|done].
  apply (inj Some) in E as <-.
  destruct (price_row_text _ _ Er) as [Hlr Hfr]. destruct (comp_rows_text _ _ _ _ Ec) as [Hlc Hfc].
  assert (get_time r < 2 ^ 63) as Ht' by (unfold get_time; apply (swrap_bound 64); done).
  rewrite !commas_app, commas_blanks by done.
  rewrite commas_columns by (constructor; [done | by apply Forall_app_2]).
  rewrite (commas_none (nsecs_to_utc6 _)) by (by apply time_text).
  simpl length. rewrite length_app, Hlr, Hlc. change (commas header) with 270%nat. change (commas [10]) with 0%nat.
  unfold PC_NUM_COMP in *. lia.
Qed.
End csv.

(** ** A capture printed *)

#[local] Existing Instance disk.

Definition le4 : Z -> bytes := le_bytes 4.
Definition le8 : Z -> bytes := le_bytes 8.
Definition product_key : bytes := replicate 32 3.

Definition test_product : bytes :=
  let attrs := [6] ++ bs "symbol" ++ [7] ++ bs "BTC/USD" in
  le4 Accounts.PC_MAGIC ++ le4 2 ++ le4 2 ++ le4 (48 + Z.of_nat (length attrs)) ++ replicate 32 0 ++ attrs.
Definition test_info (px : Z) : bytes := le8 px ++ le8 3 ++ le4 1 ++ le4 0 ++ le8 90.
Definition test_price : bytes :=
  le4 Accounts.PC_MAGIC ++ le4 2 ++ le4 3 ++ le4 (240 + 96) ++ le4 1 ++ le4 (- 8) ++ le4 1 ++ le4 1 ++ le8 80 ++ le8 91
  ++ le8 (- 5) ++ le8 0 ++ le8 0 ++ le8 6 ++ le8 0 ++ le8 0 ++ le8 0 ++ le8 0 ++ product_key ++ replicate 32 0
  ++ le8 89 ++ le8 41 ++ le8 2 ++ le8 0 ++ test_info 42 ++ replicate 32 4 ++ test_info 43 ++ test_info 44.

Definition captured_price : update := mk_update 1600000000123456789 (replicate 32 5) test_price.
Definition test_file : bytes := entry (mk_update 1600000000000000000 product_key test_product) ++ entry captured_price.

Definition test_columns : bytes :=
  bs "2020-09-13T12:26:40.123456Z,BTC/USD,price,-8,trading,42,3,-5,6,1,91,90,89,41,2,trading,43,3,90".

Example prints_captured :
  csv_main 3 test_file [] = Some (header ++ [10] ++ test_columns ++ concat (replicate 63 (bs ",,,,")) ++ [10]).
Proof. vm_compute. reflexivity. Qed.

(** Of another symbol nothing is printed. *)
Example prints_symbol : csv_main 3 test_file (bs "ETH/USD") = Some (header ++ [10]).
Proof. vm_compute. reflexivity. Qed.

(** With more publishers than the header has columns for, the counter goes
    around. *)
Example too_many_publishers : u32 (PC_NUM_COMP - 65) = 2 ^ 32 - 1.
Proof. reflexivity. Qed.

Definition test_replay : replay (rz := bytes) := mk_replay 0 (entry captured_price) 376 [].
Definition test_csv : csv_print := default (mk_csv_print ∅ 0 AttrDict.clear [] [] false false AttrDict.new_attr_id_set []) new_csv_print.

Lemma price_line_columns_witness :
  get_num_publisher (get_update test_replay) = Some 1 /\ exists line,
  price_line test_replay product_key test_csv = Some line /\ commas line = commas header.
Proof.
  assert (price_line test_replay product_key test_csv = Some (default [] (price_line test_replay product_key test_csv))) as E
    by (vm_compute; reflexivity).
  assert (get_num_publisher (get_update test_replay) = Some 1) as En by (vm_compute; reflexivity).
  split; [exact En|]. eexists. split; [exact E|].
  apply (price_line_columns _ _ _ _ 1 E); [vm_compute; discriminate | exact En | split; vm_compute; discriminate | by_decide].
Defined.
