(* ===== verification/User.v ===== *)
(** * Client connections ([user] of [pc/user.hpp], [pc/user.cpp])

    A user's connection takes JSON-RPC requests over its web socket: price
    updates go to the price objects of the primary manager and, when there is
    one, of the secondary ([Publish]); subscriptions to the lists of the requests
    ([Subs]); products and prices are read from the accounts ([Accounts],
    [Dump]).  Every answer is one web-socket message, queued in order.  A plain
    HTTP request gets one of the files of the content directory. *)

From S2P Require AttrDict Http WebSocket KeyPair RpcClient Accounts.
From S2P Require Import Prelude JsonWtr Publish Subs Dump.
Import JTree (jtree, find_val, get_type, get_str, get_int, get_uint, get_first, get_next).
Import RpcClient (ptr, str_to_symbol_status, symbol_status_to_str).
Import Accounts (accounts, product, price_acc, amap_, svec_, pptr_, get_sched).

#[local] Existing Instance JTree.type_t_eq_dec.

(** ** Files over HTTP *)

Definition whitelist : list bytes := [bs "/"; bs "/dashboard.js"; bs "/index.html"; bs "/style.css"].

(** [find_last_of( '.' )] and the text from there. *)
Fixpoint from_last_dot (s : bytes) : option bytes :=
  match s with
  | [] => None
  | c :: s' => match from_last_dot s' with Some e => Some e | None => if c =? 46 then Some s else None end
  end.
Definition get_content_type (filen : bytes) : bytes :=
  match from_last_dot filen with
  | Some ext =>
      if bool_decide (ext = bs ".html") then bs "text/html"
      else if bool_decide (ext = bs ".css") then bs "text/css"
      else if bool_decide (ext = bs ".js") then bs "application/javascript"
      else bs "text/html"
  | None => bs "text/html"
  end.

(** The name of the file for an allowed path. *)
Definition content_file (dir relpath : bytes) : bytes :=
  (if bool_decide (dir = []) then bs "." else dir) ++ relpath ++ (if bool_decide (relpath = bs "/") then bs "index.html" else []).

Definition not_found : bytes := Http.commit_empty (Http.response_init (bs "404") (bs "Not Found")).
(** [parse_content], with the file system [mem_map] maps from: the message. *)
Definition parse_content (read_file : bytes -> option bytes) (dir relpath : bytes) : bytes :=
  if bool_decide (relpath ∉ whitelist) then not_found else
  let cfile := content_file dir relpath in
  match read_file cfile with
  | Some data =>
      Http.commit_body (Http.response_init (bs "200") (bs "OK")
                        ++ Http.add_hdr (bs "Content-Type") (get_content_type cfile)) data
  | None => not_found
  end.

(** ** State *)

(** A request a user can subscribe to: of the secondary manager or not, the
    price's schedule or the price itself, by account. *)
Record req_id := mk_req { r_sec : bool; r_sched : bool; r_key : bytes }.
#[export] Instance req_id_eq_dec : EqDecision req_id.
Proof. solve_decision. Defined.
#[export] Instance req_id_countable : Countable req_id.
Proof.
  apply (inj_countable' (fun r => (r_sec r, r_sched r, r_key r)) (fun x => mk_req x.1.1 x.1.2 x.2)). by intros [].
Defined.

(** A manager as its users see it: its accounts, the price objects by account,
    and itself. *)
Record mgr_view := mk_view { accs : accounts; objs : gmap bytes ptr; gptr : ptr }.

Definition upd_view (f : accounts -> accounts) (v : mgr_view) : mgr_view := mk_view (f (accs v)) (objs v) (gptr v).

(** [deferred_sub]: the price account and the subscription. *)
Record user := mk_user { jp_ : jtree; jw_ : json_wtr; dvec_ : list (bytes * Z); usent : list bytes }.

(** Error codes. *)
Definition PC_JSON_PARSE_ERROR : Z := -32700.
Definition PC_JSON_INVALID_REQUEST : Z := -32600.
Definition PC_JSON_UNKNOWN_METHOD : Z := -32601.
Definition PC_JSON_INVALID_PARAMS : Z := -32602.
Definition PC_JSON_UNKNOWN_SYMBOL : Z := -32000.

(** ** Writing answers *)

Definition add_header (w : json_wtr) : json_wtr :=
  add_key_str (bs "jsonrpc") (bs "2.0") (add_val_type e_obj w).

(** The character before the text tells whether the id was a string. *)
Definition add_tail (jp : jtree) (id : Z) (w : json_wtr) : option json_wtr :=
  w ← (if id =? 0 then Some (add_key_null (bs "id") w) else
       t ← get_type jp id;
       if bool_decide (t = JTree.e_val) then
         n ← JTree.at_node (JTree.nv_ jp) id;
         idv ← get_str jp id;
         c ← (if JTree.a_ n =? 0 then None else JTree.buf_ jp !! Z.to_nat (JTree.a_ n - 1));
         Some (if c =? 34 then add_key_str (bs "id") idv w else add_key_verbatim (bs "id") idv w)
       else Some (add_key_null (bs "id") w));
  pop w.

Definition add_error (jp : jtree) (id err : Z) (emsg : bytes) (w : json_wtr) : option json_wtr :=
  w ← pop (add_key_str (bs "message") emsg (add_key_int (bs "code") err
             (add_key_type (bs "error") e_obj (add_header w))));
  add_tail jp id w.
Definition add_unknown_symbol (jp : jtree) (itok : Z) := add_error jp itok PC_JSON_UNKNOWN_SYMBOL (bs "unknown symbol").
Definition add_parse_error (jp : jtree) := add_error jp 0 PC_JSON_PARSE_ERROR (bs "parse error").
Definition add_invalid_params (jp : jtree) (itok : Z) := add_error jp itok PC_JSON_INVALID_PARAMS (bs "invalid params").
Definition add_invalid_request (jp : jtree) (itok : Z) := add_error jp itok PC_JSON_INVALID_REQUEST (bs "invalid request").

Section user.
Context {key_cache : Type} {app_t : Type}.
#[local] Abbreviation pub_world := (pub_world (key_cache := key_cache) (app_t := app_t)).
(** What an uninitialised [pub_key] holds. *)
Context (stack : bytes).

(** What the users of the managers share. *)
Record site := mk_site { prim : mgr_view; sec : option mgr_view; pubw : pub_world; subw : subs (sub := ptr) (req := req_id) }.

Definition set_jw (w : json_wtr) (u : user) : user := mk_user (jp_ u) w (dvec_ u) (usent u).
Definition set_pubw (p : pub_world) (s : site) : site := mk_site (prim s) (sec s) p (subw s).
Definition set_subw (x : subs (sub := ptr) (req := req_id)) (s : site) : site := mk_site (prim s) (sec s) (pubw s) x.
Definition defer (k : bytes) (sid : Z) (u : user) : user := mk_user (jp_ u) (jw_ u) (dvec_ u ++ [(k, sid)]) (usent u).

(** [write f u]: the writer's calls [f]. *)
Definition reply (f : json_wtr -> option json_wtr) (u : user) : option user := w ← f (jw_ u); Some (set_jw w u).

(** ** Requests *)

(** [params], when it is an object, and the key text of its [account]; [None]
    for invalid parameters. *)
Definition params_of (jp : jtree) (tok : Z) : option (option (Z * bytes)) :=
  ptok ← find_val jp tok (bs "params");
  if ptok =? 0 then Some None else
  t ← get_type jp ptok;
  if negb (bool_decide (t = JTree.e_obj)) then Some None else
  ntok ← find_val jp ptok (bs "account");
  if ntok =? 0 then Some None else
  txt ← get_str jp ntok;
  pkey ← KeyPair.init_from_text txt stack;
  Some (Some (ptok, pkey)).

(** [manager::get_price( key )] and [get_product( key )]. *)
Definition known_price (k : bytes) (v : mgr_view) : bool := bool_decide (is_Some (price_at (accs v) k)).

(** [update_no_send] and [add_dirty_price] on the manager's own price object. *)
Definition publish (px conf st : Z) (k : bytes) (v : mgr_view) (w : pub_world) : option pub_world :=
  if known_price k v then
    p ← objs v !! k;
    w ← update_no_send px conf st false p w;
    add_dirty_price p (gptr v) w
  else Some w.
Definition publish_sec (px conf st : Z) (k : bytes) (v : option mgr_view) (w : pub_world) : option pub_world :=
  match v with Some v => publish px conf st k v w | None => Some w end.
Definition known_sec (k : bytes) (v : option mgr_view) : bool := match v with Some v => known_price k v | None => false end.

Definition parse_upd_price (tok itok : Z) (us : user * site) : option (user * site) :=
  let '(u, s) := us in
  let jp := jp_ u in
  let invalid := u ← reply (add_invalid_params jp itok) u; Some (u, s) in
  par ← params_of jp tok;
  match par with
  | None => invalid
  | Some (ptok, pkey) =>
      if negb (known_price pkey (prim s)) && negb (known_sec pkey (sec s)) then
        u ← reply (add_unknown_symbol jp itok) u; Some (u, s)
      else
        ntok ← find_val jp ptok (bs "price");
        if ntok =? 0 then invalid else
        px ← get_int jp ntok;
        ntok ← find_val jp ptok (bs "conf");
        if ntok =? 0 then invalid else
        conf ← get_uint jp ntok;
        ntok ← find_val jp ptok (bs "status");
        if ntok =? 0 then invalid else
        txt ← get_str jp ntok;
        let stype := str_to_symbol_status txt in
        pw ← publish px conf stype pkey (prim s) (pubw s);
        pw ← publish_sec px conf stype pkey (sec s) pw;
        u ← reply (fun w => add_tail jp itok (add_key_uint (bs "result") 0 (add_header w))) u;
        Some (u, set_pubw pw s)
  end.

Definition add_subscription (jp : jtree) (itok sub_id : Z) (w : json_wtr) : option json_wtr :=
  w ← pop (add_key_uint (bs "subscription") sub_id (add_key_type (bs "result") e_obj (add_header w)));
  add_tail jp itok w.

Definition parse_sub_price (me : ptr) (tok itok : Z) (us : user * site) : option (user * site) :=
  let '(u, s) := us in
  let jp := jp_ u in
  par ← params_of jp tok;
  match par with
  | None => u ← reply (add_invalid_params jp itok) u; Some (u, s)
  | Some (_, pkey) =>
      if negb (known_price pkey (prim s)) then u ← reply (add_unknown_symbol jp itok) u; Some (u, s) else
      '(sub_id, sw) ← Subs.add me (mk_req false false pkey) (subw s);
      u ← reply (add_subscription jp itok sub_id) u;
      Some (defer pkey sub_id u, set_subw sw s)
  end.

(** [get_sched] of the price [k] of the primary manager, or of the secondary:
    the schedule is activated there. *)
Definition get_sched_of (in_prim : bool) (k : bytes) (s : site) : site :=
  if in_prim then mk_site (upd_view (get_sched k) (prim s)) (sec s) (pubw s) (subw s)
  else mk_site (prim s) (upd_view (get_sched k) <$> sec s) (pubw s) (subw s).

Definition parse_sub_price_sched (me : ptr) (tok itok : Z) (us : user * site) : option (user * site) :=
  let '(u, s) := us in
  let jp := jp_ u in
  par ← params_of jp tok;
  match par with
  | None => u ← reply (add_invalid_params jp itok) u; Some (u, s)
  | Some (_, pkey) =>
      let in_prim := known_price pkey (prim s) in
      if negb in_prim && negb (known_sec pkey (sec s)) then
        u ← reply (add_unknown_symbol jp itok) u; Some (u, s)
      else
        let s := get_sched_of in_prim pkey s in
        '(sub_id, sw) ← Subs.add me (mk_req (negb in_prim) true pkey) (subw s);
        u ← reply (add_subscription jp itok sub_id) u;
        Some (u, set_subw sw s)
  end.

(** The primary manager, or the secondary if the primary has no product. *)
Definition listing (s : site) : accounts :=
  match svec_ (accs (prim s)), sec s with
  | [], Some v => accs v
  | _, _ => accs (prim s)
  end.

Fixpoint each_product (f : bytes -> product -> json_wtr -> option json_wtr) (acc : accounts) (ks : list bytes) (w : json_wtr)
  : option json_wtr :=
  match ks with
  | [] => Some w
  | k :: ks' => p ← product_at acc k; w ← f k p w; each_product f acc ks' w
  end.

Definition product_list_answer (acc : accounts) (jp : jtree) (itok : Z) (w : json_wtr) : option json_wtr :=
  w ← each_product (list_product acc) acc (svec_ acc) (add_key_type (bs "result") e_arr (add_header w));
  w ← pop w;
  add_tail jp itok w.
Definition parse_get_product_list (itok : Z) (us : user * site) : option (user * site) :=
  let '(u, s) := us in
  u ← reply (product_list_answer (listing s) (jp_ u) itok) u; Some (u, s).

Definition all_products_answer (acc : accounts) (jp : jtree) (itok : Z) (w : json_wtr) : option json_wtr :=
  w ← each_product (fun k p w => w ← dump_product acc k p (add_val_type e_obj w); pop w) acc (svec_ acc)
        (add_key_type (bs "result") e_arr (add_header w));
  w ← pop w;
  add_tail jp itok w.
Definition parse_get_all_products (itok : Z) (us : user * site) : option (user * site) :=
  let '(u, s) := us in
  u ← reply (all_products_answer (listing s) (jp_ u) itok) u; Some (u, s).

Definition product_answer (acc : accounts) (k : bytes) (p : product) (jp : jtree) (itok : Z) (w : json_wtr) : option json_wtr :=
  w ← dump_product acc k p (add_key_type (bs "result") e_obj (add_header w));
  w ← pop w;
  add_tail jp itok w.
(** The manager that knows a product, the primary first. *)
Definition find_product (k : bytes) (s : site) : option (accounts * product) :=
  match product_at (accs (prim s)) k, sec s with
  | Some p, _ => Some (accs (prim s), p)
  | None, Some v => p ← product_at (accs v) k; Some (accs v, p)
  | None, None => None
  end.
Definition parse_get_product (tok itok : Z) (us : user * site) : option (user * site) :=
  let '(u, s) := us in
  let jp := jp_ u in
  par ← params_of jp tok;
  u ← match par with
      | None => reply (add_invalid_params jp itok) u
      | Some (_, pkey) =>
          match find_product pkey s with
          | None => reply (add_unknown_symbol jp itok) u
          | Some (acc, p) => reply (product_answer acc pkey p jp itok) u
          end
      end;
  Some (u, s).

Definition parse_request (me : ptr) (tok : Z) (us : user * site) : option (user * site) :=
  let '(u, s) := us in
  let jp := jp_ u in
  itok ← find_val jp tok (bs "id");
  mtok ← find_val jp tok (bs "method");
  it ← (if (itok =? 0) || (mtok =? 0) then Some None else
        t1 ← get_type jp itok; t2 ← get_type jp mtok; Some (Some (t1, t2)));
  if bool_decide (it = Some (JTree.e_val, JTree.e_val)) then
    mst ← get_str jp mtok;
    if str_eqb mst (bs "update_price") then parse_upd_price tok itok us
    else if str_eqb mst (bs "subscribe_price") then parse_sub_price me tok itok us
    else if str_eqb mst (bs "subscribe_price_sched") then parse_sub_price_sched me tok itok us
    else if str_eqb mst (bs "get_product_list") then parse_get_product_list itok us
    else if str_eqb mst (bs "get_product") then parse_get_product tok itok us
    else if str_eqb mst (bs "get_all_products") then parse_get_all_products itok us
    else u ← reply (add_error jp itok PC_JSON_UNKNOWN_METHOD (bs "method not found")) u; Some (u, s)
  else u ← reply (add_invalid_request jp itok) u; Some (u, s).

(** ** Messages *)

(** A message is the writer's text in a web-socket frame. *)
Definition send_text (u : user) : user :=
  mk_user (jp_ u) (jw_ u) (dvec_ u) (usent u ++ [WebSocket.commit WebSocket.text_id (out (jw_ u)) None]).

(** [on_response( price *, uint64_t )], for a price with account data [m]. *)
Definition notify_price (m : bytes) (idx : Z) (w : json_wtr) : option json_wtr :=
  let w := add_key_str (bs "method") (bs "notify_price") (add_header w) in
  let w := add_key_type (bs "result") e_obj (add_key_type (bs "params") e_obj w) in
  px ← get_price m;
  let w := add_key_int (bs "price") px w in
  cf ← get_conf m;
  let w := add_key_uint (bs "conf") cf w in
  tp ← get_twap m;
  let w := add_key_int (bs "twap") tp w in
  tc ← get_twac m;
  let w := add_key_uint (bs "twac") tc w in
  st ← get_status m;
  let w := add_key_str (bs "status") (symbol_status_to_str st) w in
  nq ← get_num_qt m;
  let w := add_key_uint (bs "num_qt") nq w in
  vs ← get_valid_slot m;
  let w := add_key_uint (bs "valid_slot") vs w in
  ps ← get_pub_slot m;
  let w := add_key_uint (bs "pub_slot") ps w in
  w ← pop w;
  w ← pop (add_key_uint (bs "subscription") idx w);
  pop w.
Definition on_price (k : bytes) (idx : Z) (s : site) (u : user) : option user :=
  x ← price_at (accs (prim s)) k;
  w ← notify_price (pptr_ x) idx (reset (jw_ u));
  Some (send_text (set_jw w u)).

(** [on_response( price_sched *, uint64_t )]. *)
Definition notify_price_sched (idx : Z) (w : json_wtr) : option json_wtr :=
  let w := add_key_str (bs "method") (bs "notify_price_sched") (add_header w) in
  w ← pop (add_key_uint (bs "subscription") idx (add_key_type (bs "params") e_obj w));
  pop w.
Definition on_sched (idx : Z) (u : user) : option user :=
  w ← notify_price_sched idx (reset (jw_ u)); Some (send_text (set_jw w u)).

(** The elements of a batch. *)
Fixpoint parse_batch (fuel : nat) (me : ptr) (tok : Z) (us : user * site) : option (user * site) :=
  if tok =? 0 then Some us else
  match fuel with
  | O => None
  | S fuel' =>
      let jp := jp_ us.1 in
      t ← get_type jp tok;
      us ← (if bool_decide (t = JTree.e_obj) then parse_request me tok us
            else u ← reply (add_invalid_request jp 0) us.1; Some (u, us.2));
      tok ← get_next jp tok;
      parse_batch fuel' me tok us
  end.

Definition answer (me : ptr) (us : user * site) : option (user * site) :=
  let '(u, s) := us in
  let jp := jp_ u in
  let invalid := u ← reply (add_invalid_request jp 0) u; Some (u, s) in
  if JTree.is_valid jp then
    t ← get_type jp 1;
    match t with
    | JTree.e_obj => parse_request me 1 us
    | JTree.e_arr =>
        tok ← get_first jp 1;
        if tok =? 0 then invalid else
        us ← parse_batch (length (JTree.nv_ jp)) me tok (set_jw (add_val_type e_arr (jw_ u)) u, s);
        u ← reply pop us.1;
        Some (u, us.2)
    | _ => invalid
    end
  else u ← reply (add_parse_error jp) u; Some (u, s).

(** The deferred subscriptions: the price as it is now goes to each. *)
Fixpoint run_deferred (l : list (bytes * Z)) (s : site) (u : user) : option user :=
  match l with
  | [] => Some u
  | (k, sid) :: l' => u ← on_price k sid s u; run_deferred l' s u
  end.

Definition parse_msg (me : ptr) (txt : bytes) (us : user * site) : option (user * site) :=
  let '(u, s) := us in
  jp ← JTree.parse (jp_ u) txt;
  us ← answer me (mk_user jp (reset (jw_ u)) (dvec_ u) (usent u), s);
  let '(u, s) := us in
  u ← run_deferred (dvec_ u) s (send_text u);
  Some (mk_user (jp_ u) (jw_ u) [] (usent u), s).

(** ** Callbacks *)

(** A request of the managers responds: each subscription gets a message. *)
Definition callback (r : req_id) (s : site) (idx : Z) (u : user) : option user :=
  if r_sched r then on_sched idx u else on_price (r_key r) idx s u.
Fixpoint respond (l : list (ptr * Z)) (r : req_id) (s : site) (us : gmap ptr user) : option (gmap ptr user) :=
  match l with
  | [] => Some us
  | (p, idx) :: l' =>
      u ← us !! p;
      u ← callback r s idx u;
      respond l' r s (<[p := u]> us)
  end.
Definition on_response (r : req_id) (s : site) (us : gmap ptr user) : option (gmap ptr user) :=
  respond (on_response_sub (fun _ => true) r (subw s)) r s us.

(** [teardown]: the connection is closed, the user leaves the manager's list and
    its subscriptions end. *)
Definition teardown (me : ptr) (us : gmap ptr user) (s : site) : option (gmap ptr user * site) :=
  sw ← Subs.teardown me (subw s);
  Some (delete me us, set_subw sw s).
End user.

(** ** The files that are served *)

Definition content_files (dir : bytes) : list bytes :=
  let d := if bool_decide (dir = []) then bs "." else dir in
  [d ++ bs "/index.html"; d ++ bs "/dashboard.js"; d ++ bs "/style.css"].

(** (C36) Whatever path a client asks for, the answer depends on three files of the
    content directory only: no other file's content is ever sent. *)
Theorem only_content_files r1 r2 dir path :
  (forall f, f ∈ content_files dir -> r1 f = r2 f) -> parse_content r1 dir path = parse_content r2 dir path.
Proof.
  intros Hf. unfold parse_content. case_bool_decide as Hw; [done|].
  assert (content_file dir path ∈ content_files dir) as Hin.
  { rename Hw into Hp.
    unfold content_file, content_files. set (d := if bool_decide (dir = []) then bs "." else dir).
    unfold whitelist in Hp. repeat (apply elem_of_cons in Hp as [->|Hp]); [| | | |by apply elem_of_nil in Hp].
    - rewrite bool_decide_true by done. left.
    - rewrite bool_decide_false by done. rewrite app_nil_r. right; left.
    - rewrite bool_decide_false by done. rewrite app_nil_r. left.
    - rewrite bool_decide_false by done. rewrite app_nil_r. right; right; left. }
  by rewrite (Hf _ Hin).
Qed.

Lemma only_content_files_witness :
  parse_content (fun _ => None) (bs "/srv") (bs "/../etc/passwd")
  = parse_content (fun f => if bool_decide (f ∈ content_files (bs "/srv")) then None else Some (bs "secret")) (bs "/srv") (bs "/../etc/passwd").
Proof. apply only_content_files. intros f Hf. by rewrite bool_decide_true. Defined.
