(* ===== verification/UserSpec.v ===== *)
(** * What a client's requests do ([user::parse_msg])

    [spec_message] says, for the JSON value of a message, what the answer is as a
    JSON value, how the managers change and which subscriptions are notified at
    once.  [parse_msg] on the text of the value does this: the parse tree, the
    writer and the frames do not show. *)

From S2P Require KeyPair Text WebSocket RpcClient Accounts.
From S2P Require Import Prelude JsonWtr JsonParse Publish Subs Dump User.
Import JTree (jtree, find_val, get_type, get_str, get_int, get_uint, get_first, get_next, buf_, nv_, at_node).
Import RpcClient (ptr, str_to_symbol_status, symbol_status_to_str).
Import Accounts (accounts, product, price_acc, amap_, svec_, plist_, pptr_, pvec_, mk_node, a_price, mk_price_acc, set_plist, set_amap, get_sched).
#[local] Existing Instances JTree.type_t_eq_dec Accounts.request_eq_dec.

(** ** Answers *)

Definition response (body : list (bytes * json)) (id : json) : json :=
  j_obj ((bs "jsonrpc", j_str (bs "2.0")) :: body ++ [(bs "id", id)]).
Definition error_body (err : Z) (msg : bytes) : list (bytes * json) :=
  [(bs "error", j_obj [(bs "code", j_int err); (bs "message", j_str msg)])].
Definition result_body (v : json) : list (bytes * json) := [(bs "result", v)].
Definition invalid_params : list (bytes * json) := error_body PC_JSON_INVALID_PARAMS (bs "invalid params").
Definition invalid_request : list (bytes * json) := error_body PC_JSON_INVALID_REQUEST (bs "invalid request").
Definition unknown_symbol : list (bytes * json) := error_body PC_JSON_UNKNOWN_SYMBOL (bs "unknown symbol").
Definition unknown_method : list (bytes * json) := error_body PC_JSON_UNKNOWN_METHOD (bs "method not found").

(** The id is echoed unless it is missing or a container. *)
Definition echo (o : option json) : json :=
  match o with Some v => match scalar v with Some _ => v | None => j_null end | None => j_null end.

Section spec.
Context {key_cache app_t : Type} (stack : bytes).
#[local] Abbreviation site := (site (key_cache := key_cache) (app_t := app_t)).
#[local] Abbreviation outcome := (list (bytes * json) * site * list (bytes * Z))%type.

(** ** Requests

    A text is asked of [account], [price], [conf] and [status]: what a container
    in their place gives is left open. *)

Definition spec_params (req : list (bytes * json)) : option (option (list (bytes * json) * bytes)) :=
  match lookup_member (bs "params") req with
  | Some (j_obj ps) =>
      match lookup_member (bs "account") ps with
      | Some v => t ← scalar v; k ← KeyPair.init_from_text t stack; Some (Some (ps, k))
      | None => Some None
      end
  | _ => Some None
  end.

Definition spec_upd_price (req : list (bytes * json)) (s : site) : option outcome :=
  par ← spec_params req;
  match par with
  | None => Some (invalid_params, s, [])
  | Some (ps, k) =>
      if negb (known_price k (prim s)) && negb (known_sec k (sec s)) then Some (unknown_symbol, s, []) else
      match lookup_member (bs "price") ps, lookup_member (bs "conf") ps, lookup_member (bs "status") ps with
      | Some pv, Some cv, Some sv =>
          px ← scalar pv; cf ← scalar cv; st ← scalar sv;
          let st := str_to_symbol_status st in
          w ← publish (Text.str_to_int px) (Text.str_to_uint cf) st k (prim s) (pubw s);
          w ← publish_sec (Text.str_to_int px) (Text.str_to_uint cf) st k (sec s) w;
          Some (result_body (j_uint 0), set_pubw w s, [])
      | Some pv, Some cv, None => _ ← scalar pv; _ ← scalar cv; Some (invalid_params, s, [])
      | Some pv, None, _ => _ ← scalar pv; Some (invalid_params, s, [])
      | None, _, _ => Some (invalid_params, s, [])
      end
  end.

Definition subscription (id : Z) : list (bytes * json) := result_body (j_obj [(bs "subscription", j_uint id)]).

Definition spec_sub_price (me : ptr) (req : list (bytes * json)) (s : site) : option outcome :=
  par ← spec_params req;
  match par with
  | None => Some (invalid_params, s, [])
  | Some (_, k) =>
      if negb (known_price k (prim s)) then Some (unknown_symbol, s, []) else
      '(id, sw) ← Subs.add me (mk_req false false k) (subw s);
      Some (subscription id, set_subw sw s, [(k, id)])
  end.

(** The accounts after the schedule of the price [k] was asked for.  The first
    time the price is marked, and its schedule is put at the end of the
    manager's list of requests, unless it waits there already. *)
Definition with_sched (k : bytes) (acc : accounts) : accounts :=
  match amap_ acc !! k with
  | Some (mk_node (a_price (mk_price_acc st prod idx lam slot data stats false waits)) b r e) =>
      set_plist (if waits then plist_ acc else plist_ acc ++ [Accounts.r_sched k])
        (set_amap (<[k := mk_node (a_price (mk_price_acc st prod idx lam slot data stats true true)) b r e]> (amap_ acc)) acc)
  | _ => acc
  end.
Definition sched_site (k : bytes) (s : site) : site :=
  if known_price k (prim s) then mk_site (upd_view (with_sched k) (prim s)) (sec s) (pubw s) (subw s)
  else mk_site (prim s) (upd_view (with_sched k) <$> sec s) (pubw s) (subw s).

Definition spec_sub_price_sched (me : ptr) (req : list (bytes * json)) (s : site) : option outcome :=
  par ← spec_params req;
  match par with
  | None => Some (invalid_params, s, [])
  | Some (_, k) =>
      if negb (known_price k (prim s)) && negb (known_sec k (sec s)) then Some (unknown_symbol, s, []) else
      '(id, sw) ← Subs.add me (mk_req (negb (known_price k (prim s))) true k) (subw s);
      Some (subscription id, set_subw sw (sched_site k s), [])
  end.

Definition product_json (f : bytes -> product -> option json) (acc : accounts) (k : bytes) : option json :=
  p ← product_at acc k; f k p.
Definition spec_product_list (s : site) : option outcome :=
  let acc := listing s in
  vs ← mapM (product_json (listed_product_json acc) acc) (svec_ acc);
  Some (result_body (j_arr vs), s, []).
Definition spec_all_products (s : site) : option outcome :=
  let acc := listing s in
  vs ← mapM (product_json (fun k p => ms ← product_members acc k p; Some (j_obj ms)) acc) (svec_ acc);
  Some (result_body (j_arr vs), s, []).
Definition spec_product (req : list (bytes * json)) (s : site) : option outcome :=
  par ← spec_params req;
  match par with
  | None => Some (invalid_params, s, [])
  | Some (_, k) =>
      match find_product k s with
      | None => Some (unknown_symbol, s, [])
      | Some (acc, p) => ms ← product_members acc k p; Some (result_body (j_obj ms), s, [])
      end
  end.

Definition spec_method (me : ptr) (m : bytes) (req : list (bytes * json)) (s : site) : option outcome :=
  if str_eqb m (bs "update_price") then spec_upd_price req s
  else if str_eqb m (bs "subscribe_price") then spec_sub_price me req s
  else if str_eqb m (bs "subscribe_price_sched") then spec_sub_price_sched me req s
  else if str_eqb m (bs "get_product_list") then spec_product_list s
  else if str_eqb m (bs "get_product") then spec_product req s
  else if str_eqb m (bs "get_all_products") then spec_all_products s
  else Some (unknown_method, s, []).

Definition spec_request (me : ptr) (req : list (bytes * json)) (s : site) : option outcome :=
  match lookup_member (bs "id") req, lookup_member (bs "method") req with
  | Some iv, Some mv =>
      match scalar iv, scalar mv with
      | Some _, Some m => spec_method me m req s
      | _, _ => Some (invalid_request, s, [])
      end
  | _, _ => Some (invalid_request, s, [])
  end.

(** The answer to a request, with its id. *)
Definition spec_answer (me : ptr) (req : list (bytes * json)) (s : site) : option (json * site * list (bytes * Z)) :=
  '(body, s, ds) ← spec_request me req s;
  Some (response body (echo (lookup_member (bs "id") req)), s, ds).

(** ** Messages *)

Fixpoint spec_batch (me : ptr) (vs : list json) (s : site) : option (list json * site * list (bytes * Z)) :=
  match vs with
  | [] => Some ([], s, [])
  | v :: vs' =>
      '(r, s, ds) ← (match v with j_obj req => spec_answer me req s | _ => Some (response invalid_request j_null, s, []) end);
      '(rs, s, ds') ← spec_batch me vs' s;
      Some (r :: rs, s, ds ++ ds')
  end.

(** An object or array. *)
Definition spec_message (me : ptr) (v : json) (s : site) : option (json * site * list (bytes * Z)) :=
  match v with
  | j_obj req => spec_answer me req s
  | j_arr [] => Some (response invalid_request j_null, s, [])
  | j_arr vs => '(rs, s, ds) ← spec_batch me vs s; Some (j_arr rs, s, ds)
  | _ => None
  end.

(** The notification of a price with account data [m]. *)
Definition price_note (m : bytes) (idx : Z) : option json :=
  px ← get_price m; cf ← get_conf m; tp ← get_twap m; tc ← get_twac m; st ← get_status m; nq ← get_num_qt m;
  vs ← get_valid_slot m; ps ← get_pub_slot m;
  Some (j_obj [(bs "jsonrpc", j_str (bs "2.0")); (bs "method", j_str (bs "notify_price"));
               (bs "params", j_obj [
                  (bs "result", j_obj [(bs "price", j_int px); (bs "conf", j_uint cf); (bs "twap", j_int tp);
                     (bs "twac", j_uint tc); (bs "status", j_str (symbol_status_to_str st)); (bs "num_qt", j_uint nq);
                     (bs "valid_slot", j_uint vs); (bs "pub_slot", j_uint ps)]);
                  (bs "subscription", j_uint idx)])]).
Definition deferred_note (s : site) (d : bytes * Z) : option json := x ← price_at (accs (prim s)) d.1; price_note (pptr_ x) d.2.

Definition frame (v : json) : bytes := WebSocket.commit WebSocket.text_id (text v) None.

(** ** Writing an answer *)

Lemma response_write body id w :
  write (response body id) (add_first w)
  = (w ← write_members body (add_header w); w ← write_members [(bs "id", id)] w; pop w).
Proof.
  unfold response. rewrite write_obj. change ((bs "jsonrpc", j_str (bs "2.0")) :: body ++ [(bs "id", id)])
    with (((bs "jsonrpc", j_str (bs "2.0")) :: body) ++ [(bs "id", id)]).
  rewrite write_members_app, wm_str. change (add_obj (add_first w)) with (add_val_type e_obj w).
  change (add_key_str (bs "jsonrpc") (bs "2.0") (add_val_type e_obj w)) with (add_header w).
  by destruct (write_members body (add_header w)).
Qed.

(** Node [itok], if any, is the id a request gives. *)
Lemma add_tail_write jp o itok w :
  found jp o itok -> add_tail jp itok w = (w ← write_members [(bs "id", echo o)] w; pop w).
Proof.
  intros Hf. unfold add_tail. destruct o as [v|]; cbn [found echo] in *; [|by subst itok]. destruct Hf as [Hne Hr].
  destruct (Z.eqb_spec itok 0); [done|]. rewrite (get_type_node _ _ _ Hr). cbn [mbind option_bind].
  destruct (scalar v) as [t|] eqn:Et.
  - rewrite bool_decide_true by (by apply scalar_type; eexists). destruct Hr as (lo & hi & _ & _ & Hr).
    rewrite (get_str_repr _ _ _ _ _ _ Hr Et). destruct (repr_scalar _ _ _ _ _ _ _ Et Hr) as (nd & Hn & _ & _ & Hpos & c & Hc & Hq).
    rewrite Hn. cbn [mbind option_bind]. destruct (Z.eqb_spec (JTree.a_ nd) 0); [lia|]. rewrite Hc. cbn [mbind option_bind]. rewrite Hq.
    destruct v; cbn [scalar] in Et; try done; injection Et as <-; done.
  - rewrite bool_decide_false; [done|]. intros Hv. apply scalar_type in Hv as [t Hv]. congruence.
Qed.

(** Writing the answer with [body], as any of the answering methods does. *)
Definition answers (jp : jtree) (itok : Z) (o : option json) (f : json_wtr -> option json_wtr) (body : list (bytes * json)) : Prop :=
  forall w, f w = write (response body (echo o)) (add_first w).

Lemma answers_by jp itok o f body g :
  found jp o itok -> (forall w, f w = (w ← g w; add_tail jp itok w)) -> (forall w, g w = write_members body (add_header w)) ->
  answers jp itok o f body.
Proof.
  intros Hf Hfg Hg w. rewrite Hfg, Hg, response_write. destruct (write_members body (add_header w)) as [w1|]; [|done].
  cbn [mbind option_bind]. by apply add_tail_write.
Qed.

Lemma error_answers jp itok o err msg : found jp o itok -> answers jp itok o (add_error jp itok err msg) (error_body err msg).
Proof.
  intros Hf. eapply answers_by; [exact Hf | done |]. intros w. cbn beta. unfold error_body. rewrite wm_obj. members. cbn [mbind option_bind].
  symmetry. apply bind_some_r.
Qed.

Lemma result_answers jp itok o : found jp o itok ->
  answers jp itok o (fun w => add_tail jp itok (add_key_uint (bs "result") 0 (add_header w))) (result_body (j_uint 0)).
Proof. intros Hf. by eapply (answers_by _ _ _ _ _ (fun w => Some (add_key_uint (bs "result") 0 (add_header w)))). Qed.

Lemma subscription_answers jp itok o id : found jp o itok -> answers jp itok o (add_subscription jp itok id) (subscription id).
Proof.
  intros Hf. eapply answers_by; [exact Hf | done |]. intros w. cbn beta. unfold subscription, result_body. rewrite wm_obj. members.
  cbn [mbind option_bind]. symmetry. apply bind_some_r.
Qed.

(** Account keys have 32 bytes. *)
Record keys_ok (acc : accounts) : Prop := {
  ko_node k n : amap_ acc !! k = Some n -> key32 k;
  ko_svec : Forall key32 (svec_ acc);
  ko_pvec k p : product_at acc k = Some p -> Forall key32 (pvec_ p) }.
Definition site_ok (s : site) : Prop := keys_ok (accs (prim s)) /\ forall v, sec s = Some v -> keys_ok (accs v).

Lemma product_key acc k p : keys_ok acc -> product_at acc k = Some p -> key32 k.
Proof.
  intros Hok Hp. unfold product_at in Hp. destruct (amap_ acc !! k) as [n|] eqn:E; [|done]. by apply (ko_node acc Hok k n).
Qed.

Lemma listing_ok s : site_ok s -> keys_ok (listing s).
Proof. intros [H1 H2]. unfold listing. destruct (svec_ (accs (prim s))); [|done]. destruct (sec s); [by apply H2 | done]. Qed.

Lemma find_product_ok s k acc p : site_ok s -> find_product k s = Some (acc, p) -> keys_ok acc /\ product_at acc k = Some p.
Proof.
  intros [H1 H2] Hf. unfold find_product in Hf. destruct (product_at (accs (prim s)) k) as [q|] eqn:Eq.
  { by injection Hf as <- <-. }
  destruct (sec s) as [v|]; [|done]. destruct (product_at (accs v) k) as [q|] eqn:Eq'; [|done].
  injection Hf as <- <-. split; [by apply H2 | done].
Qed.

Definition one_product (f : bytes -> product -> json_wtr -> option json_wtr) (acc : accounts) (k : bytes) (w : json_wtr) : option json_wtr :=
  p ← product_at acc k; f k p w.

Lemma each_product_json f g acc ks w vs :
  (forall k p v w, product_at acc k = Some p -> g k p = Some v -> f k p w = write v (add_first w)) ->
  mapM (product_json g acc) ks = Some vs -> each_product f acc ks w = write_values vs w.
Proof.
  intros Hfg Hvs. apply (write_each (product_json g acc) (one_product f acc)); try done.
  - intros k l w'. unfold one_product. cbn [each_product]. by destruct (product_at acc k).
  - apply Forall_true. intros k v w' Hv. unfold product_json in Hv. unfold one_product.
    destruct (product_at acc k) as [p|] eqn:Ep; [|done]. cbn [mbind option_bind] in *. by eapply Hfg.
Qed.

Lemma product_list_answers acc jp itok o vs : keys_ok acc -> found jp o itok ->
  mapM (product_json (listed_product_json acc) acc) (svec_ acc) = Some vs ->
  answers jp itok o (product_list_answer acc jp itok) (result_body (j_arr vs)).
Proof.
  intros Hok Hf Hvs. eapply (answers_by _ _ _ _ _ (fun w =>
    w ← each_product (list_product acc) acc (svec_ acc) (add_key_type (bs "result") e_arr (add_header w)); pop w)); [exact Hf | |].
  - intros w. unfold product_list_answer. by destruct (each_product _ _ _ _).
  - intros w. unfold result_body. rewrite wm_arr, (each_product_json _ (listed_product_json acc) _ _ _ vs) by
      first [done | intros k p v w' Hp Hv; apply list_product_json; [by eapply product_key | by eapply ko_pvec | done]].
    destruct (write_values vs _) as [w1|]; [|done]. cbn [mbind option_bind]. by destruct (pop w1).
Qed.

Lemma all_products_answers acc jp itok o vs : keys_ok acc -> found jp o itok ->
  mapM (product_json (fun k p => ms ← product_members acc k p; Some (j_obj ms)) acc) (svec_ acc) = Some vs ->
  answers jp itok o (all_products_answer acc jp itok) (result_body (j_arr vs)).
Proof.
  intros Hok Hf Hvs. set (g := fun k p => ms ← product_members acc k p; Some (j_obj ms)) in *.
  set (f := fun k p w => w ← dump_product acc k p (add_val_type e_obj w); pop w).
  eapply (answers_by _ _ _ _ _ (fun w =>
    w ← each_product f acc (svec_ acc) (add_key_type (bs "result") e_arr (add_header w)); pop w)); [exact Hf | |].
  - intros w. unfold all_products_answer. fold f. by destruct (each_product _ _ _ _).
  - intros w. unfold result_body. rewrite wm_arr, (each_product_json f g _ _ _ vs); [|clear Hvs|exact Hvs].
    + destruct (write_values vs _) as [w1|]; [|done]. cbn [mbind option_bind]. by destruct (pop w1).
    + intros k p v w' Hp Hv. unfold g in Hv. destruct (product_members acc k p) as [ms|] eqn:Ems; [|done]. injection Hv as <-.
      unfold f. rewrite write_obj. change (add_val_type e_obj w') with (add_obj (add_first w')).
      by rewrite (dump_product_json acc k p _ ms) by (done || (by eapply product_key) || (by eapply ko_pvec)).
Qed.

Lemma product_answers acc k p jp itok o ms : keys_ok acc -> product_at acc k = Some p -> found jp o itok ->
  product_members acc k p = Some ms -> answers jp itok o (product_answer acc k p jp itok) (result_body (j_obj ms)).
Proof.
  intros Hok Hp Hf Hms. eapply (answers_by _ _ _ _ _ (fun w =>
    w ← dump_product acc k p (add_key_type (bs "result") e_obj (add_header w)); pop w)); [exact Hf | |].
  - intros w. unfold product_answer. by destruct (dump_product _ _ _ _).
  - intros w. unfold result_body. rewrite wm_obj.
    rewrite (dump_product_json acc k p _ ms) by (done || (by eapply product_key) || (by eapply ko_pvec)).
    destruct (write_members ms _) as [w1|]; [|done]. cbn [mbind option_bind]. by destruct (pop w1).
Qed.

(** ** The schedule of a price *)

Lemma alter_insert_of {A} (f : A -> A) (m : gmap bytes A) k x : m !! k = Some x -> alter f k m = <[k := f x]> m.
Proof.
  intros Hx. apply map_eq. intros k'. destruct (decide (k = k')) as [<-|Hk].
  - by rewrite lookup_alter_eq, Hx, lookup_insert_eq.
  - by rewrite lookup_alter_ne, lookup_insert_ne.
Qed.

Lemma get_sched_spec k acc : get_sched k acc = with_sched k acc.
Proof.
  unfold get_sched, with_sched. destruct acc as [am mv sv pl ast ns asl me ids zb sc se ev]. cbn [amap_]. destruct (am !! k) as [n|] eqn:E; [|done].
  destruct n as [[m|p|[st prod idx lam slot data stats [] waits]] b r e]; try done.
  cbn [fmap option_fmap option_map Accounts.acct_ Accounts.isched_]. unfold Accounts.upd_node. cbn [amap_].
  rewrite (alter_insert_of _ _ _ _ E). cbn. rewrite lookup_insert_eq. destruct waits; [done|].
  unfold set_plist, set_amap. cbn. by rewrite insert_insert_eq.
Qed.

Lemma get_sched_site k s : get_sched_of (known_price k (prim s)) k s = sched_site k s.
Proof.
  unfold get_sched_of, sched_site, upd_view. destruct (known_price k (prim s)).
  - by rewrite get_sched_spec.
  - destruct (sec s) as [v|]; [|done]. cbn. by rewrite get_sched_spec.
Qed.

Lemma with_sched_ok k acc : keys_ok acc -> keys_ok (with_sched k acc).
Proof.
  intros [H1 H2 H3]. unfold with_sched. destruct (amap_ acc !! k) as [n|] eqn:E; [|done].
  destruct n as [[m|p|[st prod idx lam slot data stats [] waits]] b r e]; try done. split; [|done|]; cbn [amap_ set_plist set_amap].
  - intros k' n' [[<- _]|[_ Hn]]%lookup_insert_Some; [by eapply H1 | by eapply H1].
  - intros k' p. unfold product_at. cbn [amap_ set_plist set_amap]. rewrite lookup_insert. case_decide; [done|]. apply H3.
Qed.

Lemma sched_site_ok k s : site_ok s -> site_ok (sched_site k s).
Proof.
  intros [H1 H2]. unfold sched_site. destruct (known_price k (prim s)); split; cbn [prim sec accs upd_view]; auto using with_sched_ok.
  intros v' Hv. destruct (sec s) as [v|]; [|done]. injection Hv as <-. apply with_sched_ok. auto.
Qed.
#[local] Hint Resolve sched_site_ok : core.

(** ** One request *)

(** What [parse_request] and its handlers do with a request node [tok]. *)
Definition handled (u : user) (s : site) (o : option json) (r : option (user * site)) (out : outcome) : Prop :=
  let '(body, s', ds) := out in
  exists w', write (response body (echo o)) (add_first (jw_ u)) = Some w'
    /\ r = Some (mk_user (jp_ u) w' (dvec_ u ++ ds) (usent u), s').

Lemma write_total v w : exists w', write v w = Some w'.
Proof. destruct (write_out v w) as (fi & E & _). by eexists. Qed.

Lemma handled_reply u s itok o f body s' :
  answers (jp_ u) itok o f body -> handled u s o (u' ← reply f u; Some (u', s')) (body, s', []).
Proof.
  intros Ha. destruct (write_total (response body (echo o)) (add_first (jw_ u))) as [w' Hw]. exists w'. split; [done|].
  unfold reply. rewrite (Ha (jw_ u)), Hw. cbn [mbind option_bind]. rewrite app_nil_r. done.
Qed.

Lemma handled_error u s itok o err msg :
  found (jp_ u) o itok ->
  handled u s o (u' ← reply (add_error (jp_ u) itok err msg) u; Some (u', s)) (error_body err msg, s, []).
Proof. intros Hf. eapply handled_reply, error_answers, Hf. Qed.

Lemma handled_invalid_params u s itok o : found (jp_ u) o itok ->
  handled u s o (u' ← reply (add_invalid_params (jp_ u) itok) u; Some (u', s)) (invalid_params, s, []).
Proof. apply handled_error. Qed.
Lemma handled_invalid_request u s itok o : found (jp_ u) o itok ->
  handled u s o (u' ← reply (add_invalid_request (jp_ u) itok) u; Some (u', s)) (invalid_request, s, []).
Proof. apply handled_error. Qed.
Lemma handled_unknown_symbol u s itok o : found (jp_ u) o itok ->
  handled u s o (u' ← reply (add_unknown_symbol (jp_ u) itok) u; Some (u', s)) (unknown_symbol, s, []).
Proof. apply handled_error. Qed.
Lemma handled_unknown_method u s itok o : found (jp_ u) o itok ->
  handled u s o (u' ← reply (add_error (jp_ u) itok PC_JSON_UNKNOWN_METHOD (bs "method not found")) u; Some (u', s)) (unknown_method, s, []).
Proof. apply handled_error. Qed.

(** The parameters, as [parse_...] reads them. *)
Lemma params_spec jp req tok par :
  node_repr jp (j_obj req) tok -> spec_params req = Some par ->
  exists r, params_of stack jp tok = Some r
    /\ match par with
       | None => r = None
       | Some (ps, k) => exists ptok, r = Some (ptok, k) /\ node_repr jp (j_obj ps) ptok
       end.
Proof.
  intros Hr Hp. unfold params_of, spec_params in *. destruct (find_found jp req tok (bs "params") Hr) as (ptok & -> & Hf).
  cbn [mbind option_bind]. destruct (lookup_member (bs "params") req) as [v|]; cbn [found] in Hf.
  2: { subst ptok. injection Hp as <-. by exists None. }
  destruct Hf as [Hne Hv]. destruct (Z.eqb_spec ptok 0); [done|]. rewrite (get_type_node _ _ _ Hv). cbn [mbind option_bind].
  destruct v as [s0|n0|n0| | | |vs|ps]; cbn [json_type] in *;
    try (injection Hp as <-; rewrite bool_decide_false by done; cbn [negb]; by exists None).
  rewrite bool_decide_true by done. cbn [negb].
  destruct (find_found jp ps ptok (bs "account") Hv) as (ntok & -> & Hf). cbn [mbind option_bind].
  destruct (lookup_member (bs "account") ps) as [av|]; cbn [found] in Hf.
  2: { subst ntok. injection Hp as <-. by exists None. }
  destruct Hf as [Hne' Ha]. destruct (Z.eqb_spec ntok 0); [done|].
  destruct (scalar av) as [t|] eqn:Et; [|done]. cbn [mbind option_bind] in Hp. rewrite (get_str_node _ _ _ _ Ha Et). cbn [mbind option_bind].
  destruct (KeyPair.init_from_text t stack) as [k|]; [|done]. cbn [mbind option_bind] in *. injection Hp as <-.
  eexists. split; [done|]. by exists ptok.
Qed.

(** A member that must be there, read as text. *)
Lemma member_text jp ps ptok key v t :
  node_repr jp (j_obj ps) ptok -> lookup_member key ps = Some v -> scalar v = Some t ->
  exists n, find_val jp ptok key = Some n /\ n <> 0 /\ get_str jp n = Some t.
Proof.
  intros Hr Hl Ht. destruct (find_found jp ps ptok key Hr) as (n & E & Hf). rewrite Hl in Hf. destruct Hf as [Hne Hv].
  exists n. split_and!; [done | done |]. by eapply get_str_node.
Qed.
Lemma member_none jp ps ptok key :
  node_repr jp (j_obj ps) ptok -> lookup_member key ps = None -> find_val jp ptok key = Some 0.
Proof. intros Hr Hl. destruct (find_found jp ps ptok key Hr) as (n & E & Hf). rewrite Hl in Hf. cbn in Hf. by subst n. Qed.

Lemma upd_price_spec u s req tok itok o out :
  node_repr (jp_ u) (j_obj req) tok -> found (jp_ u) o itok -> spec_upd_price req s = Some out ->
  handled u s o (parse_upd_price stack tok itok (u, s)) out.
Proof.
  intros Hr Hf Hs. unfold spec_upd_price in Hs. unfold parse_upd_price.
  destruct (spec_params req) as [par|] eqn:Ep; [|done]. cbn [mbind option_bind] in Hs.
  destruct (params_spec _ _ _ _ Hr Ep) as (r & -> & Hpar). cbn [mbind option_bind].
  destruct par as [[ps k]|]; [destruct Hpar as (ptok & -> & Hps) | subst r; injection Hs as <-; by apply handled_invalid_params].
  destruct (negb (known_price k (prim s)) && negb (known_sec k (sec s))); [injection Hs as <-; by apply handled_unknown_symbol|].
  destruct (lookup_member (bs "price") ps) as [pv|] eqn:E1.
  2: { rewrite (member_none _ _ _ _ Hps E1). injection Hs as <-. by apply handled_invalid_params. }
  destruct (scalar pv) as [px|] eqn:T1; [|by destruct (lookup_member (bs "conf") ps), (lookup_member (bs "status") ps)].
  destruct (member_text _ _ _ _ _ _ Hps E1 T1) as (n1 & -> & N1 & G1). cbn [mbind option_bind].
  destruct (Z.eqb_spec n1 0); [done|]. unfold get_int. rewrite G1. cbn [fmap option_fmap option_map mbind option_bind].
  destruct (lookup_member (bs "conf") ps) as [cv|] eqn:E2.
  2: { rewrite (member_none _ _ _ _ Hps E2). injection Hs as <-. by apply handled_invalid_params. }
  destruct (scalar cv) as [cf|] eqn:T2; [|by destruct (lookup_member (bs "status") ps)].
  destruct (member_text _ _ _ _ _ _ Hps E2 T2) as (n2 & -> & N2 & G2). cbn [mbind option_bind].
  destruct (Z.eqb_spec n2 0); [done|]. unfold get_uint. rewrite G2. cbn [fmap option_fmap option_map mbind option_bind].
  destruct (lookup_member (bs "status") ps) as [sv|] eqn:E3.
  2: { rewrite (member_none _ _ _ _ Hps E3). injection Hs as <-. by apply handled_invalid_params. }
  cbn [mbind option_bind] in Hs. destruct (scalar sv) as [st|] eqn:T3; [|done]. cbn [mbind option_bind] in Hs.
  destruct (member_text _ _ _ _ _ _ Hps E3 T3) as (n3 & -> & N3 & G3). cbn [mbind option_bind].
  destruct (Z.eqb_spec n3 0); [done|]. rewrite G3. cbn [mbind option_bind].
  destruct (publish _ _ _ k (prim s) (pubw s)) as [w1|]; [|done]. cbn [mbind option_bind] in *.
  destruct (publish_sec _ _ _ k (sec s) w1) as [w2|]; [|done]. cbn [mbind option_bind] in *. injection Hs as <-.
  eapply handled_reply, result_answers, Hf.
Qed.

Lemma sub_price_spec me u s req tok itok o out :
  node_repr (jp_ u) (j_obj req) tok -> found (jp_ u) o itok -> spec_sub_price me req s = Some out ->
  handled u s o (parse_sub_price stack me tok itok (u, s)) out.
Proof.
  intros Hr Hf Hs. unfold spec_sub_price in Hs. unfold parse_sub_price.
  destruct (spec_params req) as [par|] eqn:Ep; [|done]. cbn [mbind option_bind] in Hs.
  destruct (params_spec _ _ _ _ Hr Ep) as (r & -> & Hpar). cbn [mbind option_bind].
  destruct par as [[ps k]|]; [destruct Hpar as (ptok & -> & Hps) | subst r; injection Hs as <-; by apply handled_invalid_params].
  destruct (negb (known_price k (prim s))); [injection Hs as <-; by apply handled_unknown_symbol|].
  destruct (Subs.add me _ (subw s)) as [[id sw]|]; [|done]. cbn [mbind option_bind] in *. injection Hs as <-.
  destruct (write_total (response (subscription id) (echo o)) (add_first (jw_ u))) as [w' Hw]. exists w'. split; [done|].
  unfold reply. rewrite (subscription_answers _ _ _ id Hf (jw_ u)), Hw. done.
Qed.

Lemma sub_price_sched_spec me u s req tok itok o out :
  node_repr (jp_ u) (j_obj req) tok -> found (jp_ u) o itok -> spec_sub_price_sched me req s = Some out ->
  handled u s o (parse_sub_price_sched stack me tok itok (u, s)) out.
Proof.
  intros Hr Hf Hs. unfold spec_sub_price_sched in Hs. unfold parse_sub_price_sched.
  destruct (spec_params req) as [par|] eqn:Ep; [|done]. cbn [mbind option_bind] in Hs.
  destruct (params_spec _ _ _ _ Hr Ep) as (r & -> & Hpar). cbn [mbind option_bind].
  destruct par as [[ps k]|]; [destruct Hpar as (ptok & -> & Hps) | subst r; injection Hs as <-; by apply handled_invalid_params].
  destruct (negb (known_price k (prim s)) && negb (known_sec k (sec s))); [injection Hs as <-; by apply handled_unknown_symbol|].
  rewrite get_sched_site. assert (subw (sched_site k s) = subw s) as -> by (unfold sched_site; by destruct (known_price k (prim s))).
  destruct (Subs.add me _ (subw s)) as [[id sw]|]; [|done]. cbn [mbind option_bind] in *. injection Hs as <-.
  eapply handled_reply, subscription_answers, Hf.
Qed.

Lemma product_spec u s req tok itok o out :
  site_ok s -> node_repr (jp_ u) (j_obj req) tok -> found (jp_ u) o itok -> spec_product req s = Some out ->
  handled u s o (parse_get_product stack tok itok (u, s)) out.
Proof.
  intros Hok Hr Hf Hs. unfold spec_product in Hs. unfold parse_get_product.
  destruct (spec_params req) as [par|] eqn:Ep; [|done]. cbn [mbind option_bind] in Hs.
  destruct (params_spec _ _ _ _ Hr Ep) as (r & -> & Hpar). cbn [mbind option_bind].
  destruct par as [[ps k]|]; [destruct Hpar as (ptok & -> & Hps) | subst r; injection Hs as <-; by apply handled_invalid_params].
  destruct (find_product k s) as [[acc p]|] eqn:Ef; [|injection Hs as <-; by apply handled_unknown_symbol].
  destruct (find_product_ok _ _ _ _ Hok Ef) as [Hk Hp]. destruct (product_members acc k p) as [ms|] eqn:Em; [|done].
  injection Hs as <-. by eapply handled_reply, product_answers.
Qed.

Lemma method_spec me m u s req tok itok o out :
  site_ok s -> node_repr (jp_ u) (j_obj req) tok -> found (jp_ u) o itok -> spec_method me m req s = Some out ->
  handled u s o
    (if str_eqb m (bs "update_price") then parse_upd_price stack tok itok (u, s)
     else if str_eqb m (bs "subscribe_price") then parse_sub_price stack me tok itok (u, s)
     else if str_eqb m (bs "subscribe_price_sched") then parse_sub_price_sched stack me tok itok (u, s)
     else if str_eqb m (bs "get_product_list") then parse_get_product_list itok (u, s)
     else if str_eqb m (bs "get_product") then parse_get_product stack tok itok (u, s)
     else if str_eqb m (bs "get_all_products") then parse_get_all_products itok (u, s)
     else u' ← reply (add_error (jp_ u) itok PC_JSON_UNKNOWN_METHOD (bs "method not found")) u; Some (u', s)) out.
Proof.
  intros Hok Hr Hf Hs. unfold spec_method in Hs.
  destruct (str_eqb m (bs "update_price")); [by eapply upd_price_spec|].
  destruct (str_eqb m (bs "subscribe_price")); [by eapply sub_price_spec|].
  destruct (str_eqb m (bs "subscribe_price_sched")); [by eapply sub_price_sched_spec|].
  destruct (str_eqb m (bs "get_product_list")).
  { unfold spec_product_list in Hs. destruct (mapM _ (svec_ (listing s))) as [vs|] eqn:Ev; [|done]. injection Hs as <-.
    unfold parse_get_product_list. by eapply handled_reply, product_list_answers; [apply listing_ok | |]. }
  destruct (str_eqb m (bs "get_product")); [by eapply product_spec|].
  destruct (str_eqb m (bs "get_all_products")).
  { unfold spec_all_products in Hs. destruct (mapM _ (svec_ (listing s))) as [vs|] eqn:Ev; [|done]. injection Hs as <-.
    unfold parse_get_all_products. by eapply handled_reply, all_products_answers; [apply listing_ok | |]. }
  injection Hs as <-. by apply handled_unknown_method.
Qed.

(** The answer to a request object at node [tok]. *)
Lemma request_spec me u s req tok resp s' ds :
  site_ok s -> node_repr (jp_ u) (j_obj req) tok -> spec_answer me req s = Some (resp, s', ds) ->
  exists w', write resp (add_first (jw_ u)) = Some w'
    /\ parse_request stack me tok (u, s) = Some (mk_user (jp_ u) w' (dvec_ u ++ ds) (usent u), s').
Proof.
  intros Hok Hr Hs. unfold spec_answer in Hs. destruct (spec_request me req s) as [[[body s1] ds1]|] eqn:Es; [|done].
  injection Hs as <- <- <-. unfold spec_request in Es. unfold parse_request.
  destruct (find_found _ _ _ (bs "id") Hr) as (itok & -> & Hi). cbn [mbind option_bind].
  destruct (find_found _ _ _ (bs "method") Hr) as (mtok & -> & Hm). cbn [mbind option_bind].
  destruct (lookup_member (bs "id") req) as [iv|] eqn:Ei; cbn [found] in Hi.
  2: { subst itok. cbn [Z.eqb orb mbind option_bind]. rewrite bool_decide_false by done. injection Es as <- <- <-. by apply handled_invalid_request. }
  destruct Hi as [Hi0 Hi]. destruct (Z.eqb_spec itok 0); [done|]. cbn [orb].
  destruct (lookup_member (bs "method") req) as [mv|] eqn:Em; cbn [found] in Hm.
  2: { subst mtok. cbn [Z.eqb mbind option_bind]. rewrite bool_decide_false by done. injection Es as <- <- <-. by apply handled_invalid_request. }
  destruct Hm as [Hm0 Hm]. destruct (Z.eqb_spec mtok 0); [done|].
  rewrite (get_type_node _ _ _ Hi), (get_type_node _ _ _ Hm). cbn [mbind option_bind].
  destruct (scalar iv) as [it|] eqn:Ti.
  2: { rewrite bool_decide_false; [injection Es as <- <- <-; by apply handled_invalid_request|].
       intros [= H _]. apply scalar_type in H as [? ?]. congruence. }
  destruct (scalar mv) as [m|] eqn:Tm.
  2: { rewrite bool_decide_false; [injection Es as <- <- <-; by apply handled_invalid_request|].
       intros [= _ H]. apply scalar_type in H as [? ?]. congruence. }
  rewrite bool_decide_true by (do 2 f_equal; apply scalar_type; by eexists).
  rewrite (get_str_node _ _ _ _ Hm Tm). cbn [mbind option_bind].
  by apply (method_spec me m u s req tok itok (Some iv) (body, s1, ds1)).
Qed.

(** A request leaves the keys of the managers' accounts as they are. *)
Lemma set_pubw_ok w s : site_ok s -> site_ok (set_pubw w s).
Proof. done. Qed.
Lemma set_subw_ok w s : site_ok s -> site_ok (set_subw w s).
Proof. done. Qed.
#[local] Hint Resolve set_pubw_ok set_subw_ok : core.

Lemma method_ok me m req s body s' ds : site_ok s -> spec_method me m req s = Some (body, s', ds) -> site_ok s'.
Proof.
  unfold spec_method, spec_upd_price, spec_sub_price, spec_sub_price_sched, spec_product_list, spec_product, spec_all_products.
  intros Hok H. repeat case_match; unbind H; repeat case_match; unbind H; simplify_eq; auto.
Qed.

Lemma answer_ok me req s r s' ds : site_ok s -> spec_answer me req s = Some (r, s', ds) -> site_ok s'.
Proof.
  unfold spec_answer, spec_request. intros Hok H.
  destruct (lookup_member (bs "id") req) as [iv|]; [|by simplify_eq/=]. destruct (lookup_member (bs "method") req) as [mv|]; [|by simplify_eq/=].
  destruct (scalar iv); [|by simplify_eq/=]. destruct (scalar mv) as [m|]; [|by simplify_eq/=].
  destruct (spec_method me m req s) as [[[body s1] ds1]|] eqn:E; [|done]. injection H as _ <- _. by eapply method_ok.
Qed.

(** ** Batches *)

Lemma batch_spec me : forall vs its lo hi fuel u s rs s' ds,
  site_ok s -> items (nv_ (jp_ u)) (buf_ (jp_ u)) (elems vs) its lo hi -> linked (nv_ (jp_ u)) its -> 0 < lo ->
  hi <= len (jp_ u) -> (length its <= fuel)%nat -> spec_batch me vs s = Some (rs, s', ds) ->
  exists w', write_values rs (jw_ u) = Some w'
    /\ parse_batch stack fuel me (hd 0 its) (u, s) = Some (mk_user (jp_ u) w' (dvec_ u ++ ds) (usent u), s').
Proof.
  induction vs as [|v vs IH]; intros [|it its] lo hi fuel u s rs s' ds Hok Hi Hl Hlo Hhi Hf Hs; try done.
  { injection Hs as <- <- <-. exists (jw_ u). split; [done|]. rewrite app_nil_r. destruct u, fuel; done. }
  destruct Hi as (h & [Hit Hr] & Hg). cbn [fst snd hd length] in *. destruct (items_le _ _ _ _ _ _ Hg) as [Hle _].
  destruct Hl as [(n & Hn & Hx) Hl]. destruct fuel as [|fuel]; [lia|].
  assert (node_repr (jp_ u) v it) as Hv by (exists (it + 1), h; split_and!; [lia | lia | done]).
  cbn [spec_batch] in Hs. cbn [parse_batch fst snd]. destruct (Z.eqb_spec it 0); [lia|]. rewrite (get_type_node _ _ _ Hv). cbn [mbind option_bind fst].
  assert (forall r s1 ds1, site_ok s1 ->
    ('(rs, s, ds') ← spec_batch me vs s1; Some (r :: rs, s, ds1 ++ ds')) = Some (rs, s', ds) ->
    forall w1, write r (add_first (jw_ u)) = Some w1 ->
    exists w', write_values rs (jw_ u) = Some w'
      /\ (tok ← get_next (jp_ u) it; parse_batch stack fuel me tok (mk_user (jp_ u) w1 (dvec_ u ++ ds1) (usent u), s1))
         = Some (mk_user (jp_ u) w' (dvec_ u ++ ds) (usent u), s')) as Hnext.
  { intros r s1 ds1 Hsame Hb w1 Hw. destruct (spec_batch me vs s1) as [[[rs1 s2] ds2]|] eqn:Eb; [|done].
    cbn [mbind option_bind] in Hb. injection Hb as <- <- <-. cbn [write_values]. rewrite Hw. cbn [mbind option_bind].
    unfold get_next. rewrite Hn. cbn [fmap option_fmap option_map mbind option_bind]. rewrite Hx, app_assoc.
    apply (IH its h hi fuel (mk_user (jp_ u) w1 (dvec_ u ++ ds1) (usent u))); try done; lia. }
  assert (('(rs, s, ds') ← spec_batch me vs s; Some (response invalid_request j_null :: rs, s, ds')) = Some (rs, s', ds) ->
    exists w', write_values rs (jw_ u) = Some w'
      /\ (us ← (u' ← reply (add_invalid_request (jp_ u) 0) u; Some (u', s)); tok ← get_next (jp_ u) it; parse_batch stack fuel me tok us)
         = Some (mk_user (jp_ u) w' (dvec_ u ++ ds) (usent u), s')) as Hbad.
  { intros Hb. destruct (write_total (response invalid_request j_null) (add_first (jw_ u))) as [w1 Hw1].
    pose proof (Hnext (response invalid_request j_null) s [] ltac:(done) Hb w1 Hw1) as H. rewrite app_nil_r in H.
    unfold reply, add_invalid_request. rewrite (error_answers (jp_ u) 0 None _ _ eq_refl (jw_ u)). cbn [echo].
    change (error_body PC_JSON_INVALID_REQUEST (bs "invalid request")) with invalid_request. rewrite Hw1. exact H. }
  destruct v as [sv|nv|nv| | | |avs|req]; cbn [json_type];
    try (rewrite bool_decide_false by done; apply Hbad; exact Hs).
  rewrite bool_decide_true by done. destruct (spec_answer me req s) as [[[r s1] ds1]|] eqn:Ea; [|done]. cbn [mbind option_bind] in Hs.
  destruct (request_spec me u s req it r s1 ds1 Hok Hv Ea) as (w1 & Hw1 & ->). cbn [mbind option_bind fst jp_].
  apply (Hnext r s1 ds1); [by eapply answer_ok | done | done].
Qed.

Lemma message_spec me v u s resp s' ds lo hi :
  site_ok s -> JTree.is_valid (jp_ u) = true -> repr (nv_ (jp_ u)) (buf_ (jp_ u)) v 1 lo hi -> 0 < lo -> hi <= len (jp_ u) ->
  spec_message me v s = Some (resp, s', ds) ->
  exists w', write resp (add_first (jw_ u)) = Some w'
    /\ answer stack me (u, s) = Some (mk_user (jp_ u) w' (dvec_ u ++ ds) (usent u), s').
Proof.
  intros Hok Hvalid Hr Hlo Hhi Hs. assert (node_repr (jp_ u) v 1) as Hv by (exists lo, hi; done).
  unfold answer. rewrite Hvalid, (get_type_node _ _ _ Hv). cbn [mbind option_bind].
  destruct v as [| | | | | |vs|req]; try done; cbn [json_type].
  2: { by apply (request_spec me u s req 1). }
  apply repr_arr in Hr as (its & (n & Hn & _ & Ha & _ & Hl) & Hi). unfold get_first. rewrite Hn.
  cbn [fmap option_fmap option_map mbind option_bind]. rewrite Ha.
  destruct (items_le _ _ _ _ _ _ Hi) as [_ Hin].
  destruct vs as [|v vs]; destruct its as [|it its]; try done.
  { injection Hs as <- <- <-. cbn [hd Z.eqb].
    apply (handled_invalid_request u s 0 None eq_refl). }
  apply Forall_cons in Hin as [Hit _]. cbn [hd]. destruct (Z.eqb_spec it 0); [lia|].
  unfold spec_message in Hs. destruct (spec_batch me (v :: vs) s) as [[[rs s1] ds1]|] eqn:Eb; [|done].
  cbn [mbind option_bind] in Hs. injection Hs as <- <- <-.
  pose proof (items_length _ _ _ _ _ _ Hi) as Hlen.
  destruct (batch_spec me (v :: vs) (it :: its) lo hi (length (nv_ (jp_ u))) (set_jw (add_val_type e_arr (jw_ u)) u) s rs s1 ds1)
    as (w1 & Hw1 & Hb); try done; [unfold len in *; lia|]. cbn [hd] in Hb. rewrite Hb. cbn [mbind option_bind fst snd].
  destruct (write_total (j_arr rs) (add_first (jw_ u))) as [w' Hw']. exists w'. split; [done|].
  rewrite write_arr in Hw'. cbn [jw_ set_jw] in Hw1. change (add_arr (add_first (jw_ u))) with (add_val_type e_arr (jw_ u)) in Hw'.
  rewrite Hw1 in Hw'. cbn [mbind option_bind] in Hw'. unfold reply. cbn [jw_]. rewrite Hw'. done.
Qed.

(** ** Notifications *)

Lemma header_calls w : add_key_str (bs "jsonrpc") (bs "2.0") (add_obj (add_first w)) = add_header w.
Proof. done. Qed.

Lemma bind_some {A B} (f : A -> option B) x : (y ← Some x; f y) = f x.
Proof. done. Qed.

Lemma price_note_write m idx w0 : notify_price m idx w0 = (v ← price_note m idx; write v (add_first w0)).
Proof.
  unfold price_note, notify_price.
  destruct (get_price m) as [px|]; [|done]. destruct (get_conf m) as [cf|]; [|done]. destruct (get_twap m) as [tp|]; [|done].
  destruct (get_twac m) as [tc|]; [|done]. destruct (get_status m) as [st|]; [|done]. destruct (get_num_qt m) as [nq|]; [|done].
  destruct (get_valid_slot m) as [vs|]; [|done]. destruct (get_pub_slot m) as [ps|]; [|done].
  rewrite !bind_some, write_obj, wm_str, header_calls. generalize (add_header w0). intros h. members. rewrite wm_obj, wm_obj. members.
  generalize (add_key_type (bs "result") e_obj (add_key_type (bs "params") e_obj (add_key_str (bs "method") (bs "notify_price") h))).
  intros w. rewrite bind_some. destruct (pop _) as [w1|]; [|done]. rewrite !bind_some. members.
  generalize (add_key_uint (bs "subscription") idx w1). intros w2. rewrite bind_some. by destruct (pop w2).
Qed.

(** A value written by a reset writer is the whole text. *)
Lemma write_first v w : write v (add_first new_json_wtr) = Some w -> out w = text v.
Proof. intros H. destruct (write_out v (add_first new_json_wtr)) as (fi & E & _). rewrite E in H. by injection H as <-. Qed.

Lemma on_price_note k idx s u v :
  deferred_note s (k, idx) = Some v ->
  exists w, on_price k idx s u = Some (mk_user (jp_ u) w (dvec_ u) (usent u ++ [frame v])).
Proof.
  unfold deferred_note, on_price. cbn [fst snd]. destruct (price_at (accs (prim s)) k) as [x|]; [|done]. cbn [mbind option_bind].
  intros Hv. rewrite price_note_write, Hv. cbn [mbind option_bind]. change (reset (jw_ u)) with new_json_wtr. destruct (write_total v (add_first new_json_wtr)) as [w Hw]. rewrite Hw.
  cbn [mbind option_bind]. exists w. unfold send_text, set_jw, frame. cbn [jp_ jw_ dvec_ usent]. by rewrite (write_first v w Hw).
Qed.

Lemma deferred_spec s : forall ds u ns, mapM (deferred_note s) ds = Some ns ->
  exists w, run_deferred ds s u = Some (mk_user (jp_ u) w (dvec_ u) (usent u ++ (frame <$> ns))).
Proof.
  induction ds as [|[k sid] ds IH]; intros u ns Hns.
  { injection Hns as <-. exists (jw_ u). cbn. rewrite app_nil_r. by destruct u. }
  cbn [mapM] in Hns. destruct (deferred_note s (k, sid)) as [v|] eqn:Ev; [|done]. cbn [mbind option_bind] in Hns.
  destruct (mapM (deferred_note s) ds) as [ns'|] eqn:Ens; [|done]. injection Hns as <-.
  destruct (on_price_note k sid s u v Ev) as [w Hw]. cbn [run_deferred]. rewrite Hw. cbn [mbind option_bind].
  destruct (IH (mk_user (jp_ u) w (dvec_ u) (usent u ++ [frame v])) ns' eq_refl) as [w' ->]. exists w'.
  cbn [jp_ dvec_ usent fmap list_fmap]. by rewrite <- app_assoc.
Qed.

Lemma parse_msg_refines me v u s resp s' ds ns :
  children v <> None -> clean v -> JTree.null_node_ok (jp_ u) -> 1 + 2 * Z.of_nat (length (text v)) < JTree.max_nodes ->
  site_ok s -> dvec_ u = [] ->
  spec_message me v s = Some (resp, s', ds) -> mapM (deferred_note s') ds = Some ns ->
  exists u', parse_msg stack me (text v) (u, s) = Some (u', s') /\ usent u' = usent u ++ frame resp :: (frame <$> ns) /\ dvec_ u' = [].
Proof.
  intros Hv Hc Hn Hlen Hok Hd Hs Hns. unfold parse_msg. unfold JTree.max_nodes in Hlen.
  destruct (parse_text_repr (jp_ u) v Hv Hc Hn ltac:(lia) Hlen) as (jp & -> & Hvalid & _ & Hr). cbn [mbind option_bind].
  set (u0 := mk_user jp (reset (jw_ u)) (dvec_ u) (usent u)).
  destruct (message_spec me v u0 s resp s' ds 2 (len jp) Hok Hvalid Hr ltac:(lia) ltac:(done) Hs) as (w' & Hw & ->).
  cbn [mbind option_bind]. change (add_first (jw_ u0)) with (add_first new_json_wtr) in Hw.
  cbn [dvec_ u0]. rewrite Hd. cbn [app].
  destruct (deferred_spec s' ds (send_text (mk_user (jp_ u0) w' ds (usent u0))) ns Hns) as [w2 ->].
  cbn [mbind option_bind]. eexists. split; [done|]. split; [|done]. cbn [usent send_text jw_ u0]. rewrite (write_first _ _ Hw).
  by rewrite <- app_assoc.
Qed.

(** (C1) The messages of a client: for any request or batch of requests, written as
    the JSON text of a value, [parse_msg] does what [spec_message] says of the
    value — it changes the managers and subscriptions that way (a price is stored
    and buffered, the schedule of a price is activated in the manager that knows
    the price), sends the one answer, then the notifications of the new price subscriptions in order, and
    leaves none deferred.  The four layers between (parse tree, handlers,
    writer, frame) do not show. *)
Theorem parse_msg_spec me v u s resp s' ds ns :
  children v <> None -> clean v -> JTree.null_node_ok (jp_ u) -> 1 + 2 * Z.of_nat (length (text v)) < JTree.max_nodes ->
  site_ok s -> dvec_ u = [] ->
  spec_message me v s = Some (resp, s', ds) -> mapM (deferred_note s') ds = Some ns ->
  exists u', parse_msg stack me (text v) (u, s) = Some (u', s') /\ usent u' = usent u ++ frame resp :: (frame <$> ns) /\ dvec_ u' = [].
Proof. apply parse_msg_refines. Qed.

(** A result, or an error that changes nothing. *)
Definition result_or_error (s : site) (out : outcome) : Prop :=
  let '(body, s', ds) := out in
  (exists v, body = result_body v) \/ (exists err msg, body = error_body err msg /\ s' = s /\ ds = []).

Lemma error_outcome s err msg : result_or_error s (error_body err msg, s, []).
Proof. right. by exists err, msg. Qed.
Lemma result_outcome s s' v ds : result_or_error s (result_body v, s', ds).
Proof. left. by exists v. Qed.
#[local] Hint Resolve error_outcome result_outcome : core.
#[local] Hint Extern 0 (result_or_error _ (_, _, _)) => first [apply error_outcome | apply result_outcome] : core.

Lemma method_outcome me m req s out : spec_method me m req s = Some out -> result_or_error s out.
Proof.
  unfold spec_method, spec_upd_price, spec_sub_price, spec_sub_price_sched, spec_product_list, spec_product, spec_all_products.
  intros H. repeat case_match; unbind H; repeat case_match; unbind H; simplify_eq; auto.
Qed.

Lemma request_outcome me req s out : spec_request me req s = Some out -> result_or_error s out.
Proof.
  unfold spec_request. destruct (lookup_member (bs "id") req) as [iv|]; [|intros [= <-]; auto].
  destruct (lookup_member (bs "method") req) as [mv|]; [|intros [= <-]; auto].
  destruct (scalar iv); [|intros [= <-]; auto]. destruct (scalar mv); [|intros [= <-]; auto]. apply method_outcome.
Qed.

(** (C3) Every request object is answered, with its own id, by a result or by an
    error, and a request answered by an error has changed nothing: no price was
    stored, no subscription made, nothing else is sent. *)
Theorem request_answered me req u s body s' ds ns :
  clean (j_obj req) -> JTree.null_node_ok (jp_ u) -> 1 + 2 * Z.of_nat (length (text (j_obj req))) < JTree.max_nodes ->
  site_ok s -> dvec_ u = [] ->
  spec_request me req s = Some (body, s', ds) -> mapM (deferred_note s') ds = Some ns ->
  exists u' rest, parse_msg stack me (text (j_obj req)) (u, s) = Some (u', s')
    /\ usent u' = usent u ++ frame (response body (echo (lookup_member (bs "id") req))) :: rest
    /\ ((exists v, body = result_body v)
        \/ (exists err msg, body = error_body err msg) /\ s' = s /\ rest = []).
Proof.
  intros Hc Hn Hlen Hok Hd Hs Hns.
  destruct (parse_msg_refines me (j_obj req) u s (response body (echo (lookup_member (bs "id") req))) s' ds ns) as (u' & H1 & H2 & _);
    try done; [by cbn; unfold spec_answer; rewrite Hs|].
  exists u', (frame <$> ns). split; [done|]. split; [done|].
  destruct (request_outcome _ _ _ _ Hs) as [H|(err & msg & -> & -> & ->)]; [by left|]. right.
  injection Hns as <-. split_and!; [by exists err, msg | done | done].
Qed.

(** ** Price updates *)

Lemma status_back st : 0 <= st < 3 -> str_to_symbol_status (symbol_status_to_str st) = st.
Proof. intros H. assert (st = 0 \/ st = 1 \/ st = 2) as [-> | [-> | ->]] by lia; vm_compute; reflexivity. Qed.

(** What [publish] stores. *)
Lemma publish_ok px conf st k v (w : pub_world (key_cache := key_cache) (app_t := app_t)) p pr m upd sig ack r :
  known_price k v = true -> objs v !! k = Some p -> prices w !! p = Some pr -> mgr_ pr = gptr v -> mgrs w !! gptr v = Some m ->
  RpcClient.heap (rpc_ m) !! preq_ pr = Some r -> RpcClient.body_ r = RpcClient.upd_price upd sig ack ->
  exists w' m', publish px conf st k v w = Some w' /\ mgrs w' !! gptr v = Some m'
    /\ RpcClient.upd_of (rpc_ m') (preq_ pr) = Some (Bincode.set_price px conf st false (Bincode.set_slot (mslot_ m) upd))
    /\ (p ∈ pending_upds_ m' \/ last_slot_ pr = mslot_ m).
Proof.
  intros Hk Hp Hpr Hg Hm Hr Hb. unfold publish. rewrite Hk, Hp. cbn [mbind option_bind].
  unfold update_no_send, get_mgr. rewrite Hpr. cbn [mbind option_bind]. rewrite Hg, Hm. cbn [mbind option_bind].
  unfold upd_mgr_at at 1. rewrite Hg, Hm. cbn [mbind option_bind]. unfold upd_params, RpcClient.upd. rewrite Hr. cbn [mbind option_bind].
  unfold add_dirty_price. cbn [prices]. rewrite Hpr. cbn [mbind option_bind]. unfold upd_mgr_at. cbn [mgrs]. rewrite lookup_insert_eq.
  cbn [mbind option_bind].
  match goal with |- context [set_rpc ?x m] => set (m1 := set_rpc x m) end.
  assert (RpcClient.upd_of (rpc_ m1) (preq_ pr) = Some (Bincode.set_price px conf st false (Bincode.set_slot (mslot_ m) upd))) as Hu.
  { unfold RpcClient.upd_of, m1. cbn [rpc_ set_rpc RpcClient.heap]. rewrite lookup_insert_eq. cbn [mbind option_bind RpcClient.body_ RpcClient.set_body].
    by rewrite Hb. }
  change (mslot_ m1) with (mslot_ m). change (pending_upds_ m1) with (pending_upds_ m).
  destruct (Z.eqb_spec (last_slot_ pr) (mslot_ m)) as [E|E]; [|case_bool_decide as Hin]; cbn [mbind option_bind];
    (eexists _, _; split; [done|]; cbn [mgrs]; rewrite lookup_insert_eq; split; [done|]; split; [exact Hu|]).
  - by right.
  - by left.
  - left. cbn [pending_upds_ set_pending]. apply elem_of_app. right. by left.
Qed.

(** (C2) The path of a price from a client: an [update_price] request for an
    account of the manager, with the key, price, confidence and status in their
    JSON forms and its members in any order, is answered with result 0 and its
    id, and afterwards the price's update instruction holds exactly that price,
    confidence and status with the manager's slot, and the price is waiting to
    be sent unless its update was already tried in this slot. *)
Theorem update_applied me u s req ps idv k px conf st p pr m upd sig ack r :
  clean (j_obj req) -> JTree.null_node_ok (jp_ u) -> 1 + 2 * Z.of_nat (length (text (j_obj req))) < JTree.max_nodes ->
  site_ok s -> dvec_ u = [] -> sec s = None ->
  lookup_member (bs "id") req = Some idv -> is_Some (scalar idv) ->
  lookup_member (bs "method") req = Some (j_str (bs "update_price")) -> lookup_member (bs "params") req = Some (j_obj ps) ->
  lookup_member (bs "account") ps = Some (j_str (KeyPair.hash_to_text k)) -> lookup_member (bs "price") ps = Some (j_int px) ->
  lookup_member (bs "conf") ps = Some (j_uint conf) -> lookup_member (bs "status") ps = Some (j_str (symbol_status_to_str st)) ->
  is_bytes k -> length k = KeyPair.hash_len -> k <> KeyPair.hash_zero -> length stack = KeyPair.hash_len ->
  INT64_MIN < px <= INT64_MAX -> in_u 64 conf -> 0 <= st < 3 ->
  known_price k (prim s) = true -> objs (prim s) !! k = Some p -> prices (pubw s) !! p = Some pr -> mgr_ pr = gptr (prim s) ->
  mgrs (pubw s) !! gptr (prim s) = Some m ->
  RpcClient.heap (rpc_ m) !! preq_ pr = Some r -> RpcClient.body_ r = RpcClient.upd_price upd sig ack ->
  exists u' s' m', parse_msg stack me (text (j_obj req)) (u, s) = Some (u', s')
    /\ usent u' = usent u ++ [frame (response (result_body (j_uint 0)) idv)]
    /\ mgrs (pubw s') !! gptr (prim s) = Some m'
    /\ RpcClient.upd_of (rpc_ m') (preq_ pr) = Some (Bincode.set_price px conf st false (Bincode.set_slot (mslot_ m) upd))
    /\ (p ∈ pending_upds_ m' \/ last_slot_ pr = mslot_ m).
Proof.
  intros Hc Hn Hlen Hok Hd Hsec Hid [idt Hidt] Hmeth Hpar Hacc Hpx Hcf Hst Hkb Hkl Hkz Hstk Hpxr Hcfr Hstr Hknown Hp Hpr Hg Hm Hr Hb.
  destruct (publish_ok px conf st k (prim s) (pubw s) p pr m upd sig ack r Hknown Hp Hpr Hg Hm Hr Hb) as (w' & m' & Hpub & Hm' & Hu & Hpend).
  assert (spec_message me (j_obj req) s = Some (response (result_body (j_uint 0)) idv, set_pubw w' s, [])) as Hs.
  { cbn. unfold spec_answer, spec_request. rewrite Hid, Hmeth, Hidt. cbn [scalar]. unfold spec_method. rewrite str_eqb_refl.
    unfold spec_upd_price, spec_params. rewrite Hpar, Hacc. cbn [scalar mbind option_bind].
    rewrite KeyPair.hash_back by done. rewrite decide_False by done. cbn [mbind option_bind].
    rewrite Hknown. cbn [negb andb]. rewrite Hpx, Hcf, Hst. cbn [scalar mbind option_bind].
    rewrite Text.int_back, Text.uint_back, status_back by done. rewrite Hpub. cbn [mbind option_bind]. rewrite Hsec.
    cbn [publish_sec mbind option_bind]. unfold echo. by rewrite Hidt. }
  destruct (parse_msg_refines me (j_obj req) u s _ _ _ [] ltac:(done) Hc Hn Hlen Hok Hd Hs eq_refl) as (u' & H1 & H2 & _).
  exists u', (set_pubw w' s), m'. done.
Qed.

(** ** A price changes *)

(** The messages one subscription number gives. *)
Definition notes_for (s : site) (k : bytes) (p : ptr) (l : list (ptr * Z)) : option (list json) :=
  mapM (fun n => deferred_note s (k, n.2)) (filter (fun n => n.1 = p) l).

Lemma mapM_map {A B C} (f : B -> option C) (g : A -> B) l : mapM f (g <$> l) = mapM (fun x => f (g x)) l.
Proof.
  induction l as [|x l IH]; [done|]. rewrite fmap_cons. cbn [mapM]. destruct (f (g x)); [|done]. cbn [mbind option_bind].
  by rewrite IH.
Qed.

Lemma respond_notes k s : forall l us,
  (forall n, n ∈ l -> is_Some (us !! n.1) /\ is_Some (deferred_note s (k, n.2))) ->
  exists us', respond l (mk_req false false k) s us = Some us' /\ dom us' = dom us
    /\ forall p u, us !! p = Some u -> exists u' ns, us' !! p = Some u' /\ notes_for s k p l = Some ns /\ usent u' = usent u ++ (frame <$> ns).
Proof.
  induction l as [|[q idx] l IH]; intros us Hl.
  { exists us. split_and!; [done | done |]. intros p u Hu. exists u, []. split_and!; [done | done |]. cbn. by rewrite app_nil_r. }
  destruct (Hl (q, idx) ltac:(left)) as [[v Hv] [j Hj]]. cbn [fst snd] in *.
  cbn [respond]. rewrite Hv. cbn [mbind option_bind]. unfold callback. cbn [r_sched r_key].
  destruct (on_price_note k idx s v j Hj) as [w Hw]. rewrite Hw. cbn [mbind option_bind].
  set (v' := mk_user (jp_ v) w (dvec_ v) (usent v ++ [frame j])).
  destruct (IH (<[q := v']> us)) as (us' & E & Hdom & Hall).
  { intros n Hn. destruct (Hl n ltac:(by right)) as [[x Hx] Hd]. split; [|done].
    destruct (decide (n.1 = q)) as [->|]; [rewrite lookup_insert_eq; by eexists | rewrite lookup_insert_ne by done; by eexists]. }
  exists us'. split; [done|]. split.
  { rewrite Hdom. apply dom_insert_lookup_L. by eexists. }
  intros p u Hu. unfold notes_for. destruct (decide (q = p)) as [<-|Hne].
  - rewrite Hv in Hu. injection Hu as <-. destruct (Hall q v' ltac:(apply lookup_insert_eq)) as (u' & ns & H1 & H2 & H3).
    exists u', (j :: ns). split; [done|]. unfold notes_for in H2. rewrite filter_cons_True by done. cbn [mapM snd]. rewrite Hj, H2. split; [done|].
    rewrite H3. cbn [usent v' fmap list_fmap]. by rewrite <- app_assoc.
  - destruct (Hall p u ltac:(by rewrite lookup_insert_ne)) as (u' & ns & H1 & H2 & H3). exists u', ns.
    split; [done|]. unfold notes_for in H2. rewrite filter_cons_False by done. done.
Qed.

(** (C4) A new aggregate of a price goes to every connected subscriber: each gets,
    after what it was sent before, one [notify_price] with the account's data for
    each of its subscriptions to that price, and nobody else gets anything. *)
Theorem price_notified k s us :
  subs_ok (subw s) ->
  (forall p i r, subscribed (subw s) p i r -> is_Some (us !! p)) ->
  (forall i, is_Some (deferred_note s (k, i))) ->
  exists us', on_response (mk_req false false k) s us = Some us'
    /\ forall p u, us !! p = Some u -> exists u' l ns, us' !! p = Some u'
         /\ NoDup l /\ (forall i, i ∈ l <-> subscribed (subw s) p i (mk_req false false k))
         /\ mapM (fun i => deferred_note s (k, i)) l = Some ns /\ usent u' = usent u ++ (frame <$> ns).
Proof.
  intros Hok Hus Hdata. unfold on_response. set (l := on_response_sub (fun _ => true) (mk_req false false k) (subw s)).
  destruct (Subs.respond_exact (fun _ => true) (mk_req false false k) (subw s) Hok) as [Hnd Hin]. fold l in Hnd, Hin.
  destruct (respond_notes k s l us) as (us' & E & _ & Hall).
  { intros [p i] Hn. apply Hin in Hn as [Hn _]. split; [by eapply Hus | apply Hdata]. }
  exists us'. split; [done|]. intros p u Hu. destruct (Hall p u Hu) as (u' & ns & H1 & H2 & H3).
  exists u', (snd <$> filter (fun n => n.1 = p) l), ns. split; [done|]. split; [|split; [|split; [|done]]].
  - assert (NoDup (filter (fun n => n.1 = p) l)) as Hf by (by apply NoDup_filter). apply NoDup_fmap_2_strong; [|done].
    intros [a i] [b j] [Ha _]%list_elem_of_filter [Hb _]%list_elem_of_filter Hij. cbn in *. by subst.
  - intros i. rewrite list_elem_of_fmap. split.
    + intros ([q j] & -> & [Hq Hn]%list_elem_of_filter). cbn in *. subst q. by apply Hin in Hn as [? _].
    + intros Hs. exists (p, i). split; [done|]. apply list_elem_of_filter. split; [done|]. by apply Hin.
  - unfold notes_for in H2. rewrite mapM_map. exact H2.
Qed.
End spec.

(** ** Witnesses

    One manager that knows one price account, and one connected user. *)

Definition price_key : bytes := replicate 32 9.
Definition test_node : Accounts.node :=
  Accounts.mk_node (Accounts.a_price (Accounts.mk_price_acc e_publish (replicate 32 3) 0 0 0 (replicate 336 0)
    PubStats.clear_stats false false)) false false None.
Definition test_accounts : accounts :=
  Accounts.mk_accounts {[price_key := test_node]} [] [] [] 7 0 0 None AttrDict.new_attr_id_set [] Schedule.new_sched [] [].
Definition test_view : mgr_view := mk_view test_accounts {[price_key := 1%positive]} 10%positive.
Definition test_site : site (key_cache := Z) (app_t := unit) :=
  mk_site test_view None (test_pub false) (mk_subs {[5%positive := new_sub_set]} ∅).
Definition test_user : user := mk_user JTree.new_jtree new_json_wtr [] [].
Definition test_stack : bytes := replicate 32 171.

Lemma test_keys_ok : keys_ok test_accounts.
Proof.
  split; [|constructor|].
  - intros k n Hn. apply (lookup_singleton_Some price_key k test_node n) in Hn as [<- _]. done.
  - intros k p. unfold product_at. cbn [test_accounts amap_]. destruct (_ !! k) as [n|] eqn:E; [|done].
    by apply lookup_singleton_Some in E as [_ <-].
Qed.
Lemma test_site_ok : site_ok test_site.
Proof. split; [exact test_keys_ok | done]. Qed.

Definition account_param : bytes * json := (bs "account", j_str (KeyPair.hash_to_text price_key)).
Definition call (method : bytes) (ps : list (bytes * json)) (id : json) : list (bytes * json) :=
  [(bs "jsonrpc", j_str (bs "2.0")); (bs "method", j_str method); (bs "params", j_obj ps); (bs "id", id)].
Definition upd_params : list (bytes * json) :=
  [account_param; (bs "price", j_int (- 42)); (bs "conf", j_uint 5); (bs "status", j_str (symbol_status_to_str 1))].
Definition upd_call : list (bytes * json) := call (bs "update_price") upd_params (j_uint 7).
Definition sched_call : list (bytes * json) := call (bs "subscribe_price_sched") [account_param] (j_uint 8).
Definition sub_call : list (bytes * json) := call (bs "subscribe_price") [account_param] (j_str (bs "a")).

Ltac clean_text := vm_compute; split_and!; first [done | repeat constructor; done].

Lemma upd_call_clean : clean (j_obj upd_call).
Proof. clean_text. Qed.
Lemma batch_clean : clean (j_arr [j_obj upd_call; j_obj sub_call; j_obj sched_call]).
Proof. clean_text. Qed.

Definition test_upd_request : RpcClient.rpc_request (key_cache := Z) :=
  RpcClient.new_rpc_request (RpcClient.upd_price (Bincode.test_upd 4) [] []).

Lemma update_applied_witness :
  exists u' s' m', parse_msg test_stack 5%positive (text (j_obj upd_call)) (test_user, test_site) = Some (u', s')
    /\ usent u' = [frame (response (result_body (j_uint 0)) (j_uint 7))]
    /\ mgrs (pubw s') !! 10%positive = Some m'
    /\ RpcClient.upd_of (rpc_ m') 1%positive
       = Some (Bincode.set_price (- 42) 5 1 false (Bincode.set_slot 77 (Bincode.test_upd 4))).
Proof.
  destruct (update_applied test_stack 5%positive test_user test_site upd_call upd_params (j_uint 7) price_key (- 42) 5 1 1%positive
              (mk_price 10%positive 1%positive false e_publish 0 0 [] PubStats.clear_stats None) (test_mgr false)
              (Bincode.test_upd 4) [] [] test_upd_request) as (u' & s' & m' & H1 & H2 & H3 & H4 & _);
    try (vm_compute; reflexivity).
  - exact upd_call_clean.
  - exact test_site_ok.
  - by_decide.
  - by_decide.
  - by_decide.
  - split; vm_compute; congruence.
  - by_decide.
  - lia.
  - exists u', s', m'. split; [exact H1|]. split; [exact H2|]. split; [exact H3 | exact H4].
Defined.

Definition batch_out := spec_message test_stack 5%positive (j_arr [j_obj upd_call; j_obj sub_call; j_obj sched_call]) test_site.

(** An update and two subscriptions in one batch: three answers in one message,
    then the subscribed price, and the price's schedule waits to be started. *)
Definition batch_done : bool :=
  match batch_out with
  | Some (_, s', ds) =>
      match mapM (deferred_note s') ds with
      | Some ns => (length ns =? 1)%nat && bool_decide (plist_ (accs (prim s')) = [Accounts.r_sched price_key])
      | None => false
      end
  | None => false
  end.
Lemma batch_is_done : batch_done = true.
Proof. vm_compute. reflexivity. Qed.
Lemma parse_msg_spec_witness :
  exists u' s' resp ns, parse_msg test_stack 5%positive (text (j_arr [j_obj upd_call; j_obj sub_call; j_obj sched_call])) (test_user, test_site) = Some (u', s')
    /\ usent u' = frame resp :: (frame <$> ns) /\ length ns = 1%nat /\ plist_ (accs (prim s')) = [Accounts.r_sched price_key].
Proof.
  pose proof batch_is_done as Hn. unfold batch_done in Hn. destruct batch_out as [[[resp s'] ds]|] eqn:E; [|discriminate Hn].
  destruct (mapM (deferred_note s') ds) as [ns|] eqn:En; [|discriminate Hn]. apply andb_prop in Hn as [Hn Hp].
  destruct (parse_msg_spec test_stack 5%positive (j_arr [j_obj upd_call; j_obj sub_call; j_obj sched_call]) test_user test_site resp s' ds ns)
      as (u' & H1 & H2 & _);
      [discriminate | exact batch_clean | exact I | by_decide | exact test_site_ok | reflexivity | exact E | exact En |].
  exists u', s', resp, ns. split; [exact H1|]. split; [exact H2|]. split; [exact (proj1 (Nat.eqb_eq _ _) Hn) | exact (bool_decide_eq_true_1 _ Hp)].
Defined.

(** A call without an id. *)
Definition no_id_call : list (bytes * json) := [(bs "method", j_str (bs "get_product_list"))].
Lemma request_answered_witness :
  exists u' rest, parse_msg test_stack 5%positive (text (j_obj no_id_call)) (test_user, test_site) = Some (u', test_site)
    /\ usent u' = frame (response invalid_request j_null) :: rest.
Proof.
  destruct (request_answered test_stack 5%positive no_id_call test_user test_site invalid_request test_site [] [])
    as (u' & rest & H1 & H2 & _); try (vm_compute; reflexivity).
  - clean_text.
  - exact test_site_ok.
  - exists u', rest. split; [exact H1 | exact H2].
Defined.

Definition subbed_site : site (key_cache := Z) (app_t := unit) := set_subw (match Subs.add 5%positive (mk_req false false price_key) (subw test_site) with
                                                     | Some (_, w) => w | None => subw test_site end) test_site.
Lemma price_notified_witness :
  exists us', on_response (mk_req false false price_key) subbed_site {[5%positive := test_user]} = Some us'
    /\ exists u' n, us' !! 5%positive = Some u' /\ usent u' = [frame n].
Proof.
  destruct (Subs.add_exact 5%positive (mk_req false false price_key) (subw test_site) new_sub_set) as (i & w & t & Ha & Ht & _ & _ & Hsub & _ & Hok);
    [|reflexivity | apply new_sub_set_ok | reflexivity |].
  { apply no_subs_ok. intros s t [_ <-]%lookup_singleton_Some. reflexivity. }
  assert (subw subbed_site = w) as Ew by (unfold subbed_site; by rewrite Ha).
  assert (forall p j r, subscribed w p j r -> p = 5%positive /\ j = i) as Honly.
  { intros p j r [(_ & t' & Ht' & Hs)|(-> & -> & _)]%Hsub; [|done].
    cbn in Ht'. apply lookup_singleton_Some in Ht' as [_ <-]. cbn in Hs; by rewrite lookup_nil in Hs. }
  assert (forall j, is_Some (deferred_note subbed_site (price_key, j))) as Hdata by (intros j; eexists; vm_compute; reflexivity).
  destruct (price_notified price_key subbed_site {[5%positive := test_user]}) as (us' & E & Hall).
  - by rewrite Ew.
  - rewrite Ew. intros p j r [-> _]%Honly. by eexists.
  - exact Hdata.
  - exists us'. split; [exact E|]. destruct (Hall 5%positive test_user eq_refl) as (u' & l & ns & Hu & Hnd & Hl & Hns & Hsent).
    rewrite Ew in Hl. assert (l = [i]) as ->.
    { apply Permutation_singleton_r, NoDup_Permutation; [done | apply NoDup_singleton |]. intros x. rewrite Hl, list_elem_of_singleton.
      split; [by intros [_ ?]%Honly | intros ->]. apply Hsub. by right. }
    cbn [mapM] in Hns. destruct (deferred_note subbed_site (price_key, i)) as [n|]; [|done]. injection Hns as <-.
    exists u', n. split; [exact Hu | exact Hsent].
Defined.

(** An id that is no JSON value comes back as it was: the answer is no JSON text. *)
Example echoed_id :
  exists u2 s2, parse_msg test_stack 5%positive (bs "{" ++ quote ++ bs "id" ++ quote ++ bs ":nope," ++ quote ++ bs "method" ++ quote ++ bs ":1}")
         (test_user, test_site) = Some (u2, s2)
    /\ out (jw_ u2) = bs "{" ++ quote ++ bs "jsonrpc" ++ quote ++ bs ":" ++ quote ++ bs "2.0" ++ quote ++ bs "," ++ quote ++ bs "error" ++ quote
         ++ bs ":{" ++ quote ++ bs "code" ++ quote ++ bs ":-32601," ++ quote ++ bs "message" ++ quote ++ bs ":" ++ quote
         ++ bs "method not found" ++ quote ++ bs "}," ++ quote ++ bs "id" ++ quote ++ bs ":nope}".
Proof. do 2 eexists. split; vm_compute; reflexivity. Qed.
