(* ===== verification/Manager.v ===== *)
(** * The manager ([manager] of [pc/manager.hpp], [pc/manager.cpp])

    The manager keeps the connection to the RPC node, asks for slots and block
    hashes, restarts the discovery of accounts on every new connection, drives
    the schedule and the updates to send, and owns the users.  This file puts the
    parts together: the RPC client ([RpcClient]) with the manager as its
    application, the accounts ([Accounts]), the connections ([Reconnect]) and the
    updates to publish ([Publish]).

    A pointer to an object is the code of what the object is ([addr]).  A price
    is known to [Accounts] by its account and to [Publish] by its object; [view]
    gives [Publish] the members [Accounts] keeps, as they are one object.  What
    the sockets bring during a turn is a list of events. *)

From S2P Require AttrDict PubStats Text Schedule DblList RpcClient Publish Bincode TxSvr.
From S2P Require Import Prelude Reconnect Accounts.
Import RpcClient (ptr, sub, topic, rpc_request, rpc_body, world, clt, heap, log, ticks, nrand, app_, mk_world, set_app, set_clt, upd,
  action, act_send, cb_, err_, body_, sent_ts_, recv_ts_, rid_, get_is_recv, account_of, account_update,
  t_block_hash, t_slot, t_account_info, t_account_update, t_upd_price).
Import Publish (PC_PYTH_RPC_CONNECTED, PC_PYTH_HAS_BLOCK_HASH, PC_PYTH_HAS_MAPPING, pub_world, mgrs, prices, batches, calls, rpc_).
Import Text (PC_NSECS_IN_SEC).

(** ** Objects *)

Inductive obj :=
  | o_mgr | o_slot | o_hash | o_prog | o_accts | o_acc (k : bytes) | o_price (g : ptr) (k : bytes) | o_upd (k : bytes).
#[export] Instance obj_eq_dec : EqDecision obj.
Proof. solve_decision. Defined.
#[export] Instance obj_countable : Countable obj.
Proof.
  apply (inj_countable'
    (fun o => match o with
              | o_mgr => (1%positive, None) | o_slot => (2%positive, None) | o_hash => (3%positive, None)
              | o_prog => (4%positive, None) | o_accts => (5%positive, None) | o_acc k => (6%positive, Some k)
              | o_upd k => (7%positive, Some k) | o_price g k => ((7 + g)%positive, Some k) end)
    (fun x => match x with
              | (1%positive, _) => o_mgr | (2%positive, _) => o_slot | (3%positive, _) => o_hash
              | (4%positive, _) => o_prog | (5%positive, _) => o_accts | (6%positive, Some k) => o_acc k
              | (7%positive, Some k) => o_upd k | (p, Some k) => o_price (p - 7)%positive k | _ => o_mgr end)).
  intros [| | | | |k|g k|k]; try done.
  assert ((7 + g - 7)%positive = g) as Hg by lia.
  destruct (7 + g)%positive as [[[p|p|]|[p|p|]|]|[[p|p|]|[p|p|]|]|] eqn:E; cbn; try (by rewrite Hg); lia.
Defined.
Definition addr (o : obj) : ptr := encode o.
Definition obj_at (p : ptr) : option obj := decode p.
Lemma obj_at_addr o : obj_at (addr o) = Some o.
Proof. apply decode_encode. Qed.

(** ** Users *)

(** The nodes of the users, the open list and the list of those to delete. *)
Record user_lists := mk_users {
  unodes : gmap DblList.ptr DblList.prev_next; olist_ : DblList.dbl_list; dlist_ : DblList.dbl_list }.
Definition no_users : user_lists := mk_users ∅ DblList.new_dbl_list DblList.new_dbl_list.

(** [accept]: the users that could be set up. *)
Definition accept (u : DblList.ptr) (init_ok : bool) (s : user_lists) : option user_lists :=
  if init_ok then
    '(ol, h) ← DblList.add (olist_ s) u (<[u := DblList.new_prev_next]> (unodes s));
    Some (mk_users h ol (dlist_ s))
  else Some s.
Definition del_user (u : DblList.ptr) (s : user_lists) : option user_lists :=
  '(ol, h) ← DblList.del (olist_ s) u (unodes s);
  '(dl, h) ← DblList.add (dlist_ s) u h;
  Some (mk_users h ol dl).

(** [teardown_users]: the users closed and deleted, in order; their number
    bounds the loop. *)
Fixpoint teardown_loop (fuel : nat) (s : user_lists) : option (list DblList.ptr * user_lists) :=
  match DblList.first (dlist_ s) with
  | None => Some ([], s)
  | Some u =>
      match fuel with
      | O => None
      | S fuel' =>
          '(dl, h) ← DblList.del (dlist_ s) u (unodes s);
          '(us, s) ← teardown_loop fuel' (mk_users (delete u h) (olist_ s) dl);
          Some (u :: us, s)
      end
  end.
Definition teardown_users (s : user_lists) : option (list DblList.ptr * user_lists) := teardown_loop (size (unodes s)) s.

(** The loop of [teardown] that moves the open users. *)
Fixpoint close_loop (fuel : nat) (s : user_lists) : option user_lists :=
  match DblList.first (olist_ s) with
  | None => Some s
  | Some u =>
      match fuel with
      | O => None
      | S fuel' => s ← del_user u s; close_loop fuel' s
      end
  end.
Definition close_users (s : user_lists) : option (list DblList.ptr * user_lists) :=
  s ← close_loop (size (unodes s)) s; teardown_users s.

(** ** State *)

(** Callbacks of the [manager_sub], schedules that fire, users that are closed,
    and the capture being flushed. *)
Inductive mgr_event :=
  | me_connect | me_disconnect | me_tx_connect | me_tx_disconnect | me_slot_publish | me_flush
  | me_sched (k : bytes) | me_delete (u : DblList.ptr).

Record mgr := mk_mgr {
  accs : accounts; link_ : rpc_conns; mwait_ : bool; mcts_ : Z; mctimeout_ : Z; tconn_ : tx_connect;
  slot_cnt_ : Z; slot_ts_ : Z; curr_ts_ : Z; users_ : user_lists;
  acks_ : list (ptr * bytes); mlog : list mgr_event }.

Definition set_accs (x : accounts) (a : mgr) : mgr :=
  mk_mgr x (link_ a) (mwait_ a) (mcts_ a) (mctimeout_ a) (tconn_ a) (slot_cnt_ a) (slot_ts_ a) (curr_ts_ a) (users_ a)
    (acks_ a) (mlog a).
Definition upd_accs (f : accounts -> accounts) (a : mgr) : mgr := set_accs (f (accs a)) a.
Definition set_link (c : rpc_conns) (a : mgr) : mgr :=
  mk_mgr (accs a) c (mwait_ a) (mcts_ a) (mctimeout_ a) (tconn_ a) (slot_cnt_ a) (slot_ts_ a) (curr_ts_ a) (users_ a)
    (acks_ a) (mlog a).
Definition set_conn (wait : bool) (cts ctimeout : Z) (a : mgr) : mgr :=
  mk_mgr (accs a) (link_ a) wait cts ctimeout (tconn_ a) (slot_cnt_ a) (slot_ts_ a) (curr_ts_ a) (users_ a)
    (acks_ a) (mlog a).
Definition set_tconn (t : tx_connect) (a : mgr) : mgr :=
  mk_mgr (accs a) (link_ a) (mwait_ a) (mcts_ a) (mctimeout_ a) t (slot_cnt_ a) (slot_ts_ a) (curr_ts_ a) (users_ a)
    (acks_ a) (mlog a).
Definition set_slot_ts (cnt ts : Z) (a : mgr) : mgr :=
  mk_mgr (accs a) (link_ a) (mwait_ a) (mcts_ a) (mctimeout_ a) (tconn_ a) cnt ts (curr_ts_ a) (users_ a)
    (acks_ a) (mlog a).
Definition set_curr_ts (ts : Z) (a : mgr) : mgr :=
  mk_mgr (accs a) (link_ a) (mwait_ a) (mcts_ a) (mctimeout_ a) (tconn_ a) (slot_cnt_ a) (slot_ts_ a) ts (users_ a)
    (acks_ a) (mlog a).
Definition set_users (s : user_lists) (a : mgr) : mgr :=
  mk_mgr (accs a) (link_ a) (mwait_ a) (mcts_ a) (mctimeout_ a) (tconn_ a) (slot_cnt_ a) (slot_ts_ a) (curr_ts_ a) s
    (acks_ a) (mlog a).
Definition set_acks (l : list (ptr * bytes)) (a : mgr) : mgr :=
  mk_mgr (accs a) (link_ a) (mwait_ a) (mcts_ a) (mctimeout_ a) (tconn_ a) (slot_cnt_ a) (slot_ts_ a) (curr_ts_ a) (users_ a)
    l (mlog a).
Definition add_mlog (l : list mgr_event) (a : mgr) : mgr :=
  mk_mgr (accs a) (link_ a) (mwait_ a) (mcts_ a) (mctimeout_ a) (tconn_ a) (slot_cnt_ a) (slot_ts_ a) (curr_ts_ a) (users_ a)
    (acks_ a) (mlog a ++ l).

Definition has_status (s : Z) (a : mgr) : bool := has_bits s (accs a).

(** The options and keys a manager is set up with. *)
Record config := mk_config {
  mapping_key : option bytes; program_key : option bytes; publish_key : option bytes;
  do_ws : bool; do_cap : bool; cmt_ : Z; program_file : bytes }.

(** The constructor, and what [init] starts. *)
Definition new_mgr (ids : AttrDict.attr_id_set) (ws : bool) : mgr :=
  mk_mgr (mk_accounts ∅ [] [] [] 0 0 0 None ids [] Schedule.new_sched [] [])
    (mk_rpc_conns new_tcp_connect (if ws then Some new_ws_link else None)) false 0 PC_NSECS_IN_SEC new_tx_connect
    0 0 0 no_users [] [].
(** The host and ports of the two RPC connections, and the proxy's. *)
Definition PC_TPU_PROXY_PORT : Z := 8898.
Definition PC_RPC_HTTP_PORT : Z := 8899.
Definition rpc_ports (rhost : bytes) : option (bytes * Z * Z) :=
  '(h, rport, wport) ← Text.get_host_port rhost;
  let rport := if rport =? 0 then PC_RPC_HTTP_PORT else rport in
  Some (h, rport, if wport =? 0 then rport + 1 else wport).
Definition tx_port (thost : bytes) : option (bytes * Z) :=
  '(h, tport1, _) ← Text.get_host_port thost;
  Some (h, if tport1 =? 0 then PC_TPU_PROXY_PORT else tport1).
(** The part of [init] that opens the connections: the web socket is not tried
    when the first failed, the proxy only when both stand or are under way. *)
Definition init_conns (do_tx : bool) (e : rpc_env) (te : tcp_env) (a : mgr) : bool * mgr :=
  let '(h, ok) := tcp_init (Reconnect.e_init (e_http e)) (hconn_ (link_ a)) in
  let a := set_link (mk_rpc_conns h (wconn_ (link_ a))) a in
  if negb ok then (false, a) else
  let ws := ws_init (Reconnect.e_init (e_ws e)) <$> wconn_ (link_ a) in
  let a := set_link (mk_rpc_conns h ws) a in
  if match ws with Some w => terr_ (ws_tcp w) | None => false end then (false, a) else
  let '(t, ok) := if do_tx then tcp_init (Reconnect.e_init te) (link (tconn_ a)) else (link (tconn_ a), true) in
  let a := set_tconn (mk_reconn t (has_conn_ (tconn_ a)) (wait_conn_ (tconn_ a)) (cts_ (tconn_ a)) (ctimeout_ (tconn_ a))) a in
  if negb ok then (false, a) else (true, set_conn true (mcts_ a) (mctimeout_ a) a).

(** ** The manager as the application of its RPC client *)

Section manager.
Context {key_cache : Type} (ed25519_sign : key_cache -> bytes -> bytes) (no_cache : key_cache).
Context (clock random : nat -> Z) (host key_pair_file : bytes) (visit : list ptr -> list ptr).
Context (zstd_decompress : bytes -> Z -> Z + bytes) (compress_bound : Z -> Z).
Context (cfg : config).

(** [None] stands for an invalid memory access in a callback. *)
Abbreviation app := (option mgr).
Abbreviation rworld := (world (key_cache := key_cache) (app_t := app)).
Abbreviation send := (RpcClient.send (app_t := app) ed25519_sign clock random host).

Definition PC_BLOCKHASH_TIMEOUT : Z := 3.

(** [on_response( rpc::get_slot * )]; the request for a block hash is sent when
    the callback returns. *)
Definition on_slot (r : rpc_request (key_cache := key_cache)) (a : mgr) : mgr * list (action (key_cache := key_cache)) :=
  match err_ r with
  | Some e => (upd_accs (set_merr (bs "failed to get slot [" ++ e ++ bs "]")) a, [])
  | None =>
      match body_ r with
      | RpcClient.get_slot _ slot =>
          if slot <=? aslot_ (accs a) then (a, []) else
          let cnt := slot_cnt_ a in
          let a := set_slot_ts (u64 (cnt + 1)) (recv_ts_ r) (upd_accs (set_aslot slot) a) in
          let a := if do_cap cfg then add_mlog [me_flush] a else a in
          let a := if has_status PC_PYTH_RPC_CONNECTED a then add_mlog [me_slot_publish] a else a in
          (a, if cnt mod PC_BLOCKHASH_TIMEOUT =? 0 then [act_send (addr o_hash)] else [])
      | _ => (a, [])
      end
  end.

(** [on_response( rpc::get_recent_block_hash * )]. *)
Definition on_block_hash (r : rpc_request (key_cache := key_cache)) (a : mgr) : mgr :=
  match err_ r with
  | Some e => upd_accs (set_merr (bs "failed to get recent block hash [" ++ e ++ bs "]")) a
  | None =>
      if has_status PC_PYTH_HAS_BLOCK_HASH a then a
      else upd_accs (fun w => set_astatus (Z.lor (astatus_ w) PC_PYTH_HAS_BLOCK_HASH) w) a
  end.

Definition res_of (r : rpc_request (key_cache := key_cache)) : option response :=
  mk_response (err_ r) <$> account_of (body_ r).
(** The handlers of [Accounts] on the accounts of a manager. *)
Definition on_accs (f : accounts -> option accounts) (a : mgr) : option mgr := (fun x => set_accs x a) <$> f (accs a).

Definition react (oa : app) (s : sub) (t : topic) (r : rpc_request (key_cache := key_cache))
  : app * list (action (key_cache := key_cache)) :=
  match oa with
  | None => (None, [])
  | Some a =>
      match obj_at s, t with
      | Some o_mgr, t_slot => let '(a, acts) := on_slot r a in (Some a, acts)
      | Some o_mgr, t_block_hash => (Some (on_block_hash r a), [])
      | Some o_mgr, t_account_update =>
          (res ← res_of r;
           on_accs (on_update zstd_decompress compress_bound (publish_key cfg) (do_cap cfg) res) a, [])
      | Some (o_acc k), t_account_info =>
          (res ← res_of r;
           on_accs (on_info zstd_decompress compress_bound (publish_key cfg) (do_cap cfg) k res) a, [])
      | Some (o_price g k), t_upd_price =>
          (match body_ r with
           | RpcClient.upd_price _ _ ack => Some (set_acks (acks_ a ++ [(s, ack)]) a)
           | _ => Some a
           end, [])
      | _, _ => (oa, [])
      end
  end.
(** The interfaces the objects implement. *)
Definition casts (s : sub) (t : topic) : bool :=
  match obj_at s, t with
  | Some o_mgr, (t_slot | t_block_hash | t_account_update) | Some (o_acc _), t_account_info
  | Some (o_price _ _), t_upd_price => true
  | _, _ => false
  end.

Definition parse_response : bytes -> rworld -> option rworld :=
  RpcClient.parse_response ed25519_sign react casts clock random host visit.

Definition with_mgr (f : mgr -> option mgr) (w : rworld) : option rworld :=
  a ← app_ w; a ← f a; Some (set_app (Some a) w).

(** ** Pending requests *)

(** The request object of an account, its commitment and account set. *)
Definition account_body (k : bytes) (b : rpc_body (key_cache := key_cache)) : rpc_body (key_cache := key_cache) :=
  match b with
  | RpcClient.get_account_info u epoch owner is_exec =>
      RpcClient.get_account_info (RpcClient.set_account k (RpcClient.set_commitment (cmt_ cfg) u)) epoch owner is_exec
  | _ => b
  end.
Definition new_account_request : rpc_request (key_cache := key_cache) :=
  RpcClient.new_rpc_request (RpcClient.get_account_info RpcClient.new_account_update 0 KeyPair.hash_zero false).
Definition ask (k : bytes) (w : rworld) : option rworld :=
  let p := addr (o_acc k) in
  let r := default new_account_request (heap w !! p) in
  send p (mk_world (clt w) (<[p := RpcClient.set_sub (Some p) (RpcClient.set_body (account_body k (body_ r)) r)]> (heap w))
            (log w) (ticks w) (nrand w) (app_ w)).
Fixpoint ask_all (ks : list bytes) (w : rworld) : option rworld :=
  match ks with [] => Some w | k :: ks' => w ← ask k w; ask_all ks' w end.

Definition clear_sent (x : accounts) : accounts :=
  mk_accounts (amap_ x) (mvec_ x) (svec_ x) (plist_ x) (astatus_ x) (num_sub_ x) (aslot_ x) (merr_ x) (attr_ids x) (zbuf_ x)
    (sched_ x) [] (events x).
(** The loop of [poll] that submits what is ready. *)
Definition submit_ready (w : rworld) : option rworld :=
  a ← app_ w;
  let x := poll_submit (accs a) in
  ask_all (sent_ x) (set_app (Some (set_accs (clear_sent x) a)) w).

(** The requests for the slot and, without web socket, for the program's
    accounts. *)
Definition PC_SLOT_INTERVAL : Z := 200 * 1000000.
Definition send_when_recv (p : ptr) (w : rworld) : option rworld :=
  r ← heap w !! p;
  a ← app_ w;
  if get_is_recv r && has_status PC_PYTH_RPC_CONNECTED a then send p w else Some w.
Definition slot_request (w : rworld) : option rworld :=
  a ← app_ w;
  if PC_SLOT_INTERVAL <? curr_ts_ a - slot_ts_ a then
    w ← send_when_recv (addr o_slot) w;
    if do_ws cfg then Some w else send_when_recv (addr o_accts) w
  else Some w.

Definition poll_schedule (a : mgr) : mgr :=
  let '(l, s) := Schedule.poll_schedule (curr_ts_ a) (sched_ (accs a)) in
  add_mlog (me_sched <$> (Schedule.sk_ <$> l)) (upd_accs (set_sched s) a).

(** ** The connection to the proxy *)

Definition tx_mlog (e : tx_event) : mgr_event :=
  match e with ev_on_connect => me_tx_connect | ev_on_disconnect => me_tx_disconnect end.
Definition reconnect_tx (do_tx : bool) (ts : Z) (e : tcp_env) (a : mgr) : mgr :=
  if do_tx && (negb (get_is_connect (tconn_ a)) || terr_ (link (tconn_ a))) then
    let '(t, l) := tx_reconnect ts e (tconn_ a) in add_mlog (tx_mlog <$> l) (set_tconn t a)
  else a.

(** ** The connection to the RPC node *)

(** The subscription to the program's accounts. *)
Definition program_body (g : bytes) (b : rpc_body (key_cache := key_cache)) : rpc_body (key_cache := key_cache) :=
  match b with
  | RpcClient.program_subscribe u _ => RpcClient.program_subscribe (RpcClient.set_commitment (cmt_ cfg) u) g
  | RpcClient.get_program_accounts u _ ty =>
      RpcClient.get_program_accounts (RpcClient.set_commitment (cmt_ cfg) u) g ty
  | _ => b
  end.
Definition subscribe_program (w : rworld) : option rworld :=
  match program_key cfg with
  | None => with_mgr (fun a => Some (upd_accs (set_merr
              (bs "missing or invalid program public key [" ++ program_file cfg ++ bs "]")) a)) w
  | Some g =>
      if do_ws cfg then
        w ← upd (addr o_prog) (fun r => RpcClient.set_body (program_body g (body_ r)) r) w;
        send (addr o_prog) w
      else upd (addr o_accts) (fun r => RpcClient.set_body (program_body g (body_ r)) r) w
  end.

(** The branch of [reconnect_rpc] for a connection that stands. *)
Definition on_connected (w : rworld) : option rworld :=
  w ← with_mgr (fun a => Some (set_slot_ts 0 0 (set_conn false (mcts_ a) PC_NSECS_IN_SEC a)))
        (set_clt (RpcClient.reset (clt w)) w);
  w ← send (addr o_slot) w;
  w ← subscribe_program w;
  with_mgr (fun a => Some (add_mlog [me_connect] (upd_accs (restart (mapping_key cfg)) a))) w.

(** The branch for a connection that failed, at time [ts]. *)
Definition on_failed (ts : Z) (e : rpc_env) (a : mgr) : mgr :=
  let up := has_status PC_PYTH_RPC_CONNECTED a in
  let a := if mwait_ a || up then set_conn false (mcts_ a) (mctimeout_ a) a else a in
  let a := if up then add_mlog [me_disconnect] a else a in
  let a := upd_accs (set_astatus 0) a in
  if ts - mcts_ a <? mctimeout_ a then a else
  set_link (init e (link_ a))
    (set_conn true ts (Z.min (mctimeout_ a + mctimeout_ a) PC_RECONNECT_TIMEOUT) a).

Definition reconnect_rpc (ts : Z) (e : rpc_env) (w : rworld) : option rworld :=
  a ← app_ w;
  let c := if get_is_wait (link_ a) then check e (link_ a) else link_ a in
  let w := set_app (Some (set_link c a)) w in
  if get_is_wait c then Some w
  else if negb (get_is_err c) then on_connected w
  else with_mgr (fun a => Some (on_failed ts e a)) w.

(** ** What the sockets bring *)

Inductive sock_event :=
  | s_text (txt : bytes) | s_http_fail | s_ws_fail | s_tx_fail
  | s_accept (u : DblList.ptr) (init_ok : bool) | s_del (u : DblList.ptr) | s_sched (k : bytes)
  | s_tx_text.

Definition fail (c : tcp_connect) : tcp_connect := mk_tcp_connect (wait_ c) (sts_ c) true.
Definition upd_users (f : user_lists -> option user_lists) (a : mgr) : option mgr := (fun s => set_users s a) <$> f (users_ a).

(** An RPC text, a connection that fails, a client that connects or leaves or
    subscribes to a price's schedule (what [User.parse_sub_price_sched] does to
    the manager's accounts), a text from the proxy. *)
Definition on_event (ev : sock_event) (w : rworld) : option rworld :=
  match ev with
  | s_text txt => parse_response txt w
  | s_http_fail =>
      with_mgr (fun a => Some (set_link (mk_rpc_conns (fail (hconn_ (link_ a))) (wconn_ (link_ a))) a)) w
  | s_ws_fail =>
      with_mgr (fun a => Some (set_link (mk_rpc_conns (hconn_ (link_ a))
        ((fun x => mk_ws_link (fail (ws_tcp x)) (hs_ x)) <$> wconn_ (link_ a))) a)) w
  | s_tx_fail =>
      with_mgr (fun a => let t := tconn_ a in
        Some (set_tconn (mk_reconn (fail (link t)) (has_conn_ t) (wait_conn_ t) (cts_ t) (ctimeout_ t)) a)) w
  | s_accept u ok => with_mgr (upd_users (accept u ok)) w
  | s_del u => with_mgr (upd_users (del_user u)) w
  | s_sched k => with_mgr (fun a => Some (upd_accs (get_sched k) a)) w
  | s_tx_text => with_mgr (fun a => Some (upd_accs (set_merr (bs "not a pyth_tx server - please check address")) a)) w
  end.
Fixpoint on_events (evs : list sock_event) (w : rworld) : option rworld :=
  match evs with [] => Some w | ev :: evs' => w ← on_event ev w; on_events evs' w end.

(** ** One turn *)

(** What a turn meets: the events, the times the clock gives, and what the system
    calls of the connections return. *)
Record turn := mk_turn {
  t_events : list sock_event; t_now : Z; t_tx_now : Z; t_now2 : Z; t_rpc : rpc_env; t_tx : tcp_env }.

Definition poll_users (a : mgr) : option mgr :=
  '(us, s) ← teardown_users (users_ a); Some (add_mlog (me_delete <$> us) (set_users s a)).

(** [poll] up to the connections. *)
Definition poll_rpc (do_tx : bool) (t : turn) (w : rworld) : option rworld :=
  w ← on_events (t_events t) w;
  w ← submit_ready w;
  w ← with_mgr (fun a => a ← poll_users a; Some (set_curr_ts (t_now t) a)) w;
  w ← slot_request w;
  with_mgr (fun a => Some (reconnect_tx do_tx (t_tx_now t) (t_tx t) (poll_schedule a))) w.

(** *** The members [Publish] sees *)

Definition hash_of (w : rworld) (old : bytes) : bytes :=
  match heap w !! addr o_hash with
  | Some r => match body_ r with RpcClient.get_recent_block_hash _ h _ => h | _ => old end
  | None => old
  end.
Definition view_mgr (m : Publish.manager) : option Publish.manager :=
  a ← app_ (rpc_ m);
  Some (Publish.mk_manager (rpc_ m) (Publish.tx_out m) (astatus_ (accs a)) (Publish.do_tx_ m)
          (get_is_connect (tconn_ a)) (aslot_ (accs a)) (Publish.max_batch_ m) (Publish.cu_units_ m) (Publish.cu_price_ m)
          (hash_of (rpc_ m) (Publish.block_hash m)) (Publish.pkey_pair m) (Publish.gpub_ m)
          (Publish.pending_upds_ m) (Publish.last_upd_ts_ m)).
(** A price object: made with its account, its state and index those of the
    account. *)
Definition view_price (g : ptr) (k : bytes) (x : price_acc) (old : option Publish.price) : Publish.price :=
  match old with
  | Some pr => Publish.mk_price (Publish.mgr_ pr) (Publish.preq_ pr) (Publish.init_ pr) (px_st x) (px_idx x)
                 (Publish.last_slot_ pr) (Publish.tvec_ pr) (Publish.stats_ pr) (Publish.perr_ pr)
  | None => Publish.mk_price g (addr (o_upd k)) false (px_st x) (px_idx x) 0 [] PubStats.clear_stats None
  end.
Definition new_upd (g : ptr) (k : bytes) : rpc_request (key_cache := key_cache) :=
  RpcClient.set_sub (Some (addr (o_price g k)))
    (RpcClient.new_rpc_request (RpcClient.upd_price
       (Bincode.mk_upd_price [] no_cache [] [] k 0 0 0 Bincode.e_cmd_upd_price_no_fail_on_error 0) [] [])).
Definition view_prices (g : ptr) (am : gmap bytes node) (ps : gmap ptr Publish.price) : gmap ptr Publish.price :=
  map_fold (fun k n ps => match acct_ n with
                          | a_price x => <[addr (o_price g k) := view_price g k x (ps !! addr (o_price g k))]> ps
                          | _ => ps
                          end) ps am.
Definition view_reqs (g : ptr) (am : gmap bytes node) (h : gmap ptr (rpc_request (key_cache := key_cache)))
  : gmap ptr rpc_request :=
  map_fold (fun k n h => match acct_ n, h !! addr (o_upd k) with
                         | a_price _, None => <[addr (o_upd k) := new_upd g k]> h
                         | _, _ => h
                         end) h am.

Abbreviation pworld := (pub_world (key_cache := key_cache) (app_t := app)).
Definition view (g : ptr) (w : pworld) : option pworld :=
  m ← mgrs w !! g;
  a ← app_ (rpc_ m);
  m ← view_mgr m;
  let r := rpc_ m in
  let m := Publish.set_rpc (mk_world (clt r) (view_reqs g (amap_ (accs a)) (heap r)) (log r) (ticks r) (nrand r) (app_ r)) m in
  Some (Publish.mk_pub_world (<[g := m]> (mgrs w)) (view_prices g (amap_ (accs a)) (prices w)) (batches w) (calls w)).

(** The acknowledgements of price updates go to the price objects. *)
Fixpoint on_acks (l : list (ptr * bytes)) (w : pworld) : option pworld :=
  match l with
  | [] => Some w
  | (p, txid) :: l' => w ← Publish.on_ack txid p w; on_acks l' w
  end.
Definition deliver_acks (g : ptr) (w : pworld) : option pworld :=
  m ← mgrs w !! g;
  a ← app_ (rpc_ m);
  w ← Publish.upd_mgr_at g (fun m => Some (Publish.set_rpc (set_app (Some (set_acks [] a)) (rpc_ m)) m)) w;
  on_acks (acks_ a) w.

Definition on_rpc (g : ptr) (f : rworld -> option rworld) (w : pworld) : option pworld :=
  Publish.upd_mgr_at g (fun m => r ← f (rpc_ m); Some (Publish.set_rpc r m)) w.

(** Whether updates are sent in this turn. *)
Definition can_send (a : mgr) : bool := has_status PC_PYTH_RPC_CONNECTED a && negb (get_is_err (link_ a)).

(** [poll] of the manager [g]. *)
Definition poll (g : ptr) (t : turn) (w : pworld) : option pworld :=
  m ← mgrs w !! g;
  w ← on_rpc g (poll_rpc (Publish.do_tx_ m) t) w;
  w ← view g w;
  w ← deliver_acks g w;
  m ← mgrs w !! g;
  a ← app_ (rpc_ m);
  if can_send a then
    Publish.send_pending_ups ed25519_sign clock random host key_pair_file (program_file cfg) g (t_now2 t) w
  else w ← on_rpc g (reconnect_rpc (t_now2 t) (t_rpc t)) w; view g w.

(** *** Loops of turns *)

Definition get_err (g : ptr) (w : pworld) : option bool :=
  m ← mgrs w !! g; a ← app_ (rpc_ m); Some (bool_decide (is_Some (merr_ (accs a)))).
Definition status_at (g : ptr) (s : Z) (w : pworld) : option bool :=
  m ← mgrs w !! g; a ← app_ (rpc_ m); Some (has_status s a).

(** [bootstrap] over the turns [ts]: whether it ended without error. *)
Definition boot_status : Z :=
  Z.lor (Z.lor PC_PYTH_RPC_CONNECTED PC_PYTH_HAS_BLOCK_HASH)
    (match mapping_key cfg with Some _ => PC_PYTH_HAS_MAPPING | None => 0 end).
Fixpoint boot_loop (g : ptr) (ts : list turn) (w : pworld) : option (list turn * pworld) :=
  e ← get_err g w;
  s ← status_at g boot_status w;
  if (e : bool) || (s : bool) then Some (ts, w) else
  match ts with [] => None | t :: ts' => w ← poll g t w; boot_loop g ts' w end.
Definition bootstrap (g : ptr) (ts : list turn) (w : pworld) : option (bool * pworld) :=
  '(ts, w) ← boot_loop g ts w;
  m ← mgrs w !! g;
  a ← app_ (rpc_ m);
  w ← (if Publish.do_tx_ m && negb (get_is_connect (tconn_ a))
       then match ts with [] => None | t :: _ => poll g t w end else Some w);
  e ← get_err g w;
  Some (negb e, w).
End manager.

(** ** The secondary manager *)

(** [add_secondary]: the keys are those of the other directory, the updates go out
    with the default options. *)
Definition PC_MAX_BATCH : Z := 8.
Definition PC_UPD_PRICE_COMPUTE_UNITS : Z := 20000.
Definition secondary_config (cfg keys : config) : config :=
  mk_config (mapping_key keys) (program_key keys) (publish_key keys) (do_ws cfg) false (cmt_ cfg) (program_file keys).
Definition new_secondary {key_cache} (do_tx : bool) (keys : option (bytes * key_cache)) (gpub : option bytes)
  (w : world (key_cache := key_cache) (app_t := option mgr)) : Publish.manager :=
  Publish.mk_manager w [] 0 do_tx false 0 PC_MAX_BATCH PC_UPD_PRICE_COMPUTE_UNITS 0 [] keys gpub [] 0.

(** [poll] with a secondary manager [g2]. *)
Definition poll_both {key_cache} (ed25519_sign : key_cache -> bytes -> bytes) (no_cache : key_cache) (clock random : nat -> Z)
  (host key_pair_file : bytes) (visit : list ptr -> list ptr) (zstd_decompress : bytes -> Z -> Z + bytes) (compress_bound : Z -> Z)
  (cfg keys : config) (g g2 : ptr) (t t2 : turn) (w : pub_world (key_cache := key_cache) (app_t := option mgr)) : option pub_world :=
  w ← poll ed25519_sign no_cache clock random host key_pair_file visit zstd_decompress compress_bound cfg g t w;
  poll ed25519_sign no_cache clock random host key_pair_file visit zstd_decompress compress_bound (secondary_config cfg keys) g2 t2 w.
