(* ===== verification/ManagerSpec.v ===== *)
From S2P Require AttrDict PubStats Text Schedule DblList RpcClient RpcFrame Publish Bincode Discovery.
From S2P Require Import Prelude Reconnect Accounts Manager.
Import RpcClient (ptr, sub, topic, rpc_request, rpc_body, world, clt, heap, log, ticks, nrand, app_, mk_world, set_app, set_clt, upd,
  action, act_send, cb_, err_, body_, sent_ts_, recv_ts_, rid_, get_is_recv, account_of, account_update,
  t_block_hash, t_slot, t_account_info, t_account_update, t_upd_price).
Import Publish (PC_PYTH_RPC_CONNECTED, PC_PYTH_HAS_BLOCK_HASH, PC_PYTH_HAS_MAPPING, pub_world, mgrs, prices, batches, calls, rpc_).
Import Text (PC_NSECS_IN_SEC).

(** ** Users *)

(** The open users and those to delete, in order. *)
Record users_ok (s : user_lists) (o d : list DblList.ptr) : Prop := {
  uo_open : DblList.dlist (unodes s) (olist_ s) o;
  uo_dead : DblList.dlist (unodes s) (dlist_ s) d;
  uo_nodup : NoDup (o ++ d);
  uo_dom u : is_Some (unodes s !! u) <-> u ∈ o ++ d }.

Lemma dlist_agree h h' l xs : (forall x, x ∈ xs -> h' !! x = h !! x) -> DblList.dlist h l xs -> DblList.dlist h' l xs.
Proof. intros Ha [A B C D]. split; try done. by eapply DblList.seg_agree. Qed.
Lemma dlist_in h l xs x : DblList.dlist h l xs -> x ∈ xs -> is_Some (h !! x).
Proof. intros [_ _ _ D]. by eapply DblList.seg_in. Qed.
Lemma no_users_ok : users_ok no_users [] [].
Proof.
  split; [apply DblList.new_dlist | apply DblList.new_dlist | constructor|]. intros u. cbn [unodes no_users app].
  rewrite lookup_empty, elem_of_nil. split; [by intros []| done].
Qed.

Lemma accept_users u s o d :
  users_ok s o d -> u ∉ o ++ d -> exists s', accept u true s = Some s' /\ users_ok s' (o ++ [u]) d.
Proof.
  intros [Ho Hd Hn Hm] Hu. pose proof Hu as [Huo Hud]%not_elem_of_app. unfold accept.
  set (h0 := <[u := DblList.new_prev_next]> (unodes s)).
  assert (forall x, x ≠ u -> h0 !! x = unodes s !! x) as Hh by (intros x Hx; by apply lookup_insert_ne).
  assert (DblList.dlist h0 (olist_ s) o) as Ho0 by (eapply dlist_agree; [|exact Ho]; intros x Hx; apply Hh; by intros ->).
  destruct (DblList.add_dlist h0 (olist_ s) o u Ho0 Huo) as (l' & h' & -> & Hl & Hs).
  { unfold h0. rewrite lookup_insert_eq. eauto. }
  cbn [mbind option_bind]. eexists. split; [reflexivity|].
  assert (forall x, x ∉ o ++ [u] -> h' !! x = unodes s !! x) as Hout.
  { intros x Hx. rewrite (Hs x Hx). apply Hh. intros ->. apply Hx, elem_of_app. right. by left. }
  assert (NoDup ((o ++ [u]) ++ d)) as Hn'.
  { rewrite <- app_assoc, (Permutation_app_comm [u] d), app_assoc. apply NoDup_app. split_and!; [done | |apply NoDup_singleton].
    intros x Hx ->%list_elem_of_singleton. done. }
  assert (forall x, x ∈ d -> x ∉ o ++ [u]) as Hdis.
  { intros x Hx Hx'. apply NoDup_app in Hn' as (_ & Hdj & _). exact (Hdj x Hx' Hx). }
  split; cbn [unodes olist_ dlist_]; [exact Hl | | exact Hn' |].
  - eapply dlist_agree; [|exact Hd]. intros x Hx. by apply Hout, Hdis.
  - intros x. destruct (decide (x ∈ o ++ [u])) as [Hx|Hx].
    + split; intros _; [apply elem_of_app; by left | by eapply dlist_in].
    + rewrite (Hout x Hx), Hm, !elem_of_app. rewrite elem_of_app in Hx. tauto.
Qed.

Definition without (u : DblList.ptr) (l : list DblList.ptr) : list DblList.ptr := filter (fun x => x <> u) l.
Lemma without_id u l : u ∉ l -> without u l = l.
Proof.
  unfold without. induction l as [|x l IH]; [done|]. intros [Hx Hl]%not_elem_of_cons.
  rewrite filter_cons_True by done. by rewrite IH.
Qed.
Lemma without_split u xs ys : u ∉ xs -> u ∉ ys -> without u (xs ++ u :: ys) = xs ++ ys.
Proof.
  intros Hx Hy. unfold without. rewrite filter_app, filter_cons_False by (by intros H).
  fold (without u xs) (without u ys). by rewrite !without_id.
Qed.

Lemma del_users u s o d :
  users_ok s o d -> u ∈ o -> exists s', del_user u s = Some s' /\ users_ok s' (without u o) (d ++ [u]).
Proof.
  intros [Ho Hd Hn Hm] Hu. apply list_elem_of_split in Hu as (xs & ys & ->). unfold del_user.
  pose proof Hn as (Hn1 & Hdj & Hnd)%NoDup_app.
  pose proof Hn1 as (Hnx & Hxy & [Huy Hny]%NoDup_cons)%NoDup_app.
  assert (u ∉ xs) as Hux by (intros H; apply (Hxy u H); by left).
  assert (u ∉ d) as Hud by (apply Hdj, elem_of_app; right; by left).
  rewrite (without_split u xs ys Hux Huy).
  destruct (DblList.del_dlist _ _ xs ys u Ho) as (l1 & h1 & -> & Hl1 & Hu1 & Hs1). cbn [mbind option_bind].
  assert (DblList.dlist h1 (dlist_ s) d) as Hd1.
  { eapply dlist_agree; [|exact Hd]. intros x Hx. apply Hs1. intros Hx'. exact (Hdj x Hx' Hx). }
  destruct (DblList.add_dlist h1 (dlist_ s) d u Hd1 Hud) as (l2 & h2 & -> & Hl2 & Hs2).
  { rewrite Hu1. eapply dlist_in; [exact Ho|]. apply elem_of_app. right; by left. }
  cbn [mbind option_bind]. eexists. split; [reflexivity|].
  assert ((xs ++ ys) ++ d ++ [u] ≡ₚ (xs ++ u :: ys) ++ d) as Hp.
  { rewrite <- !app_assoc. apply Permutation_app_head. cbn [app]. rewrite app_assoc. symmetry. apply Permutation_cons_append. }
  split; cbn [unodes olist_ dlist_].
  - eapply dlist_agree; [|exact Hl1]. intros x Hx. apply Hs2. intros [Hx'|Hx']%elem_of_app.
    + refine (Hdj x _ Hx'). apply elem_of_app in Hx as [Hx|Hx]; apply elem_of_app; [by left | right; by right].
    + apply list_elem_of_singleton in Hx' as ->. apply elem_of_app in Hx as [?|?]; done.
  - exact Hl2.
  - by rewrite Hp.
  - intros x. rewrite Hp, <- Hm. destruct (decide (x ∈ d ++ [u])) as [Hx|Hx].
    + split; intros _; [|by eapply dlist_in]. apply Hm. rewrite <- Hp. apply elem_of_app. by right.
    + rewrite (Hs2 x Hx). destruct (decide (x ∈ xs ++ u :: ys)) as [Hx'|Hx']; [|by rewrite (Hs1 x Hx')].
      split; intros _; [exact (dlist_in _ _ _ _ Ho Hx')|]. apply (dlist_in _ _ _ x Hl1).
      apply elem_of_app in Hx' as [?|[->|?]%elem_of_cons]; [apply elem_of_app; by left | | apply elem_of_app; by right].
      destruct Hx. apply elem_of_app. right. by left.
Qed.

(** The nodes of a deleted user are gone; the others stay. *)
Lemma teardown_loop_ok fuel s o d :
  users_ok s o d -> (length d <= fuel)%nat ->
  exists s', teardown_loop fuel s = Some (d, s') /\ users_ok s' o [].
Proof.
  revert s d; induction fuel as [|fuel IH]; intros s d Hs Hf; (destruct d as [|u d];
    [exists s; split; [|done]; pose proof (DblList.dlist_hd _ _ _ (uo_dead _ _ _ Hs)) as Hh; cbn [head] in Hh;
     cbn [teardown_loop]; unfold DblList.first; by rewrite Hh|]); [cbn in Hf; lia|].
  pose proof Hs as [Ho Hd Hn Hm]. pose proof (DblList.dlist_hd _ _ _ Hd) as Hh. cbn [head] in Hh.
  cbn [teardown_loop]. unfold DblList.first. rewrite Hh.
  destruct (DblList.del_dlist _ _ [] d u Hd) as (l' & h' & -> & Hl & Hu & Hs'). cbn [mbind option_bind app] in *.
  assert (u ∉ o ++ d) as Hu'.
  { rewrite <- (Permutation_middle o d u) in Hn. by apply NoDup_cons in Hn as [? _]. }
  assert (forall x, x ∈ o -> x ∉ u :: d) as Hdis by (by apply NoDup_app in Hn as (_ & Hdj & _)).
  destruct (IH (mk_users (delete u h') (olist_ s) l') d) as (s' & E & Hs2).
  - split; cbn [unodes olist_ dlist_].
    + eapply dlist_agree; [|exact Ho]. intros x Hx. rewrite lookup_delete_ne; [by apply Hs', Hdis|].
      intros ->. apply (Hdis x Hx). by left.
    + eapply dlist_agree; [|exact Hl]. intros x Hx. apply lookup_delete_ne. intros ->. apply Hu', elem_of_app. by right.
    + rewrite <- (Permutation_middle o d u) in Hn. by apply NoDup_cons in Hn as [_ ?].
    + intros x. destruct (decide (x = u)) as [->|Hx].
      { rewrite lookup_delete_eq. split; [by intros []|]. intros H. by destruct Hu'. }
      rewrite lookup_delete_ne by done. specialize (Hm x). rewrite <- (Permutation_middle o d u), elem_of_cons in Hm.
      assert (is_Some (h' !! x) <-> is_Some (unodes s !! x)) as ->; [|rewrite Hm; by split; [intros [?|?]|right]].
      destruct (decide (x ∈ u :: d)) as [Hin|Hout]; [|by rewrite (Hs' x Hout)].
      split; intros _; [exact (dlist_in _ _ _ _ Hd Hin)|]. apply (dlist_in _ _ _ x Hl). by apply elem_of_cons in Hin as [?|?].
  - cbn in Hf. lia.
  - rewrite E. cbn [mbind option_bind]. exists s'. done.
Qed.
Lemma dead_fuel s o d : users_ok s o d -> (length d <= size (unodes s))%nat.
Proof.
  intros [_ _ Hn Hm]. apply NoDup_app in Hn as (_ & _ & Hn). rewrite <- (size_list_to_set (C := gset positive) d Hn), <- size_dom.
  apply subseteq_size. intros x Hx%elem_of_list_to_set. apply elem_of_dom, Hm, elem_of_app. by right.
Qed.

(** What clients do: they connect, as new users, or leave, if they are open. *)
Definition client_ok (ev : sock_event) (o d : list positive) : Prop :=
  match ev with s_accept u ok => u ∉ o ++ d | s_del u => u ∈ o | _ => True end.
Definition client_lists (ev : sock_event) (od : list positive * list positive) : list positive * list positive :=
  match ev with
  | s_accept u true => (od.1 ++ [u], od.2)
  | s_del u => (without u od.1, od.2 ++ [u])
  | _ => od
  end.
Fixpoint clients_ok (evs : list sock_event) (o d : list positive) : Prop :=
  match evs with
  | [] => True
  | ev :: evs' => client_ok ev o d /\ let '(o, d) := client_lists ev (o, d) in clients_ok evs' o d
  end.
Definition deleted (l : list mgr_event) : list positive := omap (fun e => match e with me_delete u => Some u | _ => None end) l.

(** ** What the handlers of accounts leave to the manager *)

Section frame.
Context (zstd_decompress : bytes -> Z -> Z + bytes) (compress_bound : Z -> Z) (publish_key : option bytes) (do_cap : bool).

(** The slot, and the status but for [PC_PYTH_HAS_MAPPING]. *)
Definition head (x : accounts) : Z * Z := (aslot_ x, Z.land (astatus_ x) 3).

Lemma head_upd k f x : head (upd_node k f x) = head x. Proof. done. Qed.
Lemma head_merr e x : head (set_merr e x) = head x. Proof. done. Qed.
Lemma head_zbuf z x : head (set_zbuf z x) = head x. Proof. done. Qed.
Lemma head_ids i x : head (set_ids i x) = head x. Proof. done. Qed.
Lemma head_sched s x : head (set_sched s x) = head x. Proof. done. Qed.
Lemma head_plist l x : head (set_plist l x) = head x. Proof. done. Qed.
Lemma head_sent k x : head (add_sent k x) = head x. Proof. done. Qed.
Lemma head_event e x : head (add_event e x) = head x. Proof. done. Qed.
Lemma head_capture k x : head (capture do_cap k x) = head x. Proof. unfold capture. by destruct do_cap. Qed.
Lemma head_add_map_sub x : head (add_map_sub x) = head x. Proof. done. Qed.
Lemma head_submit r x : head (Accounts.submit r x) = head x.
Proof.
  unfold Accounts.submit. destruct r as [k|k]; destruct (amap_ x !! k) as [[[m|p|y] b v e]|]; cbn; try done;
    try (by destruct b). by destruct (sched_submit y).
Qed.
Lemma land_mapping s : Z.land (Z.lor s PC_PYTH_HAS_MAPPING) 3 = Z.land s 3.
Proof. rewrite Z.land_lor_distr_l. change (Z.land PC_PYTH_HAS_MAPPING 3) with 0. apply Z.lor_0_r. Qed.
Lemma head_del_map_sub x : head (del_map_sub x) = head x.
Proof.
  unfold del_map_sub. destruct (_ && _); [|done]. unfold head. cbn [aslot_ astatus_ add_event set_astatus set_num_sub].
  by rewrite land_mapping.
Qed.
Create Rewrite HintDb head.
Hint Rewrite head_upd head_merr head_zbuf head_ids head_sched head_plist head_sent head_event head_capture head_add_map_sub
  head_submit head_del_map_sub : head.

Lemma head_add_mapping k x : head (add_mapping k x) = head x.
Proof. unfold add_mapping. destruct (known k x); [done|]. by autorewrite with head. Qed.
Lemma head_add_product k x : head (add_product k x) = head x.
Proof. unfold add_product. destruct (known k x); [done|]. by autorewrite with head. Qed.
Lemma head_add_price k prod x : head (add_price compress_bound k prod x) = head x.
Proof. unfold add_price. destruct (known k x); [done|]. by autorewrite with head. Qed.
Hint Rewrite head_add_mapping head_add_product head_add_price : head.
Lemma head_add_products n i tab x x' : add_products n i tab x = Some x' -> head x' = head x.
Proof.
  revert i x; induction n as [|n IH]; intros i x H; cbn [add_products] in H; [by injection H as <-|].
  unbind H. apply IH in H. by autorewrite with head in H.
Qed.

(** Every branch of a handler. *)
Ltac heads H :=
  repeat first [progress (unbind H) | match type of H with (if ?b then _ else _) = _ => destruct b end];
  try (injection H as <-); autorewrite with head.

Lemma head_read_mapping k m tab x x' : read_mapping do_cap k m tab x = Some x' -> head x' = head x.
Proof.
  unfold read_mapping. intros H. heads H.
  match goal with E : add_products _ _ _ _ = Some _ |- _ => apply head_add_products in E; autorewrite with head in E; rename E into Ha end.
  destruct (map_st m), (is_zero_key _); autorewrite with head; exact Ha.
Qed.
Lemma head_update_mapping k m res x x' :
  update_mapping zstd_decompress compress_bound do_cap k m res x = Some x' -> head x' = head x.
Proof.
  unfold update_mapping. intros H. destruct (rerr res); [by injection H as <-|].
  destruct (RpcClient.get_data_ref _ _ _ _) as [len tab]. heads H; try done.
  all: apply head_read_mapping in H; rewrite H; destruct (_ =? PC_VERSION); by autorewrite with head.
Qed.
Lemma head_read_product k p prod x x' : read_product compress_bound do_cap k p prod x = Some x' -> head x' = head x.
Proof. unfold read_product. intros H. heads H. destruct (prod_st p), (is_zero_key _); by autorewrite with head. Qed.
Lemma head_update_product k p res x x' :
  update_product zstd_decompress compress_bound do_cap k p res x = Some x' -> head x' = head x.
Proof.
  unfold update_product, product_error. intros H. destruct (rerr res); [by injection H as <-|].
  destruct (RpcClient.get_data_ref _ _ _ _) as [len tab]. heads H; try done.
  apply head_read_product in H. rewrite H. by autorewrite with head.
Qed.
Lemma head_update_pub k m x x' : update_pub publish_key k m x = Some x' -> head x' = head x.
Proof. unfold update_pub. intros H. by heads H. Qed.
Lemma head_init_subscribe k prod m x x' :
  init_subscribe compress_bound publish_key k prod m x = Some x' -> head x' = head x.
Proof.
  unfold init_subscribe. intros H. heads H.
  match goal with E : update_pub _ _ _ _ = Some _ |- _ => apply head_update_pub in E; autorewrite with head in E; rename E into Hp end.
  destruct (is_zero_key _); by autorewrite with head.
Qed.
Lemma head_new_aggregate k y idx m slot x x' : new_aggregate do_cap k y idx m slot x = Some x' -> head x' = head x.
Proof.
  unfold new_aggregate. intros H. heads H.
  match goal with E : (if ?b then _ else _) = Some _ |- _ => destruct b; [injection E as <- | unbind E; injection E as <-] end;
    by autorewrite with head.
Qed.
Lemma head_update_price k y res x x' :
  update_price zstd_decompress compress_bound publish_key do_cap k y res x = Some x' -> head x' = head x.
Proof.
  unfold update_price, price_error. intros H. destruct (rerr res); [by injection H as <-|]. heads H; try done.
  all: match goal with E : (if _ then init_subscribe _ _ _ _ _ _ else Some ?x0) = Some ?x1 |- _ => assert (head x1 = head x0) as Ha end.
  1,3: match goal with E : (if ?b then init_subscribe _ _ _ _ _ _ else _) = Some _ |- _ =>
         destruct b; [by apply head_init_subscribe in E | by injection E as <-] end.
  1: apply head_new_aggregate in H; autorewrite with head in H; rewrite H.
  all: rewrite Ha; destruct (_ =? 0); by autorewrite with head.
Qed.

Lemma head_update k res x x' :
  update zstd_decompress compress_bound publish_key do_cap k res x = Some x' -> head x' = head x.
Proof.
  unfold update. intros H. unbind H. destruct (acct_ _);
    [eapply head_update_mapping, H | eapply head_update_product, H | eapply head_update_price, H].
Qed.
Lemma head_on_info k res x x' :
  on_info zstd_decompress compress_bound publish_key do_cap k res x = Some x' -> head x' = head x.
Proof. unfold on_info. intros H. apply head_update in H. by autorewrite with head in H. Qed.
Lemma head_on_update res x x' :
  on_update zstd_decompress compress_bound publish_key do_cap res x = Some x' -> head x' = head x.
Proof.
  unfold on_update. destruct (rerr res); [by intros [= <-]|]. destruct (amap_ x !! _) as [n|]; [|by intros [= <-]].
  destruct (is_recv_ n); [apply head_update | by intros [= <-]].
Qed.

Lemma head_poll_submit x : head (poll_submit x) = head x.
Proof.
  unfold poll_submit. generalize (plist_ x). intros l. revert x. induction l as [|r l IH]; intros x; [done|].
  cbn [foldl]. rewrite IH. unfold poll_one. destruct (get_is_ready r x); [|done].
  unfold do_submit, submit_acc, clear_submit. destruct r as [k|k]; autorewrite with head; [|done].
  destruct (acct_ <$> _) as [[m|p|y]|]; autorewrite with head; try done. case_bool_decide; by autorewrite with head.
Qed.
Lemma head_get_sched k x : head (get_sched k x) = head x.
Proof.
  unfold get_sched. destruct (acct_ <$> _) as [[m|p|y]|]; try done. destruct (isched_ y); by autorewrite with head.
Qed.
End frame.

Section spec.
Context {key_cache : Type} (ed25519_sign : key_cache -> bytes -> bytes) (no_cache : key_cache).
Context (clock random : nat -> Z) (host key_pair_file : bytes) (visit : list ptr -> list ptr).
Context (zstd_decompress : bytes -> Z -> Z + bytes) (compress_bound : Z -> Z).
Context (cfg : config).
Abbreviation rworld := (world (key_cache := key_cache) (app_t := option mgr)).
Abbreviation send := (RpcClient.send (app_t := option mgr) ed25519_sign clock random host).

(** ** The connection to the RPC node *)

(** The manager's members for its connection are the machine of [Reconnect]. *)
Definition conn_of (a : mgr) : reconn rpc_conns :=
  mk_reconn (link_ a) (has_status PC_PYTH_RPC_CONNECTED a) (mwait_ a) (mcts_ a) (mctimeout_ a).
#[local] Instance outcome_eq_dec : EqDecision outcome.
Proof. solve_decision. Defined.
Definition outcome_mlog (o : outcome) : list mgr_event :=
  match o with
  | o_connected => [me_connect]
  | o_idle true | o_retry true => [me_disconnect]
  | _ => []
  end.

Lemma with_mgr_some f (w w' : rworld) a :
  app_ w = Some a -> with_mgr f w = Some w' ->
  exists a', f a = Some a' /\ w' = set_app (Some a') w.
Proof.
  unfold with_mgr. intros ->. cbn [mbind option_bind]. destruct (f a) as [a'|]; [|done].
  cbn [mbind option_bind]. intros [= <-]. eauto.
Qed.

Lemma subscribe_app (w w' : rworld) a :
  app_ w = Some a -> subscribe_program ed25519_sign clock random host cfg w = Some w' ->
  exists a', app_ w' = Some a' /\ conn_of a' = conn_of a /\ mlog a' = mlog a /\ astatus_ (accs a') = astatus_ (accs a)
    /\ slot_cnt_ a' = slot_cnt_ a /\ aslot_ (accs a') = aslot_ (accs a)
    /\ (accs a' = accs a \/ exists er, accs a' = set_merr er (accs a)).
Proof.
  unfold subscribe_program. intros Ha H. destruct (program_key cfg) as [g|].
  - exists a. split; [|split_and!; try done; by left]. destruct (do_ws cfg).
    + unbind H. apply RpcFrame.app_upd in E. apply RpcFrame.app_send in H. congruence.
    + apply RpcFrame.app_upd in H. congruence.
  - destruct (with_mgr_some _ _ _ _ Ha H) as (a' & [= <-] & ->). eexists. split_and!; try done. right. by eexists.
Qed.

(** What restarting the accounts does to the manager's own members. *)
Record same_head (x x' : accounts) : Prop := {
  sh_status : astatus_ x' = astatus_ x; sh_slot : aslot_ x' = aslot_ x; sh_err : merr_ x' = merr_ x }.
#[local] Instance same_head_preorder : PreOrder same_head.
Proof. split; [by intros x|]. intros x1 x2 x3 [A1 B1 C1] [A2 B2 C2]. split; congruence. Qed.
Lemma same_submit r x : same_head x (Accounts.submit r x).
Proof.
  unfold Accounts.submit. destruct r as [k|k]; destruct (amap_ x !! k) as [[[m|p|y] b v e]|]; cbn; try done;
    try (destruct b; done). by destruct (sched_submit y).
Qed.
Lemma same_resubmit k x : same_head x (resubmit k x).
Proof. unfold resubmit. destruct (same_submit (r_acc k) (upd_node k reset_node x)) as [A B C]. by split. Qed.
Lemma same_foldl {A} (f : accounts -> A -> accounts) l x : (forall x a, same_head x (f x a)) -> same_head x (foldl f x l).
Proof. intros Hf. revert x; induction l as [|a l IH]; intros x; [done|]. simpl. etransitivity; [apply Hf | apply IH]. Qed.
Lemma same_add_mapping k x : same_head x (add_mapping k x).
Proof.
  unfold add_mapping. destruct (known k x); [done|].
  match goal with |- context [Accounts.submit ?r ?y] => destruct (same_submit r y) as [A B C] end. by split.
Qed.
Lemma restart_head mk x :
  astatus_ (restart mk x) = Z.lor (astatus_ x) PC_PYTH_RPC_CONNECTED /\ aslot_ (restart mk x) = 0 /\ merr_ (restart mk x) = merr_ x.
Proof.
  unfold restart. set (x0 := mk_accounts _ _ _ _ _ _ _ _ _ _ _ _ _).
  assert (same_head x0 (clear_plist x0)) as H1.
  { unfold clear_plist. destruct (same_foldl (fun w r => clear_submit r w) (plist_ x0) x0) as [A B C]; [by intros ? []|].
    by split. }
  set (x1 := clear_plist x0) in *.
  set (x2 := foldl _ x1 _). assert (same_head x1 x2) as H2 by (apply same_foldl; intros; apply same_resubmit).
  set (x3 := foldl _ x2 _). assert (same_head x2 x3) as H3.
  { apply same_foldl. intros x' k. etransitivity; [apply same_resubmit|]. apply same_foldl. intros. apply same_resubmit. }
  assert (same_head x3 (match mvec_ x3, mk with [], Some k => add_mapping k x3 | _, _ => x3 end)) as H4.
  { destruct (mvec_ x3), mk; try done. apply same_add_mapping. }
  destruct (transitivity H1 (transitivity H2 (transitivity H3 H4))) as [A B C]. by rewrite A, B, C.
Qed.

Lemma has_status_lor s x : has_bits s (set_astatus (Z.lor (astatus_ x) s) x) = true.
Proof.
  unfold has_bits. cbn [astatus_ set_astatus]. apply Z.eqb_eq. apply Z.bits_inj_iff'. intros i Hi.
  rewrite Z.land_spec, Z.lor_spec. by destruct (Z.testbit s i), (Z.testbit (astatus_ x) i).
Qed.

(** (C8) A turn of the manager on its connection is a turn of the retry machine of
    [Reconnect]: it waits, comes up, stays down or tries again as the machine
    says, and tells its subscriber of the connections it gains and loses. *)
Theorem reconnect_refines ts e (w w' : rworld) a :
  app_ w = Some a -> reconnect_rpc ed25519_sign clock random host cfg ts e w = Some w' ->
  exists a', app_ w' = Some a'
    /\ conn_of a' = (reconnect false ts e (conn_of a)).2
    /\ mlog a' = mlog a ++ outcome_mlog (reconnect false ts e (conn_of a)).1.
Proof.
  unfold reconnect_rpc, reconnect. intros Ha. rewrite Ha. cbn [mbind option_bind].
  change (link (conn_of a)) with (link_ a). set (c := if get_is_wait (link_ a) then _ else _).
  destruct (get_is_wait c).
  { intros [= <-]. eexists. split; [reflexivity|]. split; [done|]. by rewrite app_nil_r. }
  destruct (negb (get_is_err c)).
  - unfold on_connected. intros H. unbind H.
    eapply with_mgr_some in E as (a1 & [= <-] & Hw0); [|reflexivity]. subst w0.
    apply RpcFrame.app_send in E0. cbn [app_ set_app] in E0.
    destruct (subscribe_app _ _ _ E0 E1) as (a2 & Ha2 & Hc & Hl & Hs & _).
    destruct (with_mgr_some _ _ _ _ Ha2 H) as (a3 & [= <-] & ->).
    eexists. split; [reflexivity|].
    unfold conn_of in Hc. injection Hc as Hc1 Hc2 Hc3 Hc4 Hc5. split; [|cbn [mlog add_mlog upd_accs set_accs]; by rewrite Hl].
    unfold conn_of. cbn [link_ mwait_ mcts_ mctimeout_ add_mlog upd_accs set_accs]. rewrite Hc1, Hc3, Hc4, Hc5.
    cbn [snd andb cts_ link_ mwait_ mcts_ mctimeout_ set_slot_ts set_conn set_link]. f_equal.
    unfold has_status. cbn [accs add_mlog upd_accs set_accs]. unfold has_bits. destruct (restart_head (mapping_key cfg) (accs a2)) as [-> _].
    apply (has_status_lor PC_PYTH_RPC_CONNECTED (accs a2)).
  - intros H. eapply with_mgr_some in H as (a1 & [= <-] & Hw'); [|reflexivity]. subst w'. eexists. split; [reflexivity|].
    unfold on_failed. cbn [mwait_ mcts_ mctimeout_ set_link cts_ ctimeout_ conn_of has_conn_].
    change (has_status PC_PYTH_RPC_CONNECTED (set_link c a)) with (has_status PC_PYTH_RPC_CONNECTED a).
    destruct (mwait_ a) eqn:Hw, (has_status PC_PYTH_RPC_CONNECTED a);
      cbn [orb mcts_ mctimeout_ set_conn add_mlog upd_accs set_accs set_link mwait_ link_];
      destruct (ts - mcts_ a <? mctimeout_ a); (split; [unfold conn_of; cbn; rewrite ?Hw; reflexivity | cbn; by rewrite ?app_nil_r]).
Qed.

(** ** What the node's texts do to the manager *)

(** Slots only rise; the connections and users stay; the subscriber hears of new
    slots only. *)
Record told (a a' : mgr) : Prop := {
  tl_slot : aslot_ (accs a) <= aslot_ (accs a');
  tl_conn : link_ a' = link_ a /\ mwait_ a' = mwait_ a /\ mcts_ a' = mcts_ a /\ mctimeout_ a' = mctimeout_ a;
  tl_up : has_status PC_PYTH_RPC_CONNECTED a' = has_status PC_PYTH_RPC_CONNECTED a;
  tl_tconn : tconn_ a' = tconn_ a;
  tl_users : users_ a' = users_ a;
  tl_log : exists l, mlog a' = mlog a ++ l /\ Forall (fun e => e = me_flush \/ e = me_slot_publish) l }.
#[local] Instance told_preorder : PreOrder told.
Proof.
  split.
  - intros a. split; [lia | by split_and! | done | done | done |]. exists []. by rewrite app_nil_r.
  - intros a1 a2 a3 [A1 (B1 & B1' & B1'' & B1''') C1 D1 E1 (l1 & F1 & G1)] [A2 (B2 & B2' & B2'' & B2''') C2 D2 E2 (l2 & F2 & G2)].
    split; [lia | split_and!; congruence | congruence | congruence | congruence |].
    exists (l1 ++ l2). rewrite F2, F1, app_assoc. split; [done|]. by apply Forall_app.
Qed.
Definition app_told (o o' : option mgr) : Prop := forall a', o' = Some a' -> exists a, o = Some a /\ told a a'.
#[local] Instance app_told_preorder : PreOrder app_told.
Proof.
  split; [intros o a ->; by exists a|]. intros o1 o2 o3 H1 H2 a3 H3.
  destruct (H2 _ H3) as (a2 & Ha2 & T2). destruct (H1 _ Ha2) as (a1 & Ha1 & T1). exists a1. split; [done|]. by etransitivity.
Qed.

Lemma up_land s : (1 =? Z.land s 1) = (1 =? Z.land (Z.land s 3) 1).
Proof. by rewrite <- Z.land_assoc. Qed.
Lemma head_up x x' : head x' = head x -> has_bits PC_PYTH_RPC_CONNECTED x' = has_bits PC_PYTH_RPC_CONNECTED x.
Proof. intros [= _ H]. unfold has_bits, PC_PYTH_RPC_CONNECTED. by rewrite (up_land (astatus_ x')), H, <- up_land. Qed.
Lemma told_accs x a :
  aslot_ (accs a) <= aslot_ x -> has_bits PC_PYTH_RPC_CONNECTED x = has_bits PC_PYTH_RPC_CONNECTED (accs a) -> told a (set_accs x a).
Proof. intros H1 H2. split; [exact H1 | by split_and! | exact H2 | done | done |]. exists []. by rewrite app_nil_r. Qed.
Lemma told_head x a : head x = head (accs a) -> told a (set_accs x a).
Proof. intros H. apply told_accs; [pose proof (f_equal fst H) as Hs; cbn in Hs; lia | exact (head_up _ _ H)]. Qed.
Lemma told_log l a : Forall (fun e => e = me_flush \/ e = me_slot_publish) l -> told a (add_mlog l a).
Proof. intros Hl. split; [cbn; lia | by split_and! | done | done | done |]. by exists l. Qed.

Lemma told_same_time cnt ts a : told a (set_slot_ts cnt ts a).
Proof. split; [cbn; lia | by split_and! | done | done | done |]. exists []. by rewrite app_nil_r. Qed.
Lemma on_slot_told r a : told a (on_slot (key_cache := key_cache) cfg r a).1.
Proof.
  unfold on_slot. destruct (err_ r) as [e|]; [by apply told_head|]. destruct (body_ r); try reflexivity.
  destruct (Z.leb_spec cslot (aslot_ (accs a))); [done|]. cbn [fst].
  etransitivity; [apply (told_accs (set_aslot cslot (accs a))); [cbn; lia | done]|].
  etransitivity; [apply (told_same_time (u64 (slot_cnt_ a + 1)) (recv_ts_ r))|].
  etransitivity; [|destruct (has_status _ _); [apply told_log; by repeat constructor; right | done]].
  destruct (do_cap cfg); [apply told_log; repeat constructor; by left | done].
Qed.
Lemma on_block_hash_told r a : told a (on_block_hash (key_cache := key_cache) r a).
Proof.
  unfold on_block_hash. destruct (err_ r); [by apply told_head|].
  destruct (has_status _ _); [done|]. apply told_accs; [done|]. unfold has_bits. cbn [astatus_ set_astatus].
  rewrite Z.land_lor_distr_l. change (Z.land PC_PYTH_HAS_BLOCK_HASH PC_PYTH_RPC_CONNECTED) with 0. by rewrite Z.lor_0_r.
Qed.
Lemma on_accs_told f a a' : (forall x x', f x = Some x' -> head x' = head x) -> on_accs f a = Some a' -> told a a'.
Proof. unfold on_accs. intros Hf H. destruct (f (accs a)) as [x|] eqn:E; [|done]. injection H as <-. apply told_head, (Hf _ _ E). Qed.

Lemma react_told oa s t (r : rpc_request (key_cache := key_cache)) : app_told oa (react zstd_decompress compress_bound cfg oa s t r).1.
Proof.
  destruct oa as [a|]; [|done]. intros a' Ha'. exists a. split; [done|]. cbn [react] in Ha'.
  destruct (obj_at s) as [[| | | | |k|g k|k]|]; try (destruct t; cbn in Ha'; injection Ha' as <-; reflexivity).
  - destruct t; cbn in Ha'; try (injection Ha' as <-; reflexivity).
    + injection Ha' as <-. apply on_block_hash_told.
    + pose proof (on_slot_told r a) as Ht. destruct (on_slot cfg r a) as [a1 l]. by injection Ha' as <-.
    + unbind Ha'. eapply on_accs_told, Ha'. apply head_on_update.
  - destruct t; cbn in Ha'; try (injection Ha' as <-; reflexivity).
    unbind Ha'. eapply on_accs_told, Ha'. apply head_on_info.
  - destruct t; cbn in Ha'; try (injection Ha' as <-; reflexivity).
    destruct (body_ r); injection Ha' as <-; try reflexivity.
    split; [cbn; lia | by split_and! | done | done | done |]. exists []. by rewrite app_nil_r.
Qed.

Lemma parse_told txt (w w' : rworld) a' :
  parse_response ed25519_sign clock random host visit zstd_decompress compress_bound cfg txt w = Some w' ->
  app_ w' = Some a' -> exists a, app_ w = Some a /\ told a a'.
Proof.
  intros H Ha. eapply (RpcFrame.moved_parse_response _ _ _ _ _ _ _ app_told react_told); [exact H | exact Ha].
Qed.
(** ** The phases of a turn *)

Abbreviation on_event := (on_event ed25519_sign clock random host visit zstd_decompress compress_bound cfg).
Abbreviation on_events := (on_events ed25519_sign clock random host visit zstd_decompress compress_bound cfg).
Abbreviation poll_rpc := (poll_rpc ed25519_sign clock random host visit zstd_decompress compress_bound cfg).

Lemma ask_all_app ks (w w' : rworld) : ask_all ed25519_sign clock random host cfg ks w = Some w' -> app_ w' = app_ w.
Proof.
  revert w; induction ks as [|k ks IH]; intros w H; cbn [ask_all] in H; [by injection H as <-|]. unbind H.
  apply IH in H. unfold ask in E. apply RpcFrame.app_send in E. cbn in E. congruence.
Qed.
Lemma submit_ready_app (w w' : rworld) a :
  app_ w = Some a -> submit_ready ed25519_sign clock random host cfg w = Some w' ->
  app_ w' = Some (set_accs (clear_sent (poll_submit (accs a))) a).
Proof. unfold submit_ready. intros Ha H. rewrite Ha in H. cbn [mbind option_bind] in H. by apply ask_all_app in H. Qed.
Lemma send_when_recv_app p (w w' : rworld) :
  send_when_recv ed25519_sign clock random host p w = Some w' -> app_ w' = app_ w.
Proof.
  unfold send_when_recv. intros H. unbind H.
  match type of H with (if ?b then _ else _) = _ => destruct b end;
    [rewrite <- E0; exact (RpcFrame.app_send _ _ _ _ _ _ _ H) | by injection H as <-].
Qed.
Lemma slot_request_app (w w' : rworld) :
  slot_request ed25519_sign clock random host cfg w = Some w' -> app_ w' = app_ w.
Proof.
  unfold slot_request. intros H. destruct (app_ w) as [a|] eqn:Ha; [|done]. cbn [mbind option_bind] in H. rewrite <- Ha.
  destruct (_ <? _); [|by injection H as <-]. unbind H.
  apply send_when_recv_app in E. destruct (do_ws cfg); [injection H as <- | apply send_when_recv_app in H]; congruence.
Qed.

(** The manager after the first part of a turn, from what the events leave. *)
Definition turned (do_tx : bool) (t : turn) (us : list positive) (s : user_lists) (a : mgr) : mgr :=
  reconnect_tx do_tx (t_tx_now t) (t_tx t) (poll_schedule (set_curr_ts (t_now t)
    (add_mlog (me_delete <$> us) (set_users s (set_accs (clear_sent (poll_submit (accs a))) a))))).
Lemma poll_rpc_app do_tx t (w w' : rworld) :
  poll_rpc do_tx t w = Some w' ->
  exists w1 a us s, on_events (t_events t) w = Some w1 /\ app_ w1 = Some a
    /\ teardown_users (users_ a) = Some (us, s) /\ app_ w' = Some (turned do_tx t us s a).
Proof.
  unfold Manager.poll_rpc. intros H. destruct (on_events (t_events t) w) as [w1|]; [|done]. cbn [mbind option_bind] in H.
  destruct (submit_ready _ _ _ _ _ w1) as [w2|] eqn:E0; [|done]. cbn [mbind option_bind] in H.
  destruct (with_mgr _ w2) as [w3|] eqn:E1; [|done]. cbn [mbind option_bind] in H.
  destruct (slot_request _ _ _ _ _ w3) as [w4|] eqn:E2; [|done]. cbn [mbind option_bind] in H.
  destruct (app_ w1) as [a|] eqn:Ha; [|unfold submit_ready in E0; by rewrite Ha in E0].
  apply (submit_ready_app _ _ _ Ha) in E0. destruct (with_mgr_some _ _ _ _ E0 E1) as (a2 & E2' & ->).
  unfold poll_users in E2'. cbn [users_ set_accs] in E2'. destruct (teardown_users (users_ a)) as [[us s]|] eqn:Et; [|done].
  cbn [mbind option_bind] in E2'. injection E2' as <-.
  apply slot_request_app in E2. cbn [app_ set_app] in E2. destruct (with_mgr_some _ _ _ _ E2 H) as (a3 & Ea & ->).
  exists w1, a, us, s. injection Ea as <-. by split_and!.
Qed.

Lemma turned_users do_tx t us s a : users_ (turned do_tx t us s a) = s.
Proof.
  unfold turned, reconnect_tx, poll_schedule. destruct (Schedule.poll_schedule _ _) as [l s'].
  destruct (_ && _); [|done]. by destruct (tx_reconnect _ _ _).
Qed.
Lemma deleted_app l1 l2 : deleted (l1 ++ l2) = deleted l1 ++ deleted l2.
Proof. apply omap_app. Qed.
Lemma turned_log do_tx t us s a : deleted (mlog (turned do_tx t us s a)) = deleted (mlog a) ++ us.
Proof.
  assert (deleted (me_delete <$> us) = us) as Hu by (clear; induction us as [|u us IH]; [done | exact (f_equal (cons u) IH)]).
  assert (forall ks, deleted (me_sched <$> ks) = []) as Hk by (intros ks; induction ks as [|k ks IH]; [done | exact IH]).
  assert (forall l, deleted (tx_mlog <$> l) = []) as Hx by (intros l; induction l as [|[] l IH]; [done | exact IH..]).
  unfold turned, reconnect_tx, poll_schedule. destruct (Schedule.poll_schedule _ _) as [l s'].
  destruct (_ && _); [destruct (tx_reconnect _ _ _) as [tc evs]|];
    cbn [mlog add_mlog set_tconn upd_accs set_accs set_curr_ts set_users]; rewrite !deleted_app, ?Hu, ?Hk, ?Hx, !app_nil_r; done.
Qed.

Lemma told_deleted a a' : told a a' -> deleted (mlog a') = deleted (mlog a).
Proof.
  intros [_ _ _ _ _ (l & -> & Hl)]. rewrite deleted_app. rewrite <- (app_nil_r (deleted (mlog a))) at 2. f_equal.
  induction Hl as [|e l [-> | ->] _ IH]; [done | exact IH..].
Qed.
(** An invalid access stays one. *)
Lemma on_event_back ev (w w' : rworld) a' : on_event ev w = Some w' -> app_ w' = Some a' -> exists a, app_ w = Some a.
Proof.
  intros H Ha'. destruct (app_ w) as [a|] eqn:Ha; [eauto|].
  destruct ev; cbn [Manager.on_event] in H; try (unfold with_mgr in H; by rewrite Ha in H).
  destruct (parse_told _ _ _ _ H Ha') as (a0 & ? & _). congruence.
Qed.
Lemma on_events_back evs (w w' : rworld) a' : on_events evs w = Some w' -> app_ w' = Some a' -> exists a, app_ w = Some a.
Proof.
  revert w; induction evs as [|ev evs IH]; intros w H Ha'; cbn [Manager.on_events] in H; [injection H as <-; eauto|].
  unbind H. destruct (IH _ H Ha') as (a1 & Ha1). eapply on_event_back; eassumption.
Qed.
(** Events one by one, for a property of the manager they may depend on. *)
Lemma on_events_ind (P : list sock_event -> mgr -> mgr -> Prop) :
  (forall a, P [] a a) ->
  (forall ev evs (w w1 : rworld) a a1 a', on_event ev w = Some w1 -> app_ w = Some a -> app_ w1 = Some a1 ->
     P evs a1 a' -> P (ev :: evs) a a') ->
  forall evs (w w' : rworld) a a', on_events evs w = Some w' -> app_ w = Some a -> app_ w' = Some a' -> P evs a a'.
Proof.
  intros H0 Hs evs. induction evs as [|ev evs IH]; intros w w' a a' H Ha Ha'; cbn [Manager.on_events] in H.
  - injection H as <-. assert (a' = a) as -> by congruence. apply H0.
  - unbind H. destruct (on_events_back _ _ _ _ H Ha') as (a1 & Ha1). eauto.
Qed.

Lemma on_event_users ev (w w' : rworld) a a' :
  on_event ev w = Some w' -> app_ w = Some a -> app_ w' = Some a' ->
  deleted (mlog a') = deleted (mlog a)
  /\ forall o d, users_ok (users_ a) o d -> client_ok ev o d ->
     users_ok (users_ a') (client_lists ev (o, d)).1 (client_lists ev (o, d)).2.
Proof.
  intros H Ha Ha'. destruct ev as [txt| | | |u ok|u|k|]; cbn [Manager.on_event client_lists fst snd client_ok] in *;
    try (destruct (with_mgr_some _ _ _ _ Ha H) as (a1 & E & ->); injection Ha' as <-).
  - destruct (parse_told _ _ _ _ H Ha') as (a0 & Ha0 & Ht). assert (a0 = a) as -> by congruence.
    split; [by apply told_deleted|]. intros o d Hu _. by rewrite (tl_users _ _ Ht).
  - by injection E as <-.
  - by injection E as <-.
  - by injection E as <-.
  - unfold upd_users in E. destruct (accept u ok (users_ a)) as [s|] eqn:Es; [|done]. injection E as <-. split; [done|].
    intros o d Hu Hc. destruct ok.
    + destruct (accept_users u _ o d Hu Hc) as (s' & E' & Hs'). cbn [users_ set_users fst snd]. congruence.
    + by injection Es as <-.
  - unfold upd_users in E. destruct (del_user u (users_ a)) as [s|] eqn:Es; [|done]. injection E as <-. split; [done|].
    intros o d Hu Hc. destruct (del_users u _ o d Hu Hc) as (s' & E' & Hs'). cbn [users_ set_users]. congruence.
  - by injection E as <-.
  - by injection E as <-.
Qed.
Lemma on_events_users evs (w w' : rworld) a a' o d :
  on_events evs w = Some w' -> app_ w = Some a -> app_ w' = Some a' ->
  users_ok (users_ a) o d -> clients_ok evs o d ->
  let '(o', d') := foldl (fun od ev => client_lists ev od) (o, d) evs in
  deleted (mlog a') = deleted (mlog a) /\ users_ok (users_ a') o' d'.
Proof.
  intros H Ha Ha'. revert o d.
  refine (on_events_ind (fun evs a a' => forall o d, users_ok (users_ a) o d -> clients_ok evs o d ->
    let '(o', d') := foldl (fun od ev => client_lists ev od) (o, d) evs in
    deleted (mlog a') = deleted (mlog a) /\ users_ok (users_ a') o' d') _ _ evs w w' a a' H Ha Ha'); clear.
  - intros a o d Hu _. done.
  - intros ev evs w w1 a a1 a' He Ha Ha1 IH o d Hu [Hc Hr]. cbn [foldl].
    destruct (on_event_users _ _ _ _ _ He Ha Ha1) as [Hd Hu1]. specialize (Hu1 o d Hu Hc).
    destruct (client_lists ev (o, d)) as [o1 d1]. specialize (IH o1 d1 Hu1 Hr).
    destruct (foldl _ _ _) as [o' d']. destruct IH as [IH1 IH2]. split; [congruence | done].
Qed.

(** Over a turn the open list gains the clients that connected and loses those
    that left, in order, whatever the node's texts and the connections do
    meanwhile; when the turn ends each client that left has been deleted, once,
    and only the open ones remain. *)
Theorem users_turn do_tx t (w w' : rworld) a o :
  app_ w = Some a -> users_ok (users_ a) o [] -> clients_ok (t_events t) o [] -> poll_rpc do_tx t w = Some w' ->
  let '(o', d') := foldl (fun od ev => client_lists ev od) (o, []) (t_events t) in
  exists a', app_ w' = Some a' /\ users_ok (users_ a') o' [] /\ NoDup (o' ++ d')
    /\ deleted (mlog a') = deleted (mlog a) ++ d'.
Proof.
  intros Ha Hu Hc H. destruct (poll_rpc_app _ _ _ _ H) as (w1 & a1 & us & s & He & Ha1 & Et & Ha').
  pose proof (on_events_users _ _ _ _ _ o [] He Ha Ha1 Hu Hc) as H1. destruct (foldl _ _ _) as [o' d']. destruct H1 as [Hd H1].
  destruct (teardown_loop_ok (size (unodes (users_ a1))) _ o' d' H1 (dead_fuel _ _ _ H1)) as (s' & E' & H').
  unfold teardown_users in Et. rewrite E' in Et. injection Et as <- <-.
  eexists. split; [exact Ha'|]. rewrite turned_users, turned_log, Hd. split_and!; [done | apply H1 | done].
Qed.

(** ** Publishing leaves the manager's members alone *)

Abbreviation pworld := (pub_world (key_cache := key_cache) (app_t := option mgr)).
Definition mgr_at (g : ptr) (w : pworld) : option mgr := m ← mgrs w !! g; app_ (rpc_ m).
Definition same_mgrs (w w' : pworld) : Prop := forall g, mgr_at g w' = mgr_at g w.
#[local] Instance same_mgrs_preorder : PreOrder same_mgrs.
Proof. split; [by intros w g | intros w1 w2 w3 H1 H2 g; by rewrite H2, H1]. Qed.

Lemma same_price p f (w w' : pworld) : Publish.upd_price_at p f w = Some w' -> same_mgrs w w'.
Proof. unfold Publish.upd_price_at. intros H. unbind H. by injection H as <-. Qed.
Lemma same_prices ps f (w w' : pworld) : Publish.upd_prices_at ps f w = Some w' -> same_mgrs w w'.
Proof.
  revert w; induction ps as [|p ps IH]; intros w H; cbn [Publish.upd_prices_at] in H; [by injection H as <-|].
  unbind H. etransitivity; [eapply same_price; eassumption | by apply IH].
Qed.
Lemma same_mgr g f (w w' : pworld) :
  (forall m m', f m = Some m' -> app_ (rpc_ m') = app_ (rpc_ m)) -> Publish.upd_mgr_at g f w = Some w' -> same_mgrs w w'.
Proof.
  unfold Publish.upd_mgr_at. intros Hf H. destruct (mgrs w !! g) as [m|] eqn:E; [|done]. cbn [mbind option_bind] in H.
  destruct (f m) as [m'|] eqn:Em; [|done]. injection H as <-. intros g'. unfold mgr_at. cbn [mgrs].
  destruct (decide (g' = g)) as [->|Hg]; [|by rewrite lookup_insert_ne]. rewrite lookup_insert_eq, E. exact (Hf _ _ Em).
Qed.
Lemma same_params q f (m m' : Publish.manager (key_cache := key_cache) (app_t := option mgr)) :
  Publish.upd_params q f m = Some m' -> app_ (rpc_ m') = app_ (rpc_ m).
Proof. unfold Publish.upd_params. intros H. unbind H. injection H as <-. by apply RpcFrame.app_upd in E. Qed.
Lemma same_send_tx qs cu cp (m m' : Publish.manager (key_cache := key_cache) (app_t := option mgr)) :
  Publish.send_tx ed25519_sign qs cu cp m = Some m' -> app_ (rpc_ m') = app_ (rpc_ m).
Proof.
  unfold Publish.send_tx. intros H. unbind H. destruct o as [[msg sig]|], qs as [|q qs]; try by injection H as <-.
  unbind H. injection H as <-. cbn. by apply RpcFrame.app_upd in E1.
Qed.
Lemma same_error p e (w w' : pworld) : Publish.on_error_sub p e w = Some w' -> same_mgrs w w'.
Proof.
  unfold Publish.on_error_sub. intros H. unbind H. injection H as <-. apply same_price in E. intros g. rewrite <- E. done.
Qed.
Lemma same_init_publish p b (w w' : pworld) :
  Publish.init_publish key_pair_file (program_file cfg) p w = Some (b, w') -> same_mgrs w w'.
Proof.
  unfold Publish.init_publish. intros H. unbind H. destruct (Publish.pkey_pair _) as [[pk kc]|];
    [destruct (Publish.gpub_ _) as [gp|]|]; unbind H; injection H as _ <-; try (eapply same_error; eassumption).
  etransitivity; [eapply same_mgr; [apply same_params | eassumption] | eapply same_price; eassumption].
Qed.
Lemma same_guards p b (w w' : pworld) :
  Publish.guards key_pair_file (program_file cfg) p w = Some (b, w') -> same_mgrs w w'.
Proof.
  unfold Publish.guards. intros H. destruct (prices w !! p) as [pr|]; [|done]. cbn [mbind option_bind] in H.
  destruct (Publish.init_ pr); cbn [mbind option_bind] in H.
  - cbn [negb] in H. unbind H. by injection H as _ <-.
  - destruct (Publish.init_publish _ _ _ _) as [[ok w1]|] eqn:E; [|done]. cbn [mbind option_bind] in H.
    apply same_init_publish in E. destruct ok; cbn [negb] in H; unbind H; by injection H as _ <-.
Qed.
Lemma same_flush p qs covered (w w' : pworld) :
  Publish.flush ed25519_sign clock random host p qs covered w = Some w' -> same_mgrs w w'.
Proof.
  unfold Publish.flush. intros H. destruct (Publish.get_mgr p w) as [[pr m]|]; [|done]. cbn [mbind option_bind] in H.
  match type of H with mbind _ ?x = _ => destruct x as [w1|] eqn:E; [|done] end. cbn [mbind option_bind] in H.
  unbind H. injection H as <-. apply same_prices in E0. transitivity w1; [|exact E0].
  destruct (Publish.do_tx_ m); [eapply same_mgr; [apply same_send_tx | exact E]|]. unbind E.
  etransitivity; [eapply same_mgr; [|eassumption]|].
  - intros m1 m2 Hm. cbn beta in Hm. unbind Hm. injection Hm as <-.
    match goal with E : RpcClient.send_batch _ _ _ _ _ _ _ _ = Some _ |- _ => exact (RpcFrame.app_send_batch _ _ _ _ _ _ _ _ _ E) end.
  - etransitivity; [eapply same_price; eassumption | eapply same_prices; eassumption].
Qed.
Lemma same_send_loop all i j m1 qs rest (w w' : pworld) :
  Publish.send_loop ed25519_sign clock random host key_pair_file (program_file cfg) all i j m1 qs rest w = Some w' ->
  same_mgrs w w'.
Proof.
  revert i j m1 qs w; induction rest as [|p rest IH]; intros i j m1 qs w H; cbn [Publish.send_loop] in H; [by injection H as <-|].
  destruct (Publish.get_mgr p w) as [[pr m]|]; [|done]. cbn [mbind option_bind] in H.
  destruct (Publish.upd_price_at p _ w) as [w1|] eqn:E1; [|done]. cbn [mbind option_bind] in H.
  destruct (Publish.guards _ _ p w1) as [[ok w2]|] eqn:E2; [|done]. cbn [mbind option_bind] in H.
  apply same_price in E1. apply same_guards in E2. transitivity w1; [exact E1|]. transitivity w2; [exact E2|].
  destruct (Publish.get_mgr p w2) as [[pr2 m2]|]; [|done]. cbn [mbind option_bind] in H.
  match type of H with (if ?b then _ else _) = _ => destruct b end; [|by apply IH in H].
  destruct (Publish.upd_mgr_at _ _ w2) as [w3|] eqn:E3; [|done]. cbn [mbind option_bind] in H.
  apply (same_mgr _ _ _ _ (same_params _ _)) in E3. transitivity w3; [exact E3|].
  match type of H with (if ?b then _ else _) = _ => destruct b end; [|by apply IH in H].
  unbind H. apply same_flush in E. apply IH in H. by etransitivity.
Qed.
Lemma same_send_pending g ts (w w' : pworld) :
  Publish.send_pending_ups ed25519_sign clock random host key_pair_file (program_file cfg) g ts w = Some w' -> same_mgrs w w'.
Proof.
  unfold Publish.send_pending_ups. intros H. destruct (mgrs w !! g) as [m|]; [|done]. cbn [mbind option_bind] in H.
  case_bool_decide; [by injection H as <-|]. unbind H. apply same_send_loop in E. etransitivity; [exact E|].
  eapply same_mgr; [|exact H]. intros m1 m2. by intros [= <-].
Qed.
Lemma same_acks l (w w' : pworld) : on_acks l w = Some w' -> same_mgrs w w'.
Proof.
  revert w; induction l as [|[p x] l IH]; intros w H; cbn [on_acks] in H; [by injection H as <-|].
  unbind H. apply same_price in E. apply IH in H. by etransitivity.
Qed.

(** ** A turn as a whole *)

Abbreviation poll := (poll ed25519_sign no_cache clock random host key_pair_file visit zstd_decompress compress_bound cfg).
Abbreviation reconnect_rpc := (reconnect_rpc ed25519_sign clock random host cfg).

Lemma on_rpc_at g f (w w' : pworld) :
  on_rpc g f w = Some w' ->
  exists m r, mgrs w !! g = Some m /\ f (rpc_ m) = Some r /\ mgrs w' !! g = Some (Publish.set_rpc r m) /\ batches w' = batches w.
Proof.
  unfold on_rpc, Publish.upd_mgr_at. intros H. destruct (mgrs w !! g) as [m|] eqn:Hm; [|done]. cbn [mbind option_bind] in H.
  destruct (f (rpc_ m)) as [r|] eqn:Hr; [|done]. cbn [mbind option_bind] in H. injection H as <-. exists m, r. cbn [mgrs].
  by rewrite lookup_insert_eq.
Qed.
Lemma view_at g (w w' : pworld) m :
  view no_cache g w = Some w' -> mgrs w !! g = Some m ->
  exists m', mgrs w' !! g = Some m' /\ app_ (rpc_ m') = app_ (rpc_ m) /\ log (rpc_ m') = log (rpc_ m)
    /\ Publish.tx_out m' = Publish.tx_out m /\ Publish.do_tx_ m' = Publish.do_tx_ m /\ batches w' = batches w.
Proof.
  unfold view, view_mgr. intros H Hm. rewrite Hm in H. cbn [mbind option_bind] in H.
  destruct (app_ (rpc_ m)) as [a|] eqn:Ha; [|done]. cbn [mbind option_bind] in H. injection H as <-. eexists. cbn [mgrs].
  rewrite lookup_insert_eq. split; [reflexivity|]. cbn. by rewrite Ha.
Qed.
Lemma acks_at l g (w w' : pworld) m :
  on_acks l w = Some w' -> mgrs w !! g = Some m -> mgrs w' !! g = Some m /\ batches w' = batches w.
Proof.
  revert w; induction l as [|[p x] l IH]; intros w H Hm; cbn [on_acks] in H; [by injection H as <-|].
  unfold Publish.on_ack, Publish.upd_price_at in H. destruct (prices w !! p); [|done]. cbn [mbind option_bind] in H.
  by apply IH in H.
Qed.
Lemma deliver_at g (w w' : pworld) m a :
  deliver_acks g w = Some w' -> mgrs w !! g = Some m -> app_ (rpc_ m) = Some a ->
  exists m', mgrs w' !! g = Some m' /\ app_ (rpc_ m') = Some (set_acks [] a) /\ log (rpc_ m') = log (rpc_ m)
    /\ Publish.tx_out m' = Publish.tx_out m /\ batches w' = batches w.
Proof.
  unfold deliver_acks, Publish.upd_mgr_at. intros H Hm Ha. rewrite Hm in H. cbn [mbind option_bind] in H. rewrite Ha in H.
  cbn [mbind option_bind] in H. eapply acks_at in H as [H Hb]; [|cbn [mgrs]; by rewrite lookup_insert_eq].
  eexists. split; [exact H|]. by split_and!.
Qed.

(** A turn: the first part, then the updates to publish or the connection. *)
Lemma poll_parts g t (w w' : pworld) :
  poll g t w = Some w' ->
  exists m r1 a1 m2, mgrs w !! g = Some m /\ poll_rpc (Publish.do_tx_ m) t (rpc_ m) = Some r1 /\ app_ r1 = Some a1
    /\ app_ (rpc_ m2) = Some (set_acks [] a1) /\ log (rpc_ m2) = log r1 /\ Publish.tx_out m2 = Publish.tx_out m
    /\ if can_send a1 then mgr_at g w' = Some (set_acks [] a1)
       else exists r3 m', reconnect_rpc (t_now2 t) (t_rpc t) (rpc_ m2) = Some r3 /\ mgrs w' !! g = Some m'
         /\ app_ (rpc_ m') = app_ r3 /\ log (rpc_ m') = log r3 /\ Publish.tx_out m' = Publish.tx_out m2 /\ batches w' = batches w.
Proof.
  unfold Manager.poll. intros H. destruct (mgrs w !! g) as [m|] eqn:Hm; [|done]. cbn [mbind option_bind] in H.
  destruct (on_rpc g _ w) as [w1|] eqn:E1; [|done]. cbn [mbind option_bind] in H.
  destruct (on_rpc_at _ _ _ _ E1) as (m0 & r1 & Hm0 & Hr1 & Hm1 & Hb1). rewrite Hm in Hm0. injection Hm0 as <-.
  destruct (poll_rpc_app _ _ _ _ Hr1) as (_ & a0 & us & s & _ & _ & _ & Ha1). set (a1 := turned _ _ _ _ _) in Ha1.
  destruct (view no_cache g w1) as [w2|] eqn:E2; [|done]. cbn [mbind option_bind] in H.
  destruct (view_at _ _ _ _ E2 Hm1) as (m2 & Hm2 & Ha2 & Hl2 & Ht2 & _ & Hb2). cbn [rpc_ Publish.set_rpc] in Ha2, Hl2. rewrite Ha1 in Ha2.
  destruct (deliver_acks g w2) as [w3|] eqn:E3; [|done]. cbn [mbind option_bind] in H.
  destruct (deliver_at _ _ _ _ _ E3 Hm2 Ha2) as (m3 & Hm3 & Ha3 & Hl3 & Ht3 & Hb3).
  rewrite Hm3 in H. cbn [mbind option_bind] in H. rewrite Ha3 in H. cbn [mbind option_bind] in H.
  exists m, r1, a1, m3. split_and!; [done | done | done | done | congruence | by rewrite Ht3, Ht2 |].
  change (can_send (set_acks [] a1)) with (can_send a1) in H. destruct (can_send a1).
  - apply same_send_pending in H. rewrite (H g). unfold mgr_at. by rewrite Hm3.
  - destruct (on_rpc g _ w3) as [w4|] eqn:E4; [|done]. cbn [mbind option_bind] in H.
    destruct (on_rpc_at _ _ _ _ E4) as (m0 & r3 & Hm0 & Hr3 & Hm4 & Hb4). rewrite Hm3 in Hm0. injection Hm0 as <-.
    destruct (view_at _ _ _ _ H Hm4) as (m5 & Hm5 & Ha5 & Hl5 & Ht5 & _ & Hb5). exists r3, m5. split_and!; try done. congruence.
Qed.

Lemma reconnect_other ts e (w w' : rworld) a :
  app_ w = Some a -> reconnect_rpc ts e w = Some w' -> (reconnect false ts e (conn_of a)).1 <> o_connected ->
  exists a', w' = set_app (Some a') w /\ aslot_ (accs a') = aslot_ (accs a).
Proof.
  unfold Manager.reconnect_rpc, reconnect. intros Ha. rewrite Ha. cbn [mbind option_bind].
  change (link (conn_of a)) with (link_ a). set (c := if get_is_wait (link_ a) then _ else _).
  destruct (get_is_wait c); [intros [= <-] _; by eexists|]. destruct (negb (get_is_err c)); [by intros _ []|].
  intros H _. eapply with_mgr_some in H as (a1 & [= <-] & ->); [|reflexivity]. eexists. split; [by destruct w|].
  unfold on_failed. destruct (mwait_ _ || _), (has_status _ _); destruct (_ <? _); done.
Qed.

(** What the subscriber and users hear is added to what they heard. *)
Definition heard (a a' : mgr) : Prop := exists l, mlog a' = mlog a ++ l.
#[local] Instance heard_preorder : PreOrder heard.
Proof.
  split; [intros a; exists []; by rewrite app_nil_r|]. intros a1 a2 a3 [l1 H1] [l2 H2]. exists (l1 ++ l2).
  by rewrite H2, H1, app_assoc.
Qed.
Lemma on_events_slot evs (w w' : rworld) a a' :
  on_events evs w = Some w' -> app_ w = Some a -> app_ w' = Some a' -> heard a a' /\ aslot_ (accs a) <= aslot_ (accs a').
Proof.
  intros H Ha Ha'. refine (on_events_ind (fun _ a a' => heard a a' /\ aslot_ (accs a) <= aslot_ (accs a')) _ _ evs w w' a a' H Ha Ha'); clear.
  - intros a. split; [done | lia].
  - intros ev evs w w1 a a1 a' He Ha Ha1 [Hh Hs].
    assert (heard a a1 /\ aslot_ (accs a) <= aslot_ (accs a1)) as [Hh1 Hs1]; [|split; [by etransitivity | lia]].
    destruct ev as [txt| | | |u ok|u|k|]; cbn [Manager.on_event] in He;
      try (destruct (with_mgr_some _ _ _ _ Ha He) as (a2 & E & ->); injection Ha1 as <-).
    + destruct (parse_told _ _ _ _ He Ha1) as (a0 & Ha0 & [Ht _ _ _ _ (l & Hl & _)]). assert (a0 = a) as -> by congruence.
      split; [by exists l | done].
    + injection E as <-. split; [exists []; by rewrite app_nil_r | cbn; lia].
    + injection E as <-. split; [exists []; by rewrite app_nil_r | cbn; lia].
    + injection E as <-. split; [exists []; by rewrite app_nil_r | cbn; lia].
    + unfold upd_users in E. destruct (accept _ _ _); [|done]. injection E as <-. split; [exists []; by rewrite app_nil_r | cbn; lia].
    + unfold upd_users in E. destruct (del_user _ _); [|done]. injection E as <-. split; [exists []; by rewrite app_nil_r | cbn; lia].
    + injection E as <-. split; [exists []; by rewrite app_nil_r|]. cbn. pose proof (f_equal fst (head_get_sched k (accs a))) as Hg.
      cbn in Hg. lia.
    + injection E as <-. split; [exists []; by rewrite app_nil_r | cbn; lia].
Qed.
Lemma turned_slot do_tx t us s a : heard a (turned do_tx t us s a) /\ aslot_ (accs (turned do_tx t us s a)) = aslot_ (accs a).
Proof.
  pose proof (f_equal fst (head_poll_submit (accs a))) as Hp. cbn in Hp.
  unfold turned, reconnect_tx, poll_schedule. destruct (Schedule.poll_schedule _ _) as [l s'].
  destruct (_ && _); [destruct (tx_reconnect _ _ _) as [tc evs]|]; (split; [|exact Hp]); unfold heard;
    cbn [mlog add_mlog set_tconn upd_accs set_accs set_curr_ts set_users]; rewrite <- ?app_assoc; eauto.
Qed.

(** (C9) While a connection lasts the manager's slot never goes back: after a turn it
    is no lower, unless the turn made a new connection. *)
Theorem slots_rise g t (w w' : pworld) a :
  mgr_at g w = Some a -> poll g t w = Some w' ->
  exists a' l, mgr_at g w' = Some a' /\ mlog a' = mlog a ++ l /\ (me_connect ∈ l \/ aslot_ (accs a) <= aslot_ (accs a')).
Proof.
  intros Ha H. destruct (poll_parts _ _ _ _ H) as (m & r1 & a1 & m2 & Hm & Hr & Ha1 & Ha2 & _ & _ & Hc).
  unfold mgr_at in Ha. rewrite Hm in Ha. cbn [mbind option_bind] in Ha.
  destruct (poll_rpc_app _ _ _ _ Hr) as (w1 & a0 & us & s & He & Ha0 & _ & Ha1'). assert (a1 = turned (Publish.do_tx_ m) t us s a0) as -> by congruence.
  destruct (on_events_slot _ _ _ _ _ He Ha Ha0) as [Hh0 Hs0]. destruct (turned_slot (Publish.do_tx_ m) t us s a0) as [Hh1 Hs1].
  destruct (transitivity Hh0 Hh1) as [l Hl]. set (a1 := turned _ _ _ _ _) in *. destruct (can_send a1).
  - exists (set_acks [] a1), l. split_and!; [done | exact Hl | right; cbn; lia].
  - destruct Hc as (r3 & m' & Hr3 & Hm' & Ha' & _). destruct (reconnect_refines _ _ _ _ _ Ha2 Hr3) as (a' & Ha3 & _ & Hl3).
    cbn [mlog set_acks] in Hl3. exists a', (l ++ outcome_mlog (reconnect false (t_now2 t) (t_rpc t) (conn_of (set_acks [] a1))).1).
    unfold mgr_at. rewrite Hm'. cbn [mbind option_bind]. split_and!; [congruence | by rewrite Hl3, Hl, app_assoc |].
    destruct (decide ((reconnect false (t_now2 t) (t_rpc t) (conn_of (set_acks [] a1))).1 = o_connected)) as [Ho|Ho].
    + left. rewrite Ho. apply elem_of_app. right. by left.
    + right. destruct (reconnect_other _ _ _ _ _ Ha2 Hr3 Ho) as (a3 & -> & Hs3). cbn in Ha3. injection Ha3 as <-. cbn in Hs3. lia.
Qed.

(** ** A manager that is not connected *)

Lemma ready_up s x : has_bits (Z.lor PC_PYTH_RPC_CONNECTED s) x = true -> has_bits PC_PYTH_RPC_CONNECTED x = true.
Proof.
  unfold has_bits. rewrite !Z.eqb_eq. intros H. apply Z.bits_inj_iff'. intros i Hi.
  apply (f_equal (fun z => Z.testbit z i)) in H. revert H. rewrite !Z.land_spec, Z.lor_spec.
  by destruct (Z.testbit (astatus_ x) i), (Z.testbit PC_PYTH_RPC_CONNECTED i), (Z.testbit s i).
Qed.
Lemma not_ready r x : has_bits PC_PYTH_RPC_CONNECTED x = false -> get_is_ready r x = false.
Proof.
  intros H. apply not_true_iff_false. intros Hr. apply not_true_iff_false in H. apply H.
  destruct r; [eapply ready_up, Hr|]. cbn [get_is_ready] in Hr. rewrite <- Z.lor_assoc in Hr. eapply ready_up, Hr.
Qed.
Lemma poll_submit_down x : has_bits PC_PYTH_RPC_CONNECTED x = false -> poll_submit x = x.
Proof.
  intros H. unfold poll_submit. generalize (plist_ x). intros l. induction l as [|r l IH]; [done|]. cbn [foldl].
  unfold poll_one at 2. by rewrite not_ready.
Qed.

(** Not connected, and nothing left to send. *)
Definition down (a : mgr) : Prop := has_status PC_PYTH_RPC_CONNECTED a = false /\ sent_ (accs a) = [].
Lemma down_accs x a : head x = head (accs a) -> sent_ x = sent_ (accs a) -> down a -> down (set_accs x a).
Proof. intros Hh Hs [H1 H2]. split; [exact (eq_trans (head_up _ _ Hh) H1) | exact (eq_trans Hs H2)]. Qed.
Lemma sent_get_sched k x : sent_ (get_sched k x) = sent_ x.
Proof.
  unfold get_sched, Accounts.submit. destruct (acct_ <$> _) as [[m|p|y]|]; try done. destruct (isched_ y); [done|].
  destruct (amap_ (upd_node _ _ x) !! k) as [[[m'|p'|y'] b v e]|]; cbn; try done. by destruct (sched_submit y').
Qed.

Definition not_text (ev : sock_event) : Prop := match ev with s_text _ => False | _ => True end.
Lemma on_events_down evs (w w' : rworld) a :
  Forall not_text evs -> on_events evs w = Some w' -> app_ w = Some a -> down a ->
  exists a', w' = set_app (Some a') w /\ down a'.
Proof.
  intros Hn. revert w a. induction Hn as [|ev evs Hev _ IH]; intros w a H Ha Hd; cbn [Manager.on_events] in H.
  - injection H as <-. exists a. split; [destruct w; cbn in *; by rewrite Ha | done].
  - destruct (on_event ev w) as [w1|] eqn:E; [|done]. cbn [mbind option_bind] in H.
    assert (exists a1, w1 = set_app (Some a1) w /\ down a1) as (a1 & -> & Hd1).
    { destruct ev as [txt| | | |u ok|u|k|]; cbn [Manager.on_event] in E; [done|..];
        destruct (with_mgr_some _ _ _ _ Ha E) as (a1 & E1 & ->); exists a1; (split; [done|]);
        try (injection E1 as <-; exact Hd);
        try (unfold upd_users in E1; match type of E1 with context [?f (users_ a)] => destruct (f (users_ a)); [|done] end; injection E1 as <-; exact Hd).
      injection E1 as <-. apply down_accs; [apply head_get_sched | apply sent_get_sched | done]. }
    destruct (IH _ a1 H eq_refl Hd1) as (a' & -> & Hd'). exists a'. split; [by destruct w | done].
Qed.
Lemma down_turned do_tx t us s a : down a -> down (turned do_tx t us s a).
Proof.
  intros [H1 H2]. unfold turned, reconnect_tx, poll_schedule. destruct (Schedule.poll_schedule _ _) as [l s'].
  assert (has_bits PC_PYTH_RPC_CONNECTED (poll_submit (accs a)) = false) as H3 by (by rewrite poll_submit_down).
  destruct (_ && _); [destruct (tx_reconnect _ _ _) as [tc evs]|]; (split; [exact H3 | done]).
Qed.
Lemma send_when_recv_down p (w w' : rworld) a :
  app_ w = Some a -> has_status PC_PYTH_RPC_CONNECTED a = false -> send_when_recv ed25519_sign clock random host p w = Some w' -> w' = w.
Proof.
  unfold send_when_recv. intros Ha Hu H. destruct (heap w !! p); [|done]. cbn [mbind option_bind] in H. rewrite Ha in H.
  cbn [mbind option_bind] in H. rewrite Hu, andb_false_r in H. by injection H.
Qed.
Lemma slot_request_down (w w' : rworld) a :
  app_ w = Some a -> has_status PC_PYTH_RPC_CONNECTED a = false -> slot_request ed25519_sign clock random host cfg w = Some w' -> w' = w.
Proof.
  unfold slot_request. intros Ha Hu H. rewrite Ha in H. cbn [mbind option_bind] in H. destruct (_ <? _); [|by injection H].
  destruct (send_when_recv _ _ _ _ _ w) as [w1|] eqn:E; [|done]. cbn [mbind option_bind] in H.
  apply (send_when_recv_down _ _ _ _ Ha Hu) in E as ->. destruct (do_ws cfg); [by injection H|].
  exact (send_when_recv_down _ _ _ _ Ha Hu H).
Qed.
Lemma poll_rpc_down do_tx t (w w' : rworld) a :
  app_ w = Some a -> down a -> Forall not_text (t_events t) -> poll_rpc do_tx t w = Some w' ->
  log w' = log w /\ exists a', app_ w' = Some a' /\ down a'.
Proof.
  intros Ha Hd Hn H. pose proof H as H0. destruct (poll_rpc_app _ _ _ _ H) as (w1 & a1 & us & s & He & Ha1 & Et & Ha').
  destruct (on_events_down _ _ _ _ Hn He Ha Hd) as (a1' & -> & Hd1). cbn in Ha1. injection Ha1 as ->.
  split; [|exists (turned do_tx t us s a1); split; [done | by apply down_turned]].
  clear Ha'. unfold Manager.poll_rpc in H. rewrite He in H. cbn [mbind option_bind] in H.
  unfold submit_ready in H. cbn [app_ set_app mbind option_bind] in H. destruct Hd1 as [Hu Hs].
  rewrite (poll_submit_down _ Hu) in H. cbn [mbind option_bind] in H. rewrite Hs in H. cbn [ask_all mbind option_bind] in H.
  unfold with_mgr at 2 in H. cbn [app_ set_app mbind option_bind] in H. unfold poll_users in H. cbn [users_ set_accs] in H.
  rewrite Et in H. cbn [mbind option_bind] in H.
  destruct (slot_request _ _ _ _ _ _) as [w3|] eqn:Es; [|done]. cbn [mbind option_bind] in H.
  eapply slot_request_down in Es; [|reflexivity | exact Hu]. subst w3.
  unfold with_mgr in H. unbind H. by injection H as <-.
Qed.

(** (C7) While it is not connected, and no text comes, a manager sends nothing: no
    request, no transaction, no batch; or else the turn connects it. *)
Theorem silent_when_down g t (w w' : pworld) m a :
  mgrs w !! g = Some m -> app_ (rpc_ m) = Some a -> down a -> Forall not_text (t_events t) -> poll g t w = Some w' ->
  exists m' a', mgrs w' !! g = Some m' /\ app_ (rpc_ m') = Some a'
    /\ (has_status PC_PYTH_RPC_CONNECTED a' = true
        \/ log (rpc_ m') = log (rpc_ m) /\ Publish.tx_out m' = Publish.tx_out m /\ batches w' = batches w).
Proof.
  intros Hm Ha Hd Hn H. destruct (poll_parts _ _ _ _ H) as (m0 & r1 & a1 & m2 & Hm0 & Hr & Ha1 & Ha2 & Hl2 & Ht2 & Hc).
  rewrite Hm in Hm0. injection Hm0 as <-.
  destruct (poll_rpc_down _ _ _ _ _ Ha Hd Hn Hr) as (Hl1 & a1' & Ha1' & [Hd1 _]). assert (a1' = a1) as -> by congruence.
  unfold can_send in Hc. rewrite Hd1 in Hc. cbn [andb] in Hc. destruct Hc as (r3 & m' & Hr3 & Hm' & Ha' & Hl' & Ht' & Hb').
  destruct (reconnect_refines _ _ _ _ _ Ha2 Hr3) as (a' & Ha3 & Hcn & _). exists m', a'. split; [done|]. split; [congruence|].
  destruct (decide ((reconnect false (t_now2 t) (t_rpc t) (conn_of (set_acks [] a1))).1 = o_connected)) as [Ho|Ho].
  - left. apply (f_equal has_conn_) in Hcn. cbn [has_conn_ conn_of] in Hcn. rewrite Hcn. revert Ho. unfold reconnect.
    destruct (get_is_wait _); [done|]. destruct (negb _); [done|]. by destruct (_ <? _).
  - right. destruct (reconnect_other _ _ _ _ _ Ha2 Hr3 Ho) as (a3 & -> & _). cbn in Hl'. split_and!; congruence.
Qed.

(** ** A new connection *)

(** The requests that wait, with their ids. *)
Definition waiting_requests : list (Z * ptr) :=
  (1, addr o_slot) :: match program_key cfg with Some _ => if do_ws cfg then [(2, addr o_prog)] else [] | None => [] end.
Lemma subscribe_client (w w' : rworld) :
  RpcClient.reuse_ (clt w) = [] -> RpcClient.id_ (clt w) = 1 -> RpcClient.rv_ (clt w) = [(1, addr o_slot)] ->
  subscribe_program ed25519_sign clock random host cfg w = Some w' -> RpcClient.rv_ (clt w') = waiting_requests.
Proof.
  unfold subscribe_program, waiting_requests. intros H1 H2 H3 H. destruct (program_key cfg) as [gk|].
  - destruct (do_ws cfg).
    + destruct (upd _ _ w) as [w1|] eqn:E; [|done]. cbn [mbind option_bind] in H. apply RpcFrame.send_client in H.
      unfold upd in E. destruct (_ !! _); [|done]. injection E as <-. cbn [clt] in H. unfold RpcClient.get_id in H.
      rewrite H1, H2 in H. rewrite H. cbn. by rewrite H3.
    + unfold upd in H. destruct (_ !! _); [|done]. by injection H as <-.
  - unfold with_mgr in H. unbind H. by injection H as <-.
Qed.

(** (C6) On a new connection the manager starts afresh: slot 0, only its slot request
    and its subscription waiting for answers, and every account it knew, or else
    its mapping account, to be asked for again and counted. *)
Theorem fresh_connection ts e (w w' : rworld) a D δ :
  app_ w = Some a -> Discovery.inv D δ (accs a) -> reconnect_rpc ts e w = Some w' ->
  (reconnect false ts e (conn_of a)).1 = o_connected ->
  exists a', app_ w' = Some a' /\ aslot_ (accs a') = 0 /\ slot_cnt_ a' = 0
    /\ RpcClient.rv_ (clt w') = waiting_requests
    /\ num_sub_ (accs a') = Z.of_nat (size (dom (amap_ (accs a'))))
    /\ dom (amap_ (accs a)) ⊆ dom (amap_ (accs a'))
    /\ forall k, k ∈ dom (amap_ (accs a')) -> r_acc k ∈ plist_ (accs a').
Proof.
  intros Ha Hi H Ho. unfold Manager.reconnect_rpc in H. rewrite Ha in H. cbn [mbind option_bind] in H. revert Ho H.
  unfold reconnect. change (link (conn_of a)) with (link_ a). set (c := if get_is_wait (link_ a) then _ else _).
  destruct (get_is_wait c); [done|]. destruct (negb (get_is_err c)); [intros _|by destruct (_ <? _)].
  unfold on_connected. intros H. destruct (with_mgr _ _) as [w1|] eqn:E1; [|done]. cbn [mbind option_bind] in H.
  eapply with_mgr_some in E1 as (a1 & [= <-] & Hw1); [|reflexivity]. subst w1.
  destruct (RpcClient.send _ _ _ _ _ _) as [w2|] eqn:E2; [|done]. cbn [mbind option_bind] in H.
  pose proof (RpcFrame.app_send _ _ _ _ _ _ _ E2) as Ha2. apply RpcFrame.send_client in E2. cbn in E2. cbn [app_ set_app] in Ha2.
  destruct (subscribe_program _ _ _ _ _ w2) as [w3|] eqn:E3; [|done]. cbn [mbind option_bind] in H.
  destruct (subscribe_app _ _ _ Ha2 E3) as (a3 & Ha3 & _ & _ & _ & Hcnt & _ & Haccs).
  apply subscribe_client in E3; [|by rewrite E2..].
  destruct (with_mgr_some _ _ _ _ Ha3 H) as (a4 & [= <-] & ->). eexists. split; [reflexivity|].
  cbn [slot_cnt_ add_mlog upd_accs set_accs accs clt set_app].
  assert (Discovery.inv D δ (accs a3)) as Hi3.
  { destruct Haccs as [->|[er ->]]; cbn; [exact Hi | by apply Discovery.inv_merr]. }
  destruct (restart_head (mapping_key cfg) (accs a3)) as (_ & Hs & _).
  destruct (Discovery.inv_restart zstd_decompress compress_bound _ _ (mapping_key cfg) _ Hi3) as (Hr & _ & _ & _ & Hd & Hp).
  split_and!; [exact Hs | by rewrite Hcnt | exact E3 | | | exact Hp].
  - rewrite (Discovery.i_count _ _ _ Hr), size_empty. lia.
  - assert (amap_ (accs a3) = amap_ (accs a)) as <- by (by destruct Haccs as [->|[er ->]]). exact Hd.
Qed.

(** ** Slots *)

Lemma get_uint_node j i n : JsonParse.node_repr j (JsonWtr.j_uint n) i -> in_u 64 n -> JTree.get_uint j i = Some n.
Proof.
  intros Hr Hn. unfold JTree.get_uint. rewrite (JsonParse.get_str_node _ _ _ _ Hr eq_refl). cbn. f_equal. by apply Text.uint_back.
Qed.

(** What the callback for a slot logs. *)
Definition slot_request_of (r : rpc_request (key_cache := key_cache)) (cmt slot now : Z) : rpc_request :=
  RpcClient.set_recv_time now (RpcClient.set_body (RpcClient.get_slot cmt slot) r).
Definition slot_log (r : rpc_request (key_cache := key_cache)) (cmt slot now : Z) : list RpcClient.event :=
  [RpcClient.ev_response (addr o_slot); RpcClient.ev_call (addr o_slot) t_slot (slot_request_of r cmt slot now)].
Definition slot_heard (a : mgr) : list mgr_event :=
  (if do_cap cfg then [me_flush] else []) ++ (if has_status PC_PYTH_RPC_CONNECTED a then [me_slot_publish] else []).

Lemma slot_response jt tok slot cmt0 cmt (w w' : rworld) r a :
  app_ w = Some a -> heap w !! addr o_slot = Some r -> body_ r = RpcClient.get_slot cmt cmt0 -> cb_ r = Some (addr o_mgr) ->
  JTree.find_val jt 1 (bs "error") = Some 0 -> JTree.find_val jt 1 (bs "result") = Some tok -> JTree.get_uint jt tok = Some slot ->
  RpcClient.response ed25519_sign (react zstd_decompress compress_bound cfg) casts clock random host jt (addr o_slot) w = Some w' ->
  let r' := slot_request_of r cmt slot (clock (ticks w)) in
  exists w1, app_ w1 = Some (on_slot cfg r' a).1 /\ log w1 = log w ++ slot_log r cmt slot (clock (ticks w))
    /\ heap w1 = <[addr o_slot := r']> (heap w) /\ clt w1 = clt w
    /\ foldl (RpcClient.perform ed25519_sign clock random host) (Some w1) (on_slot cfg r' a).2 = Some w'.
Proof.
  intros Ha Hr Hb Hcb He Hres Hslot H r'. unfold RpcClient.response in H. rewrite Hr in H. cbn [mbind option_bind] in H.
  rewrite Hb in H. unfold RpcClient.response_slot, RpcClient.on_error in H. rewrite He in H. cbn [mbind option_bind Z.eqb] in H.
  rewrite Hres in H. cbn [mbind option_bind] in H. rewrite Hslot in H. cbn [mbind option_bind] in H.
  unfold upd in H at 1. cbn [heap RpcClient.add_log] in H. rewrite Hr in H. cbn [mbind option_bind] in H.
  unfold RpcClient.on_response, RpcClient.get_now, upd in H. cbn [heap ticks] in H. rewrite lookup_insert_eq in H.
  cbn [mbind option_bind heap] in H. rewrite lookup_insert_eq in H. cbn [mbind option_bind] in H.
  change (cb_ (RpcClient.set_recv_time _ _)) with (cb_ r) in H. rewrite Hcb in H.
  assert (casts (addr o_mgr) t_slot = true) as Hc by (unfold casts; by rewrite obj_at_addr). rewrite Hc in H.
  unfold react in H. cbn [app_ RpcClient.add_log] in H. rewrite Ha, obj_at_addr in H.
  fold r' in H. change (RpcClient.set_recv_time _ _) with r' in H. destruct (on_slot cfg r' a) as [a' acts].
  eexists. split; [|split; [|split; [|split; [|exact H]]]]; cbn [app_ log heap clt set_app RpcClient.add_log]; try done.
  - by rewrite <- app_assoc.
  - by rewrite insert_insert_eq.
Qed.
Context (visit_perm : forall l, visit l ≡ₚ l).

(** (C5) The answer to the manager's slot request: a slot no higher than the current
    one changes nothing; a higher one becomes the manager's slot, is counted, and
    its subscriber hears of it while connected; and with every third one the next
    block hash is asked for. *)
Theorem slot_followed kvs id slot cmt cmt0 (w w' : rworld) r rh sl h fee a :
  let v := JsonWtr.j_obj kvs in
  JsonParse.clean v -> 1 + 2 * Z.of_nat (length (JsonWtr.text v)) < 2 ^ 24 -> JTree.null_node_ok (RpcClient.jp_ (clt w)) ->
  JsonParse.lookup_member (bs "id") kvs = Some (JsonWtr.j_uint id) -> in_u 64 id ->
  JsonParse.lookup_member (bs "error") kvs = None ->
  JsonParse.lookup_member (bs "result") kvs = Some (JsonWtr.j_uint slot) -> in_u 64 slot ->
  app_ w = Some a -> heap w !! addr o_slot = Some r -> body_ r = RpcClient.get_slot cmt cmt0 -> cb_ r = Some (addr o_mgr) ->
  err_ r = None -> RpcClient.waiting id (clt w) = [addr o_slot] ->
  heap w !! addr o_hash = Some rh -> body_ rh = RpcClient.get_recent_block_hash sl h fee ->
  parse_response ed25519_sign clock random host visit zstd_decompress compress_bound cfg (JsonWtr.text v) w = Some w' ->
  exists a', app_ w' = Some a'
    /\ if slot <=? aslot_ (accs a) then a' = a /\ log w' = log w ++ slot_log r cmt slot (clock (ticks w))
       else aslot_ (accs a') = slot /\ slot_cnt_ a' = u64 (slot_cnt_ a + 1) /\ slot_ts_ a' = clock (ticks w)
         /\ mlog a' = mlog a ++ slot_heard a
         /\ if slot_cnt_ a mod PC_BLOCKHASH_TIMEOUT =? 0
            then exists id', log w' = log w ++ slot_log r cmt slot (clock (ticks w))
                   ++ [RpcClient.message random host true (RpcClient.call_text id' (body_ rh)) w]
            else log w' = log w ++ slot_log r cmt slot (clock (ticks w)).
Proof.
  intros v Hc Hlen Hnull Hid Hidr Herr Hres Hslot Ha Hr Hb Hcb Hnone Hw Hrh Hbh H.
  destruct (JsonParse.parse_text_repr (RpcClient.jp_ (clt w)) v) as (jt & Ep & _ & _ & Hrep); [done | done | done | lia | done|].
  assert (JsonParse.node_repr jt v 1) as Hroot.
  { exists 2, (JsonParse.len jt). split_and!; [lia | lia | exact Hrep]. }
  destruct (JsonParse.find_found jt kvs 1 (bs "id") Hroot) as (it & Ei & Hi). rewrite Hid in Hi. destruct Hi as [Hi0 Hi].
  destruct (JsonParse.find_found jt kvs 1 (bs "error") Hroot) as (et & Ee & He). rewrite Herr in He. cbn in He. subst et.
  destruct (JsonParse.find_found jt kvs 1 (bs "result") Hroot) as (rt & Er & Hrt). rewrite Hres in Hrt. destruct Hrt as [_ Hrt].
  unfold parse_response, RpcClient.parse_response in H. rewrite Ep in H. cbn [mbind option_bind] in H.
  rewrite Ei in H. cbn [mbind option_bind] in H. rewrite (proj2 (Z.eqb_neq _ _) Hi0) in H. cbn [negb] in H.
  rewrite (get_uint_node _ _ _ Hi Hidr) in H. cbn [mbind option_bind] in H. unfold RpcClient.answer in H. cbn [clt set_clt] in H.
  change (RpcClient.waiting id (RpcClient.set_jp jt (clt w))) with (RpcClient.waiting id (clt w)) in H. rewrite Hw in H.
  assert (visit [addr o_slot] = [addr o_slot]) as Hv by (apply Permutation_singleton_r, visit_perm). rewrite Hv in H. cbn [RpcClient.respond_all] in H.
  set (w0 := set_clt (RpcClient.set_jp jt (clt w)) w) in H.
  destruct (RpcClient.response _ _ _ _ _ _ jt (addr o_slot) w0) as [w2|] eqn:E2; [|done]. cbn [mbind option_bind] in H. injection H as <-.
  destruct (slot_response jt rt slot cmt0 cmt w0 w2 r a Ha Hr Hb Hcb Ee Er (get_uint_node _ _ _ Hrt Hslot) E2)
    as (w1 & Ha1 & Hl1 & Hh1 & _ & Hp). change (ticks w0) with (ticks w) in *. set (r' := slot_request_of r cmt slot (clock (ticks w))) in *.
  cbn [app_ set_clt log]. assert (app_ w2 = app_ w1) as Hw2.
  { by apply RpcFrame.app_perform in Hp. }
  rewrite Hw2, Ha1. eexists. split; [reflexivity|].
  assert (err_ r' = None) as Hn' by done. assert (body_ r' = RpcClient.get_slot cmt slot) as Hb' by done.
  unfold on_slot in *. rewrite Hn', Hb' in *. destruct (Z.leb_spec slot (aslot_ (accs a))).
  { cbn in Hp. injection Hp as ->. done. }
  cbn [fst snd] in *. unfold slot_heard.
  assert (forall x : mgr, has_status PC_PYTH_RPC_CONNECTED (if do_cap cfg then add_mlog [me_flush] x else x) = has_status PC_PYTH_RPC_CONNECTED x)
    as Hst by (by destruct (do_cap cfg)).
  rewrite Hst. change (has_status PC_PYTH_RPC_CONNECTED (set_slot_ts _ _ _)) with (has_status PC_PYTH_RPC_CONNECTED a).
  split_and!; try (by destruct (do_cap cfg), (has_status PC_PYTH_RPC_CONNECTED a)).
  - destruct (do_cap cfg), (has_status PC_PYTH_RPC_CONNECTED a); cbn; by rewrite <- ?app_assoc, ?app_nil_r.
  - destruct (_ =? 0); [|injection Hp as <-; exact Hl1]. cbn [foldl RpcClient.perform mbind option_bind] in Hp.
    assert (heap w1 !! addr o_hash = Some rh) as Hrh1.
    { rewrite Hh1, lookup_insert_ne; [exact Hrh | intros E; apply (inj encode) in E; discriminate E]. }
    destruct (RpcClient.send_queues _ _ _ _ _ _ _ _ Hrh1 ltac:(by rewrite Hbh) Hp) as (rh' & _ & _ & Hl2).
    exists (rid_ rh'). rewrite Hl2, Hl1, <- app_assoc. unfold RpcClient.get_is_http. by rewrite Hbh.
Qed.
End spec.

(** ** Witnesses *)

Definition test_cfg : config := mk_config (Some (replicate 32 5)) (Some (replicate 32 6)) None true false RpcClient.e_confirmed [].
Definition test_zstd (_ : bytes) (_ : Z) : Z + bytes := inl 0.
Definition test_bound (n : Z) : Z := n.
Definition mgr_req (b : rpc_body (key_cache := unit)) : rpc_request :=
  RpcClient.set_sub (Some (addr o_mgr)) (RpcClient.new_rpc_request b).
Definition mgr_heap : gmap ptr (rpc_request (key_cache := unit)) :=
  {[ addr o_slot := mgr_req (RpcClient.get_slot 1 0);
     addr o_hash := mgr_req (RpcClient.get_recent_block_hash 0 KeyPair.hash_zero 0);
     addr o_prog := mgr_req (RpcClient.program_subscribe RpcClient.new_account_update KeyPair.hash_zero);
     addr o_accts := mgr_req (RpcClient.get_program_accounts RpcClient.new_account_update KeyPair.hash_zero 0) ]}.
(** A manager whose connections are under way. *)
Definition start_mgr : mgr :=
  set_conn true 0 PC_NSECS_IN_SEC
    (set_link (mk_rpc_conns (mk_tcp_connect true 0 false) (Some (mk_ws_link (mk_tcp_connect true 0 false) false)))
       (new_mgr AttrDict.new_attr_id_set true)).
Definition start_world : world (key_cache := unit) (app_t := option mgr) :=
  mk_world (RpcClient.mk_rpc_client [] [] (HashMap.new_hash_map RpcClient.sub_hsize) 0 JTree.new_jtree true) mgr_heap [] 0 0 (Some start_mgr).
(** Both connections come up; both are refused. *)
Definition up_env : rpc_env :=
  mk_rpc_env (mk_tcp_env (sel_ready false) (in_progress 0)) (mk_tcp_env (sel_ready false) (in_progress 0)) (p_status 101).
Definition down_env : rpc_env :=
  mk_rpc_env (mk_tcp_env sel_fail refused) (mk_tcp_env sel_fail refused) p_none.
Definition tx_env : tcp_env := mk_tcp_env (sel_none 0) (in_progress 0).

Abbreviation trpc f := (f RpcClient.no_sign RpcClient.test_clock RpcClient.test_random RpcClient.test_host) (only parsing).
Abbreviation treconnect := (trpc (@reconnect_rpc unit) test_cfg).
Abbreviation tparse := (trpc (@parse_response unit) id test_zstd test_bound test_cfg).
Abbreviation tpoll_rpc := (trpc (@poll_rpc unit) id test_zstd test_bound test_cfg).
Abbreviation tpoll :=
  (@poll unit RpcClient.no_sign tt RpcClient.test_clock RpcClient.test_random RpcClient.test_host [] id test_zstd test_bound test_cfg).

Definition up_world := default start_world (treconnect 1 up_env start_world).
Lemma up_world_eq : treconnect 1 up_env start_world = Some up_world.
Proof. apply RpcClient.some_default. vm_compute. reflexivity. Qed.

Lemma reconnect_refines_witness :
  exists a', app_ up_world = Some a' /\ conn_of a' = (reconnect false 1 up_env (conn_of start_mgr)).2
    /\ mlog a' = [me_connect].
Proof.
  destruct (reconnect_refines RpcClient.no_sign RpcClient.test_clock RpcClient.test_random RpcClient.test_host test_cfg
    1 up_env start_world up_world start_mgr eq_refl up_world_eq) as (a' & H1 & H2 & H3).
  exists a'. split; [exact H1|]. split; [exact H2|]. rewrite H3. vm_compute. reflexivity.
Defined.

Lemma fresh_connection_witness :
  exists a', app_ up_world = Some a' /\ aslot_ (accs a') = 0
    /\ RpcClient.rv_ (clt up_world) = [(1, addr o_slot); (2, addr o_prog)]
    /\ forall k, k ∈ dom (amap_ (accs a')) -> r_acc k ∈ plist_ (accs a').
Proof.
  destruct (fresh_connection RpcClient.no_sign RpcClient.test_clock RpcClient.test_random RpcClient.test_host test_zstd test_bound
    test_cfg 1 up_env start_world up_world start_mgr ∅ 0 eq_refl
    (Discovery.new_inv AttrDict.new_attr_id_set) up_world_eq ltac:(vm_compute; reflexivity)) as (a' & H1 & H2 & _ & H3 & _ & _ & H4).
  exists a'. split_and!; [exact H1 | exact H2 | exact H3 | exact H4].
Defined.

(** The node answers the slot request. *)
Definition up_mgr : mgr := default start_mgr (app_ up_world).
Definition slot_answer : list (bytes * JsonWtr.json) :=
  [(bs "jsonrpc", JsonWtr.j_str (bs "2.0")); (bs "result", JsonWtr.j_uint 99); (bs "id", JsonWtr.j_uint 1)].
Definition slot_world := default start_world (tparse (JsonWtr.text (JsonWtr.j_obj slot_answer)) up_world).
Lemma slot_world_eq : tparse (JsonWtr.text (JsonWtr.j_obj slot_answer)) up_world = Some slot_world.
Proof. apply RpcClient.some_default. vm_compute. reflexivity. Qed.
Definition slot_req : rpc_request (key_cache := unit) :=
  default (mgr_req (RpcClient.get_slot 0 0)) (heap up_world !! addr o_slot).

Lemma slot_answer_clean : JsonParse.clean (JsonWtr.j_obj slot_answer).
Proof. vm_compute. split_and!; first [done | repeat constructor; done]. Qed.
Lemma slot_followed_witness :
  exists a', app_ slot_world = Some a' /\ aslot_ (accs a') = 99 /\ slot_cnt_ a' = 1 /\ mlog a' = [me_connect; me_slot_publish].
Proof.
  assert (app_ up_world = Some up_mgr) as Ha by (apply RpcClient.some_default; vm_compute; reflexivity).
  destruct (slot_followed RpcClient.no_sign RpcClient.test_clock RpcClient.test_random RpcClient.test_host id test_zstd test_bound
    test_cfg (fun l => Permutation_refl l) slot_answer 1 99 1 0 up_world slot_world slot_req
    (mgr_req (RpcClient.get_recent_block_hash 0 KeyPair.hash_zero 0)) 0 KeyPair.hash_zero 0 up_mgr) as (a' & H1 & H2).
  - exact slot_answer_clean.
  - vm_compute. reflexivity.
  - vm_compute. reflexivity.
  - reflexivity.
  - by_decide.
  - reflexivity.
  - reflexivity.
  - by_decide.
  - exact Ha.
  - vm_compute. reflexivity.
  - vm_compute. reflexivity.
  - vm_compute. reflexivity.
  - vm_compute. reflexivity.
  - vm_compute. reflexivity.
  - vm_compute. reflexivity.
  - reflexivity.
  - exact slot_world_eq.
  - exists a'. split; [exact H1|]. assert (99 <=? aslot_ (accs up_mgr) = false) as Hle by (vm_compute; reflexivity).
    rewrite Hle in H2. destruct H2 as (H2 & H3 & _ & H4 & _). split_and!; [exact H2 | | ].
    + rewrite H3. vm_compute. reflexivity.
    + rewrite H4. vm_compute. reflexivity.
Defined.

(** Once the slot request was answered with an error, every later answer is
    taken for one. *)
Definition slot_error : bytes := JsonWtr.text (JsonWtr.j_obj
  [(bs "id", JsonWtr.j_uint 1); (bs "error", JsonWtr.j_obj [(bs "code", JsonWtr.j_int (-32005)); (bs "message", JsonWtr.j_str (bs "behind"))])]).
Example error_sticks :
  (w ← tparse slot_error up_world;
   w ← RpcClient.send RpcClient.no_sign RpcClient.test_clock RpcClient.test_random RpcClient.test_host (addr o_slot) w;
   w ← tparse (JsonWtr.text (JsonWtr.j_obj slot_answer)) w;
   a ← app_ w; Some (aslot_ (accs a), bool_decide (merr_ (accs a) = Some (bs "failed to get slot [behind]")))) = Some (0, true).
Proof. vm_compute. reflexivity. Qed.

(** Clients connect and leave while the connection is down. *)
Definition clients_turn : turn :=
  mk_turn [s_accept 1 true; s_accept 2 true; s_accept 3 false; s_http_fail; s_del 1] 2 2 3 down_env tx_env.
Definition clients_world := default start_world (tpoll_rpc true clients_turn start_world).
Lemma clients_world_eq : tpoll_rpc true clients_turn start_world = Some clients_world.
Proof. apply RpcClient.some_default. vm_compute. reflexivity. Qed.
Lemma users_turn_witness :
  exists a', app_ clients_world = Some a' /\ users_ok (users_ a') [2%positive] [] /\ deleted (mlog a') = [1%positive].
Proof.
  pose proof (users_turn RpcClient.no_sign RpcClient.test_clock RpcClient.test_random RpcClient.test_host id test_zstd test_bound
    test_cfg true clients_turn start_world clients_world start_mgr [] eq_refl no_users_ok) as H.
  destruct H as (a' & H1 & H2 & _ & H3).
  - cbn. split_and!; try done; by_decide.
  - exact clients_world_eq.
  - exists a'. split_and!; [exact H1 | exact H2 | exact H3].
Defined.

Definition pub_of (w : world (key_cache := unit) (app_t := option mgr)) : pub_world :=
  Publish.mk_pub_world {[ 1%positive := Publish.mk_manager w [] 0 true false 0 8 20000 0 [] None None [] 0 ]} ∅ [] [].
Definition start_pub := pub_of start_world.
(** A turn without news; one that brings the node's answer. *)
Definition quiet_turn : turn := mk_turn [s_http_fail] 2 2 3 down_env tx_env.
Definition slot_turn : turn := mk_turn [s_text (JsonWtr.text (JsonWtr.j_obj slot_answer))] 2 2 3 up_env tx_env.
Definition quiet_pub := default start_pub (tpoll 1%positive quiet_turn start_pub).
Lemma quiet_pub_eq : tpoll 1%positive quiet_turn start_pub = Some quiet_pub.
Proof. apply RpcClient.some_default. vm_compute. reflexivity. Qed.
Definition slot_pub := default start_pub (tpoll 1%positive slot_turn (pub_of up_world)).
Lemma slot_pub_eq : tpoll 1%positive slot_turn (pub_of up_world) = Some slot_pub.
Proof. apply RpcClient.some_default. vm_compute. reflexivity. Qed.

Lemma silent_when_down_witness :
  exists m' a', mgrs quiet_pub !! 1%positive = Some m' /\ app_ (rpc_ m') = Some a'
    /\ (has_status PC_PYTH_RPC_CONNECTED a' = true \/ log (rpc_ m') = [] /\ Publish.tx_out m' = [] /\ batches quiet_pub = []).
Proof.
  refine (silent_when_down RpcClient.no_sign tt RpcClient.test_clock RpcClient.test_random RpcClient.test_host [] id test_zstd test_bound
    test_cfg 1%positive quiet_turn start_pub quiet_pub (Publish.mk_manager start_world [] 0 true false 0 8 20000 0 [] None None [] 0)
    start_mgr eq_refl eq_refl (conj eq_refl eq_refl) _ quiet_pub_eq).
  repeat constructor.
Defined.

Lemma slots_rise_witness :
  exists a' l, mgr_at 1%positive slot_pub = Some a' /\ mlog a' = mlog up_mgr ++ l
    /\ (me_connect ∈ l \/ aslot_ (accs up_mgr) <= aslot_ (accs a')).
Proof.
  refine (slots_rise RpcClient.no_sign tt RpcClient.test_clock RpcClient.test_random RpcClient.test_host [] id test_zstd test_bound
    test_cfg 1%positive slot_turn (pub_of up_world) slot_pub up_mgr _ slot_pub_eq).
  vm_compute. reflexivity.
Defined.
